(** * [Al(H2O)6]3+ hydrolysis visualisation: a shallow embedding

    The development embeds the JavaScript modules of the repository
    (materials.js, atoms.js, bonds.js, labels.js, interaction.js, main.js,
    stages.js) and proves properties of them.

    Conventions of the embedding.
    - A JavaScript number is a real number ([R]): arithmetic is exact.
      Integers that the code only counts or compares (ids, hex colours,
      stage indices) are [nat] or [Z].
    - A three.js object is a node of a tree ([Object3D]); its identity is
      the [id] that three.js itself draws from a global counter at
      construction.  A JavaScript reference to an object is that id, and
      is dereferenced in the tree that currently holds the object.
    - A function that mutates or may throw is a computation in the monad
      [M S], state passing with exceptions that keep the state reached
      when they are thrown.
    - Operations of three.js, GSAP and the DOM the repository calls are
      written out after the libraries' documented behaviour. *)

From Stdlib Require Import Reals Lra Lia List String Ascii ZArith Bool.
From Stdlib Require Import DecimalString DecimalPos Permutation.
Import ListNotations.

Set Implicit Arguments.
Set Warnings "-register-all".

(* ================================================================= *)
(** ** JavaScript effects: state and exceptions *)

Module Js.

Inductive Error :=
| TypeError (msg : string).

Inductive Outcome (S A : Type) :=
| Ok (a : A) (s : S)
| Throw (e : Error) (s : S).

Arguments Ok {S A} a s.
Arguments Throw {S A} e s.

Definition M (S A : Type) : Type := S -> Outcome S A.

Definition ret {S A} (a : A) : M S A := fun s => Ok a s.

Definition bind {S A B} (c : M S A) (k : A -> M S B) : M S B :=
  fun s => match c s with
           | Ok a s' => k a s'
           | Throw e s' => Throw e s'
           end.

Definition get {S} : M S S := fun s => Ok s s.
Definition gets {S A} (f : S -> A) : M S A := fun s => Ok (f s) s.
Definition put {S} (s : S) : M S unit := fun _ => Ok tt s.
Definition modify {S} (f : S -> S) : M S unit := fun s => Ok tt (f s).
Definition throw {S A} (e : Error) : M S A := fun s => Throw e s.

(** The value a call returned, or [d] if it threw. *)
Definition value_or {S A} (d : A) (o : Outcome S A) : A :=
  match o with Ok a _ => a | Throw _ _ => d end.

(** The state a call leaves behind, whether it returned or threw. *)
Definition state_of {S A} (o : Outcome S A) : S :=
  match o with Ok _ s => s | Throw _ s => s end.

Definition returned {S A} (o : Outcome S A) : bool :=
  match o with Ok _ _ => true | Throw _ _ => false end.

Definition exec {S A} (c : M S A) (s : S) : S := state_of (c s).

(** A computation leaves an observation of the state as it is, whether
    it returns or throws. *)
Definition keeps {S A X} (obs : S -> X) (c : M S A) : Prop :=
  forall s, obs (state_of (c s)) = obs s.

(** What is observed of a call depends on the variable that [set] writes:
    among the states [reach] there is one in which another value of that
    variable, with nothing else changed, changes what is observed. *)
Definition depends_on {S V B} (reach : S -> Prop) (observed : S -> B)
    (set : V -> S -> S) : Prop :=
  exists (s : S) (v : V), reach s /\ observed (set v s) <> observed s.

(** The call [c] changes the variable that [get] reads, in one of the
    states [reach]. *)
Definition mutates {S V A} (reach : S -> Prop) (c : M S A) (get : S -> V)
  : Prop :=
  exists s : S, reach s /\ get (exec c s) <> get s.

(** [array.forEach(f)] and [for (const a of array)]. *)
Fixpoint forEach {S A} (f : A -> M S unit) (l : list A) : M S unit :=
  match l with
  | [] => ret tt
  | a :: l' => bind (f a) (fun _ => forEach f l')
  end.

(** A loop that threads a local value through its iterations. *)
Fixpoint foldM {S A B} (f : B -> A -> M S B) (b : B) (l : list A) : M S B :=
  match l with
  | [] => ret b
  | a :: l' => bind (f b a) (fun b' => foldM f b' l')
  end.

(** Run a computation over a component of a larger state. *)
Definition zoom {S T A} (proj : T -> S) (inj : S -> T -> T) (c : M S A) : M T A :=
  fun t => match c (proj t) with
           | Ok a s => Ok a (inj s t)
           | Throw e s => Throw e (inj s t)
           end.

(** [array[i] = f(array[i])]. *)
Fixpoint update_nth {A} (i : nat) (f : A -> A) (l : list A) : list A :=
  match l, i with
  | [], _ => []
  | a :: l', O => f a :: l'
  | a :: l', S i' => a :: update_nth i' f l'
  end.

(** A [Map] keyed by object identity: [has], [get] and [set]. *)
Definition Map_has {V} (k : nat) (m : list (nat * V)) : bool :=
  existsb (fun kv => Nat.eqb (fst kv) k) m.

Definition Map_get {V} (k : nat) (m : list (nat * V)) : option V :=
  option_map snd (find (fun kv => Nat.eqb (fst kv) k) m).

Fixpoint Map_set {V} (k : nat) (v : V) (m : list (nat * V)) : list (nat * V) :=
  match m with
  | [] => [(k, v)]
  | (k', v') :: m' =>
      if Nat.eqb k' k then (k, v) :: m' else (k', v') :: Map_set k v m'
  end.

(** [a || b] on strings: the empty string and [undefined] are falsy. *)
Definition or_string (a : option string) (b : string) : string :=
  match a with
  | Some EmptyString => b
  | Some s => s
  | None => b
  end.

(** [a || b] on numbers: zero is falsy. *)
Definition or_number (a b : R) : R :=
  if Req_dec_T a 0 then b else a.

(** Decimal rendering of an integer, as a template literal prints it. *)
Definition string_of_nat (n : nat) : string :=
  NilZero.string_of_uint (Nat.to_uint n).

Definition string_of_Z (n : Z) : string :=
  NilZero.string_of_int (Z.to_int n).

End Js.

Export Js.

Declare Scope js_scope.
Delimit Scope js_scope with js.
Notation "x <- c1 ;; c2" := (bind c1 (fun x => c2))
  (at level 61, c1 at next level, right associativity) : js_scope.
Notation "c1 ;; c2" := (bind c1 (fun _ => c2))
  (at level 61, right associativity) : js_scope.
Open Scope js_scope.
Open Scope string_scope.
Open Scope list_scope.

(* ================================================================= *)
(** ** three.js: Vector3 and MathUtils *)

Module Vector3.

Local Open Scope R_scope.

Record t := new { x : R; y : R; z : R }.

Definition zero : t := new 0 0 0.

(** Vectors are values here: [clone] and [copy] return their argument. *)
Definition clone (v : t) : t := v.
Definition copy (v : t) : t := v.

Definition multiplyScalar (v : t) (s : R) : t :=
  new (x v * s) (y v * s) (z v * s).

Definition divideScalar (v : t) (s : R) : t := multiplyScalar v (1 / s).

Definition add (a b : t) : t := new (x a + x b) (y a + y b) (z a + z b).
Definition sub (a b : t) : t := new (x a - x b) (y a - y b) (z a - z b).
Definition multiply (a b : t) : t := new (x a * x b) (y a * y b) (z a * z b).
Definition negate (v : t) : t := new (- x v) (- y v) (- z v).

Definition addScaledVector (v w : t) (s : R) : t :=
  new (x v + x w * s) (y v + y w * s) (z v + z w * s).

Definition dot (a b : t) : R := x a * x b + y a * y b + z a * z b.

Definition crossVectors (a b : t) : t :=
  new (y a * z b - z a * y b)
      (z a * x b - x a * z b)
      (x a * y b - y a * x b).

Definition lengthSq (v : t) : R := x v * x v + y v * y v + z v * z v.
Definition length (v : t) : R := sqrt (lengthSq v).

(** [normalize()] is [divideScalar(length() || 1)]. *)
Definition normalize (v : t) : t := divideScalar v (or_number (length v) 1).

Definition distanceTo (a b : t) : R := length (sub a b).

(** [angleTo]: the angle between two vectors, in radians. *)
Definition angleTo (a b : t) : R :=
  let denominator := sqrt (lengthSq a * lengthSq b) in
  if Req_dec_T denominator 0 then PI / 2
  else acos (Rmax (-1) (Rmin 1 (dot a b / denominator))).

(** Rotation by Euler angles in three.js's default order XYZ
    (the upper 3x3 block of [Matrix4.makeRotationFromEuler]). *)
Definition applyEuler (v e : t) : t :=
  let a := cos (x e) in let b := sin (x e) in
  let c := cos (y e) in let d := sin (y e) in
  let e' := cos (z e) in let f := sin (z e) in
  let ae := a * e' in let af := a * f in
  let be := b * e' in let bf := b * f in
  new ((c * e') * x v + (- c * f) * y v + d * z v)
      ((af + be * d) * x v + (ae - bf * d) * y v + (- b * c) * z v)
      ((bf - ae * d) * x v + (be + af * d) * y v + (a * c) * z v).

End Vector3.

Module MathUtils.
Local Open Scope R_scope.
Definition DEG2RAD : R := PI / 180.
Definition degToRad (degrees : R) : R := degrees * DEG2RAD.
End MathUtils.

(* ================================================================= *)
(** ** The DOM elements the code touches *)

Module Dom.

Record Element := mkElement {
  classList : list string;
  textContent : string;
}.

Definition has_class (tok : string) (e : Element) : bool :=
  existsb (String.eqb tok) (classList e).

(** [classList.add(tok)]: a token set, so a token already there is kept once. *)
Definition classList_add (tok : string) (e : Element) : Element :=
  if has_class tok e then e
  else mkElement (classList e ++ [tok]) (textContent e).

(** [classList.remove(tok)]. *)
Definition classList_remove (tok : string) (e : Element) : Element :=
  mkElement (filter (fun c => negb (String.eqb tok c)) (classList e))
            (textContent e).

Definition set_textContent (txt : string) (e : Element) : Element :=
  mkElement (classList e) txt.

End Dom.

(* ================================================================= *)
(** ** three.js identities *)

(** The two global counters of three.js an object or a material draws its
    [id] from.  Two references are the same object exactly when the ids
    are equal. *)
Module Ids.

Record t := mk { nextObjectId : nat; nextMaterialId : nat }.

Definition freshObjectId : M t nat :=
  fun s => Ok (nextObjectId s) (mk (S (nextObjectId s)) (nextMaterialId s)).

Definition freshMaterialId : M t nat :=
  fun s => Ok (nextMaterialId s) (mk (nextObjectId s) (S (nextMaterialId s))).

End Ids.

(* ================================================================= *)
(** ** materials.js *)

Module Materials.

Local Open Scope R_scope.

Inductive Params :=
| MeshStandardMaterial (color : Z) (metalness roughness : R)
                       (emissive : Z) (emissiveIntensity : R)
| LineDashedMaterial (color : Z) (dashSize gapSize linewidth : R)
| LineBasicMaterial (color : Z) (linewidth : R).

Record Material := mkMaterial { material_id : nat; params : Params }.

Module PALETTE.
Definition aluminum : Z := 0xc0c0c0.
Definition oxygen : Z := 0xe23c3c.
Definition hydrogen : Z := 0xffffff.
Definition water : Z := 0x4a90e2.
Definition bond_coord : Z := 0x88bbee.
Definition bond_covalent : Z := 0x999999.
Definition highlight : Z := 0xffcc00.
Definition background : Z := 0x0a0e17.
Definition glow : Z := 0xff6633.
End PALETTE.

(** The module's six materials, constructed in this order when the module
    is first evaluated: they take the material ids 0 to 5.  A
    MeshStandardMaterial built without [emissive] has black emissive of
    intensity 1. *)
Definition aluminumMaterial : Material :=
  mkMaterial 0 (MeshStandardMaterial PALETTE.aluminum 0.7 0.25 PALETTE.aluminum 0.05).

Definition oxygenMaterial : Material :=
  mkMaterial 1 (MeshStandardMaterial PALETTE.oxygen 0.1 0.4 0 1).

Definition hydrogenMaterial : Material :=
  mkMaterial 2 (MeshStandardMaterial PALETTE.hydrogen 0.0 0.6 0 1).

Definition coordinationBondMaterial : Material :=
  mkMaterial 3 (LineDashedMaterial PALETTE.bond_coord 0.12 0.08 1).

Definition covalentBondMaterial : Material :=
  mkMaterial 4 (LineBasicMaterial PALETTE.bond_covalent 1).

Definition highlightMaterial : Material :=
  mkMaterial 5 (MeshStandardMaterial PALETTE.highlight 0.3 0.3 PALETTE.highlight 0.35).

(** The material counter once materials.js has been evaluated. *)
Definition materials_loaded : nat := 6.

(** [new THREE.MeshStandardMaterial({...})] and friends. *)
Definition new_Material (p : Params) : M Ids.t Material :=
  i <- Ids.freshMaterialId ;; ret (mkMaterial i p).

(** [material.clone()]: the same parameters in a new material. *)
Definition clone (m : Material) : M Ids.t Material := new_Material (params m).

Definition createElectronDensityVariant (baseMat : Material) (intensity : R)
  : M Ids.t Material :=
  mat <- clone baseMat ;;
  ret (mkMaterial (material_id mat)
         match params mat with
         | MeshStandardMaterial c m r _ _ =>
             MeshStandardMaterial c m r PALETTE.glow intensity
         | p => p
         end).

End Materials.

(* ================================================================= *)
(** ** three.js: the scene graph *)

Module Object3D.

Import Materials.
Local Open Scope R_scope.

Inductive Geometry :=
| SphereGeometry (radius : R) (widthSegments heightSegments : nat)
| BufferGeometry (points : list Vector3.t).

Inductive LightKind := AmbientLight | DirectionalLight | PointLight.

(** What an object is: [isMesh], [isGroup], [isLine], ... hold of exactly
    one constructor.  A mesh and a line always carry a material. *)
Inductive Kind :=
| Mesh (geometry : Geometry) (material : Material)
| Group
| Line (geometry : Geometry) (material : Material)
| Scene
| Light (light : LightKind) (color : Z) (intensity : R)
| CSS2DObject (element : Dom.Element).

(** The [userData] objects of this program have at most these three keys. *)
Record UserData := mkUserData {
  element : option string;
  role : option string;
  charge : option string;
}.

Definition noUserData : UserData := mkUserData None None None.

Inductive t := mk {
  id : nat;
  kind : Kind;
  name : string;
  position : Vector3.t;
  rotation : Vector3.t;
  scale : Vector3.t;
  visible : bool;
  userData : UserData;
  children : list t;
}.

Definition isMesh (o : t) : bool :=
  match kind o with Mesh _ _ => true | _ => false end.
Definition isGroup (o : t) : bool :=
  match kind o with Group => true | _ => false end.
Definition isLine (o : t) : bool :=
  match kind o with Line _ _ => true | _ => false end.

(** [o.material], [undefined] on objects that have none. *)
Definition material (o : t) : option Material :=
  match kind o with
  | Mesh _ m | Line _ m => Some m
  | _ => None
  end.

(** *** Field assignments *)

Definition set_name (n : string) (o : t) : t :=
  mk (id o) (kind o) n (position o) (rotation o) (scale o) (visible o)
     (userData o) (children o).
Definition set_position (p : Vector3.t) (o : t) : t :=
  mk (id o) (kind o) (name o) p (rotation o) (scale o) (visible o)
     (userData o) (children o).
Definition set_rotation (r : Vector3.t) (o : t) : t :=
  mk (id o) (kind o) (name o) (position o) r (scale o) (visible o)
     (userData o) (children o).
Definition set_scale (sc : Vector3.t) (o : t) : t :=
  mk (id o) (kind o) (name o) (position o) (rotation o) sc (visible o)
     (userData o) (children o).
Definition set_visible (v : bool) (o : t) : t :=
  mk (id o) (kind o) (name o) (position o) (rotation o) (scale o) v
     (userData o) (children o).
Definition set_userData (u : UserData) (o : t) : t :=
  mk (id o) (kind o) (name o) (position o) (rotation o) (scale o) (visible o)
     u (children o).
Definition set_children (cs : list t) (o : t) : t :=
  mk (id o) (kind o) (name o) (position o) (rotation o) (scale o) (visible o)
     (userData o) cs.
(** [o.material = m]; on an object without a material slot the model
    leaves the object as it is. *)
Definition set_material (m : Material) (o : t) : t :=
  mk (id o)
     match kind o with
     | Mesh g _ => Mesh g m
     | Line g _ => Line g m
     | k => k
     end
     (name o) (position o) (rotation o) (scale o) (visible o)
     (userData o) (children o).

(** *** Construction *)

(** A new object sits at the origin, unrotated, at scale 1, visible, with
    an empty name, empty [userData] and no children. *)
Definition new (k : Kind) : M Ids.t t :=
  i <- Ids.freshObjectId ;;
  ret (mk i k "" Vector3.zero Vector3.zero (Vector3.new 1 1 1) true
          noUserData []).

(** [parent.add(child)] for a child that has no parent yet. *)
Definition add (child : t) (parent : t) : t :=
  set_children (children parent ++ [child]) parent.

(** *** Traversal and dereferencing *)

(** [o.traverse(callback)] visits [o], then its descendants, depth first. *)
Fixpoint traverse (o : t) : list t :=
  match o with
  | mk _ _ _ _ _ _ _ _ cs => o :: flat_map traverse cs
  end.

Definition ids (o : t) : list nat := map id (traverse o).

(** The first hit of [array.find(pred)]. *)
Definition find_child (pred : t -> bool) (o : t) : option t :=
  List.find pred (children o).

(** Dereference: the node of the tree [o] whose id is [i]. *)
Definition getObjectById (i : nat) (o : t) : option t :=
  List.find (fun n => Nat.eqb (id n) i) (traverse o).

(** Assignment through a reference: [f] applied to the node with id [i]. *)
Fixpoint update (i : nat) (f : t -> t) (o : t) : t :=
  match o with
  | mk oi k n p r sc v u cs =>
      let o' := mk oi k n p r sc v u (map (update i f) cs) in
      if Nat.eqb oi i then f o' else o'
  end.

(** [o.removeFromParent()] for the node with id [i] below the root. *)
Fixpoint remove (i : nat) (o : t) : t :=
  match o with
  | mk oi k n p r sc v u cs =>
      mk oi k n p r sc v u
         (flat_map (fun c => if Nat.eqb (id c) i then [] else [remove i c]) cs)
  end.

(** *** World positions and reparenting *)

(** The local matrix of [o] applied to a point of its frame:
    scale, then rotation, then translation. *)
Definition localToParent (o : t) (p : Vector3.t) : Vector3.t :=
  Vector3.add (position o)
    (Vector3.applyEuler (Vector3.multiply p (scale o)) (rotation o)).

Definition first_some {A} (l : list (option A)) : option A :=
  List.fold_right (fun a acc => match a with Some _ => a | None => acc end)
                  None l.

(** Position of node [i] in the frame of the parent of [o]: with [o] the
    root of the scene graph this is [getWorldPosition]. *)
Fixpoint getWorldPosition (i : nat) (o : t) : option Vector3.t :=
  match o with
  | mk oi _ _ p _ _ _ _ cs =>
      if Nat.eqb oi i then Some p
      else match first_some (map (getWorldPosition i) cs) with
           | Some q => Some (localToParent o q)
           | None => None
           end
  end.

(** [root.attach(o)] for the node [i] of the graph below [root]: the node
    moves to the end of the root's children and keeps its world position.
    The root is the scene, which the program never moves, so the world
    frame is the root's own.  (three.js also recomputes the node's
    rotation and scale; they are kept here, which is the same when the
    node's former ancestors are unrotated and unscaled.) *)
Definition attach (i : nat) (root : t) : t :=
  match getObjectById i root, getWorldPosition i root with
  | Some o, Some p => add (set_position p o) (remove i root)
  | _, _ => root
  end.

(** Where every object of a graph sits and whether it is shown: identity,
    name, position, rotation, scale, visibility and [userData] of the
    objects in traversal order.  Materials are left out. *)
Definition placement (o : t)
  : list (nat * string * Vector3.t * Vector3.t * Vector3.t * bool * UserData) :=
  map (fun n => (id n, name n, position n, rotation n, scale n, visible n,
                 userData n))
      (traverse o).

(** The shape of a graph: for every object in traversal order its
    identity, its name, whether it is a mesh or a group, and the identities
    and names of its children. *)
Definition skeleton (o : t)
  : list (nat * string * bool * bool * list (nat * string)) :=
  map (fun n => (id n, name n, isMesh n, isGroup n,
                 map (fun c => (id c, name c)) (children n)))
      (traverse o).

(** An assignment to an object that leaves its identity, name, kind of
    object and children alone. *)
Definition keeps_shape (f : t -> t) : Prop :=
  forall n, id (f n) = id n /\ children (f n) = children n
            /\ name (f n) = name n /\ isMesh (f n) = isMesh n
            /\ isGroup (f n) = isGroup n.

(** The object is not moved, rotated or scaled in the frame of its parent. *)
Definition untransformed (o : t) : Prop :=
  position o = Vector3.zero /\ rotation o = Vector3.zero
  /\ scale o = Vector3.new 1 1 1.

End Object3D.

(* ================================================================= *)
(** ** atoms.js *)

Module Atoms.

Import Materials.
Local Open Scope R_scope.

(** Physical constants, in Angstroms. *)
Definition R_AL_O : R := 1.90.
Definition R_O_H : R := 0.96.
Definition H_O_H_ANGLE : R := MathUtils.degToRad 104.5.

Definition SPHERE_SEGMENTS : nat := 32.

Module RADII.
Definition Al : R := 0.45.
Definition O : R := 0.30.
Definition H : R := 0.18.
End RADII.

Definition OCTA_DIRS : list Vector3.t :=
  [ Vector3.new 1 0 0;
    Vector3.new (-1) 0 0;
    Vector3.new 0 1 0;
    Vector3.new 0 (-1) 0;
    Vector3.new 0 0 1;
    Vector3.new 0 0 (-1) ].

Definition createAlCenter : M Ids.t Object3D.t :=
  let geo := Object3D.SphereGeometry RADII.Al SPHERE_SEGMENTS SPHERE_SEGMENTS in
  mesh <- Object3D.new (Object3D.Mesh geo aluminumMaterial) ;;
  let mesh := Object3D.set_name "Al" mesh in
  let mesh := Object3D.set_userData
                (Object3D.mkUserData (Some "Al")
                   (Some "Metal center (Lewis acid)") (Some "+3")) mesh in
  ret mesh.

(** The local frame [createWaterMolecule] builds around [direction]. *)
Definition zAxis_of (direction : Vector3.t) : Vector3.t :=
  Vector3.normalize (Vector3.clone direction).

Definition arbitrary_of (zAxis : Vector3.t) : Vector3.t :=
  let arbitrary := Vector3.new 0 1 0 in
  if Rgt_dec (Rabs (Vector3.dot zAxis arbitrary)) 0.99
  then Vector3.new 1 0 0 else arbitrary.

Definition xAxis_of (zAxis : Vector3.t) : Vector3.t :=
  Vector3.normalize (Vector3.crossVectors zAxis (arbitrary_of zAxis)).

(** The sum [hDir] is normalised from, for hydrogen number [i] (0 or 1). *)
Definition hRaw_of (zAxis xAxis : Vector3.t) (halfAngle : R) (i : nat) : Vector3.t :=
  Vector3.addScaledVector
    (Vector3.addScaledVector Vector3.zero zAxis (cos (PI - halfAngle)))
    (if Nat.eqb i 0 then xAxis else Vector3.negate (Vector3.clone xAxis))
    (sin (PI - halfAngle)).

(** The direction from the oxygen to hydrogen number [i]. *)
Definition hDir_of (zAxis xAxis : Vector3.t) (halfAngle : R) (i : nat) : Vector3.t :=
  Vector3.normalize (hRaw_of zAxis xAxis halfAngle i).

Definition createWaterMolecule (direction : Vector3.t) : M Ids.t Object3D.t :=
  group <- Object3D.new Object3D.Group ;;
  let group := Object3D.set_name "Water" group in
  (* Oxygen *)
  let oGeo := Object3D.SphereGeometry RADII.O SPHERE_SEGMENTS SPHERE_SEGMENTS in
  oMat <- Materials.clone oxygenMaterial ;;
  oMesh <- Object3D.new (Object3D.Mesh oGeo oMat) ;;
  let oMesh := Object3D.set_name "O" oMesh in
  let oMesh := Object3D.set_userData
                 (Object3D.mkUserData (Some "O")
                    (Some "Electron-pair donor (Lewis base)") (Some "δ−"))
                 oMesh in
  let oPos := Vector3.multiplyScalar (Vector3.clone direction) R_AL_O in
  let oMesh := Object3D.set_position (Vector3.copy oPos) oMesh in
  let group := Object3D.add oMesh group in
  (* Hydrogens *)
  let halfAngle := H_O_H_ANGLE / 2 in
  let zAxis := zAxis_of direction in
  let xAxis := xAxis_of zAxis in
  let yAxis := Vector3.normalize (Vector3.crossVectors xAxis zAxis) in
  group <- foldM (fun group i =>
      let hGeo := Object3D.SphereGeometry RADII.H SPHERE_SEGMENTS SPHERE_SEGMENTS in
      hMat <- Materials.clone hydrogenMaterial ;;
      hMesh <- Object3D.new (Object3D.Mesh hGeo hMat) ;;
      let hMesh := Object3D.set_name ("H" ++ string_of_nat (i + 1)) hMesh in
      let hMesh := Object3D.set_userData
                     (Object3D.mkUserData (Some "H")
                        (Some "Proton (may dissociate in hydrolysis)")
                        (Some "δ+"))
                     hMesh in
      let phi := if Nat.eqb i 0 then halfAngle else - halfAngle in
      let hDir := hDir_of zAxis xAxis halfAngle i in
      let hMesh := Object3D.set_position
                     (Vector3.addScaledVector (Vector3.copy oPos) hDir R_O_H)
                     hMesh in
      ret (Object3D.add hMesh group))
    group [0%nat; 1%nat] ;;
  ret group.

(** What [buildComplex] returns.  [al] and [waters] are references to
    nodes of [complex]. *)
Record Complex := mkComplex {
  complex : Object3D.t;
  al : nat;
  waters : list nat;
}.

Definition buildComplex : M Ids.t Complex :=
  complex <- Object3D.new Object3D.Group ;;
  let complex := Object3D.set_name "AlComplex" complex in
  al <- createAlCenter ;;
  let complex := Object3D.add al complex in
  cw <- foldM (fun (cw : Object3D.t * list nat) dir =>
      let (complex, waters) := cw in
      water <- createWaterMolecule dir ;;
      ret (Object3D.add water complex, waters ++ [Object3D.id water]))
    (complex, []) OCTA_DIRS ;;
  let (complex, waters) := cw in
  ret (mkComplex complex (Object3D.id al) waters).

(** The child meshes of a group that carry a given name. *)
Definition named_meshes (nm : string) (g : Object3D.t) : list Object3D.t :=
  filter (fun c => Object3D.isMesh c && String.eqb (Object3D.name c) nm)
         (Object3D.children g).

End Atoms.

(* ================================================================= *)
(** ** three.js: camera, controls and the world a page displays *)

Module World.

Record Camera := mkCamera {
  position : Vector3.t;
  fov : R;
  aspect : R;
  near : R;
  far : R;
}.

Record OrbitControls := mkControls {
  target : Vector3.t;
  enableDamping : bool;
  dampingFactor : R;
  minDistance : R;
  maxDistance : R;
  autoRotate : bool;
  autoRotateSpeed : R;
}.

(** Everything the renderer draws from: the scene graph, the camera, the
    orbit controls, and three.js's id counters. *)
Record t := mk {
  scene : Object3D.t;
  camera : Camera;
  controls : OrbitControls;
  ids : Ids.t;
}.

Definition set_scene (sc : Object3D.t) (w : t) : t :=
  mk sc (camera w) (controls w) (ids w).
Definition set_camera (c : Camera) (w : t) : t :=
  mk (scene w) c (controls w) (ids w).
Definition set_controls (c : OrbitControls) (w : t) : t :=
  mk (scene w) (camera w) c (ids w).
Definition set_ids (i : Ids.t) (w : t) : t :=
  mk (scene w) (camera w) (controls w) i.

Definition set_camera_position (p : Vector3.t) (c : Camera) : Camera :=
  mkCamera p (fov c) (aspect c) (near c) (far c).
Definition set_aspect (a : R) (c : Camera) : Camera :=
  mkCamera (position c) (fov c) a (near c) (far c).
Definition set_target (p : Vector3.t) (c : OrbitControls) : OrbitControls :=
  mkControls p (enableDamping c) (dampingFactor c) (minDistance c)
             (maxDistance c) (autoRotate c) (autoRotateSpeed c).

(** Allocation inside a world. *)
Definition alloc {A} (c : M Ids.t A) : M t A := zoom ids set_ids c.

End World.

(* ================================================================= *)
(** ** bonds.js *)

Module Bonds.

Import Materials.

Definition createDashedBond (from to : Vector3.t) : M Ids.t Object3D.t :=
  let geo := Object3D.BufferGeometry [from; to] in
  mat <- Materials.clone coordinationBondMaterial ;;
  line <- Object3D.new (Object3D.Line geo mat) ;;
  ret (Object3D.set_name "CoordBond" line).

Definition createSolidBond (from to : Vector3.t) : M Ids.t Object3D.t :=
  let geo := Object3D.BufferGeometry [from; to] in
  mat <- Materials.clone covalentBondMaterial ;;
  line <- Object3D.new (Object3D.Line geo mat) ;;
  ret (Object3D.set_name "CovalentBond" line).

(** [o.getWorldPosition(v)] through a reference into the graph [root]. *)
Definition worldPositionOf (root : Object3D.t) (ref : nat) : M Ids.t Vector3.t :=
  match Object3D.getWorldPosition ref root with
  | Some p => ret p
  | None => throw (TypeError "getWorldPosition of an object outside the graph")
  end.

(** [buildBonds(al, waters)]; [root] is the graph that holds [al] and the
    waters when the function is called. *)
Definition buildBonds (root : Object3D.t) (al : nat) (waters : list nat)
  : M Ids.t Object3D.t :=
  bondsGroup <- Object3D.new Object3D.Group ;;
  let bondsGroup := Object3D.set_name "Bonds" bondsGroup in
  alPos <- worldPositionOf root al ;;
  foldM (fun bondsGroup w =>
      match Object3D.getObjectById w root with
      | None => throw (TypeError "water is not an object of the graph")
      | Some water =>
          match Object3D.find_child
                  (fun c => String.eqb (Object3D.name c) "O") water with
          | None => ret bondsGroup                       (* continue *)
          | Some oxygen =>
              oPos <- worldPositionOf root (Object3D.id oxygen) ;;
              dashed <- createDashedBond alPos oPos ;;
              let bondsGroup := Object3D.add dashed bondsGroup in
              let hydrogens :=
                filter (fun c => String.prefix "H" (Object3D.name c))
                       (Object3D.children water) in
              foldM (fun bondsGroup h =>
                  hPos <- worldPositionOf root (Object3D.id h) ;;
                  solid <- createSolidBond oPos hPos ;;
                  ret (Object3D.add solid bondsGroup))
                bondsGroup hydrogens
          end
      end)
    bondsGroup waters.

(** The two end points of a bond line. *)
Definition segment (b : Object3D.t) : option (Vector3.t * Vector3.t) :=
  match Object3D.kind b with
  | Object3D.Line (Object3D.BufferGeometry [from; to]) _ => Some (from, to)
  | _ => None
  end.

Definition isOxygen (c : Object3D.t) : bool := String.eqb (Object3D.name c) "O".
Definition isHydrogen (c : Object3D.t) : bool :=
  String.prefix "H" (Object3D.name c).

(** The line [b] is a bond of the water [w] of the graph [root]: the
    dashed line from [alPos] to the water's oxygen, or a solid line from
    that oxygen to a child of the water whose name starts with H, end
    points taken at the world positions. *)
Definition bond_of (root : Object3D.t) (alPos : Vector3.t) (w : nat)
    (b : Object3D.t) : Prop :=
  exists water oxygen oPos,
    Object3D.getObjectById w root = Some water
    /\ Object3D.find_child isOxygen water = Some oxygen
    /\ Object3D.getWorldPosition (Object3D.id oxygen) root = Some oPos
    /\ ((Object3D.name b = "CoordBond" /\ segment b = Some (alPos, oPos))
        \/ (exists h hPos,
              In h (Object3D.children water) /\ isHydrogen h = true
              /\ Object3D.getWorldPosition (Object3D.id h) root = Some hPos
              /\ Object3D.name b = "CovalentBond"
              /\ segment b = Some (oPos, hPos))).

(** What one bond line looks like, whichever water it belongs to. *)
Definition bond_line (root : Object3D.t) (alPos : Vector3.t) (waters : list nat)
    (b : Object3D.t) : Prop :=
  Object3D.isLine b = true /\ Object3D.isMesh b = false
  /\ Object3D.children b = []
  /\ exists w, In w waters /\ bond_of root alPos w b.

(** The names of the lines [buildBonds] adds for one water, in order:
    none when the water has no child named O. *)
Definition bond_names (root : Object3D.t) (w : nat) : list string :=
  match Object3D.getObjectById w root with
  | Some water =>
      match Object3D.find_child isOxygen water with
      | Some _ =>
          "CoordBond"
          :: map (fun _ => "CovalentBond")
                 (filter isHydrogen (Object3D.children water))
      | None => []
      end
  | None => []
  end.

End Bonds.

(* ================================================================= *)
(** ** interaction.js *)

Module Interaction.

Import Materials.
Local Open Scope R_scope.

Record Vector2 := mkVector2 { x : R; y : R }.

(** [canvas.getBoundingClientRect()]. *)
Record Rect := mkRect { left : R; top : R; width : R; height : R }.

Record PointerEvent := mkPointerEvent { clientX : R; clientY : R }.

(** An entry of the array [raycaster.intersectObjects] returns; [object]
    is a reference to the mesh that was hit. *)
Record Intersection := mkIntersection { distance : R; object : nat }.

(** The module's DOM references, each [null] ([None]) when the page has no
    element of that id. *)
Record Panel := mkPanel {
  infoPanel : option Dom.Element;
  infoTitle : option Dom.Element;
  infoElement : option Dom.Element;
  infoRole : option Dom.Element;
  infoCharge : option Dom.Element;
  infoClose : option Dom.Element;
}.

Inductive Listener := OnPointerDown | OnCloseClick.

Record State := mk {
  world : World.t;
  canvas : Rect;
  (* module state *)
  previousSelection : option nat;
  previousMaterial : option Material;
  pointer : Vector2;
  (* DOM *)
  panel : Panel;
  listeners : list Listener;
}.

Definition set_world (w : World.t) (s : State) : State :=
  mk w (canvas s) (previousSelection s) (previousMaterial s) (pointer s)
     (panel s) (listeners s).
Definition set_previousSelection (p : option nat) (s : State) : State :=
  mk (world s) (canvas s) p (previousMaterial s) (pointer s)
     (panel s) (listeners s).
Definition set_previousMaterial (p : option Material) (s : State) : State :=
  mk (world s) (canvas s) (previousSelection s) p (pointer s)
     (panel s) (listeners s).
Definition set_pointer (p : Vector2) (s : State) : State :=
  mk (world s) (canvas s) (previousSelection s) (previousMaterial s) p
     (panel s) (listeners s).
Definition set_panel (p : Panel) (s : State) : State :=
  mk (world s) (canvas s) (previousSelection s) (previousMaterial s)
     (pointer s) p (listeners s).
Definition add_listener (l : Listener) (s : State) : State :=
  mk (world s) (canvas s) (previousSelection s) (previousMaterial s)
     (pointer s) (panel s) (listeners s ++ [l]).

Definition scene (s : State) : Object3D.t := World.scene (world s).

(** [ref.material = m] for a reference [ref] into the scene. *)
Definition assign_material (ref : nat) (m : Material) : M State unit :=
  modify (fun s =>
    set_world
      (World.set_scene
         (Object3D.update ref (Object3D.set_material m) (scene s))
         (world s)) s).

Definition set_infoPanel (e : Dom.Element) (p : Panel) : Panel :=
  mkPanel (Some e) (infoTitle p) (infoElement p) (infoRole p) (infoCharge p)
          (infoClose p).
Definition set_infoTitle (e : Dom.Element) (p : Panel) : Panel :=
  mkPanel (infoPanel p) (Some e) (infoElement p) (infoRole p) (infoCharge p)
          (infoClose p).
Definition set_infoElement (e : Dom.Element) (p : Panel) : Panel :=
  mkPanel (infoPanel p) (infoTitle p) (Some e) (infoRole p) (infoCharge p)
          (infoClose p).
Definition set_infoRole (e : Dom.Element) (p : Panel) : Panel :=
  mkPanel (infoPanel p) (infoTitle p) (infoElement p) (Some e) (infoCharge p)
          (infoClose p).
Definition set_infoCharge (e : Dom.Element) (p : Panel) : Panel :=
  mkPanel (infoPanel p) (infoTitle p) (infoElement p) (infoRole p) (Some e)
          (infoClose p).

(** [ref.textContent = txt]: a TypeError when [ref] is [null]. *)
Definition assign_textContent
    (ref : Panel -> option Dom.Element)
    (store : Dom.Element -> Panel -> Panel) (txt : string) : M State unit :=
  s <- get ;;
  match ref (panel s) with
  | Some e => put (set_panel (store (Dom.set_textContent txt e) (panel s)) s)
  | None =>
      throw (TypeError "Cannot set properties of null (setting 'textContent')")
  end.

(** The block of [selectAtom] under "Populate info panel". *)
Definition populateInfoPanel (m : Object3D.t) : M State unit :=
  let data := Object3D.userData m in
  s <- get ;;
  match infoPanel (panel s) with
  | Some _ =>
      assign_textContent infoTitle set_infoTitle
        (or_string (Some (Object3D.name m)) "—") ;;
      assign_textContent infoElement set_infoElement
        (or_string (Object3D.element data) "—") ;;
      assign_textContent infoRole set_infoRole
        (or_string (Object3D.role data) "—") ;;
      assign_textContent infoCharge set_infoCharge
        (or_string (Object3D.charge data) "—") ;;
      modify (fun s =>
        match infoPanel (panel s) with
        | Some e =>
            set_panel
              (set_infoPanel (Dom.classList_remove "hidden" e) (panel s)) s
        | None => s
        end)
  | None => ret tt
  end.

(** [selectAtom(mesh)].  The handler passes a mesh it has just found in
    the scene; a reference that names no object of the scene has no
    counterpart in the program, and the model throws on it at once. *)
Definition selectAtom (mesh : nat) : M State unit :=
  s <- get ;;
  match Object3D.getObjectById mesh (scene s) with
  | None => throw (TypeError "mesh is not an object of the scene")
  | Some _ =>
      (* Restore previous selection *)
      match previousSelection s, previousMaterial s with
      | Some prev, Some mat => assign_material prev mat
      | _, _ => ret tt
      end ;;
      (* Store & swap material *)
      modify (set_previousSelection (Some mesh)) ;;
      s <- get ;;
      match Object3D.getObjectById mesh (scene s) with
      | None => throw (TypeError "mesh is not an object of the scene")
      | Some m =>
          modify (set_previousMaterial (Object3D.material m)) ;;
          assign_material mesh highlightMaterial ;;
          (* Populate info panel *)
          populateInfoPanel m
      end
  end.

(** [if (infoPanel) infoPanel.classList.add('hidden')]. *)
Definition hideInfoPanel : M State unit :=
  modify (fun s =>
    match infoPanel (panel s) with
    | Some e =>
        set_panel (set_infoPanel (Dom.classList_add "hidden" e) (panel s)) s
    | None => s
    end).

Definition deselectAtom : M State unit :=
  s <- get ;;
  match previousSelection s, previousMaterial s with
  | Some prev, Some mat =>
      assign_material prev mat ;;
      modify (set_previousSelection None) ;;
      modify (set_previousMaterial None)
  | _, _ => ret tt
  end ;;
  hideInfoPanel.

(** The callback of [scene.traverse] in the pointer handler: push the
    object when it is a mesh. *)
Definition collectMeshes (sc : Object3D.t) : list Object3D.t :=
  fold_left (fun meshes obj =>
               if Object3D.isMesh obj then meshes ++ [obj] else meshes)
            (Object3D.traverse sc) [].

(** [intersects.sort(ascSort)], with [ascSort(a, b) = a.distance - b.distance];
    the sort is stable. *)
Fixpoint insert (h : Intersection) (l : list Intersection) : list Intersection :=
  match l with
  | [] => [h]
  | h' :: l' =>
      if Rle_dec (distance h) (distance h') then h :: h' :: l'
      else h' :: insert h l'
  end.

Definition sort (l : list Intersection) : list Intersection :=
  fold_right insert [] l.

Section Raycaster.

(** The ray test of three.js against one mesh ([Mesh.prototype.raycast]):
    the distances from the ray's origin at which the ray from the camera
    through the pointer's device coordinates crosses the mesh. *)
Variable Mesh_raycast : Vector2 -> World.Camera -> Object3D.t -> list R.

(** [raycaster.setFromCamera(pointer, camera)] followed by
    [raycaster.intersectObjects(objects, false)]: every object is tested,
    its children are not, and the hits come back nearest first. *)
Definition intersectObjects (pointer : Vector2) (camera : World.Camera)
    (objects : list Object3D.t) : list Intersection :=
  sort (flat_map (fun o =>
                    map (fun d => mkIntersection d (Object3D.id o))
                        (Mesh_raycast pointer camera o))
                 objects).

(** Normalised device coordinates (-1 ... +1) of a pointer event. *)
Definition deviceCoordinates (event : PointerEvent) (rect : Rect) : Vector2 :=
  mkVector2 (((clientX event - left rect) / width rect) * 2 - 1)
            (- ((clientY event - top rect) / height rect) * 2 + 1).

(** The hits of a pointer event in state [s]. *)
Definition hits_of (event : PointerEvent) (s : State) : list Intersection :=
  intersectObjects (deviceCoordinates event (canvas s))
                   (World.camera (world s)) (collectMeshes (scene s)).

(** The [pointerdown] listener of the canvas. *)
Definition onPointerDown (event : PointerEvent) : M State unit :=
  s <- get ;;
  let rect := canvas s in
  modify (set_pointer (deviceCoordinates event rect)) ;;
  s <- get ;;
  (* Only test meshes (atoms), not lines (bonds) *)
  let meshes := collectMeshes (scene s) in
  let hits := intersectObjects (pointer s) (World.camera (world s)) meshes in
  match hits with
  | hit :: _ => selectAtom (object hit)
  | [] => deselectAtom
  end.

(** [initInteraction(camera, scene, canvas)]: the canvas gets its pointer
    listener, the close button its click listener if the button exists. *)
Definition initInteraction : M State unit :=
  modify (add_listener OnPointerDown) ;;
  s <- get ;;
  match infoClose (panel s) with
  | Some _ => modify (add_listener OnCloseClick)
  | None => ret tt
  end.

(** What the browser can deliver to the module. *)
Inductive Event :=
| PointerDown (event : PointerEvent)
| CloseClick.

Definition has_listener (l : Listener) (s : State) : bool :=
  existsb (fun l' => match l, l' with
                     | OnPointerDown, OnPointerDown => true
                     | OnCloseClick, OnCloseClick => true
                     | _, _ => false
                     end) (listeners s).

Definition dispatch (e : Event) : M State unit :=
  s <- get ;;
  match e with
  | PointerDown event =>
      if has_listener OnPointerDown s then onPointerDown event else ret tt
  | CloseClick =>
      if has_listener OnCloseClick s then deselectAtom else ret tt
  end.

(** The states the module goes through from [init]: an event is handled
    (an exception ends the handler and leaves the state it reached), or
    the camera moves between two events (orbit controls, resize). *)
Inductive reachable (init : State) : State -> Prop :=
| reach_init : reachable init init
| reach_event s e :
    reachable init s -> reachable init (exec (dispatch e) s)
| reach_camera s cam :
    reachable init s ->
    reachable init (set_world (World.set_camera cam (world s)) s).

End Raycaster.

(** The module as it is loaded and initialised over a world: nothing
    selected, the pointer at (0, 0). *)
Definition loaded (w : World.t) (c : Rect) (p : Panel) : State :=
  exec initInteraction (mk w c None None (mkVector2 0 0) p []).

(** The object carries the highlight material (the very material, told
    by its identity). *)
Definition carries_highlight (o : Object3D.t) : bool :=
  match Object3D.material o with
  | Some m => Nat.eqb (material_id m) (material_id highlightMaterial)
  | None => false
  end.

(** The meshes of the scene that carry the highlight material. *)
Definition highlighted (s : State) : list Object3D.t :=
  filter carries_highlight (collectMeshes (scene s)).

(** The invariant of the selection: the objects of the scene have
    distinct identities, and either nothing is selected and no mesh is
    highlighted, or the selected mesh is the one highlighted mesh and the
    material kept for it is not the highlight material. *)
Definition selection_inv (s : State) : Prop :=
  NoDup (Object3D.ids (scene s))
  /\ match previousSelection s, previousMaterial s with
     | None, None => highlighted s = []
     | Some m, Some pm =>
         material_id pm <> material_id highlightMaterial
         /\ map Object3D.id (highlighted s) = [m]
     | _, _ => False
     end.

(** [mesh.material] through a reference into the scene. *)
Definition material_of (ref : nat) (s : State) : option Material :=
  match Object3D.getObjectById ref (scene s) with
  | Some o => Object3D.material o
  | None => None
  end.

(** The head of a list of hits is nearest. *)
Definition head_nearest (l : list Intersection) : Prop :=
  match l with
  | [] => True
  | h :: _ => forall x, In x l -> distance h <= distance x
  end.

(** The scene once the material of the previous selection is put back. *)
Definition restored_scene (s : State) : Object3D.t :=
  match previousSelection s, previousMaterial s with
  | Some prev, Some mat =>
      Object3D.update prev (Object3D.set_material mat) (scene s)
  | _, _ => scene s
  end.

(** What a handler of the module finds around it: the world and the DOM. *)
Definition surroundings (s : State)
  : World.t * Rect * Panel * list Listener :=
  (world s, canvas s, panel s, listeners s).

(** The module-level variables a handler reads before it writes them. *)
Definition module_variables (s : State) : option nat * option Material :=
  (previousSelection s, previousMaterial s).

(** The page has the info panel and the four fields [selectAtom] fills. *)
Definition panel_complete (p : Panel) : bool :=
  match infoPanel p, infoTitle p, infoElement p, infoRole p, infoCharge p with
  | Some _, Some _, Some _, Some _, Some _ => true
  | _, _, _, _, _ => false
  end.

Definition text_of (e : option Dom.Element) : option string :=
  option_map Dom.textContent e.

(** The info panel is hidden, or the page has none. *)
Definition panel_hidden (p : Panel) : bool :=
  match infoPanel p with
  | Some e => Dom.has_class "hidden" e
  | None => true
  end.

End Interaction.

(* ================================================================= *)
(** ** JavaScript numbers as [parseInt] returns them *)

Module JsNumber.

(** An integer or [NaN].  A number of JavaScript is a double; the model
    is exact for the safe integers, those below 2^53 in magnitude, which a
    double holds exactly and a template literal prints in full. *)
Inductive t := NaN | Num (z : Z).

(** [Number.MAX_SAFE_INTEGER] and [Number.isSafeInteger]. *)
Definition MAX_SAFE_INTEGER : Z := 2 ^ 53 - 1.

Definition isSafeInteger (z : Z) : Prop := (Z.abs z <= MAX_SAFE_INTEGER)%Z.

(** [a === b] on numbers: [NaN] equals nothing, itself included. *)
Definition strict_eq (a b : t) : bool :=
  match a, b with
  | Num x, Num y => Z.eqb x y
  | _, _ => false
  end.

(** How a template literal prints the number, a safe integer or [NaN]. *)
Definition to_string (a : t) : string :=
  match a with
  | NaN => "NaN"
  | Num z => string_of_Z z
  end.

(** White space [parseInt] skips; of Unicode's, the ASCII ones
    (tab, line feed, vertical tab, form feed, carriage return, space). *)
Definition is_whitespace (c : ascii) : bool :=
  let n := nat_of_ascii c in
  ((9 <=? n) && (n <=? 13))%nat || (n =? 32)%nat.

Fixpoint skip_whitespace (s : string) : string :=
  match s with
  | String c s' => if is_whitespace c then skip_whitespace s' else s
  | EmptyString => s
  end.

Definition digit_of (c : ascii) : option Z :=
  let n := nat_of_ascii c in
  if ((48 <=? n) && (n <=? 57))%nat then Some (Z.of_nat (n - 48)) else None.

(** The value of the longest prefix of decimal digits, if it is not empty. *)
Fixpoint digits (s : string) (acc : option Z) : option Z :=
  match s with
  | String c s' =>
      match digit_of c with
      | Some d =>
          digits s' (Some (10 * match acc with Some a => a | None => 0 end + d)%Z)
      | None => acc
      end
  | EmptyString => acc
  end.

(** [parseInt(v, 10)] of a string or [undefined], for a string whose
    digits spell a safe integer. *)
Definition parseInt (v : option string) : t :=
  match v with
  | None => NaN                      (* "undefined" has no leading digit *)
  | Some str =>
      let str := skip_whitespace str in
      let (sign, rest) :=
        match str with
        | String "-" r => ((-1)%Z, r)
        | String "+" r => (1%Z, r)
        | _ => (1%Z, str)
        end in
      match digits rest None with
      | Some v => Num (sign * v)
      | None => NaN
      end
  end.

End JsNumber.

(* ================================================================= *)
(** ** main.js *)

Module Main.

Import Materials.
Local Open Scope R_scope.

Record Window := mkWindow {
  innerWidth : R;
  innerHeight : R;
  devicePixelRatio : R;
}.

(** A [.stage-btn] element of the page: its own classes and text, its
    [data-stage] attribute, and its first [.stage-label] descendant. *)
Record StageButton := mkStageButton {
  button : Dom.Element;
  dataset_stage : option string;
  stage_label : option Dom.Element;
}.

Definition map_button (f : Dom.Element -> Dom.Element) (b : StageButton)
  : StageButton :=
  mkStageButton (f (button b)) (dataset_stage b) (stage_label b).

Record State := mk {
  interaction : Interaction.State;     (* holds the world *)
  rendererSize : R * R;
  currentStage : JsNumber.t;
  stageButtons : list StageButton;     (* document.querySelectorAll('.stage-btn') *)
  console : list string;
}.

Definition world (s : State) : World.t := Interaction.world (interaction s).

Definition set_interaction (i : Interaction.State) (s : State) : State :=
  mk i (rendererSize s) (currentStage s) (stageButtons s) (console s).
Definition set_rendererSize (r : R * R) (s : State) : State :=
  mk (interaction s) r (currentStage s) (stageButtons s) (console s).
Definition set_currentStage (n : JsNumber.t) (s : State) : State :=
  mk (interaction s) (rendererSize s) n (stageButtons s) (console s).
Definition set_stageButtons (b : list StageButton) (s : State) : State :=
  mk (interaction s) (rendererSize s) (currentStage s) b (console s).
Definition console_log (line : string) (s : State) : State :=
  mk (interaction s) (rendererSize s) (currentStage s) (stageButtons s)
     (console s ++ [line]).

(** Sections 2 to 6 of main.js: scene, camera, controls, lights, the
    complex and its bonds. *)
Definition light (k : Object3D.LightKind) (color : Z) (intensity : R)
    (position : Vector3.t) : M Ids.t Object3D.t :=
  l <- Object3D.new (Object3D.Light k color intensity) ;;
  ret (Object3D.set_position position l).

Record Built := mkBuilt {
  built_world : World.t;
  complex : nat;
  al : nat;
  waters : list nat;
  bondsGroup : nat;
}.

Definition buildWorld (window : Window) : M Ids.t Built :=
  scene <- Object3D.new Object3D.Scene ;;
  let camera :=
    World.mkCamera (Vector3.new 4 3 5) 50
                   (innerWidth window / innerHeight window) 0.1 100 in
  let controls := World.mkControls (Vector3.new 0 0 0) true 0.08 2 15 true 0.8 in
  ambientLight <- light Object3D.AmbientLight 0xffffff 0.4 Vector3.zero ;;
  let scene := Object3D.add ambientLight scene in
  keyLight <- light Object3D.DirectionalLight 0xfff4e6 1.0 (Vector3.new 5 8 4) ;;
  let scene := Object3D.add keyLight scene in
  fillLight <- light Object3D.DirectionalLight 0xc4d9f5 0.5
                 (Vector3.new (-4) 2 (-3)) ;;
  let scene := Object3D.add fillLight scene in
  rimLight <- light Object3D.PointLight 0xffffff 0.6 (Vector3.new 0 (-4) (-5)) ;;
  let scene := Object3D.add rimLight scene in
  c <- Atoms.buildComplex ;;
  let scene := Object3D.add (Atoms.complex c) scene in
  bondsGroup <- Bonds.buildBonds scene (Atoms.al c) (Atoms.waters c) ;;
  let scene := Object3D.add bondsGroup scene in
  ids <- get ;;
  ret (mkBuilt (World.mk scene camera controls ids)
               (Object3D.id (Atoms.complex c)) (Atoms.al c) (Atoms.waters c)
               (Object3D.id bondsGroup)).

(** The page once main.js has run: [None] if building the world threw. *)
Definition start (window : Window) (canvas : Interaction.Rect)
    (panel : Interaction.Panel) (buttons : list StageButton) : option State :=
  match buildWorld window (Ids.mk 0 materials_loaded) with
  | Ok b _ =>
      Some (mk (Interaction.loaded (built_world b) canvas panel)
               (innerWidth window, innerHeight window)
               (JsNumber.Num 0) buttons [])
  | Throw _ _ => None
  end.

(** The click listener of the [i]-th stage button. *)
Definition onStageClick (i : nat) : M State unit :=
  s <- get ;;
  match nth_error (stageButtons s) i with
  | None => ret tt                       (* no such button, no listener *)
  | Some btn =>
      let stage := JsNumber.parseInt (dataset_stage btn) in
      if JsNumber.strict_eq stage (currentStage s) then ret tt
      else
        modify (set_currentStage stage) ;;
        (* Update active class *)
        modify (fun s =>
          set_stageButtons
            (map (map_button (Dom.classList_remove "active")) (stageButtons s)) s) ;;
        modify (fun s =>
          set_stageButtons
            (update_nth i (map_button (Dom.classList_add "active"))
                        (stageButtons s)) s) ;;
        match stage_label btn with
        | None =>
            throw (TypeError "Cannot read properties of null (reading 'textContent')")
        | Some label =>
            modify (console_log
                      ("→ Stage " ++ JsNumber.to_string stage ++ ": "
                       ++ Dom.textContent label))
        end
  end.

(** The [resize] listener of the window. *)
Definition onResize (window : Window) : M State unit :=
  modify (fun s =>
    set_interaction
      (Interaction.set_world
         (World.set_camera
            (World.set_aspect (innerWidth window / innerHeight window)
                              (World.camera (world s)))
            (world s))
         (interaction s)) s) ;;
  modify (set_rendererSize (innerWidth window, innerHeight window)).

Section Raycaster.

Variable Mesh_raycast :
  Interaction.Vector2 -> World.Camera -> Object3D.t -> list R.

Inductive Event :=
| StageClick (i : nat)
| Resize (window : Window)
| Interact (e : Interaction.Event).

Definition dispatch (e : Event) : M State unit :=
  match e with
  | StageClick i => onStageClick i
  | Resize window => onResize window
  | Interact e' =>
      zoom interaction set_interaction (Interaction.dispatch Mesh_raycast e')
  end.

(** The states the listeners alone take the page through from [init]:
    what the handlers do to the state, with the render loop left out
    ([on_page] below has it). *)
Inductive reachable (init : State) : State -> Prop :=
| reach_init : reachable init init
| reach_event s e :
    reachable init s -> reachable init (exec (dispatch e) s).

(** What a frame of [animate] leaves: [controls.update()] has moved the
    camera and the state of the orbit controls (it turns the camera about
    the target while [autoRotate] is on, and follows the gestures the
    controls listen to on the canvas); where to is three.js's business.
    [renderer.render] draws and changes nothing of the state. *)
Definition animate (camera : World.Camera) (controls : World.OrbitControls)
    (s : State) : State :=
  set_interaction
    (Interaction.set_world
       (World.set_controls controls (World.set_camera camera (world s)))
       (interaction s)) s.

(** The states the page goes through from [init]: a listener handles an
    event, or a frame is rendered. *)
Inductive on_page (init : State) : State -> Prop :=
| page_init : on_page init init
| page_event s e : on_page init s -> on_page init (exec (dispatch e) s)
| page_animate s camera controls :
    on_page init s -> on_page init (animate camera controls s).

(** What a handler prints on the console when run in state [s]. *)
Definition logged (e : Event) (s : State) : list string :=
  skipn (List.length (console s)) (console (exec (dispatch e) s)).

(** What a handler finds around it: the world, the DOM of the interaction
    module and the stage buttons. *)
Definition surroundings (s : State) :=
  (Interaction.surroundings (interaction s), stageButtons s).

(** The module-level variables of main.js and interaction.js that a
    handler reads before it writes them. *)
Definition module_variables (s : State) :=
  (currentStage s, Interaction.module_variables (interaction s)).

(** What running the handler of [e] in state [s] does, as far as the page
    and later handlers can tell. *)
Definition behaviour (e : Event) (s : State) :=
  (returned (dispatch e s), logged e s,
   surroundings (exec (dispatch e) s), module_variables (exec (dispatch e) s)).

(** What running the handler of [e] in state [s] does to what is around
    it: whether it returns, what it logs, and the world and the DOM it
    leaves. *)
Definition effects (e : Event) (s : State) :=
  (returned (dispatch e s), logged e s, surroundings (exec (dispatch e) s)).

End Raycaster.

(** The variables of interaction.js, seen from the page. *)
Definition previousSelection (s : State) : option nat :=
  Interaction.previousSelection (interaction s).
Definition previousMaterial (s : State) : option Material :=
  Interaction.previousMaterial (interaction s).
Definition set_previousSelection (p : option nat) (s : State) : State :=
  set_interaction (Interaction.set_previousSelection p (interaction s)) s.
Definition set_previousMaterial (p : option Material) (s : State) : State :=
  set_interaction (Interaction.set_previousMaterial p (interaction s)) s.

(** The stage buttons that carry the class [active]. *)
Definition active_buttons (s : State) : list StageButton :=
  filter (fun b => Dom.has_class "active" (button b)) (stageButtons s).

(** The buttons and [currentStage] agree: at most one button is active,
    and an active button is one of the current stage. *)
Definition active_is_current (s : State) : Prop :=
  (List.length (active_buttons s) <= 1)%nat
  /\ Forall (fun b => JsNumber.parseInt (dataset_stage b) = currentStage s)
            (active_buttons s).

End Main.

(* ================================================================= *)
(** ** labels.js *)

Module Labels.

Local Open Scope R_scope.

(** The label [createFreeLabel] attaches: a CSS2DObject over a [div]. *)
Definition new_label (text cssClass : string) : M Ids.t Object3D.t :=
  let div := Dom.mkElement ["atom-label"; cssClass] text in
  label <- Object3D.new (Object3D.CSS2DObject div) ;;
  let label := Object3D.set_position (Vector3.new 0 0.45 0) label in
  ret (Object3D.set_name "label" label).

(** [createFreeLabel(mesh, text, cssClass)] on the graph [root] that holds
    [mesh]; [allLabels] is the module's list of labels.  Returns the graph,
    the list and the label. *)
Definition createFreeLabel (mesh : nat) (text cssClass : string)
    (root : Object3D.t) (allLabels : list nat)
  : M Ids.t (Object3D.t * list nat * nat) :=
  label <- new_label text cssClass ;;
  ret (Object3D.update mesh (Object3D.add label) root,
       allLabels ++ [Object3D.id label],
       Object3D.id label).

End Labels.

(* ================================================================= *)
(** ** GSAP timelines, as stages.js uses them *)

Module Gsap.

(** The object a tween animates. *)
Inductive Target :=
| ObjPosition (ref : nat)            (* obj.position *)
| ObjRotation (ref : nat)            (* obj.rotation *)
| ObjScale (ref : nat)               (* obj.scale *)
| Obj (ref : nat)                    (* the object itself *)
| CameraPosition                     (* _camera.position *)
| ControlsTarget                     (* _controls.target *)
| Mat (material_id : nat).           (* a material *)

(** A local [Vector3] of [stageHydrolysis] that its closures share. *)
Inductive Local := hWorldPos | freeOPos.

(** The end value of a tweened property. *)
Inductive Value :=
| Abs (v : R)                        (* x: 4 *)
| Rel (delta : R)                    (* x: '+=0.05' *)
| Flag (b : bool)                    (* visible: true *)
| Deferred (l : Local) (axis : string) (plus : R).  (* x: () => freeOPos.x + 0.5 *)

Section Timelines.

(** The closures stages.js hands to GSAP. *)
Variable Callback : Type.

Record Tween := mkTween {
  target : Target;
  vars : list (string * Value);
  duration : R;
  ease : string;
  repeat : nat;
  yoyo : bool;
  onUpdate : option Callback;
}.

(** A child of a timeline with its position parameter, in seconds. *)
Inductive Entry :=
| To (tw : Tween) (position : R)
| Call (cb : Callback) (position : R).

Record Timeline := mkTimeline {
  entries : list Entry;
  killed : bool;
  locals : Local -> Vector3.t;
}.

Definition empty : Timeline :=
  mkTimeline [] false (fun _ => Vector3.zero).

Definition add_entry (e : Entry) (tl : Timeline) : Timeline :=
  mkTimeline (entries tl ++ [e]) (killed tl) (locals tl).

Definition kill (tl : Timeline) : Timeline :=
  mkTimeline (entries tl) true (locals tl).

Definition set_local (l : Local) (v : Vector3.t) (tl : Timeline) : Timeline :=
  mkTimeline (entries tl) (killed tl)
    (fun l' => match l, l' with
               | hWorldPos, hWorldPos | freeOPos, freeOPos => v
               | _, _ => locals tl l'
               end).

End Timelines.

Arguments empty {Callback}.
Arguments To {Callback} tw position.
Arguments Call {Callback} cb position.

End Gsap.

(* ================================================================= *)
(** ** stages.js *)

Module Stages.

Import Materials Gsap.
Local Open Scope R_scope.

(** The closures the module schedules on its timelines. *)
Inductive Callback :=
| controls_update                           (* () => _controls.update() *)
| set_bonds_visible (b : bool)              (* () => { _bondsGroup.visible = b; } *)
| set_glow (targetO : nat) (glowMat : Material)
                                            (* () => { targetO.material = glowMat; } *)
| detach (targetH : nat)                    (* getWorldPosition, then _scene.attach(targetH) *)
| locate_free_oxygen (freeWaterOxygen : option nat)
| label_hydronium.

Definition Tween := Gsap.Tween Callback.
Definition Timeline := Gsap.Timeline Callback.

Definition STAGE_DESCRIPTIONS : list string :=
  [ "The octahedral aqua complex [Al(H₂O)₆]³⁺ — six water molecules coordinate to the Al³⁺ center via lone pairs on oxygen.";
    "The ionic lattice breaks apart. Ions separate and enter solution as individual species.";
    "Water molecules orient with their oxygen (δ−) toward the highly charged Al³⁺ cation, forming coordination bonds.";
    "The intense electric field of Al³⁺ polarises an O–H bond. The weakened proton transfers to a nearby water molecule, forming H₃O⁺." ].

(** The references [initStages] sets together. *)
Record Refs := mkRefs {
  _complex : nat;
  _al : nat;
  _waters : list nat;
  _bondsGroup : nat;
}.

Record State := mk {
  world : World.t;                          (* _scene, _camera, _controls *)
  savedPositions : list (nat * Vector3.t);  (* Map: mesh -> position *)
  savedMaterials : list (nat * Material);   (* Map: mesh -> material *)
  refs : option Refs;                       (* undefined before initStages *)
  _freeWater : option nat;
  _activeTimeline : option nat;
  stageDesc : option Dom.Element;
  timelines : list Timeline;                (* every timeline created so far *)
  allLabels : list nat;                     (* labels.js *)
  entropy : nat -> R;                       (* what Math.random() will return *)
}.

Definition scene (s : State) : Object3D.t := World.scene (world s).

Definition set_world (w : World.t) (s : State) : State :=
  mk w (savedPositions s) (savedMaterials s) (refs s) (_freeWater s)
     (_activeTimeline s) (stageDesc s) (timelines s) (allLabels s) (entropy s).
Definition set_savedPositions (m : list (nat * Vector3.t)) (s : State) : State :=
  mk (world s) m (savedMaterials s) (refs s) (_freeWater s)
     (_activeTimeline s) (stageDesc s) (timelines s) (allLabels s) (entropy s).
Definition set_savedMaterials (m : list (nat * Material)) (s : State) : State :=
  mk (world s) (savedPositions s) m (refs s) (_freeWater s)
     (_activeTimeline s) (stageDesc s) (timelines s) (allLabels s) (entropy s).
Definition set_refs (r : option Refs) (s : State) : State :=
  mk (world s) (savedPositions s) (savedMaterials s) r (_freeWater s)
     (_activeTimeline s) (stageDesc s) (timelines s) (allLabels s) (entropy s).
Definition set_freeWater (r : option nat) (s : State) : State :=
  mk (world s) (savedPositions s) (savedMaterials s) (refs s) r
     (_activeTimeline s) (stageDesc s) (timelines s) (allLabels s) (entropy s).
Definition set_activeTimeline (r : option nat) (s : State) : State :=
  mk (world s) (savedPositions s) (savedMaterials s) (refs s) (_freeWater s)
     r (stageDesc s) (timelines s) (allLabels s) (entropy s).
Definition set_stageDesc (e : option Dom.Element) (s : State) : State :=
  mk (world s) (savedPositions s) (savedMaterials s) (refs s) (_freeWater s)
     (_activeTimeline s) e (timelines s) (allLabels s) (entropy s).
Definition set_timelines (t : list Timeline) (s : State) : State :=
  mk (world s) (savedPositions s) (savedMaterials s) (refs s) (_freeWater s)
     (_activeTimeline s) (stageDesc s) t (allLabels s) (entropy s).
Definition set_allLabels (l : list nat) (s : State) : State :=
  mk (world s) (savedPositions s) (savedMaterials s) (refs s) (_freeWater s)
     (_activeTimeline s) (stageDesc s) (timelines s) l (entropy s).
Definition set_entropy (e : nat -> R) (s : State) : State :=
  mk (world s) (savedPositions s) (savedMaterials s) (refs s) (_freeWater s)
     (_activeTimeline s) (stageDesc s) (timelines s) (allLabels s) e.

(** The module as it is loaded: nothing saved, no reference set. *)
Definition loaded (w : World.t) (stageDesc : option Dom.Element)
    (entropy : nat -> R) : State :=
  mk w [] [] None None None stageDesc [] [] entropy.

(** *** Primitive steps *)

(** Reading a module reference: a TypeError on [undefined] or [null]. *)
Definition the {A} (r : State -> option A) : M State A :=
  s <- get ;;
  match r s with
  | Some a => ret a
  | None => throw (TypeError "Cannot read properties of undefined")
  end.

Definition ref (f : Refs -> nat) : M State nat :=
  the (fun s => option_map f (refs s)).

(** The object a reference points to, as it is now. *)
Definition deref (r : nat) : M State Object3D.t :=
  s <- get ;;
  match Object3D.getObjectById r (scene s) with
  | Some o => ret o
  | None => throw (TypeError "the object is not in the scene graph")
  end.

(** An assignment to a field of the object behind a reference. *)
Definition assign (r : nat) (f : Object3D.t -> Object3D.t) : M State unit :=
  modify (fun s =>
    set_world (World.set_scene (Object3D.update r f (scene s)) (world s)) s).

Definition alloc {A} (c : M Ids.t A) : M State A :=
  zoom world set_world (World.alloc c).

Definition Math_random : M State R :=
  s <- get ;;
  put (set_entropy (fun n => entropy s (S n)) s) ;;
  ret (entropy s 0%nat).

(** [gsap.timeline()]: a new, empty, running timeline. *)
Definition gsap_timeline : M State nat :=
  s <- get ;;
  put (set_timelines (timelines s ++ [Gsap.empty]) s) ;;
  ret (List.length (timelines s)).

Definition on_timeline (tl : nat) (f : Timeline -> Timeline) : M State unit :=
  modify (fun s => set_timelines (update_nth tl f (timelines s)) s).

(** [tl.to(target, vars, position)]. *)
Definition tl_to (tl : nat) (tw : Tween) (position : R) : M State unit :=
  on_timeline tl (Gsap.add_entry (To tw position)).

(** [tl.call(callback, null, position)]. *)
Definition tl_call (tl : nat) (cb : Callback) (position : R) : M State unit :=
  on_timeline tl (Gsap.add_entry (Call cb position)).

(** [tl.kill()]. *)
Definition tl_kill (tl : nat) : M State unit :=
  on_timeline tl (@Gsap.kill Callback).

(** A tween with GSAP's defaults for [repeat], [yoyo] and [onUpdate]. *)
Definition tween (target : Target) (vars : list (string * Value))
    (duration : R) (ease : string) : Tween :=
  mkTween target vars duration ease 0 false None.

(** The ease of a tween that names none. *)
Definition default_ease : string := "power1.out".

Definition xyz (x y z : R) : list (string * Value) :=
  [("x", Abs x); ("y", Abs y); ("z", Abs z)].

(** *** updateDescription(stage) *)

(** [STAGE_DESCRIPTIONS[stage]]. *)
Definition description (stage : JsNumber.t) : option string :=
  match stage with
  | JsNumber.Num z =>
      if (0 <=? z)%Z then nth_error STAGE_DESCRIPTIONS (Z.to_nat z) else None
  | JsNumber.NaN => None
  end.

Definition updateDescription (stage : JsNumber.t) : M State unit :=
  modify (fun s =>
    match stageDesc s with
    | Some e =>
        set_stageDesc
          (Some (Dom.classList_remove "hidden"
                   (Dom.set_textContent (or_string (description stage) "") e))) s
    | None => s
    end).

(** The loop of several stage functions that puts the saved materials back. *)
Definition restoreMaterials (complex : nat) : M State unit :=
  c <- deref complex ;;
  forEach (fun obj =>
      s <- get ;;
      match Object3D.isMesh obj, Map_get (Object3D.id obj) (savedMaterials s) with
      | true, Some m => assign (Object3D.id obj) (Object3D.set_material m)
      | _, _ => ret tt
      end)
    (Object3D.traverse c).

(** *** buildFreeWater() *)

Definition buildFreeWater : M State Object3D.t :=
  group <- alloc (Object3D.new Object3D.Group) ;;
  let group := Object3D.set_name "FreeWater" group in
  let SPHERE_SEGMENTS := 32%nat in
  (* Oxygen *)
  let oGeo := Object3D.SphereGeometry 0.30 SPHERE_SEGMENTS SPHERE_SEGMENTS in
  oMat <- alloc (new_Material (MeshStandardMaterial PALETTE.oxygen 0.1 0.4 0 1)) ;;
  oMesh <- alloc (Object3D.new (Object3D.Mesh oGeo oMat)) ;;
  let oMesh := Object3D.set_name "O_free" oMesh in
  let oMesh := Object3D.set_userData
                 (Object3D.mkUserData (Some "O") (Some "Free water molecule")
                    (Some "δ−")) oMesh in
  let group := Object3D.add oMesh group in
  (* Two hydrogens *)
  let hPositions := [ (0%nat, Vector3.new 0.76 0.58 0);
                      (1%nat, Vector3.new (-0.76) 0.58 0) ] in
  group <- foldM (fun group (ipos : nat * Vector3.t) =>
      let (i, pos) := ipos in
      let hGeo := Object3D.SphereGeometry 0.18 SPHERE_SEGMENTS SPHERE_SEGMENTS in
      hMat <- alloc (new_Material (MeshStandardMaterial 0xffffff 0.0 0.6 0 1)) ;;
      hMesh <- alloc (Object3D.new (Object3D.Mesh hGeo hMat)) ;;
      let hMesh := Object3D.set_position (Vector3.copy pos) hMesh in
      let hMesh := Object3D.set_name ("H_free_" ++ string_of_nat (i + 1)) hMesh in
      let hMesh := Object3D.set_userData
                     (Object3D.mkUserData (Some "H") (Some "Free water hydrogen")
                        (Some "δ+")) hMesh in
      ret (Object3D.add hMesh group))
    group hPositions ;;
  (* Label it as H2O initially *)
  s <- get ;;
  r <- alloc (Labels.createFreeLabel (Object3D.id oMesh) "H₂O" "label-o"
                group (allLabels s)) ;;
  let '(group, labels, _) := r in
  modify (set_allLabels labels) ;;
  ret group.

(** *** initStages(scene, camera, controls, complex, al, waters, bondsGroup)

    The scene, the camera and the controls are those of the world the
    state holds; the other arguments are references into its scene. *)
Definition initStages (complex al : nat) (waters : list nat) (bondsGroup : nat)
  : M State unit :=
  modify (set_refs (Some (mkRefs complex al waters bondsGroup))) ;;
  (* Snapshot every mesh position *)
  c <- deref complex ;;
  forEach (fun obj =>
      (if Object3D.isMesh obj || Object3D.isGroup obj then
         modify (fun s =>
           set_savedPositions
             (Map_set (Object3D.id obj) (Vector3.clone (Object3D.position obj))
                      (savedPositions s)) s)
       else ret tt) ;;
      match Object3D.isMesh obj, Object3D.material obj with
      | true, Some m =>
          modify (fun s =>
            set_savedMaterials (Map_set (Object3D.id obj) m (savedMaterials s)) s)
      | _, _ => ret tt
      end)
    (Object3D.traverse c) ;;
  (* Build the free water molecule (hidden) *)
  fw <- buildFreeWater ;;
  modify (set_freeWater (Some (Object3D.id fw))) ;;
  let fw := Object3D.set_visible false fw in
  modify (fun s =>
    set_world (World.set_scene (Object3D.add fw (scene s)) (world s)) s) ;;
  updateDescription (JsNumber.Num 0).

(** *** Stage 0: reset to original positions *)

Definition stageComplex : M State unit :=
  tl <- gsap_timeline ;;
  modify (set_activeTimeline (Some tl)) ;;
  (* Restore visibility *)
  complex <- ref _complex ;;
  assign complex (Object3D.set_visible true) ;;
  bondsGroup <- ref _bondsGroup ;;
  assign bondsGroup (Object3D.set_visible true) ;;
  freeWater <- the _freeWater ;;
  assign freeWater (Object3D.set_visible false) ;;
  (* Animate all meshes back to saved positions *)
  c <- deref complex ;;
  forEach (fun obj =>
      s <- get ;;
      (if (Object3D.isMesh obj || Object3D.isGroup obj)
          && Map_has (Object3D.id obj) (savedPositions s)
       then
         match Map_get (Object3D.id obj) (savedPositions s) with
         | Some saved =>
             tl_to tl
               (tween (ObjPosition (Object3D.id obj))
                  (xyz (Vector3.x saved) (Vector3.y saved) (Vector3.z saved))
                  1.0 "power2.inOut") 0
         | None => throw (TypeError "Cannot read properties of undefined")
         end
       else ret tt) ;;
      (* Restore materials *)
      (if Object3D.isMesh obj && Map_has (Object3D.id obj) (savedMaterials s)
       then
         match Map_get (Object3D.id obj) (savedMaterials s) with
         | Some m => assign (Object3D.id obj) (Object3D.set_material m)
         | None => ret tt
         end
       else ret tt))
    (Object3D.traverse c) ;;
  (* Reset complex scale *)
  tl_to tl (tween (ObjScale complex) (xyz 1 1 1) 0.8 "power2.inOut") 0 ;;
  (* Camera back to default *)
  tl_to tl (tween CameraPosition (xyz 4 3 5) 1.2 "power2.inOut") 0 ;;
  tl_to tl (mkTween ControlsTarget (xyz 0 0 0) 1.2 "power2.inOut" 0 false
                    (Some controls_update)) 0.

(** *** Stage 1: explode outward *)

Definition stageDissolution : M State unit :=
  tl <- gsap_timeline ;;
  modify (set_activeTimeline (Some tl)) ;;
  freeWater <- the _freeWater ;;
  assign freeWater (Object3D.set_visible false) ;;
  (* Restore materials first *)
  complex <- ref _complex ;;
  restoreMaterials complex ;;
  (* Phase 1: slight shake *)
  tl_to tl (mkTween (ObjPosition complex) [("x", Rel 0.05)] 0.08 "none" 5 true None) 0 ;;
  (* Phase 2: each water group explodes outward along its axis *)
  waters <- the (fun s => option_map _waters (refs s)) ;;
  foldM (fun (i : nat) water =>
      w <- deref water ;;
      match Object3D.find_child (fun c => String.eqb (Object3D.name c) "O") w with
      | None => ret (S i)                                      (* return *)
      | Some oxygen =>
          let dir := Vector3.normalize (Vector3.clone (Object3D.position oxygen)) in
          r <- Math_random ;;
          let explodeDist := 3.5 + r * 1.5 in
          tl_to tl
            (tween (ObjPosition water)
               (xyz (Vector3.x dir * explodeDist) (Vector3.y dir * explodeDist)
                    (Vector3.z dir * explodeDist))
               1.4 "power3.out") (0.5 + INR i * 0.08) ;;
          (* Slight tumble rotation *)
          rx <- Math_random ;;
          ry <- Math_random ;;
          tl_to tl
            (tween (ObjRotation water)
               [("x", Abs ((rx - 0.5) * 2)); ("y", Abs ((ry - 0.5) * 2))]
               1.4 "power2.out") (0.5 + INR i * 0.08) ;;
          ret (S i)
      end)
    0%nat waters ;;
  (* Fade bonds *)
  bondsGroup <- ref _bondsGroup ;;
  tl_to tl (tween (Obj bondsGroup) [("visible", Flag true)] 0 default_ease) 0 ;;
  tl_call tl (set_bonds_visible false) 1.0 ;;
  (* Camera pull back *)
  tl_to tl (tween CameraPosition (xyz 6 5 8) 1.6 "power2.inOut") 0.3.

(** *** Stage 2: waters converge onto Al *)

Definition stageHydration : M State unit :=
  tl <- gsap_timeline ;;
  modify (set_activeTimeline (Some tl)) ;;
  freeWater <- the _freeWater ;;
  assign freeWater (Object3D.set_visible false) ;;
  complex <- ref _complex ;;
  assign complex (Object3D.set_visible true) ;;
  (* Restore materials *)
  restoreMaterials complex ;;
  (* First scatter waters outward *)
  waters <- the (fun s => option_map _waters (refs s)) ;;
  forEach (fun water =>
      w <- deref water ;;
      match Object3D.find_child (fun c => String.eqb (Object3D.name c) "O") w with
      | None => ret tt
      | Some oxygen =>
          let dir := Vector3.normalize (Vector3.clone (Object3D.position oxygen)) in
          assign water
            (Object3D.set_position (Vector3.copy (Vector3.multiplyScalar dir 5))) ;;
          rx <- Math_random ;;
          ry <- Math_random ;;
          rz <- Math_random ;;
          assign water
            (Object3D.set_rotation
               (Vector3.new ((rx - 0.5) * 3) ((ry - 0.5) * 3) ((rz - 0.5) * 3)))
      end)
    waters ;;
  bondsGroup <- ref _bondsGroup ;;
  assign bondsGroup (Object3D.set_visible false) ;;
  (* Camera reset *)
  tl_to tl (tween CameraPosition (xyz 4 3 5) 1.0 "power2.inOut") 0 ;;
  (* Animate each water converging to its octahedral position *)
  foldM (fun (i : nat) water =>
      s <- get ;;
      let saved := match Map_get water (savedPositions s) with
                   | Some v => v
                   | None => Vector3.zero
                   end in
      tl_to tl
        (tween (ObjPosition water)
           (xyz (Vector3.x saved) (Vector3.y saved) (Vector3.z saved))
           1.6 "power2.inOut") (0.3 + INR i * 0.15) ;;
      tl_to tl
        (tween (ObjRotation water) (xyz 0 0 0) 1.2 "power2.inOut")
        (0.5 + INR i * 0.15) ;;
      ret (S i))
    0%nat waters ;;
  (* Show bonds after waters arrive *)
  tl_call tl (set_bonds_visible true) 2.2.

(** *** Stage 3: hydrolysis *)

Definition stageHydrolysis : M State unit :=
  tl <- gsap_timeline ;;
  modify (set_activeTimeline (Some tl)) ;;
  (* Reset to complex state first *)
  complex <- ref _complex ;;
  c <- deref complex ;;
  forEach (fun obj =>
      s <- get ;;
      (if (Object3D.isMesh obj || Object3D.isGroup obj)
          && Map_has (Object3D.id obj) (savedPositions s)
       then
         match Map_get (Object3D.id obj) (savedPositions s) with
         | Some saved =>
             assign (Object3D.id obj) (Object3D.set_position (Vector3.copy saved))
         | None => throw (TypeError "Cannot read properties of undefined")
         end
       else ret tt) ;;
      (if Object3D.isGroup obj && String.eqb (Object3D.name obj) "Water"
       then assign (Object3D.id obj) (Object3D.set_rotation (Vector3.new 0 0 0))
       else ret tt) ;;
      (if Object3D.isMesh obj && Map_has (Object3D.id obj) (savedMaterials s)
       then
         match Map_get (Object3D.id obj) (savedMaterials s) with
         | Some m => assign (Object3D.id obj) (Object3D.set_material m)
         | None => ret tt
         end
       else ret tt))
    (Object3D.traverse c) ;;
  assign complex (Object3D.set_position (Vector3.new 0 0 0)) ;;
  bondsGroup <- ref _bondsGroup ;;
  assign bondsGroup (Object3D.set_visible true) ;;
  (* Pick the target water (index 0 = +x direction) and its H1 *)
  waters <- the (fun s => option_map _waters (refs s)) ;;
  targetWater <- the (fun _ => nth_error waters 0) ;;
  w <- deref targetWater ;;
  let targetO :=
    Object3D.find_child (fun c => String.eqb (Object3D.name c) "O") w in
  let targetH :=
    Object3D.find_child (fun c => String.eqb (Object3D.name c) "H1") w in
  match targetO, targetH with
  | Some targetO, Some targetH =>
      let targetO := Object3D.id targetO in
      let targetH := Object3D.id targetH in
      (* Show and position free water molecule *)
      freeWater <- the _freeWater ;;
      assign freeWater (Object3D.set_visible true) ;;
      assign freeWater (Object3D.set_position (Vector3.new 4.5 0.3 0.5)) ;;
      (* Camera: zoom in on the +x water *)
      tl_to tl (tween CameraPosition (xyz 3.5 1.5 3) 1.5 "power2.inOut") 0 ;;
      tl_to tl (mkTween ControlsTarget (xyz 1.5 0 0) 1.5 "power2.inOut" 0 false
                        (Some controls_update)) 0 ;;
      (* Phase 1: electron density glow builds on target O *)
      glowMat <- alloc (createElectronDensityVariant oxygenMaterial 0) ;;
      tl_call tl (set_glow targetO glowMat) 1.0 ;;
      tl_to tl (tween (Mat (material_id glowMat)) [("emissiveIntensity", Abs 0.8)]
                      2.0 "power1.in") 1.2 ;;
      (* Also pulse the Al emissive *)
      al <- ref _al ;;
      a <- deref al ;;
      match Object3D.material a with
      | Some alMat =>
          tl_to tl (tween (Mat (material_id alMat)) [("emissiveIntensity", Abs 0.3)]
                          1.5 "power1.in") 1.5
      | None => ret tt                      (* GSAP ignores an undefined target *)
      end ;;
      (* Phase 2: H detaches from the complex *)
      tl_call tl (detach targetH) 3.2 ;;
      (* Move H toward the free water *)
      fw <- deref freeWater ;;
      let freeWaterOxygen :=
        option_map Object3D.id
          (Object3D.find_child
             (fun c => String.eqb (Object3D.name c) "O_free") fw) in
      tl_call tl (locate_free_oxygen freeWaterOxygen) 3.3 ;;
      tl_to tl
        (tween (ObjPosition targetH)
           [("x", Deferred freeOPos "x" 0.5); ("y", Deferred freeOPos "y" 0.4);
            ("z", Deferred freeOPos "z" 0)]
           1.2 "power2.in") 3.4 ;;
      (* Phase 3: label the products *)
      tl_call tl label_hydronium 4.8
  | _, _ => ret tt                                             (* return *)
  end.

(** *** goToStage(stage) *)

(** The block of [goToStage] under "Kill any running timeline". *)
Definition killActiveTimeline : M State unit :=
  s <- get ;;
  match _activeTimeline s with
  | Some tl => tl_kill tl ;; modify (set_activeTimeline None)
  | None => ret tt
  end.

(** The stage function the [switch] of [goToStage] selects, if any. *)
Definition stageFunction (stage : JsNumber.t) : option (M State unit) :=
  match stage with
  | JsNumber.Num 0 => Some stageComplex
  | JsNumber.Num 1 => Some stageDissolution
  | JsNumber.Num 2 => Some stageHydration
  | JsNumber.Num 3 => Some stageHydrolysis
  | _ => None
  end.

Definition goToStage (stage : JsNumber.t) : M State unit :=
  killActiveTimeline ;;
  updateDescription stage ;;
  match stageFunction stage with
  | Some stageFn => stageFn
  | None => ret tt
  end.

(** *** The closures, run *)

Definition set_local (tl : nat) (l : Local) (v : Vector3.t) : M State unit :=
  on_timeline tl (Gsap.set_local l v).

Definition worldPositionOf (r : nat) : M State Vector3.t :=
  s <- get ;;
  match Object3D.getWorldPosition r (scene s) with
  | Some p => ret p
  | None => throw (TypeError "the object is not in the scene graph")
  end.

(** The body of closure [cb] of the timeline [tl]. *)
Definition run_callback (tl : nat) (cb : Callback) : M State unit :=
  match cb with
  | controls_update =>
      (* OrbitControls.update() re-aims the camera at the target and
         moves it on its orbit; what three.js does there is left out, the
         camera stays where the tween has put it. *)
      ret tt
  | set_bonds_visible b =>
      bondsGroup <- ref _bondsGroup ;;
      assign bondsGroup (Object3D.set_visible b)
  | set_glow targetO glowMat =>
      assign targetO (Object3D.set_material glowMat)
  | detach targetH =>
      p <- worldPositionOf targetH ;;
      set_local tl hWorldPos p ;;
      (* Reparent H to scene so it can move independently *)
      modify (fun s =>
        set_world (World.set_scene (Object3D.attach targetH (scene s)) (world s)) s)
  | locate_free_oxygen freeWaterOxygen =>
      match freeWaterOxygen with
      | Some o => p <- worldPositionOf o ;; set_local tl freeOPos p
      | None =>
          freeWater <- the _freeWater ;;
          fw <- deref freeWater ;;
          set_local tl freeOPos (Vector3.copy (Object3D.position fw))
      end
  | label_hydronium =>
      freeWater <- the _freeWater ;;
      fw <- deref freeWater ;;
      match Object3D.find_child
              (fun c => String.eqb (Object3D.name c) "O_free") fw with
      | Some freeO =>
          (* Remove existing label if any *)
          match Object3D.find_child
                  (fun c => String.eqb (Object3D.name c) "label") freeO with
          | Some oldLabel =>
              modify (fun s =>
                set_world
                  (World.set_scene
                     (Object3D.remove (Object3D.id oldLabel) (scene s))
                     (world s)) s)
          | None => ret tt
          end ;;
          s <- get ;;
          r <- alloc (Labels.createFreeLabel (Object3D.id freeO) "H₃O⁺"
                        "label-hydronium" (scene s) (allLabels s)) ;;
          let '(sc, labels, _) := r in
          modify (fun s => set_world (World.set_scene sc (world s)) s) ;;
          modify (set_allLabels labels)
      | None => ret tt
      end
  end.

(** *** Animation frames *)

(** What a frame of a tween stores in a property. *)
Inductive Written := Number (v : R) | Boolean (b : bool).

Definition set_axis (axis : string) (v : R) (p : Vector3.t) : Vector3.t :=
  if String.eqb axis "x" then Vector3.new v (Vector3.y p) (Vector3.z p)
  else if String.eqb axis "y" then Vector3.new (Vector3.x p) v (Vector3.z p)
  else if String.eqb axis "z" then Vector3.new (Vector3.x p) (Vector3.y p) v
  else p.

(** One property of a tween's target written by one frame.  The
    parameters of a material are not tracked after its construction (a
    material is told apart by its identity only), so a frame of a tween on
    a material leaves the state as it is. *)
Definition write (t : Target) (prop : string) (w : Written) : M State unit :=
  match t, w with
  | ObjPosition r, Number v =>
      assign r (fun o =>
        Object3D.set_position (set_axis prop v (Object3D.position o)) o)
  | ObjRotation r, Number v =>
      assign r (fun o =>
        Object3D.set_rotation (set_axis prop v (Object3D.rotation o)) o)
  | ObjScale r, Number v =>
      assign r (fun o =>
        Object3D.set_scale (set_axis prop v (Object3D.scale o)) o)
  | Obj r, Boolean b =>
      if String.eqb prop "visible" then assign r (Object3D.set_visible b)
      else ret tt
  | CameraPosition, Number v =>
      modify (fun s =>
        set_world
          (World.set_camera
             (World.set_camera_position
                (set_axis prop v (World.position (World.camera (world s))))
                (World.camera (world s)))
             (world s)) s)
  | ControlsTarget, Number v =>
      modify (fun s =>
        set_world
          (World.set_controls
             (World.set_target
                (set_axis prop v (World.target (World.controls (world s))))
                (World.controls (world s)))
             (world s)) s)
  | _, _ => ret tt
  end.

(** A frame writes a flag as the tween states it, and any number to a
    numeric property: the easing is not modelled. *)
Definition may_write (goal : Value) (w : Written) : Prop :=
  match goal, w with
  | Flag b, Boolean b' => b = b'
  | Flag _, Number _ => False
  | _, Number _ => True
  | _, Boolean _ => False
  end.

(** A timeline plays until it is killed. *)
Definition playing (tl : nat) (t : Timeline) (s : State) : Prop :=
  nth_error (timelines s) tl = Some t /\ killed t = false.

(** The states the module goes through once [initStages] has run: calls
    of [goToStage], and what GSAP does on a frame with the children of a
    timeline that plays (calls a scheduled closure, writes a tweened
    property, calls an [onUpdate]). *)
Inductive reachable (init : State) : State -> Prop :=
| reach_init : reachable init init
| reach_goToStage s stage :
    reachable init s -> reachable init (exec (goToStage stage) s)
| reach_call s tl t cb position :
    reachable init s -> playing tl t s ->
    In (Call cb position) (entries t) ->
    reachable init (exec (run_callback tl cb) s)
| reach_write s tl t tw position prop goal w :
    reachable init s -> playing tl t s ->
    In (To tw position) (entries t) ->
    In (prop, goal) (vars tw) -> may_write goal w ->
    reachable init (exec (write (target tw) prop w) s)
| reach_onUpdate s tl t tw position cb :
    reachable init s -> playing tl t s ->
    In (To tw position) (entries t) ->
    onUpdate tw = Some cb ->
    reachable init (exec (run_callback tl cb) s).

(** What cancellation is about: which timelines are killed, and the
    module's reference to the timeline in flight. *)
Definition cancellation (s : State) : list bool * option nat :=
  (map (@killed Callback) (timelines s), _activeTimeline s).

(** The invariant of cancellation: a timeline that has not been killed
    is the one [_activeTimeline] refers to. *)
Definition one_timeline (s : State) : Prop :=
  forall i t, nth_error (timelines s) i = Some t -> killed t = false ->
              _activeTimeline s = Some i.

(** A stage function creates one timeline, makes it the active one, and
    from there on leaves the cancellation state alone. *)
Definition opens_one_timeline (f : M State unit) : Prop :=
  exists rest : nat -> M State unit,
    f = (tl <- gsap_timeline ;; modify (set_activeTimeline (Some tl)) ;; rest tl)
    /\ forall tl, keeps cancellation (rest tl).

(** [goToStage] runs a stage function for these stage values. *)
Definition has_stage_function (stage : JsNumber.t) : bool :=
  match stageFunction stage with Some _ => true | None => false end.

(** What a playing timeline will still do: the children of every
    timeline and whether it is killed, and the active reference. *)
Definition schedule (s : State)
  : list (list (Gsap.Entry Callback) * bool) * option nat :=
  (map (fun t : Timeline => (entries t, killed t)) (timelines s),
   _activeTimeline s).

(** The closures scheduled on a timeline, in the order of scheduling. *)
Definition calls (t : Timeline) : list Callback :=
  flat_map (fun e => match e with
                     | Call cb _ => [cb]
                     | To _ _ => []
                     end) (entries t).

(** The state after the first [n] closures scheduled on timeline [tl]
    have run, in order. *)
Definition fire (tl n : nat) (s : State) : State :=
  match nth_error (timelines s) tl with
  | Some t =>
      fold_left (fun s cb => exec (run_callback tl cb) s) (firstn n (calls t)) s
  | None => s
  end.

(** The object references the position tweens of timeline [tl] animate. *)
Definition position_tweens (tl : nat) (s : State) : list nat :=
  match nth_error (timelines s) tl with
  | Some t =>
      flat_map (fun e => match e with
                         | To tw _ => match target tw with
                                      | ObjPosition r => [r]
                                      | _ => []
                                      end
                         | Call _ _ => []
                         end) (entries t)
  | None => []
  end.

(** The timelines of the module that have not been killed. *)
Definition unkilled (s : State) : list nat :=
  filter (fun i => match nth_error (timelines s) i with
                   | Some t => negb (killed t)
                   | None => false
                   end)
         (seq 0 (List.length (timelines s))).

(** The tweens of timeline [tl] whose target is [t]. *)
Definition tweens_on (t : Target -> bool) (tl : nat) (s : State) : list Tween :=
  match nth_error (timelines s) tl with
  | Some line =>
      flat_map (fun e => match e with
                         | To tw _ => if t (target tw) then [tw] else []
                         | Call _ _ => []
                         end) (entries line)
  | None => []
  end.

Definition is_position_of (r : nat) (t : Target) : bool :=
  match t with ObjPosition r' => Nat.eqb r r' | _ => false end.

(** The callback [initStages] passes to [_complex.traverse]. *)
Definition snapshot (obj : Object3D.t) : M State unit :=
  (if Object3D.isMesh obj || Object3D.isGroup obj then
     modify (fun s =>
       set_savedPositions
         (Map_set (Object3D.id obj) (Vector3.clone (Object3D.position obj))
                  (savedPositions s)) s)
   else ret tt) ;;
  match Object3D.isMesh obj, Object3D.material obj with
  | true, Some m =>
      modify (fun s =>
        set_savedMaterials (Map_set (Object3D.id obj) m (savedMaterials s)) s)
  | _, _ => ret tt
  end.

(** A node carries the material saved for it, if one is saved. *)
Definition carries_saved_material (s : State) (n : Object3D.t) : Prop :=
  forall m, Map_get (Object3D.id n) (savedMaterials s) = Some m ->
            Object3D.material n = Some m.

(** The child of [o] that [o.children.find(c => c.name === nm)] returns. *)
Definition child_named (nm : string) (o : Object3D.t) : option Object3D.t :=
  Object3D.find_child (fun c => String.eqb (Object3D.name c) nm) o.

(** What the module knows about the objects: the shape of the scene
    graph, the saved positions and materials, the references set by
    [initStages], the free water and the list of labels. *)
Definition structure (s : State) :=
  (Object3D.skeleton (scene s), savedPositions s, savedMaterials s,
   refs s, _freeWater s, allLabels s).

(** The closures that change the shape of the scene graph. *)
Definition reshapes (cb : Callback) : bool :=
  match cb with
  | detach _ | label_hydronium => true
  | _ => false
  end.

(** The meshes [_complex.traverse] visits: the meshes among the object
    [complex] refers to and its descendants. *)
Definition meshes_below (complex : nat) (s : State) : list Object3D.t :=
  match Object3D.getObjectById complex (scene s) with
  | Some c => filter Object3D.isMesh (Object3D.traverse c)
  | None => []
  end.

(** Every mesh of the scene with identity [j] carries its saved material. *)
Definition restored_at (j : nat) (s : State) : Prop :=
  forall n, In n (Object3D.traverse (scene s)) -> Object3D.id n = j ->
            Object3D.isMesh n = true -> carries_saved_material s n.

(** The material of every object of the scene, and the saved materials. *)
Definition materials_table (s : State)
  : list (nat * bool * option Material) * list (nat * Material) :=
  (map (fun n => (Object3D.id n, Object3D.isMesh n, Object3D.material n))
       (Object3D.traverse (scene s)),
   savedMaterials s).

(** An assignment to an object that leaves its identity, kind, children
    and material alone. *)
Definition keeps_material (f : Object3D.t -> Object3D.t) : Prop :=
  Object3D.keeps_shape f /\ forall n, Object3D.material (f n) = Object3D.material n.

(** The objects [_complex.traverse] visits. *)
Definition objects_below (complex : nat) (s : State) : list Object3D.t :=
  match Object3D.getObjectById complex (scene s) with
  | Some c => Object3D.traverse c
  | None => []
  end.

(** The children of timeline [tl] and whether it is killed. *)
Definition line_of (tl : nat) (s : State)
  : option (list (Gsap.Entry Callback) * bool) :=
  option_map (fun t : Timeline => (entries t, killed t))
             (nth_error (timelines s) tl).

(** The tween that takes a mesh or a group back to its saved position in
    one second, for an object that has a saved position. *)
Definition saved_position_tween (saved : list (nat * Vector3.t))
    (obj : Object3D.t) : list (Gsap.Entry Callback) :=
  match Object3D.isMesh obj || Object3D.isGroup obj,
        Map_get (Object3D.id obj) saved with
  | true, Some p =>
      [To (tween (ObjPosition (Object3D.id obj))
                 (xyz (Vector3.x p) (Vector3.y p) (Vector3.z p))
                 1.0 "power2.inOut") 0]
  | _, _ => []
  end.

(** The two tweens that take the water of index [i] back in stage 2. *)
Definition converge (saved : list (nat * Vector3.t)) (iw : nat * nat)
  : list (Gsap.Entry Callback) :=
  let (i, water) := iw in
  let p := match Map_get water saved with
           | Some v => v
           | None => Vector3.zero
           end in
  [ To (tween (ObjPosition water)
              (xyz (Vector3.x p) (Vector3.y p) (Vector3.z p))
              1.6 "power2.inOut") (0.3 + INR i * 0.15);
    To (tween (ObjRotation water) (xyz 0 0 0) 1.2 "power2.inOut")
       (0.5 + INR i * 0.15) ].

(** When a child of a timeline is over: a tween at its position plus its
    duration, a call at its position. *)
Definition ends_at (e : Gsap.Entry Callback) : R :=
  match e with
  | To tw position => position + duration tw
  | Call _ position => position
  end.

(** [water.children.find(c => c.name === 'O').position]. *)
Definition oxygen_position (water : nat) (s : State) : option Vector3.t :=
  match Object3D.getObjectById water (scene s) with
  | Some w => option_map Object3D.position (child_named "O" w)
  | None => None
  end.

(** For every object of the scene, the names and the positions of its
    children. *)
Definition anatomy (s : State)
  : list (nat * list (string * Vector3.t)) :=
  map (fun n => (Object3D.id n,
                 map (fun c => (Object3D.name c, Object3D.position c))
                     (Object3D.children n)))
      (Object3D.traverse (scene s)).

(** An assignment to an object that leaves its identity, kind, name,
    children and position alone. *)
Definition keeps_position (f : Object3D.t -> Object3D.t) : Prop :=
  Object3D.keeps_shape f
  /\ forall n, Object3D.position (f n) = Object3D.position n.

(** The tween of stage 1 that throws the water of index [i], whose oxygen
    sits at [p] in the water, [d] units out along the direction of [p]. *)
Definition explode_tween (water : nat) (p : Vector3.t) (d : R) (i : nat)
  : Gsap.Entry Callback :=
  let dir := Vector3.normalize (Vector3.clone p) in
  To (tween (ObjPosition water)
            (xyz (Vector3.x dir * d) (Vector3.y dir * d) (Vector3.z dir * d))
            1.4 "power3.out")
     (0.5 + INR i * 0.08).

(** [Math.random()] returns numbers from 0 (included) to 1 (excluded). *)
Definition random_in_range (s : State) : Prop :=
  forall n, 0 <= entropy s n < 1.

(** What the early return of stage 3 depends on and what it leaves: the
    shape of the scene graph, the references, and the timelines. *)
Definition standing (s : State) :=
  (Object3D.skeleton (scene s), refs s, timelines s, _activeTimeline s,
   World.camera (world s), World.controls (world s)).

(** The code of the module that runs after [initStages]: a call of the
    entry point [goToStage], or GSAP calling a closure the module has
    scheduled on the timeline [tl]. *)
Inductive Event :=
| call_goToStage (stage : JsNumber.t)
| call_closure (tl : nat) (cb : Callback).

Definition dispatch (e : Event) : M State unit :=
  match e with
  | call_goToStage stage => goToStage stage
  | call_closure tl cb => run_callback tl cb
  end.

(** What the module finds around it: the world (scene, camera, controls),
    the stage description element, the timelines GSAP holds, and what
    [Math.random()] will return. *)
Definition surroundings (s : State) :=
  (world s, stageDesc s, timelines s, entropy s).

(** The mutable module-level variables of stages.js, and the list of
    labels that labels.js keeps. *)
Definition module_variables (s : State) :=
  (savedPositions s, savedMaterials s, refs s, _freeWater s,
   _activeTimeline s, allLabels s).

(** What running [e] in state [s] does, as far as the page and later
    calls can tell. *)
Definition behaviour (e : Event) (s : State) :=
  (returned (dispatch e s), surroundings (exec (dispatch e) s),
   module_variables (exec (dispatch e) s)).

(** What running [e] in state [s] does to what is around the module:
    whether it returns, and the world, the DOM and the timelines it
    leaves. *)
Definition effects (e : Event) (s : State) :=
  (returned (dispatch e s), surroundings (exec (dispatch e) s)).

End Stages.

(* ================================================================= *)
(** ** A page to run the program on

    The HTML page is an input of the program.  The examples below run the
    modules on a page that has the canvas, the info panel with its fields
    and close button, the stage description, and one button per stage. *)

Module Example.

Local Open Scope R_scope.

Definition window : Main.Window := Main.mkWindow 1280 720 1.

Definition canvas : Interaction.Rect := Interaction.mkRect 0 0 1280 720.

Definition field : Dom.Element := Dom.mkElement [] "".

Definition panel : Interaction.Panel :=
  Interaction.mkPanel (Some (Dom.mkElement ["hidden"] "")) (Some field)
    (Some field) (Some field) (Some field) (Some (Dom.mkElement [] "×")).

(** The same page without the element of id [info-title]. *)
Definition panel_without_title : Interaction.Panel :=
  Interaction.mkPanel (Some (Dom.mkElement ["hidden"] "")) None
    (Some field) (Some field) (Some field) (Some (Dom.mkElement [] "×")).

Definition stageButton (stage label : string) (classes : list string)
  : Main.StageButton :=
  Main.mkStageButton (Dom.mkElement ("stage-btn" :: classes) "")
    (Some stage) (Some (Dom.mkElement ["stage-label"] label)).

Definition buttons : list Main.StageButton :=
  [ stageButton "0" "Complex" ["active"];
    stageButton "1" "Dissolution" [];
    stageButton "2" "Hydration" [];
    stageButton "3" "Hydrolysis" [] ].

(** What sections 2 to 6 of main.js build, on fresh counters. *)
Definition built : Main.Built :=
  value_or
    (Main.mkBuilt
       (World.mk (Object3D.mk 0 Object3D.Scene "" Vector3.zero Vector3.zero
                    (Vector3.new 1 1 1) true Object3D.noUserData [])
                 (World.mkCamera Vector3.zero 0 0 0 0)
                 (World.mkControls Vector3.zero false 0 0 0 false 0)
                 (Ids.mk 0 0))
       0 0 [] 0)
    (Main.buildWorld window (Ids.mk 0 Materials.materials_loaded)).

Definition world : World.t := Main.built_world built.

(** interaction.js loaded on the page. *)
Definition interaction : Interaction.State :=
  Interaction.loaded world canvas panel.

Definition interaction_without_title : Interaction.State :=
  Interaction.loaded world canvas panel_without_title.

(** main.js loaded on the page. *)
Definition main : Main.State :=
  Main.mk interaction (Main.innerWidth window, Main.innerHeight window)
          (JsNumber.Num 0) buttons [].

(** A ray that crosses the objects listed in [targets], each at the
    distance given with it, whatever the pointer and the camera. *)
Definition ray_through (targets : list (nat * R))
  : Interaction.Vector2 -> World.Camera -> Object3D.t -> list R :=
  fun _ _ o =>
    map snd (filter (fun t => Nat.eqb (fst t) (Object3D.id o)) targets).

(** A page with a fifth stage button that has no [data-stage] attribute. *)
Definition main_with_unnumbered_button : Main.State :=
  Main.mk interaction (Main.innerWidth window, Main.innerHeight window)
          (JsNumber.Num 0)
          (buttons ++ [Main.mkStageButton (Dom.mkElement ["stage-btn"] "") None
                         (Some (Dom.mkElement ["stage-label"] "Extra"))])
          [].

(** The first oxygen of the complex and its first hydrogen. *)
Definition oxygen1 : nat := 8.
Definition hydrogen1 : nat := 9.

Definition click : Interaction.PointerEvent := Interaction.mkPointerEvent 640 360.

(** What [buildComplex] returns on fresh counters, and the counters after. *)
Definition nothing : Object3D.t :=
  Object3D.mk 0 Object3D.Scene "" Vector3.zero Vector3.zero
              (Vector3.new 1 1 1) true Object3D.noUserData [].

Definition complex : Atoms.Complex :=
  value_or (Atoms.mkComplex nothing 0 [])
           (Atoms.buildComplex (Ids.mk 0 Materials.materials_loaded)).

Definition complex_ids : Ids.t :=
  state_of (Atoms.buildComplex (Ids.mk 0 Materials.materials_loaded)).

(** stages.js loaded on the world of main.js, and then initialised. *)
Definition stages_loaded : Stages.State :=
  Stages.loaded world (Some (Dom.mkElement ["hidden"] "")) (fun _ => 0).

Definition stages : Stages.State :=
  exec (Stages.initStages (Main.complex built) (Main.al built)
          (Main.waters built) (Main.bondsGroup built))
       stages_loaded.

End Example.


(* ================================================================= *)
(** * Proofs *)

(** ** Vector algebra *)

Section VectorFacts.

Local Open Scope R_scope.
Import Vector3.

Lemma vector_ext (a b : Vector3.t) :
  x a = x b -> y a = y b -> z a = z b -> a = b.
Proof. destruct a, b; simpl; intros; subst; reflexivity. Qed.

Lemma lengthSq_nonneg (v : Vector3.t) : 0 <= lengthSq v.
Proof. unfold lengthSq. nra. Qed.

Lemma or_number_nonzero (a b : R) : a <> 0 -> or_number a b = a.
Proof. intros H. unfold or_number. destruct (Req_dec_T a 0); [contradiction | reflexivity]. Qed.

Lemma length_unit (v : Vector3.t) : lengthSq v = 1 -> length v = 1.
Proof. intros H. unfold length. rewrite H. apply sqrt_1. Qed.

Lemma lengthSq_of_length (v : Vector3.t) (l : R) :
  0 <= l -> length v = l -> lengthSq v = l * l.
Proof.
  intros Hl H. unfold length in H. subst l.
  symmetry. apply sqrt_sqrt, lengthSq_nonneg.
Qed.

Lemma normalize_unit (v : Vector3.t) : lengthSq v = 1 -> normalize v = v.
Proof.
  intros H. unfold normalize, divideScalar, multiplyScalar.
  rewrite (length_unit H), or_number_nonzero by lra.
  apply vector_ext; simpl; field.
Qed.

Lemma length_pos (v : Vector3.t) : 0 < lengthSq v -> 0 < length v.
Proof. intros H. unfold length. apply sqrt_lt_R0, H. Qed.

Lemma normalize_nonzero (v : Vector3.t) :
  0 < lengthSq v -> normalize v = multiplyScalar v (/ length v).
Proof.
  intros H. pose proof (length_pos H) as Hl.
  unfold normalize, divideScalar. rewrite or_number_nonzero by lra.
  f_equal. field. lra.
Qed.

Lemma lengthSq_multiplyScalar (v : Vector3.t) (s : R) :
  lengthSq (multiplyScalar v s) = s * s * lengthSq v.
Proof. unfold lengthSq, multiplyScalar; simpl; ring. Qed.

Lemma lengthSq_normalize (v : Vector3.t) :
  0 < lengthSq v -> lengthSq (normalize v) = 1.
Proof.
  intros H. rewrite (normalize_nonzero H), lengthSq_multiplyScalar.
  pose proof (length_pos H) as Hl.
  assert (Hs : lengthSq v = length v * length v).
  { unfold length. symmetry. apply sqrt_sqrt. lra. }
  rewrite Hs. field. lra.
Qed.

Lemma length_multiplyScalar_unit (v : Vector3.t) (s : R) :
  lengthSq v = 1 -> 0 <= s -> length (multiplyScalar v s) = s.
Proof.
  intros Hv Hs. unfold length. rewrite lengthSq_multiplyScalar, Hv.
  replace (s * s * 1) with (s * s) by ring. apply sqrt_square, Hs.
Qed.

Lemma dot_multiplyScalar_r (a b : Vector3.t) (s : R) :
  dot a (multiplyScalar b s) = s * dot a b.
Proof. unfold dot, multiplyScalar; simpl; ring. Qed.

Lemma dot_multiplyScalar_both (a b : Vector3.t) (s u : R) :
  dot (multiplyScalar a s) (multiplyScalar b u) = s * u * dot a b.
Proof. unfold dot, multiplyScalar; simpl; ring. Qed.

Lemma dot_cross_self (a b : Vector3.t) : dot a (crossVectors a b) = 0.
Proof. unfold dot, crossVectors; simpl; ring. Qed.

(** Lagrange's identity. *)
Lemma lengthSq_cross (a b : Vector3.t) :
  lengthSq (crossVectors a b) = lengthSq a * lengthSq b - dot a b * dot a b.
Proof. unfold lengthSq, crossVectors, dot; simpl; ring. Qed.

Lemma sub_addScaledVector (p d : Vector3.t) (s : R) :
  sub (addScaledVector p d s) p = multiplyScalar d s.
Proof. apply vector_ext; simpl; ring. Qed.

Lemma applyEuler_zero (v : Vector3.t) : applyEuler v zero = v.
Proof.
  unfold applyEuler, zero; simpl. rewrite cos_0, sin_0.
  apply vector_ext; simpl; ring.
Qed.

Lemma multiply_one (v : Vector3.t) : multiply v (new 1 1 1) = v.
Proof. apply vector_ext; simpl; ring. Qed.

Lemma add_zero_l (v : Vector3.t) : add zero v = v.
Proof. apply vector_ext; simpl; ring. Qed.

Lemma sub_zero_r (v : Vector3.t) : sub v zero = v.
Proof. apply vector_ext; simpl; ring. Qed.

End VectorFacts.

(** ** atoms.js: the local frame of a water molecule *)

Section WaterFrame.

Local Open Scope R_scope.
Import Vector3 Atoms.

Variable direction : Vector3.t.
Hypothesis unit_direction : lengthSq direction = 1.

Lemma zAxis_of_unit : zAxis_of direction = direction.
Proof. unfold zAxis_of, clone. apply normalize_unit, unit_direction. Qed.

(** The cross product with the chosen helper vector never vanishes. *)
Lemma cross_arbitrary_nonzero :
  0 < lengthSq (crossVectors direction (arbitrary_of direction)).
Proof.
  rewrite lengthSq_cross, unit_direction.
  unfold arbitrary_of.
  destruct (Rgt_dec (Rabs (dot direction (new 0 1 0))) 0.99) as [Hgt | Hle].
  - (* nearly parallel to the y axis: the helper is the x axis *)
    unfold dot, lengthSq in *; simpl in *.
    assert (Hy : 0.99 * 0.99 < y direction * y direction).
    { replace (x direction * 0 + y direction * 1 + z direction * 0)
        with (y direction) in Hgt by ring.
      unfold Rabs in Hgt. destruct (Rcase_abs (y direction)); nra. }
    nra.
  - unfold dot, lengthSq in *; simpl in *.
    replace (x direction * 0 + y direction * 1 + z direction * 0)
      with (y direction) in * by ring.
    assert (Hy : y direction * y direction <= 0.99 * 0.99).
    { unfold Rabs in Hle. destruct (Rcase_abs (y direction)); nra. }
    nra.
Qed.

Lemma xAxis_unit : lengthSq (xAxis_of direction) = 1.
Proof. apply lengthSq_normalize, cross_arbitrary_nonzero. Qed.

Lemma xAxis_orthogonal : dot direction (xAxis_of direction) = 0.
Proof.
  unfold xAxis_of. rewrite (normalize_nonzero cross_arbitrary_nonzero).
  rewrite dot_multiplyScalar_r, dot_cross_self. ring.
Qed.

Lemma hRaw_lengthSq (halfAngle : R) (i : nat) :
  lengthSq (hRaw_of direction (xAxis_of direction) halfAngle i) = 1.
Proof.
  pose proof xAxis_unit as Hx. pose proof xAxis_orthogonal as Ho.
  pose proof unit_direction as Hz.
  pose proof (sin2_cos2 (PI - halfAngle)) as Hcs. unfold Rsqr in Hcs.
  unfold hRaw_of, clone.
  revert Hcs. generalize (cos (PI - halfAngle)) (sin (PI - halfAngle)).
  intros c s Hcs.
  destruct (Nat.eqb i 0).
  - replace (lengthSq _) with
      (c * c * lengthSq direction + 2 * c * s * dot direction (xAxis_of direction)
       + s * s * lengthSq (xAxis_of direction))
      by (unfold lengthSq, dot, addScaledVector, zero; simpl; ring).
    rewrite Hx, Ho, Hz. lra.
  - replace (lengthSq _) with
      (c * c * lengthSq direction - 2 * c * s * dot direction (xAxis_of direction)
       + s * s * lengthSq (xAxis_of direction))
      by (unfold lengthSq, dot, addScaledVector, negate, zero; simpl; ring).
    rewrite Hx, Ho, Hz. lra.
Qed.

Lemma hRaw_dot (halfAngle : R) :
  dot (hRaw_of direction (xAxis_of direction) halfAngle 0)
      (hRaw_of direction (xAxis_of direction) halfAngle 1)
  = cos (2 * halfAngle).
Proof.
  pose proof xAxis_unit as Hx. pose proof unit_direction as Hz.
  rewrite cos_2a.
  assert (Hc : cos (PI - halfAngle) = - cos halfAngle).
  { replace (PI - halfAngle) with (- halfAngle + PI) by ring.
    rewrite neg_cos, <- cos_sym. reflexivity. }
  pose proof (sin_PI_x halfAngle) as Hs.
  unfold hRaw_of, clone. simpl Nat.eqb. cbv iota.
  rewrite Hc, Hs.
  generalize (cos halfAngle) (sin halfAngle). intros c s.
  replace (dot _ _) with
    (c * c * lengthSq direction - s * s * lengthSq (xAxis_of direction))
    by (unfold lengthSq, dot, addScaledVector, negate, zero; simpl; ring).
  rewrite Hx, Hz. ring.
Qed.

Lemma hDir_of_unit (halfAngle : R) (i : nat) :
  hDir_of direction (xAxis_of direction) halfAngle i
  = hRaw_of direction (xAxis_of direction) halfAngle i.
Proof. unfold hDir_of. apply normalize_unit, hRaw_lengthSq. Qed.

Lemma hDir_lengthSq (halfAngle : R) (i : nat) :
  lengthSq (hDir_of direction (xAxis_of direction) halfAngle i) = 1.
Proof. rewrite hDir_of_unit. apply hRaw_lengthSq. Qed.

Lemma hDir_dot (halfAngle : R) :
  dot (hDir_of direction (xAxis_of direction) halfAngle 0)
      (hDir_of direction (xAxis_of direction) halfAngle 1)
  = cos (2 * halfAngle).
Proof. rewrite !hDir_of_unit. apply hRaw_dot. Qed.

End WaterFrame.


(** ** atoms.js: what the constructors return *)

(** Decides the id comparisons a dereference makes on symbolic counters. *)
Ltac decide_eqb :=
  repeat match goal with
  | |- context [Nat.eqb ?a ?b] =>
      first [ rewrite (proj2 (Nat.eqb_eq a b)) by lia
            | rewrite (proj2 (Nat.eqb_neq a b)) by lia ]
  end.

(** Runs the monad and the object constructors, leaving arithmetic alone. *)
Ltac run_constructors :=
  cbv [bind ret foldM Object3D.new Materials.clone Materials.new_Material
       Ids.freshObjectId Ids.freshMaterialId Ids.nextObjectId Ids.nextMaterialId
       Object3D.add Object3D.set_name Object3D.set_userData Object3D.set_position
       Object3D.set_children Object3D.children Object3D.id Object3D.kind
       Object3D.name Object3D.position Object3D.rotation Object3D.scale
       Object3D.visible Object3D.userData Vector3.clone Vector3.copy app
       Atoms.createWaterMolecule Atoms.createAlCenter Atoms.buildComplex
       Atoms.OCTA_DIRS Atoms.complex Atoms.al Atoms.waters];
  simpl.

Section AtomsResults.

Local Open Scope R_scope.
Import Atoms.

Lemma createWaterMolecule_returns (direction : Vector3.t) (n m : nat) :
  exists o h1 h2,
    createWaterMolecule direction (Ids.mk n m)
    = Ok (Object3D.mk n Object3D.Group "Water" Vector3.zero Vector3.zero
            (Vector3.new 1 1 1) true Object3D.noUserData [o; h1; h2])
         (Ids.mk (4 + n) (3 + m))
    /\ (Object3D.id o = 1 + n /\ Object3D.id h1 = 2 + n /\ Object3D.id h2 = 3 + n)%nat
    /\ (Object3D.name o = "O" /\ Object3D.name h1 = "H1" /\ Object3D.name h2 = "H2")
    /\ (Object3D.isMesh o = true /\ Object3D.isMesh h1 = true
        /\ Object3D.isMesh h2 = true)
    /\ (Object3D.children o = [] /\ Object3D.children h1 = []
        /\ Object3D.children h2 = [])
    /\ Object3D.position o = Vector3.multiplyScalar direction R_AL_O
    /\ Object3D.position h1
       = Vector3.addScaledVector (Vector3.multiplyScalar direction R_AL_O)
           (hDir_of (zAxis_of direction) (xAxis_of (zAxis_of direction))
              (H_O_H_ANGLE / 2) 0) R_O_H
    /\ Object3D.position h2
       = Vector3.addScaledVector (Vector3.multiplyScalar direction R_AL_O)
           (hDir_of (zAxis_of direction) (xAxis_of (zAxis_of direction))
              (H_O_H_ANGLE / 2) 1) R_O_H.
Proof.
  do 3 eexists. split; [run_constructors; reflexivity |].
  simpl. repeat split.
Qed.

Lemma localToParent_identity (o : Object3D.t) (q : Vector3.t) :
  Object3D.position o = Vector3.zero ->
  Object3D.rotation o = Vector3.zero ->
  Object3D.scale o = Vector3.new 1 1 1 ->
  Object3D.localToParent o q = q.
Proof.
  intros Hp Hr Hs. unfold Object3D.localToParent.
  rewrite Hp, Hr, Hs, multiply_one, applyEuler_zero, add_zero_l. reflexivity.
Qed.

Lemma OCTA_DIRS_unit :
  Forall (fun d => Vector3.lengthSq d = 1) OCTA_DIRS.
Proof. repeat constructor; unfold Vector3.lengthSq; simpl; ring. Qed.

Lemma R_AL_O_nonneg : 0 <= R_AL_O.
Proof. unfold R_AL_O. lra. Qed.

Lemma R_O_H_pos : 0 < R_O_H.
Proof. unfold R_O_H. lra. Qed.

(** C1. Every water group of [buildComplex], one per octahedral
    direction, has its oxygen mesh at world distance [R_AL_O] = 1.90 from
    the origin, which is where the Al mesh sits: the six oxygens are
    equidistant from the Al centre. *)
Theorem oxygens_equidistant_from_Al (ids : Ids.t) :
  exists c ids' alPos,
    buildComplex ids = Ok c ids'
    /\ Object3D.getWorldPosition (al c) (complex c) = Some alPos
    /\ alPos = Vector3.zero
    /\ Forall2 (fun direction w =>
          exists water o oPos,
            Object3D.getObjectById w (complex c) = Some water
            /\ named_meshes "O" water = [o]
            /\ Object3D.getWorldPosition (Object3D.id o) (complex c) = Some oPos
            /\ oPos = Vector3.multiplyScalar direction R_AL_O
            /\ Vector3.distanceTo oPos alPos = R_AL_O)
         OCTA_DIRS (waters c)
    /\ R_AL_O = 1.90.
Proof.
  destruct ids as [n m].
  do 3 eexists. split; [run_constructors; reflexivity |].
  cbv [complex al waters].
  split; [| split; [reflexivity |] ].
  { cbn [Object3D.getWorldPosition Object3D.id]. decide_eqb.
    cbn [map Object3D.getWorldPosition Object3D.first_some fold_right].
    decide_eqb. rewrite localToParent_identity by reflexivity. reflexivity. }
  split; [| reflexivity].
  pose proof OCTA_DIRS_unit as Hu. unfold OCTA_DIRS in *.
  repeat match goal with
         | H : Forall _ (_ :: _) |- _ => inversion H; subst; clear H
         end.
  repeat apply Forall2_cons; try apply Forall2_nil.
  all: do 3 eexists.
  all: split;
    [ unfold Object3D.getObjectById; cbn [Object3D.traverse flat_map app find Object3D.id];
      decide_eqb; reflexivity |].
  all: split; [reflexivity |].
  all: split;
    [ cbn [Object3D.getWorldPosition Object3D.id map Object3D.first_some fold_right];
      repeat (decide_eqb;
        cbn [Object3D.getWorldPosition Object3D.id map Object3D.first_some fold_right]);
      rewrite !localToParent_identity by reflexivity; reflexivity |].
  all: split; [reflexivity |].
  all: unfold Vector3.distanceTo; cbn [Object3D.position];
    rewrite sub_zero_r; apply length_multiplyScalar_unit;
    [assumption | apply R_AL_O_nonneg].
Qed.

(** C2. A group returned by [createWaterMolecule] has exactly one child
    mesh named O, one named H1 and one named H2, and no other child; every
    one of the six waters [buildComplex] creates is such a group. *)
Theorem water_has_one_O_two_H :
  (forall direction ids, exists water ids' o h1 h2,
      createWaterMolecule direction ids = Ok water ids'
      /\ Object3D.isGroup water = true
      /\ named_meshes "O" water = [o]
      /\ named_meshes "H1" water = [h1]
      /\ named_meshes "H2" water = [h2]
      /\ Object3D.children water = [o; h1; h2])
  /\ (forall ids, exists c ids',
      buildComplex ids = Ok c ids'
      /\ List.length (waters c) = 6%nat
      /\ Forall (fun w => exists water o h1 h2,
            Object3D.getObjectById w (complex c) = Some water
            /\ Object3D.isGroup water = true
            /\ named_meshes "O" water = [o]
            /\ named_meshes "H1" water = [h1]
            /\ named_meshes "H2" water = [h2]
            /\ Object3D.children water = [o; h1; h2])
          (waters c)).
Proof.
  split.
  - intros direction [n m].
    do 5 eexists. split; [run_constructors; reflexivity |].
    repeat split.
  - intros [n m].
    do 2 eexists. split; [run_constructors; reflexivity |].
    cbv [complex waters]. split; [reflexivity |].
    repeat apply Forall_cons; try apply Forall_nil.
    all: do 4 eexists.
    all: split;
      [ unfold Object3D.getObjectById;
        cbn [Object3D.traverse flat_map app find Object3D.id];
        decide_eqb; reflexivity |].
    all: repeat split.
Qed.

(** C10. For a unit direction, both hydrogens of the water sit at distance
    [R_O_H] = 0.96 from its oxygen, and the two oxygen-to-hydrogen vectors
    enclose the angle [H_O_H_ANGLE], 104.5 degrees. *)
Theorem hydrogens_at_bond_length_and_angle
    (direction : Vector3.t) (ids : Ids.t)
    (Hunit : Vector3.length direction = 1) :
  exists water ids' o h1 h2,
    createWaterMolecule direction ids = Ok water ids'
    /\ named_meshes "O" water = [o]
    /\ named_meshes "H1" water = [h1]
    /\ named_meshes "H2" water = [h2]
    /\ Vector3.distanceTo (Object3D.position h1) (Object3D.position o) = R_O_H
    /\ Vector3.distanceTo (Object3D.position h2) (Object3D.position o) = R_O_H
    /\ Vector3.angleTo
         (Vector3.sub (Object3D.position h1) (Object3D.position o))
         (Vector3.sub (Object3D.position h2) (Object3D.position o))
       = H_O_H_ANGLE
    /\ R_O_H = 0.96
    /\ H_O_H_ANGLE = 104.5 * (PI / 180).
Proof.
  assert (Hsq : Vector3.lengthSq direction = 1).
  { pose proof (@lengthSq_of_length direction 1 Rle_0_1 Hunit) as Hl.
    rewrite Hl. ring. }
  destruct ids as [n m].
  do 5 eexists. split; [run_constructors; reflexivity |].
  do 3 (split; [reflexivity |]).
  cbn [Object3D.position].
  rewrite !sub_addScaledVector, (zAxis_of_unit Hsq).
  unfold Vector3.distanceTo. rewrite !sub_addScaledVector.
  pose proof R_O_H_pos as Hpos.
  split; [apply length_multiplyScalar_unit; [apply (hDir_lengthSq Hsq) | lra] |].
  split; [apply length_multiplyScalar_unit; [apply (hDir_lengthSq Hsq) | lra] |].
  split; [| split; reflexivity].
  unfold Vector3.angleTo.
  rewrite !lengthSq_multiplyScalar, !(hDir_lengthSq Hsq).
  replace (R_O_H * R_O_H * 1 * (R_O_H * R_O_H * 1))
    with ((R_O_H * R_O_H) * (R_O_H * R_O_H)) by ring.
  rewrite sqrt_square by nra.
  destruct (Req_dec_T (R_O_H * R_O_H) 0) as [H0 | _]; [nra |].
  rewrite dot_multiplyScalar_both, (hDir_dot Hsq).
  replace (R_O_H * R_O_H * cos (2 * (H_O_H_ANGLE / 2)) / (R_O_H * R_O_H))
    with (cos (2 * (H_O_H_ANGLE / 2))) by (field; lra).
  replace (2 * (H_O_H_ANGLE / 2)) with H_O_H_ANGLE by field.
  pose proof (COS_bound H_O_H_ANGLE) as [Hlo Hhi].
  rewrite Rmin_right by exact Hhi.
  rewrite Rmax_right by exact Hlo.
  apply acos_cos.
  unfold H_O_H_ANGLE, MathUtils.degToRad, MathUtils.DEG2RAD.
  pose proof PI_RGT_0. lra.
Qed.

(** The +x direction of the complex is a unit vector. *)
Lemma hydrogens_at_bond_length_and_angle_witness :
  exists water ids' o h1 h2,
    createWaterMolecule (Vector3.new 1 0 0) (Ids.mk 0 Materials.materials_loaded)
    = Ok water ids'
    /\ named_meshes "O" water = [o]
    /\ named_meshes "H1" water = [h1]
    /\ named_meshes "H2" water = [h2]
    /\ Vector3.distanceTo (Object3D.position h1) (Object3D.position o) = R_O_H
    /\ Vector3.distanceTo (Object3D.position h2) (Object3D.position o) = R_O_H
    /\ Vector3.angleTo
         (Vector3.sub (Object3D.position h1) (Object3D.position o))
         (Vector3.sub (Object3D.position h2) (Object3D.position o))
       = H_O_H_ANGLE
    /\ R_O_H = 0.96
    /\ H_O_H_ANGLE = 104.5 * (PI / 180).
Proof.
  apply hydrogens_at_bond_length_and_angle.
  unfold Vector3.length, Vector3.lengthSq; simpl.
  replace (1 * 1 + 0 * 0 + 0 * 0) with 1 by ring. apply sqrt_1.
Defined.

End AtomsResults.


(* ================================================================= *)
(** ** The scene graph: traversal and assignment through a reference *)

Section TreeFacts.

Import Object3D.

(** Induction over a scene graph: a property of a node follows from the
    property of its children. *)
Lemma tree_induction (P : Object3D.t -> Prop) :
  (forall i k n p r sc v u cs,
      Forall P cs -> P (Object3D.mk i k n p r sc v u cs)) ->
  forall o, P o.
Proof.
  intros step. fix IH 1. intros [i k n p r sc v u cs].
  apply step. induction cs as [| c cs IHcs]; constructor.
  - apply IH.
  - exact IHcs.
Qed.

Lemma traverse_unfold (o : Object3D.t) :
  traverse o = o :: flat_map traverse (children o).
Proof. destruct o; reflexivity. Qed.

Lemma flat_map_map_comm {A B C} (g : A -> B) (h : B -> list C) (l : list A) :
  flat_map h (map g l) = flat_map (fun a => h (g a)) l.
Proof. induction l; simpl; [reflexivity | now rewrite IHl]. Qed.

Lemma map_flat_map_comm {A B C} (g : B -> C) (h : A -> list B) (l : list A) :
  map g (flat_map h l) = flat_map (fun a => map g (h a)) l.
Proof. induction l; simpl; [reflexivity | now rewrite map_app, IHl]. Qed.

Lemma flat_map_ext_Forall {A B} (g h : A -> list B) (l : list A) :
  Forall (fun a => g a = h a) l -> flat_map g l = flat_map h l.
Proof. induction 1; simpl; [reflexivity | congruence]. Qed.

Section Update.

Variable i : nat.
Variable f : Object3D.t -> Object3D.t.
Hypothesis f_id : forall n, id (f n) = id n.
Hypothesis f_children : forall n, children (f n) = children n.

Lemma update_unfold (o : Object3D.t) :
  update i f o
  = let o' := set_children (map (update i f) (children o)) o in
    if Nat.eqb (id o) i then f o' else o'.
Proof. destruct o; reflexivity. Qed.

Lemma id_update (o : Object3D.t) : id (update i f o) = id o.
Proof.
  rewrite update_unfold. cbv zeta.
  destruct (Nat.eqb (id o) i); [rewrite f_id |]; destruct o; reflexivity.
Qed.

Lemma children_update (o : Object3D.t) :
  children (update i f o) = map (update i f) (children o).
Proof.
  rewrite update_unfold. cbv zeta.
  destruct (Nat.eqb (id o) i); [rewrite f_children |]; destruct o; reflexivity.
Qed.

Lemma traverse_update (o : Object3D.t) :
  traverse (update i f o) = map (update i f) (traverse o).
Proof.
  induction o as [oi k n p r sc v u cs IH] using tree_induction.
  rewrite (traverse_unfold (update i f _)), children_update.
  rewrite (traverse_unfold (Object3D.mk _ _ _ _ _ _ _ _ _)).
  cbn [children map]. f_equal.
  rewrite flat_map_map_comm, map_flat_map_comm.
  apply flat_map_ext_Forall, IH.
Qed.

Lemma ids_update (o : Object3D.t) : ids (update i f o) = ids o.
Proof.
  unfold ids. rewrite traverse_update, map_map.
  apply map_ext. intros n. apply id_update.
Qed.

Lemma find_map_id (j : nat) (l : list Object3D.t) :
  find (fun n => Nat.eqb (id n) j) (map (update i f) l)
  = option_map (update i f) (find (fun n => Nat.eqb (id n) j) l).
Proof.
  induction l as [| a l IHl]; simpl; [reflexivity |].
  rewrite id_update. destruct (Nat.eqb (id a) j); [reflexivity | exact IHl].
Qed.

Lemma getObjectById_update (j : nat) (o : Object3D.t) :
  getObjectById j (update i f o) = option_map (update i f) (getObjectById j o).
Proof. unfold getObjectById. rewrite traverse_update. apply find_map_id. Qed.

End Update.

Lemma getObjectById_id (j : nat) (o n : Object3D.t) :
  getObjectById j o = Some n -> id n = j.
Proof.
  unfold getObjectById. intros H. apply find_some in H as [_ H].
  now apply Nat.eqb_eq.
Qed.

Lemma getObjectById_In (j : nat) (o n : Object3D.t) :
  getObjectById j o = Some n -> In n (traverse o).
Proof. unfold getObjectById. intros H. now apply find_some in H. Qed.

Lemma set_material_id m n : id (set_material m n) = id n.
Proof. reflexivity. Qed.

Lemma set_material_children m n : children (set_material m n) = children n.
Proof. reflexivity. Qed.

(** The material a node has after [ref.material = m]. *)
Lemma material_update (i : nat) (m : Materials.Material) (n : Object3D.t) :
  material (update i (set_material m) n)
  = if Nat.eqb (id n) i
    then match material n with Some _ => Some m | None => None end
    else material n.
Proof.
  destruct n as [ni k nm p r sc v u cs]. simpl.
  destruct (Nat.eqb ni i); [| reflexivity].
  destruct k; reflexivity.
Qed.

Lemma isMesh_update (i : nat) (m : Materials.Material) (n : Object3D.t) :
  isMesh (update i (set_material m) n) = isMesh n.
Proof.
  destruct n as [ni k nm p r sc v u cs]. simpl.
  destruct (Nat.eqb ni i); [| reflexivity].
  destruct k; reflexivity.
Qed.

Lemma isMesh_material (n : Object3D.t) :
  isMesh n = true -> exists m, material n = Some m.
Proof.
  destruct n as [ni k nm p r sc v u cs]. unfold isMesh, material. simpl.
  destruct k; try discriminate. eauto.
Qed.

End TreeFacts.

(* ================================================================= *)
(** ** Class lists *)

Section DomFacts.

Import Dom.

Lemma has_class_remove (tok : string) (e : Element) :
  has_class tok (classList_remove tok e) = false.
Proof.
  unfold has_class, classList_remove. cbn [classList].
  induction (classList e) as [| c l IHl]; cbn [filter existsb]; [reflexivity |].
  destruct (String.eqb tok c) eqn:E; cbn [negb existsb]; [exact IHl |].
  now rewrite E.
Qed.

Lemma has_class_add (tok : string) (e : Element) :
  has_class tok (classList_add tok e) = true.
Proof.
  unfold classList_add. destruct (has_class tok e) eqn:E; [exact E |].
  unfold has_class. cbn [classList]. rewrite existsb_app. cbn [existsb].
  now rewrite String.eqb_refl, orb_true_r.
Qed.

Lemma has_class_remove_other (tok other : string) (e : Element) :
  other <> tok ->
  has_class other (classList_remove tok e) = has_class other e.
Proof.
  intros Hne. unfold has_class, classList_remove. cbn [classList].
  induction (classList e) as [| c l IHl]; cbn [filter existsb]; [reflexivity |].
  destruct (String.eqb tok c) eqn:E; cbn [negb existsb].
  - apply String.eqb_eq in E. subst c.
    rewrite (proj2 (String.eqb_neq other tok) Hne). exact IHl.
  - now rewrite IHl.
Qed.

End DomFacts.

(* ================================================================= *)
(** ** interaction.js *)

Section InteractionFacts.

Import Object3D Interaction Materials.

Lemma collect_fold (l acc : list Object3D.t) :
  fold_left (fun meshes obj => if isMesh obj then meshes ++ [obj] else meshes)
            l acc
  = acc ++ filter isMesh l.
Proof.
  revert acc. induction l as [| o l IHl]; intros acc; simpl.
  - now rewrite app_nil_r.
  - rewrite IHl. destruct (isMesh o); [| reflexivity].
    now rewrite <- app_assoc.
Qed.

(** The loop of the pointer handler keeps the meshes, in traversal order. *)
Lemma collectMeshes_filter (sc : Object3D.t) :
  collectMeshes sc = filter isMesh (traverse sc).
Proof. unfold collectMeshes. now rewrite collect_fold. Qed.

(** *** The sort of the hits *)

Lemma insert_In (h x : Intersection) (l : list Intersection) :
  In x (insert h l) <-> x = h \/ In x l.
Proof.
  induction l as [| a l IHl]; simpl.
  - intuition.
  - destruct (Rle_dec (distance h) (distance a)); simpl; [intuition |].
    rewrite IHl. intuition.
Qed.

Lemma sort_In (x : Intersection) (l : list Intersection) :
  In x (sort l) <-> In x l.
Proof.
  induction l as [| a l IHl]; simpl; [reflexivity |].
  rewrite insert_In, IHl. intuition.
Qed.

Lemma insert_head_nearest (h : Intersection) (l : list Intersection) :
  head_nearest l -> head_nearest (insert h l).
Proof.
  destruct l as [| a l]; simpl.
  - intros _ x [<- | []]. apply Rle_refl.
  - intros Hl. destruct (Rle_dec (distance h) (distance a)) as [Hle | Hgt]; simpl.
    + intros x [<- | Hx]; [apply Rle_refl |].
      eapply Rle_trans; [exact Hle | apply Hl, Hx].
    + intros x [<- | Hx]; [apply Rle_refl |].
      apply insert_In in Hx as [-> | Hx].
      * apply Rlt_le, Rnot_le_lt, Hgt.
      * apply Hl. now right.
Qed.

Lemma sort_head_nearest (l : list Intersection) : head_nearest (sort l).
Proof.
  induction l as [| a l IHl]; simpl; [exact I |].
  now apply insert_head_nearest.
Qed.

Section Raycaster.

Variable Mesh_raycast : Vector2 -> World.Camera -> Object3D.t -> list R.

(** Every hit is a hit of one of the objects that were handed over. *)
Lemma intersectObjects_object pointer camera objects h :
  In h (intersectObjects Mesh_raycast pointer camera objects) ->
  exists o, In o objects /\ object h = id o
            /\ In (distance h) (Mesh_raycast pointer camera o).
Proof.
  unfold intersectObjects. rewrite sort_In, in_flat_map.
  intros (o & Ho & Hh). apply in_map_iff in Hh as (d & <- & Hd).
  exists o. auto.
Qed.

Lemma intersectObjects_nearest pointer camera objects :
  head_nearest (intersectObjects Mesh_raycast pointer camera objects).
Proof. apply sort_head_nearest. Qed.

End Raycaster.

(** *** What the two functions do to the module state *)

Lemma assign_textContent_frame ref store txt s :
  let s' := state_of (assign_textContent ref store txt s) in
  world s' = world s /\ canvas s' = canvas s
  /\ previousSelection s' = previousSelection s
  /\ previousMaterial s' = previousMaterial s
  /\ pointer s' = pointer s /\ listeners s' = listeners s.
Proof.
  unfold assign_textContent, bind, get, put, throw. simpl.
  destruct (ref (panel s)); simpl; auto 10.
Qed.

(** Filling the panel touches the panel only, also when it throws. *)
Lemma populateInfoPanel_frame m s :
  let s' := state_of (populateInfoPanel m s) in
  world s' = world s /\ canvas s' = canvas s
  /\ previousSelection s' = previousSelection s
  /\ previousMaterial s' = previousMaterial s
  /\ pointer s' = pointer s /\ listeners s' = listeners s.
Proof.
  unfold populateInfoPanel, assign_textContent, bind, get, put, throw, modify.
  destruct s as [w c ps pm pt [ip it ie ir ic icl] ls]. simpl.
  destruct ip; simpl; auto 10.
  destruct it; simpl; auto 10.
  destruct ie; simpl; auto 10.
  destruct ir; simpl; auto 10.
  destruct ic; simpl; auto 10.
Qed.

(** It returns exactly when the page has no panel or has all its fields. *)
Lemma populateInfoPanel_returned m s :
  returned (populateInfoPanel m s)
  = match infoPanel (panel s) with
    | Some _ => panel_complete (panel s)
    | None => true
    end.
Proof.
  unfold populateInfoPanel, assign_textContent, bind, get, put, throw, modify,
    panel_complete.
  destruct s as [w c ps pm pt [ip it ie ir ic icl] ls]. simpl.
  destruct ip; simpl; auto.
  destruct it; simpl; auto.
  destruct ie; simpl; auto.
  destruct ir; simpl; auto.
  destruct ic; simpl; auto.
Qed.

(** On a complete panel it writes the four fields and shows the panel. *)
Lemma populateInfoPanel_complete m s :
  panel_complete (panel s) = true ->
  let p' := panel (state_of (populateInfoPanel m s)) in
  text_of (infoTitle p') = Some (or_string (Some (name m)) "—")
  /\ text_of (infoElement p') = Some (or_string (element (userData m)) "—")
  /\ text_of (infoRole p') = Some (or_string (role (userData m)) "—")
  /\ text_of (infoCharge p') = Some (or_string (charge (userData m)) "—")
  /\ (exists e, infoPanel p' = Some e /\ Dom.has_class "hidden" e = false).
Proof.
  unfold populateInfoPanel, assign_textContent, bind, get, put, throw, modify,
    panel_complete.
  destruct s as [w c ps pm pt [ip it ie ir ic icl] ls]. simpl.
  destruct ip as [ep |]; [| discriminate].
  destruct it; [| discriminate]. destruct ie; [| discriminate].
  destruct ir; [| discriminate]. destruct ic; [| discriminate].
  intros _. simpl. repeat split.
  eexists. split; [reflexivity |]. apply has_class_remove.
Qed.

(** [selectAtom] on a mesh of the scene: the module state it leaves, then
    the panel. *)
Lemma selectAtom_unfold s mesh node :
  getObjectById mesh (scene s) = Some node ->
  exists node',
    getObjectById mesh (restored_scene s) = Some node'
    /\ selectAtom mesh s
       = populateInfoPanel node'
           (Interaction.mk
              (World.set_scene
                 (update mesh (set_material highlightMaterial) (restored_scene s))
                 (world s))
              (canvas s) (Some mesh) (material node') (pointer s)
              (panel s) (listeners s)).
Proof.
  intros Hnode.
  assert (Hrest : exists node', getObjectById mesh (restored_scene s) = Some node').
  { unfold restored_scene.
    destruct (previousSelection s), (previousMaterial s); eauto.
    rewrite getObjectById_update, Hnode by reflexivity. simpl. eauto. }
  destruct Hrest as [node' Hnode']. exists node'. split; [exact Hnode' |].
  unfold selectAtom, bind, get. rewrite Hnode.
  unfold restored_scene in *.
  destruct s as [w c ps pm pt pn ls]. simpl in *.
  destruct ps as [prev |], pm as [mat |]; simpl in *;
    unfold assign_material, modify, bind, ret; simpl;
    unfold scene in *; simpl in *; rewrite Hnode'; reflexivity.
Qed.

End InteractionFacts.

(** *** The selection invariant *)

Section SelectionInvariant.

Import Object3D Interaction Materials.

Lemma filter_none {A} (p : A -> bool) (l : list A) :
  (forall x, In x l -> p x = false) -> filter p l = [].
Proof.
  induction l as [| a l IHl]; simpl; intros H; [reflexivity |].
  rewrite (H a) by now left. apply IHl. intros x Hx. apply H. now right.
Qed.

Lemma NoDup_filter_ids (p : Object3D.t -> bool) (l : list Object3D.t) :
  NoDup (map id l) -> NoDup (map id (filter p l)).
Proof.
  induction l as [| a l IHl]; simpl; intros H; [constructor |].
  inversion H as [| ? ? Hnot Hnd]; subst.
  destruct (p a); simpl; [| auto].
  constructor; [| auto].
  intros Hin. apply Hnot. apply in_map_iff in Hin as (x & Hx & Hin).
  apply filter_In in Hin as [Hin _]. apply in_map_iff. eauto.
Qed.

Lemma filter_id_unique (i : nat) (l : list Object3D.t) (n : Object3D.t) :
  NoDup (map id l) -> In n l -> id n = i ->
  filter (fun a => Nat.eqb (id a) i) l = [n].
Proof.
  induction l as [| a l IHl]; simpl; intros Hnd Hin Hid; [contradiction |].
  inversion Hnd as [| ? ? Hnot Hnd']; subst.
  destruct Hin as [-> | Hin].
  - rewrite Nat.eqb_refl. f_equal.
    rewrite filter_none; [reflexivity |].
    intros x Hx. apply Nat.eqb_neq. intros E.
    apply Hnot. rewrite <- E. now apply in_map.
  - destruct (Nat.eqb (id a) (id n)) eqn:E.
    + apply Nat.eqb_eq in E. exfalso. apply Hnot. rewrite E. now apply in_map.
    + now apply IHl.
Qed.

Lemma getObjectById_NoDup (sc o : Object3D.t) :
  NoDup (ids sc) -> In o (traverse sc) -> getObjectById (id o) sc = Some o.
Proof.
  unfold ids, getObjectById. intros Hnd Hin.
  induction (traverse sc) as [| a l IHl]; simpl in *; [contradiction |].
  inversion Hnd as [| ? ? Hnot Hnd']; subst.
  destruct Hin as [-> | Hin]; [now rewrite Nat.eqb_refl |].
  destruct (Nat.eqb (id a) (id o)) eqn:E; [| now apply IHl].
  apply Nat.eqb_eq in E. exfalso. apply Hnot. rewrite E. now apply in_map.
Qed.

(** Whether a mesh carries the highlight after [ref.material = m]. *)
Lemma carries_highlight_update (i : nat) (m : Material) (n : Object3D.t) :
  isMesh n = true ->
  carries_highlight (update i (set_material m) n)
  = if Nat.eqb (id n) i
    then Nat.eqb (material_id m) (material_id highlightMaterial)
    else carries_highlight n.
Proof.
  intros Hmesh. unfold carries_highlight. rewrite material_update.
  destruct (Nat.eqb (id n) i); [| reflexivity].
  destruct (isMesh_material n Hmesh) as [m0 ->]. reflexivity.
Qed.

Lemma collectMeshes_update (i : nat) (m : Material) (sc : Object3D.t) :
  collectMeshes (update i (set_material m) sc)
  = map (update i (set_material m)) (collectMeshes sc).
Proof.
  rewrite !collectMeshes_filter, traverse_update by reflexivity.
  induction (traverse sc) as [| a l IHl]; simpl; [reflexivity |].
  rewrite isMesh_update. destruct (isMesh a); simpl; now rewrite IHl.
Qed.

Lemma highlighted_ids_update (i : nat) (m : Material) (sc : Object3D.t) :
  map id (filter carries_highlight
            (collectMeshes (update i (set_material m) sc)))
  = map id (filter (fun n =>
                      if Nat.eqb (id n) i
                      then Nat.eqb (material_id m) (material_id highlightMaterial)
                      else carries_highlight n)
                   (collectMeshes sc)).
Proof.
  rewrite collectMeshes_update.
  assert (Hm : Forall (fun n => isMesh n = true) (collectMeshes sc)).
  { rewrite collectMeshes_filter. apply Forall_forall.
    intros n Hn. now apply filter_In in Hn. }
  induction Hm as [| a l Ha _ IHl]; simpl; [reflexivity |].
  rewrite (carries_highlight_update _ _ _ Ha).
  destruct (if Nat.eqb (id a) i then _ else _); simpl; [| exact IHl].
  rewrite id_update by reflexivity. now rewrite IHl.
Qed.

(** Putting a material other than the highlight back on the one
    highlighted mesh leaves no mesh highlighted. *)
Lemma highlighted_after_restore (i : nat) (m : Material) (sc : Object3D.t) :
  material_id m <> material_id highlightMaterial ->
  map id (filter carries_highlight (collectMeshes sc)) = [i] ->
  NoDup (ids sc) ->
  filter carries_highlight (collectMeshes (update i (set_material m) sc)) = [].
Proof.
  intros Hm Hone Hnd.
  apply map_eq_nil with (f := id). rewrite highlighted_ids_update.
  rewrite (proj2 (Nat.eqb_neq _ _) Hm).
  assert (Hnd' : NoDup (map id (collectMeshes sc))).
  { rewrite collectMeshes_filter. apply NoDup_filter_ids, Hnd. }
  revert Hone Hnd'.
  induction (collectMeshes sc) as [| a l IHl]; simpl; [reflexivity |].
  intros Hone Hnd'. inversion Hnd' as [| ? ? Hnot Hnd'']; subst.
  destruct (carries_highlight a) eqn:Ea; simpl in Hone.
  - injection Hone as Hid Hrest. rewrite Hid, Nat.eqb_refl.
    apply map_eq_nil in Hrest.
    rewrite filter_none; [reflexivity |].
    intros x Hx. destruct (Nat.eqb (id x) i); [reflexivity |].
    destruct (carries_highlight x) eqn:Ex; [| reflexivity].
    assert (In x (filter carries_highlight l)) by (apply filter_In; auto).
    rewrite Hrest in *. contradiction.
  - destruct (Nat.eqb (id a) i); simpl; auto.
Qed.

(** Highlighting one mesh of a scene without highlighted meshes leaves
    that mesh as the only highlighted one. *)
Lemma highlighted_after_select (i : nat) (sc node : Object3D.t) :
  filter carries_highlight (collectMeshes sc) = [] ->
  NoDup (ids sc) ->
  In node (collectMeshes sc) -> id node = i ->
  map id (filter carries_highlight
            (collectMeshes (update i (set_material highlightMaterial) sc)))
  = [i].
Proof.
  intros Hnone Hnd Hin Hid.
  rewrite highlighted_ids_update, Nat.eqb_refl.
  assert (Hnd' : NoDup (map id (collectMeshes sc))).
  { rewrite collectMeshes_filter. apply NoDup_filter_ids, Hnd. }
  rewrite (filter_ext_in _ (fun a => Nat.eqb (id a) i)).
  - rewrite (@filter_id_unique i _ node Hnd' Hin Hid). simpl. now rewrite Hid.
  - intros a Ha. destruct (Nat.eqb (id a) i); [reflexivity |].
    destruct (carries_highlight a) eqn:Ea; [| reflexivity].
    assert (In a (filter carries_highlight (collectMeshes sc)))
      by (apply filter_In; auto).
    rewrite Hnone in *. contradiction.
Qed.

End SelectionInvariant.

Section SelectionSteps.

Import Object3D Interaction Materials.

Lemma deselectAtom_unfold (s : State) :
  deselectAtom s
  = hideInfoPanel
      match previousSelection s, previousMaterial s with
      | Some _, Some _ =>
          Interaction.mk (World.set_scene (restored_scene s) (world s))
            (canvas s) None None (pointer s) (panel s) (listeners s)
      | _, _ => s
      end.
Proof.
  unfold deselectAtom, restored_scene, bind, get.
  destruct s as [w c ps pm pt pn ls]. simpl.
  destruct ps, pm; reflexivity.
Qed.

Lemma hideInfoPanel_frame (s : State) :
  exists p, hideInfoPanel s
            = Ok tt (Interaction.mk (world s) (canvas s) (previousSelection s)
                       (previousMaterial s) (pointer s) p (listeners s))
            /\ panel_hidden p = true.
Proof.
  unfold hideInfoPanel, modify, panel_hidden.
  destruct s as [w c ps pm pt [ip it ie ir ic icl] ls]. simpl.
  destruct ip as [e |]; simpl.
  - eexists. split; [reflexivity |]. simpl. apply has_class_add.
  - eexists. split; [reflexivity |]. reflexivity.
Qed.

(** [deselectAtom] never throws. *)
Lemma deselectAtom_returns (s : State) : returned (deselectAtom s) = true.
Proof.
  rewrite deselectAtom_unfold.
  destruct (hideInfoPanel_frame
              match previousSelection s, previousMaterial s with
              | Some _, Some _ =>
                  Interaction.mk (World.set_scene (restored_scene s) (world s))
                    (canvas s) None None (pointer s) (panel s) (listeners s)
              | _, _ => s
              end) as (p & -> & _).
  reflexivity.
Qed.

(** The invariant reads the scene and the two module variables only. *)
Lemma selection_inv_ext (s s' : State) :
  scene s' = scene s ->
  previousSelection s' = previousSelection s ->
  previousMaterial s' = previousMaterial s ->
  selection_inv s -> selection_inv s'.
Proof.
  unfold selection_inv, highlighted. intros -> -> ->. exact (fun H => H).
Qed.

Lemma restored_scene_ids (s : State) :
  ids (restored_scene s) = ids (scene s).
Proof.
  unfold restored_scene.
  destruct (previousSelection s), (previousMaterial s); try reflexivity.
  now rewrite ids_update.
Qed.

(** Once the previous selection has its material back, no mesh carries
    the highlight. *)
Lemma restored_scene_clean (s : State) :
  selection_inv s ->
  filter carries_highlight (collectMeshes (restored_scene s)) = [].
Proof.
  unfold selection_inv, restored_scene, highlighted. intros [Hnd Hsel].
  destruct (previousSelection s) as [m0 |], (previousMaterial s) as [pm0 |];
    try contradiction; [| exact Hsel].
  destruct Hsel as [Hpm Hone]. now apply highlighted_after_restore.
Qed.

Lemma deselectAtom_inv (s : State) :
  selection_inv s -> selection_inv (exec deselectAtom s).
Proof.
  intros Hinv. unfold exec. rewrite deselectAtom_unfold.
  pose proof (restored_scene_clean Hinv) as Hclean.
  pose proof (restored_scene_ids s) as Hids.
  destruct Hinv as [Hnd Hsel].
  match goal with |- context [hideInfoPanel ?x] =>
    destruct (hideInfoPanel_frame x) as (p & -> & _) end.
  unfold selection_inv, highlighted, scene in *. simpl.
  destruct (previousSelection s) as [m0 |] eqn:Eps,
           (previousMaterial s) as [pm0 |] eqn:Epm; try contradiction; simpl.
  - split; [now rewrite Hids | exact Hclean].
  - rewrite ?Eps, ?Epm. split; assumption.
Qed.

Lemma selectAtom_inv (s : State) (mesh : nat) (node : Object3D.t) :
  selection_inv s ->
  In node (collectMeshes (scene s)) -> id node = mesh ->
  selection_inv (exec (selectAtom mesh) s).
Proof.
  intros Hinv Hin Hid.
  pose proof (restored_scene_clean Hinv) as Hclean.
  pose proof (restored_scene_ids s) as Hids.
  assert (Hnd : NoDup (ids (scene s))) by apply Hinv.
  assert (Hnode : getObjectById mesh (scene s) = Some node).
  { rewrite <- Hid. apply getObjectById_NoDup; [exact Hnd |].
    rewrite collectMeshes_filter in Hin. now apply filter_In in Hin. }
  destruct (@selectAtom_unfold s mesh node Hnode) as (node' & Hnode' & Heq).
  assert (Hmesh' : In node' (collectMeshes (restored_scene s))).
  { rewrite collectMeshes_filter. apply filter_In. split.
    - eapply getObjectById_In, Hnode'.
    - rewrite collectMeshes_filter in Hin. apply filter_In in Hin as [_ Hm].
      unfold restored_scene in Hnode'.
      destruct (previousSelection s), (previousMaterial s);
        try (rewrite Hnode in Hnode'; injection Hnode' as <-; exact Hm).
      rewrite getObjectById_update, Hnode in Hnode' by reflexivity.
      injection Hnode' as <-. now rewrite isMesh_update. }
  unfold exec. rewrite Heq.
  match goal with |- context [populateInfoPanel ?m ?x] =>
    destruct (populateInfoPanel_frame m x) as (Hw & _ & Hps & Hpm & _);
    apply (@selection_inv_ext x _ (f_equal World.scene Hw) Hps Hpm) end.
  unfold selection_inv, highlighted, scene. simpl.
  split; [rewrite ids_update by reflexivity; now rewrite Hids |].
  assert (Hm : isMesh node' = true).
  { rewrite collectMeshes_filter in Hmesh'. now apply filter_In in Hmesh'. }
  destruct (isMesh_material node' Hm) as [pm Hpm']. rewrite Hpm'.
  split.
  - assert (Hc : carries_highlight node' = false).
    { destruct (carries_highlight node') eqn:E; [| reflexivity].
      assert (In node' (filter carries_highlight (collectMeshes (restored_scene s))))
        by (apply filter_In; auto).
      rewrite Hclean in *. contradiction. }
    unfold carries_highlight in Hc. rewrite Hpm' in Hc.
    now apply Nat.eqb_neq.
  - apply highlighted_after_select with (node := node'); auto.
    + now rewrite Hids.
    + eapply getObjectById_id, Hnode'.
Qed.

Section Raycaster.

Variable Mesh_raycast : Vector2 -> World.Camera -> Object3D.t -> list R.

Lemma onPointerDown_unfold (event : PointerEvent) (s : State) :
  let s1 := set_pointer (deviceCoordinates event (canvas s)) s in
  onPointerDown Mesh_raycast event s
  = match hits_of Mesh_raycast event s with
    | hit :: _ => selectAtom (object hit) s1
    | [] => deselectAtom s1
    end.
Proof.
  unfold onPointerDown, hits_of, bind, get, modify, set_pointer, scene.
  cbn [world canvas pointer].
  destruct (intersectObjects _ _ _ _); reflexivity.
Qed.

Lemma dispatch_inv (e : Event) (s : State) :
  selection_inv s -> selection_inv (exec (dispatch Mesh_raycast e) s).
Proof.
  intros Hinv. unfold exec, dispatch, bind, get.
  destruct e as [event |].
  - destruct (has_listener OnPointerDown s); [| exact Hinv].
    rewrite onPointerDown_unfold. cbv zeta.
    assert (Hinv1 : selection_inv
                      (set_pointer (deviceCoordinates event (canvas s)) s))
      by (eapply selection_inv_ext; [| | | exact Hinv]; reflexivity).
    destruct (hits_of Mesh_raycast event s) as [| hit rest] eqn:Eh.
    + apply deselectAtom_inv, Hinv1.
    + assert (Hhit : In hit (hits_of Mesh_raycast event s))
        by (rewrite Eh; now left).
      apply intersectObjects_object in Hhit as (o & Ho & Hobj & _).
      eapply selectAtom_inv; [exact Hinv1 | exact Ho | now symmetry].
  - destruct (has_listener OnCloseClick s); [| exact Hinv].
    apply deselectAtom_inv, Hinv.
Qed.

(** Every state the module reaches satisfies the selection invariant. *)
Lemma reachable_inv (init s : State) :
  selection_inv init -> reachable Mesh_raycast init s -> selection_inv s.
Proof.
  intros Hinit Hreach. induction Hreach as [| s e _ IH | s cam _ IH].
  - exact Hinit.
  - apply dispatch_inv, IH.
  - eapply selection_inv_ext; [| | | exact IH]; reflexivity.
Qed.

End Raycaster.

End SelectionSteps.


(* ================================================================= *)
(** ** interaction.js: the pointer handler and the selection *)

Section InteractionTheorems.

Import Object3D Interaction Materials.

Lemma name_update i m n : name (update i (set_material m) n) = name n.
Proof.
  destruct n as [ni k nm p r sc v u cs]. simpl.
  destruct (Nat.eqb ni i); reflexivity.
Qed.

Lemma userData_update i m n : userData (update i (set_material m) n) = userData n.
Proof.
  destruct n as [ni k nm p r sc v u cs]. simpl.
  destruct (Nat.eqb ni i); reflexivity.
Qed.

(** The mesh [selectAtom] reads after the restore has the name and the
    [userData] it had before. *)
Lemma restored_node (s : State) (mesh : nat) (node node' : Object3D.t) :
  getObjectById mesh (scene s) = Some node ->
  getObjectById mesh (restored_scene s) = Some node' ->
  name node' = name node /\ userData node' = userData node
  /\ isMesh node' = isMesh node
  /\ material node'
     = match previousSelection s, previousMaterial s with
       | Some prev, Some mat =>
           if Nat.eqb mesh prev
           then match material node with Some _ => Some mat | None => None end
           else material node
       | _, _ => material node
       end.
Proof.
  intros Hnode. unfold restored_scene.
  destruct (previousSelection s) as [prev |], (previousMaterial s) as [mat |];
    try (rewrite Hnode; intros [= <-]; auto).
  rewrite getObjectById_update, Hnode by reflexivity. simpl.
  intros [= <-].
  rewrite name_update, userData_update, isMesh_update, material_update.
  rewrite (getObjectById_id _ _ Hnode). auto.
Qed.

(** What [selectAtom] leaves behind on a mesh of the scene. *)
Lemma selectAtom_effect (s : State) (mesh : nat) (node : Object3D.t) :
  getObjectById mesh (scene s) = Some node -> isMesh node = true ->
  let out := selectAtom mesh s in
  let s' := state_of out in
  previousSelection s' = Some mesh
  /\ material_of mesh s' = Some highlightMaterial
  /\ (exists node', getObjectById mesh (restored_scene s) = Some node'
                    /\ previousMaterial s' = material node')
  /\ scene s'
     = update mesh (set_material highlightMaterial) (restored_scene s)
  /\ returned out
     = match infoPanel (panel s) with
       | Some _ => panel_complete (panel s)
       | None => true
       end
  /\ (panel_complete (panel s) = true ->
      text_of (infoTitle (panel s')) = Some (or_string (Some (name node)) "—")
      /\ text_of (infoElement (panel s'))
         = Some (or_string (element (userData node)) "—")
      /\ text_of (infoRole (panel s'))
         = Some (or_string (role (userData node)) "—")
      /\ text_of (infoCharge (panel s'))
         = Some (or_string (charge (userData node)) "—")
      /\ panel_hidden (panel s') = false).
Proof.
  intros Hnode Hmesh.
  destruct (@selectAtom_unfold s mesh node Hnode) as (node' & Hnode' & Heq).
  destruct (restored_node _ _ Hnode Hnode') as (Hname & Hdata & Hm' & _).
  cbv zeta. rewrite Heq.
  match goal with |- context [populateInfoPanel ?m ?x] =>
    destruct (populateInfoPanel_frame m x) as (Hw & _ & Hps & Hpm & _);
    pose proof (populateInfoPanel_returned m x) as Hret;
    pose proof (populateInfoPanel_complete m x) as Hcomplete
  end.
  cbn [world previousSelection previousMaterial panel] in *.
  split; [exact Hps |].
  split.
  { unfold material_of, scene. rewrite Hw. cbn [World.scene World.set_scene].
    rewrite getObjectById_update, Hnode' by reflexivity. cbn [option_map].
    rewrite material_update, (getObjectById_id _ _ Hnode'), Nat.eqb_refl.
    rewrite <- Hm' in Hmesh. destruct (isMesh_material node' Hmesh) as [m0 ->].
    reflexivity. }
  split; [exists node'; split; [exact Hnode' | exact Hpm] |].
  split; [unfold scene at 1; rewrite Hw; reflexivity |].
  split; [exact Hret |].
  intros Hc. destruct (Hcomplete Hc) as (H1 & H2 & H3 & H4 & e & He & Hh).
  rewrite <- Hname, <- Hdata. repeat split; try assumption.
  unfold panel_hidden. now rewrite He.
Qed.

(** What [deselectAtom] leaves behind. *)
Lemma deselectAtom_effect (s : State) :
  let s' := exec deselectAtom s in
  panel_hidden (panel s') = true
  /\ scene s' = match previousSelection s, previousMaterial s with
                | Some _, Some _ => restored_scene s
                | _, _ => scene s
                end
  /\ (previousSelection s = None -> scene s' = scene s)
  /\ (selection_inv s ->
      previousSelection s' = None /\ previousMaterial s' = None
      /\ highlighted s' = []).
Proof.
  cbv zeta. unfold exec. rewrite deselectAtom_unfold.
  match goal with |- context [hideInfoPanel ?x] =>
    destruct (hideInfoPanel_frame x) as (p & -> & Hp) end.
  cbn [state_of panel]. split; [exact Hp |].
  unfold scene at 1 3. cbn [world].
  split; [| split].
  - destruct (previousSelection s), (previousMaterial s); reflexivity.
  - intros ->. reflexivity.
  - intros Hinv. pose proof (restored_scene_clean Hinv) as Hclean.
    unfold highlighted, scene. cbn [world previousSelection previousMaterial].
    destruct Hinv as [_ Hsel]. unfold highlighted in Hsel.
    destruct (previousSelection s) as [m0 |] eqn:Eps,
             (previousMaterial s) as [pm0 |] eqn:Epm; try contradiction;
      cbn [world previousSelection previousMaterial World.scene World.set_scene];
      rewrite ?Eps, ?Epm; auto.
Qed.

End InteractionTheorems.

Section PointerHandler.

Import Object3D Interaction Materials.

Variable Mesh_raycast : Vector2 -> World.Camera -> Object3D.t -> list R.

(** C3. On every pointerdown event the objects tested against the ray are
    exactly the objects of the scene with [isMesh] (so no bond line is
    among them).  When the ray hits, the nearest hit is selected: its mesh
    gets the highlight material, and on a page with the info panel the
    panel is filled from the name and the [userData] of the mesh and shown.
    When nothing is hit the selection is cleared and the panel hidden. *)
Theorem pointerdown_selects_nearest_mesh
    (init s : State) (event : PointerEvent)
    (Hinit : selection_inv init)
    (Hreach : reachable Mesh_raycast init s) :
  let hits := hits_of Mesh_raycast event s in
  let out := onPointerDown Mesh_raycast event s in
  let s' := state_of out in
  (forall o, In o (collectMeshes (scene s))
             <-> In o (traverse (scene s)) /\ isMesh o = true)
  /\ (forall o, isLine o = true -> ~ In o (collectMeshes (scene s)))
  /\ (forall h, In h hits ->
        exists o, In o (collectMeshes (scene s)) /\ object h = id o)
  /\ match hits with
     | hit :: _ =>
         (forall h, In h hits -> (distance hit <= distance h)%R)
         /\ previousSelection s' = Some (object hit)
         /\ material_of (object hit) s' = Some highlightMaterial
         /\ map id (highlighted s') = [object hit]
         /\ (panel_complete (panel s) = true ->
             returned out = true
             /\ panel_hidden (panel s') = false
             /\ exists mesh,
                 getObjectById (object hit) (scene s) = Some mesh
                 /\ text_of (infoTitle (panel s'))
                    = Some (or_string (Some (name mesh)) "—")
                 /\ text_of (infoElement (panel s'))
                    = Some (or_string (element (userData mesh)) "—")
                 /\ text_of (infoRole (panel s'))
                    = Some (or_string (role (userData mesh)) "—")
                 /\ text_of (infoCharge (panel s'))
                    = Some (or_string (charge (userData mesh)) "—"))
     | [] =>
         returned out = true
         /\ previousSelection s' = None
         /\ previousMaterial s' = None
         /\ highlighted s' = []
         /\ panel_hidden (panel s') = true
     end.
Proof.
  cbv zeta.
  pose proof (reachable_inv Hinit Hreach) as Hinv.
  pose proof (onPointerDown_unfold Mesh_raycast event s) as Hunfold.
  cbv zeta in Hunfold. rewrite Hunfold. clear Hunfold.
  set (s1 := set_pointer (deviceCoordinates event (canvas s)) s).
  assert (Hinv1 : selection_inv s1)
    by (eapply selection_inv_ext; [| | | exact Hinv]; reflexivity).
  split.
  { intros o. rewrite collectMeshes_filter. apply filter_In. }
  split.
  { intros o Hline Hin. rewrite collectMeshes_filter in Hin.
    apply filter_In in Hin as [_ Hm].
    unfold isLine, isMesh in *. destruct (kind o); discriminate. }
  split.
  { intros h Hh. apply intersectObjects_object in Hh as (o & Ho & Hobj & _).
    eauto. }
  pose proof (intersectObjects_nearest Mesh_raycast
                (deviceCoordinates event (canvas s)) (World.camera (world s))
                (collectMeshes (scene s))) as Hnear.
  fold (hits_of Mesh_raycast event s) in Hnear.
  destruct (hits_of Mesh_raycast event s) as [| hit rest] eqn:Eh.
  - destruct (deselectAtom_effect s1) as (Hhid & _ & _ & Hclear).
    destruct (Hclear Hinv1) as (Hps & Hpm & Hhl).
    split; [apply deselectAtom_returns |]. auto.
  - assert (Hhit : In hit (hits_of Mesh_raycast event s))
      by (rewrite Eh; now left).
    apply intersectObjects_object in Hhit as (o & Ho & Hobj & _).
    assert (Hnode : getObjectById (object hit) (scene s1) = Some o).
    { rewrite Hobj. apply getObjectById_NoDup; [apply Hinv1 |].
      rewrite collectMeshes_filter in Ho. now apply filter_In in Ho. }
    assert (Hmesh : isMesh o = true).
    { rewrite collectMeshes_filter in Ho. now apply filter_In in Ho. }
    destruct (@selectAtom_effect s1 (object hit) o Hnode Hmesh)
      as (Hps & Hmat & _ & _ & Hret & Hpanel).
    assert (Hinv' : selection_inv (exec (selectAtom (object hit)) s1)).
    { eapply selectAtom_inv; [exact Hinv1 | exact Ho | now symmetry]. }
    split; [exact Hnear |].
    split; [exact Hps |]. split; [exact Hmat |].
    split.
    { destruct Hinv' as [_ Hsel]. unfold exec in Hsel. rewrite Hps in Hsel.
      destruct (previousMaterial _); [apply Hsel | contradiction]. }
    intros Hc. change (panel s1) with (panel s) in *.
    rewrite Hc in Hret. destruct (infoPanel (panel s));
      (split; [exact Hret |]);
      destruct (Hpanel Hc) as (H1 & H2 & H3 & H4 & Hh);
      (split; [exact Hh |]); exists o; auto.
Qed.

End PointerHandler.

Section ExamplePage.

Import Object3D Interaction Materials.

Lemma NoDup_computed (l : list nat) :
  nodup Nat.eq_dec l = l -> NoDup l.
Proof. intros <-. apply NoDup_nodup. Qed.

(** The page as loaded satisfies the selection invariant. *)
Lemma example_selection_inv : selection_inv Example.interaction.
Proof.
  split.
  - apply NoDup_computed. vm_compute. reflexivity.
  - vm_compute. reflexivity.
Qed.

Lemma example_hits :
  hits_of (Example.ray_through [(Example.oxygen1, 1%R)]) Example.click
          Example.interaction
  = [mkIntersection 1 Example.oxygen1].
Proof. vm_compute. reflexivity. Qed.

End ExamplePage.

(** A click whose ray crosses the first oxygen of the complex selects it. *)
Lemma pointerdown_selects_nearest_mesh_witness :
  let ray := Example.ray_through [(Example.oxygen1, 1%R)] in
  let s' := exec (Interaction.onPointerDown ray Example.click)
                 Example.interaction in
  Interaction.selection_inv Example.interaction
  /\ Interaction.reachable ray Example.interaction Example.interaction
  /\ Interaction.previousSelection s' = Some Example.oxygen1
  /\ Interaction.material_of Example.oxygen1 s'
     = Some Materials.highlightMaterial
  /\ Interaction.text_of (Interaction.infoTitle (Interaction.panel s'))
     = Some "O".
Proof.
  cbv zeta.
  pose proof (@pointerdown_selects_nearest_mesh
                (Example.ray_through [(Example.oxygen1, 1%R)])
                Example.interaction Example.interaction Example.click
                example_selection_inv (Interaction.reach_init _ _)) as H.
  cbv zeta in H. rewrite example_hits in H.
  destruct H as (_ & _ & _ & _ & Hps & Hmat & _ & Hpanel).
  destruct (Hpanel eq_refl) as (_ & _ & mesh & Hmesh & Htitle & _).
  split; [exact example_selection_inv |].
  split; [apply Interaction.reach_init |].
  split; [exact Hps |]. split; [exact Hmat |].
  unfold exec. rewrite Htitle.
  vm_compute in Hmesh. injection Hmesh as <-. reflexivity.
Defined.

Section RoundTrip.

Import Object3D Interaction Materials.

Lemma hideInfoPanel_hidden (s : State) :
  panel_hidden (panel s) = true -> hideInfoPanel s = Ok tt s.
Proof.
  unfold hideInfoPanel, modify, panel_hidden, Dom.classList_add.
  destruct s as [w c ps pm pt [ip it ie ir ic icl] ls]. simpl.
  destruct ip as [e |]; [| reflexivity].
  intros ->. reflexivity.
Qed.

(** Without a selection [deselectAtom] leaves a hidden panel and the rest
    of the state as they are. *)
Lemma deselectAtom_idle (s : State) :
  previousSelection s = None -> panel_hidden (panel s) = true ->
  exec deselectAtom s = s.
Proof.
  intros Hps Hhid. unfold exec. rewrite deselectAtom_unfold, Hps.
  now rewrite hideInfoPanel_hidden.
Qed.

Variable Mesh_raycast : Vector2 -> World.Camera -> Object3D.t -> list R.

(** C9, as the code has it.  [selectAtom(m)] followed by [deselectAtom()]
    leaves the mesh [m] with the material it had before it was
    highlighted: its material before the call when [m] was not the
    selected mesh, the material kept in [previousMaterial] when it was.
    A further [deselectAtom()] changes nothing, and [deselectAtom()]
    without a selection changes no material.  At most one mesh carries
    the highlight material in any state the module reaches. *)
Theorem select_then_deselect_restores
    (init s : State) (mesh : nat) (node : Object3D.t)
    (Hinit : selection_inv init)
    (Hreach : reachable Mesh_raycast init s)
    (Hnode : getObjectById mesh (scene s) = Some node)
    (Hmesh : isMesh node = true) :
  let s1 := exec (selectAtom mesh) s in
  let s2 := exec deselectAtom s1 in
  material_of mesh s2
  = match previousSelection s with
    | Some prev =>
        if Nat.eqb mesh prev then previousMaterial s else material_of mesh s
    | None => material_of mesh s
    end
  /\ (previousSelection s <> Some mesh ->
      material_of mesh s2 = material_of mesh s)
  /\ exec deselectAtom s2 = s2
  /\ (forall s0, previousSelection s0 = None ->
                 scene (exec deselectAtom s0) = scene s0)
  /\ (List.length (highlighted s) <= 1)%nat
  /\ map id (highlighted s1) = [mesh]
  /\ highlighted s2 = [].
Proof.
  cbv zeta.
  pose proof (reachable_inv Hinit Hreach) as Hinv.
  assert (Hin : In node (collectMeshes (scene s))).
  { rewrite collectMeshes_filter. apply filter_In. split; [| exact Hmesh].
    eapply getObjectById_In, Hnode. }
  pose proof (getObjectById_id _ _ Hnode) as Hid.
  pose proof (@selectAtom_inv s mesh node Hinv Hin Hid) as Hinv1.
  destruct (@selectAtom_effect s mesh node Hnode Hmesh)
    as (Hps1 & _ & (node' & Hnode' & Hpm1) & Hsc1 & _).
  destruct (restored_node _ _ Hnode Hnode') as (_ & _ & Hm' & Hmat').
  rewrite <- Hm' in Hmesh. destruct (isMesh_material node' Hmesh) as [pm Hpm].
  set (s1 := exec (selectAtom mesh) s) in *.
  change (state_of (selectAtom mesh s)) with s1 in *.
  destruct (deselectAtom_effect s1) as (Hhid2 & Hsc2 & _ & Hclear).
  destruct (Hclear Hinv1) as (Hps2 & Hpm2 & Hhl2).
  set (s2 := exec deselectAtom s1) in *.
  assert (Hround : material_of mesh s2 = material node').
  { unfold material_of. rewrite Hsc2, Hps1, Hpm1, Hpm.
    unfold restored_scene. rewrite Hps1, Hpm1, Hpm, Hsc1.
    rewrite !getObjectById_update, Hnode' by reflexivity. cbn [option_map].
    rewrite material_update, id_update, (getObjectById_id _ _ Hnode'),
      Nat.eqb_refl by reflexivity.
    rewrite material_update, (getObjectById_id _ _ Hnode'), Nat.eqb_refl, Hpm.
    reflexivity. }
  assert (Hbefore : material_of mesh s = material node)
    by (unfold material_of; now rewrite Hnode).
  assert (Hresult :
            material_of mesh s2
            = match previousSelection s with
              | Some prev =>
                  if Nat.eqb mesh prev then previousMaterial s
                  else material_of mesh s
              | None => material_of mesh s
              end).
  { rewrite Hround, Hmat', Hbefore.
    destruct Hinv as [_ Hsel].
    destruct (previousSelection s) as [prev |], (previousMaterial s) as [mat |];
      try contradiction; [| reflexivity].
    destruct (Nat.eqb mesh prev); [| reflexivity].
    rewrite Hpm in Hmat'. rewrite Hm' in Hmesh.
    destruct (isMesh_material node Hmesh) as [m0 ->]. reflexivity. }
  split; [exact Hresult |].
  split.
  { intros Hne. rewrite Hresult.
    destruct (previousSelection s) as [prev |]; [| reflexivity].
    destruct (Nat.eqb mesh prev) eqn:E; [| reflexivity].
    apply Nat.eqb_eq in E. subst. contradiction. }
  split; [apply deselectAtom_idle; assumption |].
  split; [intros s0 Hs0; now apply deselectAtom_effect |].
  split.
  { destruct Hinv as [_ Hsel].
    destruct (previousSelection s), (previousMaterial s); try contradiction.
    - destruct Hsel as [_ Hone].
      rewrite <- (length_map id), Hone. simpl. lia.
    - rewrite Hsel. simpl. lia. }
  split; [| exact Hhl2].
  destruct Hinv1 as [_ Hsel]. rewrite Hps1 in Hsel.
  destruct (previousMaterial s1); [apply Hsel | contradiction].
Qed.

End RoundTrip.

(** Selecting and deselecting the first oxygen on the freshly loaded page
    gives it its own material back. *)
Lemma select_then_deselect_restores_witness :
  Interaction.selection_inv Example.interaction
  /\ Interaction.material_of Example.oxygen1
       (exec Interaction.deselectAtom
          (exec (Interaction.selectAtom Example.oxygen1) Example.interaction))
     = Interaction.material_of Example.oxygen1 Example.interaction.
Proof.
  split; [exact example_selection_inv |].
  destruct (Object3D.getObjectById Example.oxygen1
              (Interaction.scene Example.interaction)) as [node |] eqn:E;
    [| vm_compute in E; discriminate].
  assert (Hmesh : Object3D.isMesh node = true).
  { vm_compute in E. injection E as <-. reflexivity. }
  apply (@select_then_deselect_restores (Example.ray_through [])
           Example.interaction Example.interaction Example.oxygen1 node
           example_selection_inv (Interaction.reach_init _ _) E Hmesh).
  vm_compute. discriminate.
Defined.

(** C9 as stated fails on a mesh that is already selected: the page where
    a click has selected the first oxygen is reachable, the oxygen carries
    the highlight material there, and selecting it again and deselecting
    leaves it with its own material, not the one it had before the call. *)
Lemma select_then_deselect_counterexample :
  let ray := Example.ray_through [(Example.oxygen1, 1%R)] in
  let s := exec (Interaction.dispatch ray (Interaction.PointerDown Example.click))
                Example.interaction in
  Interaction.reachable ray Example.interaction s
  /\ (exists node,
        Object3D.getObjectById Example.oxygen1 (Interaction.scene s) = Some node
        /\ Object3D.isMesh node = true)
  /\ Interaction.material_of Example.oxygen1 s
     = Some Materials.highlightMaterial
  /\ Interaction.material_of Example.oxygen1
       (exec Interaction.deselectAtom
          (exec (Interaction.selectAtom Example.oxygen1) s))
     <> Interaction.material_of Example.oxygen1 s.
Proof.
  cbv zeta.
  split; [apply Interaction.reach_event, Interaction.reach_init |].
  split.
  { destruct (Object3D.getObjectById Example.oxygen1 _) as [node |] eqn:E;
      [| vm_compute in E; discriminate].
    exists node. split; [reflexivity |].
    vm_compute in E. injection E as <-. reflexivity. }
  split; [vm_compute; reflexivity |].
  intros H.
  apply (f_equal (option_map Materials.material_id)) in H.
  vm_compute in H. discriminate.
Qed.

(** C4, evaluated where it fails.  On a page that has the info panel but
    not its title element, [selectAtom] swaps the material and then throws
    a TypeError at [infoTitle.textContent]; the pointer handler throws
    with it.  [deselectAtom] returns on every page. *)
Theorem selectAtom_throws_on_missing_field :
  let s := Example.interaction_without_title in
  let ray := Example.ray_through [(Example.oxygen1, 1%R)] in
  Interaction.infoPanel (Interaction.panel s) <> None
  /\ Interaction.infoTitle (Interaction.panel s) = None
  /\ returned (Interaction.selectAtom Example.oxygen1 s) = false
  /\ Interaction.material_of Example.oxygen1
       (exec (Interaction.selectAtom Example.oxygen1) s)
     = Some Materials.highlightMaterial
  /\ returned (Interaction.dispatch ray (Interaction.PointerDown Example.click) s)
     = false
  /\ (forall s0, returned (Interaction.deselectAtom s0) = true).
Proof.
  cbv zeta.
  split; [vm_compute; discriminate |].
  split; [reflexivity |].
  split; [vm_compute; reflexivity |].
  split; [vm_compute; reflexivity |].
  split; [vm_compute; reflexivity |].
  apply deselectAtom_returns.
Qed.


(* ================================================================= *)
(** ** main.js: the stage buttons *)

Section StageButtons.

Import Main.

Lemma nth_error_update_nth {A} (f : A -> A) (l : list A) (i j : nat) :
  nth_error (update_nth i f l) j
  = if Nat.eqb j i then option_map f (nth_error l j) else nth_error l j.
Proof.
  revert i j. induction l as [| a l IHl]; intros i j.
  - destruct i, j; simpl; try reflexivity; now destruct (Nat.eqb j i).
  - destruct i, j; simpl; try reflexivity. apply IHl.
Qed.

(** The whole effect of a click on the [i]-th stage button. *)
Lemma onStageClick_unfold (i : nat) (s : State) :
  onStageClick i s
  = match nth_error (stageButtons s) i with
    | None => Ok tt s
    | Some btn =>
        let stage := JsNumber.parseInt (dataset_stage btn) in
        if JsNumber.strict_eq stage (currentStage s) then Ok tt s
        else
          let buttons :=
            update_nth i (map_button (Dom.classList_add "active"))
              (map (map_button (Dom.classList_remove "active")) (stageButtons s)) in
          match stage_label btn with
          | Some label =>
              Ok tt (Main.mk (interaction s) (rendererSize s) stage buttons
                       (console s
                        ++ [("→ Stage " ++ JsNumber.to_string stage ++ ": "
                             ++ Dom.textContent label)%string]))
          | None =>
              Throw (TypeError
                       "Cannot read properties of null (reading 'textContent')")
                    (Main.mk (interaction s) (rendererSize s) stage buttons
                       (console s))
          end
    end.
Proof.
  unfold onStageClick, bind, get, modify, throw.
  destruct (nth_error (stageButtons s) i) as [btn |]; [| reflexivity].
  cbv zeta.
  destruct (JsNumber.strict_eq _ _); [reflexivity |].
  destruct (stage_label btn); reflexivity.
Qed.

(** After the two class updates the clicked button is the active one. *)
Lemma active_moved (buttons : list StageButton) (i j : nat) (b : StageButton) :
  nth_error
    (update_nth i (map_button (Dom.classList_add "active"))
       (map (map_button (Dom.classList_remove "active")) buttons)) j = Some b ->
  Dom.has_class "active" (button b) = Nat.eqb j i.
Proof.
  rewrite nth_error_update_nth, nth_error_map.
  destruct (nth_error buttons j) as [b0 |]; [| now destruct (Nat.eqb j i)].
  destruct (Nat.eqb j i); simpl; intros [= <-]; simpl.
  - apply has_class_add.
  - apply has_class_remove.
Qed.

Lemma onStageClick_interaction (i : nat) (s : State) :
  interaction (exec (onStageClick i) s) = interaction s.
Proof.
  unfold exec. rewrite onStageClick_unfold.
  destruct (nth_error (stageButtons s) i) as [btn |]; [| reflexivity].
  cbv zeta. destruct (JsNumber.strict_eq _ _); [reflexivity |].
  destruct (stage_label btn); reflexivity.
Qed.

(** C5. A click on a stage button leaves the world (scene graph, camera,
    controls) and the whole state of the interaction module as they are.
    When the stage of the button equals [currentStage] it does nothing at
    all; otherwise it stores the stage, leaves the clicked button as the
    only one with the class [active], and logs one line. *)
Theorem stage_click_leaves_scene_unchanged (s : State) (i : nat) :
  let out := onStageClick i s in
  let s' := state_of out in
  world s' = world s
  /\ interaction s' = interaction s
  /\ rendererSize s' = rendererSize s
  /\ match nth_error (stageButtons s) i with
     | None => out = Ok tt s
     | Some btn =>
         let stage := JsNumber.parseInt (dataset_stage btn) in
         if JsNumber.strict_eq stage (currentStage s) then out = Ok tt s
         else
           currentStage s' = stage
           /\ (forall j b, nth_error (stageButtons s') j = Some b ->
                           Dom.has_class "active" (button b) = Nat.eqb j i)
           /\ List.length (stageButtons s') = List.length (stageButtons s)
           /\ match stage_label btn with
              | Some label =>
                  returned out = true
                  /\ console s'
                     = console s
                       ++ [("→ Stage " ++ JsNumber.to_string stage ++ ": "
                            ++ Dom.textContent label)%string]
              | None => returned out = false /\ console s' = console s
              end
     end.
Proof.
  cbv zeta. rewrite onStageClick_unfold.
  destruct (nth_error (stageButtons s) i) as [btn |]; [| auto].
  cbv zeta. destruct (JsNumber.strict_eq _ _); [auto |].
  assert (Hlen : forall l : list StageButton,
             List.length
               (update_nth i (map_button (Dom.classList_add "active"))
                  (map (map_button (Dom.classList_remove "active")) l))
             = List.length l).
  { intros l. revert i. induction l as [| a l IHl]; intros [| i]; simpl; auto.
    now rewrite length_map. }
  destruct (stage_label btn); cbn [state_of world interaction rendererSize
    currentStage stageButtons console returned];
    (repeat split; auto; [intros j b; apply active_moved]).
Qed.

End StageButtons.

(* ================================================================= *)
(** ** Module-level state and the handlers *)

Section ModuleState.

Import Main.

Variable Mesh_raycast :
  Interaction.Vector2 -> World.Camera -> Object3D.t -> list R.

Lemma skipn_app_length {A} (l l' : list A) :
  skipn (List.length l) (l ++ l') = l'.
Proof. induction l; simpl; auto. Qed.

Lemma skipn_length_self {A} (l : list A) : skipn (List.length l) l = [].
Proof. induction l; simpl; auto. Qed.

(** Two states of interaction.js with the same surroundings and module
    variables differ in the pointer vector at most. *)
Lemma interaction_same_but_pointer (s1 s2 : Interaction.State) :
  Interaction.surroundings s1 = Interaction.surroundings s2 ->
  Interaction.module_variables s1 = Interaction.module_variables s2 ->
  s2 = Interaction.set_pointer (Interaction.pointer s2) s1.
Proof.
  destruct s1, s2. unfold Interaction.surroundings, Interaction.module_variables.
  simpl. intros [= -> -> -> ->] [= -> ->]. reflexivity.
Qed.

Lemma deselectAtom_pointer (p : Interaction.Vector2) (s : Interaction.State) :
  Interaction.deselectAtom (Interaction.set_pointer p s)
  = match Interaction.deselectAtom s with
    | Ok a s' => Ok a (Interaction.set_pointer p s')
    | Throw e s' => Throw e (Interaction.set_pointer p s')
    end.
Proof.
  rewrite !deselectAtom_unfold. unfold Interaction.restored_scene.
  destruct s as [w c ps pm pt [ip it ie ir ic icl] ls].
  unfold Interaction.hideInfoPanel, modify. simpl.
  destruct ps, pm, ip; reflexivity.
Qed.

Lemma interaction_dispatch_function (e : Interaction.Event)
    (s1 s2 : Interaction.State) :
  Interaction.surroundings s1 = Interaction.surroundings s2 ->
  Interaction.module_variables s1 = Interaction.module_variables s2 ->
  let o1 := Interaction.dispatch Mesh_raycast e s1 in
  let o2 := Interaction.dispatch Mesh_raycast e s2 in
  returned o1 = returned o2
  /\ Interaction.surroundings (state_of o1) = Interaction.surroundings (state_of o2)
  /\ Interaction.module_variables (state_of o1)
     = Interaction.module_variables (state_of o2).
Proof.
  intros Hs Hv. cbv zeta.
  rewrite (@interaction_same_but_pointer s1 s2 Hs Hv).
  generalize (Interaction.pointer s2). intros p. clear s2 Hs Hv.
  unfold Interaction.dispatch, bind, get.
  destruct e as [event |].
  - change (Interaction.has_listener Interaction.OnPointerDown
              (Interaction.set_pointer p s1))
      with (Interaction.has_listener Interaction.OnPointerDown s1).
    destruct (Interaction.has_listener Interaction.OnPointerDown s1).
    + rewrite !onPointerDown_unfold. cbv zeta.
      change (Interaction.hits_of Mesh_raycast event (Interaction.set_pointer p s1))
        with (Interaction.hits_of Mesh_raycast event s1).
      change (Interaction.set_pointer
                (Interaction.deviceCoordinates event
                   (Interaction.canvas (Interaction.set_pointer p s1)))
                (Interaction.set_pointer p s1))
        with (Interaction.set_pointer
                (Interaction.deviceCoordinates event (Interaction.canvas s1)) s1).
      auto.
    + simpl. auto.
  - change (Interaction.has_listener Interaction.OnCloseClick
              (Interaction.set_pointer p s1))
      with (Interaction.has_listener Interaction.OnCloseClick s1).
    destruct (Interaction.has_listener Interaction.OnCloseClick s1).
    + rewrite deselectAtom_pointer.
      destruct (Interaction.deselectAtom s1); simpl; auto.
    + simpl. auto.
Qed.

(** What a listener of main.js or interaction.js does is a function of
    its event, its surroundings (world and DOM) and the variables
    [currentStage], [previousSelection] and [previousMaterial] together:
    the pointer vector, the size of the renderer and what the console
    holds do not matter. *)
Lemma main_behaviour_function (e : Event) (s1 s2 : State)
    (Hsurroundings : surroundings s1 = surroundings s2)
    (Hvariables : module_variables s1 = module_variables s2) :
  behaviour Mesh_raycast e s1 = behaviour Mesh_raycast e s2.
Proof.
  pose proof (f_equal fst Hsurroundings) as Hi.
  pose proof (f_equal snd Hsurroundings) as Hb.
  pose proof (f_equal fst Hvariables) as Hc.
  pose proof (f_equal snd Hvariables) as Hv.
  cbn [fst snd surroundings module_variables] in Hi, Hb, Hc, Hv.
  clear Hsurroundings Hvariables.
  unfold behaviour, logged, exec, dispatch.
  destruct e as [i | window | e'].
  - rewrite !onStageClick_unfold, <- Hb, <- Hc.
    destruct (nth_error (stageButtons s1) i) as [btn |].
    + cbv zeta. destruct (JsNumber.strict_eq _ _).
      * cbn [returned state_of]. rewrite !skipn_length_self.
        unfold surroundings, module_variables. now rewrite Hi, Hb, Hc, Hv.
      * destruct (stage_label btn); cbn [returned state_of console];
          rewrite ?skipn_app_length, ?skipn_length_self;
          unfold surroundings, module_variables;
          cbn [interaction stageButtons currentStage]; now rewrite Hi, Hv.
    + cbn [returned state_of]. rewrite !skipn_length_self.
      unfold surroundings, module_variables. now rewrite Hi, Hb, Hc, Hv.
  - unfold onResize, bind, modify. cbn [returned state_of console].
    rewrite !skipn_length_self.
    destruct s1 as [[w1 c1 ps1 pm1 pt1 pn1 ls1] r1 cs1 b1 co1],
             s2 as [[w2 c2 ps2 pm2 pt2 pn2 ls2] r2 cs2 b2 co2].
    unfold Interaction.surroundings, Interaction.module_variables in *.
    cbn in *. injection Hi as -> -> -> ->. injection Hv as -> ->.
    now rewrite Hb, Hc.
  - destruct (@interaction_dispatch_function e' _ _ Hi Hv) as (Hr & Hs' & Hv').
    cbv zeta in *. unfold zoom.
    destruct (Interaction.dispatch Mesh_raycast e' (interaction s1)),
             (Interaction.dispatch Mesh_raycast e' (interaction s2));
      cbn [returned state_of console set_interaction] in *;
      rewrite ?skipn_length_self;
      try discriminate;
      unfold surroundings, module_variables, set_interaction;
      cbn [interaction stageButtons currentStage];
      now rewrite Hs', Hv', Hb, Hc.
Qed.

End ModuleState.

(** C6 as stated fails on the stage buttons.  The page as loaded and the
    page after one click on the button of stage 1 are both reachable and
    show the same world; the same click logs a line on the first and does
    nothing on the second, because [currentStage] differs. *)
Lemma handler_behaviour_counterexample :
  let ray := Example.ray_through [] in
  let e := Main.StageClick 1 in
  let s1 := Example.main in
  let s2 := exec (Main.dispatch ray e) s1 in
  Main.reachable ray s1 s1
  /\ Main.reachable ray s1 s2
  /\ Main.world s1 = Main.world s2
  /\ Main.currentStage s1 = JsNumber.Num 0
  /\ Main.currentStage s2 = JsNumber.Num 1
  /\ Main.logged ray e s1 = ["→ Stage 1: Dissolution"]
  /\ Main.logged ray e s2 = []
  /\ Main.behaviour ray e s1 <> Main.behaviour ray e s2.
Proof.
  cbv zeta.
  split; [apply Main.reach_init |].
  split; [apply Main.reach_event, Main.reach_init |].
  split.
  { exact (f_equal Interaction.world
             (eq_sym (onStageClick_interaction 1 Example.main))). }
  split; [reflexivity |].
  split; [vm_compute; reflexivity |].
  assert (H1 : Main.logged (Example.ray_through []) (Main.StageClick 1) Example.main
               = ["→ Stage 1: Dissolution"]) by (vm_compute; reflexivity).
  assert (H2 : Main.logged (Example.ray_through []) (Main.StageClick 1)
                 (exec (Main.dispatch (Example.ray_through []) (Main.StageClick 1))
                       Example.main) = []) by (vm_compute; reflexivity).
  split; [exact H1 |]. split; [exact H2 |].
  unfold Main.behaviour. rewrite H1, H2. intros H.
  apply (f_equal (fun b => snd (fst (fst b)))) in H. simpl in H. discriminate.
Qed.


(* ================================================================= *)
(** ** Frame conditions of computations *)

Section Keeps.

Context {S X : Type} (obs : S -> X).

Lemma keeps_ret {A} (a : A) : keeps obs (ret a).
Proof. intros s. reflexivity. Qed.

Lemma keeps_get : keeps obs get.
Proof. intros s. reflexivity. Qed.

Lemma keeps_throw {A} (e : Error) : keeps obs (@throw S A e).
Proof. intros s. reflexivity. Qed.

Lemma keeps_modify (f : S -> S) :
  (forall s, obs (f s) = obs s) -> keeps obs (modify f).
Proof. intros H s. apply H. Qed.

Lemma keeps_bind {A B} (c : M S A) (k : A -> M S B) :
  keeps obs c -> (forall a, keeps obs (k a)) -> keeps obs (bind c k).
Proof.
  intros Hc Hk s. unfold bind. specialize (Hc s).
  destruct (c s) as [a s' | e s']; simpl in *.
  - now rewrite Hk.
  - exact Hc.
Qed.

Lemma keeps_forEach {A} (f : A -> M S unit) (l : list A) :
  (forall a, keeps obs (f a)) -> keeps obs (forEach f l).
Proof.
  intros Hf. induction l as [| a l IHl]; simpl.
  - apply keeps_ret.
  - apply keeps_bind; [apply Hf | intros _; exact IHl].
Qed.

Lemma keeps_foldM {A B} (f : B -> A -> M S B) (b : B) (l : list A) :
  (forall b a, keeps obs (f b a)) -> keeps obs (foldM f b l).
Proof.
  intros Hf. revert b. induction l as [| a l IHl]; intros b; simpl.
  - apply keeps_ret.
  - apply keeps_bind; [apply Hf | intros b'; apply IHl].
Qed.

End Keeps.

(* ================================================================= *)
(** ** stages.js: cancellation *)

Section Cancellation.

Import Gsap Stages.

Lemma map_killed_update_nth (tl : nat) (f : Timeline -> Timeline)
    (ts : list Timeline) :
  (forall t, killed (f t) = killed t) ->
  map (@killed Callback) (update_nth tl f ts) = map (@killed Callback) ts.
Proof.
  intros Hf. revert tl. induction ts as [| t ts IHts]; intros [| tl]; simpl;
    try reflexivity.
  - now rewrite Hf.
  - now rewrite IHts.
Qed.

Lemma keeps_on_timeline (tl : nat) (f : Timeline -> Timeline) :
  (forall t, killed (f t) = killed t) ->
  keeps cancellation (on_timeline tl f).
Proof.
  intros Hf. apply keeps_modify. intros s. unfold cancellation. simpl.
  now rewrite map_killed_update_nth.
Qed.

Lemma keeps_tl_to tl tw position : keeps cancellation (tl_to tl tw position).
Proof. apply keeps_on_timeline. reflexivity. Qed.

Lemma keeps_tl_call tl cb position : keeps cancellation (tl_call tl cb position).
Proof. apply keeps_on_timeline. reflexivity. Qed.

Lemma keeps_set_local tl l v : keeps cancellation (set_local tl l v).
Proof. apply keeps_on_timeline. reflexivity. Qed.

Lemma keeps_the {A} (r : State -> option A) : keeps cancellation (the r).
Proof. intros s. unfold the, bind, get. simpl. destruct (r s); reflexivity. Qed.

Lemma keeps_ref (f : Refs -> nat) : keeps cancellation (ref f).
Proof. apply keeps_the. Qed.

Lemma keeps_deref (r : nat) : keeps cancellation (deref r).
Proof.
  intros s. unfold deref, bind, get. simpl.
  destruct (Object3D.getObjectById r (scene s)); reflexivity.
Qed.

Lemma keeps_worldPositionOf (r : nat) : keeps cancellation (worldPositionOf r).
Proof.
  intros s. unfold worldPositionOf, bind, get. simpl.
  destruct (Object3D.getWorldPosition r (scene s)); reflexivity.
Qed.

Lemma keeps_assign r f : keeps cancellation (assign r f).
Proof. apply keeps_modify. reflexivity. Qed.

Lemma keeps_alloc {A} (c : M Ids.t A) : keeps cancellation (alloc c).
Proof.
  intros s. unfold alloc, World.alloc, zoom.
  destruct (c (World.ids (world s))); reflexivity.
Qed.

Lemma keeps_Math_random : keeps cancellation Math_random.
Proof. intros s. reflexivity. Qed.

Lemma keeps_updateDescription stage : keeps cancellation (updateDescription stage).
Proof.
  apply keeps_modify. intros s. destruct (stageDesc s); reflexivity.
Qed.

End Cancellation.

(** Proves that a computation of stages.js keeps the cancellation state,
    by following its structure. *)
Ltac keeps_cancellation :=
  repeat first
    [ apply keeps_ret | apply keeps_get | apply keeps_throw
    | apply keeps_tl_to | apply keeps_tl_call | apply keeps_set_local
    | apply keeps_ref | apply keeps_the | apply keeps_deref
    | apply keeps_worldPositionOf | apply keeps_assign | apply keeps_alloc
    | apply keeps_Math_random | apply keeps_updateDescription
    | apply keeps_bind; [| intros ?]
    | apply keeps_forEach; intros ?
    | apply keeps_foldM; intros ? ?
    | apply keeps_modify; intros ?; reflexivity
    | match goal with
      | |- keeps _ (match ?x with _ => _ end) => destruct x
      | |- keeps _ (let (_, _) := ?x in _) => destruct x
      end ].

Section StageFunctions.

Import Gsap Stages.

Lemma keeps_restoreMaterials complex : keeps cancellation (restoreMaterials complex).
Proof. unfold restoreMaterials. keeps_cancellation. Qed.

Lemma stageComplex_opens : opens_one_timeline stageComplex.
Proof.
  unfold opens_one_timeline, stageComplex. eexists. split; [reflexivity |].
  intros tl. cbv beta. keeps_cancellation.
Qed.

Lemma stageDissolution_opens : opens_one_timeline stageDissolution.
Proof.
  unfold opens_one_timeline, stageDissolution. eexists. split; [reflexivity |].
  intros tl. cbv beta.
  keeps_cancellation; try apply keeps_restoreMaterials; keeps_cancellation.
Qed.

Lemma stageHydration_opens : opens_one_timeline stageHydration.
Proof.
  unfold opens_one_timeline, stageHydration. eexists. split; [reflexivity |].
  intros tl. cbv beta.
  keeps_cancellation; try apply keeps_restoreMaterials; keeps_cancellation.
Qed.

Lemma stageHydrolysis_opens : opens_one_timeline stageHydrolysis.
Proof.
  unfold opens_one_timeline, stageHydrolysis. eexists. split; [reflexivity |].
  intros tl. cbv beta. keeps_cancellation.
Qed.

Lemma opens_cancellation (f : M State unit) (s : State) :
  opens_one_timeline f ->
  cancellation (exec f s)
  = (map (@killed Callback) (timelines s) ++ [false],
     Some (List.length (timelines s))).
Proof.
  intros (rest & -> & Hrest). unfold exec, bind, gsap_timeline, get, put, modify.
  simpl. rewrite Hrest. unfold cancellation. simpl.
  now rewrite map_app.
Qed.

End StageFunctions.

Section GoToStage.

Import Gsap Stages.

Lemma all_true_repeat (l : list bool) :
  Forall (fun b => b = true) l -> l = List.repeat true (List.length l).
Proof. induction 1; simpl; [reflexivity | congruence]. Qed.

(** Under the invariant, killing the active timeline leaves none alive. *)
Lemma killed_after_kill (s : State) :
  one_timeline s ->
  Forall (fun b => b = true)
    (map (@killed Callback)
       match _activeTimeline s with
       | Some tl => update_nth tl (@Gsap.kill Callback) (timelines s)
       | None => timelines s
       end).
Proof.
  intros Hinv.
  destruct (_activeTimeline s) as [tl |] eqn:Ea;
    apply Forall_forall; intros b Hb;
    apply In_nth_error in Hb as [i Hi];
    rewrite nth_error_map in Hi.
  - rewrite nth_error_update_nth in Hi. revert Hi.
    destruct (nth_error _ i) as [t |] eqn:Et,
             (Nat.eqb i tl) eqn:E; simpl; intros Hi;
      try discriminate; injection Hi as <-; [reflexivity |].
    destruct (killed t) eqn:Ek; [reflexivity |].
    specialize (Hinv i t Et Ek). rewrite Ea in Hinv. injection Hinv as <-.
    now rewrite Nat.eqb_refl in E.
  - revert Hi.
    destruct (nth_error _ i) as [t |] eqn:Et; simpl; intros Hi;
      [| discriminate].
    injection Hi as <-.
    destruct (killed t) eqn:Ek; [reflexivity |].
    specialize (Hinv i t Et Ek). rewrite Ea in Hinv. discriminate.
Qed.

Lemma length_update_nth {A} (i : nat) (f : A -> A) (l : list A) :
  List.length (update_nth i f l) = List.length l.
Proof.
  revert i. induction l as [| a l IHl]; intros [| i]; simpl; auto.
Qed.

(** The cancellation state [goToStage] leaves: every timeline that
    existed is killed; with a stage function, one new timeline plays and
    is the active one; without, none is. *)
Lemma goToStage_cancellation (stage : JsNumber.t) (s : State) :
  one_timeline s ->
  let n := List.length (timelines s) in
  cancellation (exec (goToStage stage) s)
  = if has_stage_function stage
    then (List.repeat true n ++ [false], Some n)
    else (List.repeat true n, None).
Proof.
  intros Hinv n.
  pose proof (all_true_repeat (killed_after_kill Hinv)) as Hkilled.
  rewrite length_map in Hkilled.
  set (s1 := match _activeTimeline s with
             | Some tl =>
                 set_activeTimeline None
                   (set_timelines
                      (update_nth tl (@Gsap.kill Callback) (timelines s)) s)
             | None => s
             end).
  assert (Hc1 : cancellation s1 = (List.repeat true n, None)).
  { unfold s1, cancellation.
    destruct (_activeTimeline s) as [tl |] eqn:Ea; simpl.
    - rewrite Hkilled, length_update_nth. reflexivity.
    - rewrite Hkilled, Ea. reflexivity. }
  assert (Hlen1 : List.length (timelines s1) = n).
  { unfold s1. destruct (_activeTimeline s); simpl; [| reflexivity].
    apply length_update_nth. }
  set (s2 := exec (updateDescription stage) s1).
  assert (Hc2 : cancellation s2 = (List.repeat true n, None))
    by (unfold s2, exec; rewrite keeps_updateDescription; exact Hc1).
  assert (Hlen2 : List.length (timelines s2) = n).
  { unfold s2, exec, updateDescription, modify. simpl.
    destruct (stageDesc s1); exact Hlen1. }
  assert (Hrun : forall f : M State unit,
             exec (goToStage stage) s
             = exec f s2 ->
             opens_one_timeline f ->
             cancellation (exec (goToStage stage) s)
             = (List.repeat true n ++ [false], Some n)).
  { intros f -> Hf. rewrite (opens_cancellation s2 Hf), Hlen2.
    unfold cancellation in Hc2. injection Hc2 as -> _. reflexivity. }
  assert (Hunfold : exec (goToStage stage) s
                    = exec match stageFunction stage with
                           | Some stageFn => stageFn
                           | None => ret tt
                           end s2).
  { unfold s2, s1, exec, goToStage, killActiveTimeline, bind, get, tl_kill,
      on_timeline, modify, updateDescription.
    destruct (_activeTimeline s); reflexivity. }
  assert (Hopens : forall f, stageFunction stage = Some f -> opens_one_timeline f).
  { intros f Hf. destruct stage as [| z]; [discriminate |].
    destruct z as [| p | p]; [| | discriminate].
    - injection Hf as <-. apply stageComplex_opens.
    - destruct p as [[p | p |] | [p | p |] |]; try discriminate;
        injection Hf as <-.
      + apply stageHydrolysis_opens.
      + apply stageHydration_opens.
      + apply stageDissolution_opens. }
  unfold has_stage_function.
  destruct (stageFunction stage) as [f |] eqn:Ef.
  - apply (Hrun f Hunfold (Hopens f eq_refl)).
  - rewrite Hunfold. exact Hc2.
Qed.

End GoToStage.

Section OneTimeline.

Import Gsap Stages.

Lemma keeps_run_callback tl cb : keeps cancellation (run_callback tl cb).
Proof. unfold run_callback. destruct cb; keeps_cancellation. Qed.

Lemma keeps_write t prop w : keeps cancellation (write t prop w).
Proof. unfold write. destruct t, w; keeps_cancellation. Qed.

(** The invariant reads the cancellation state only. *)
Lemma one_timeline_cancellation (s : State) :
  one_timeline s
  <-> forall i, nth_error (fst (cancellation s)) i = Some false ->
                snd (cancellation s) = Some i.
Proof.
  unfold one_timeline, cancellation. cbn [fst snd]. split.
  - intros H i Hi. rewrite nth_error_map in Hi.
    destruct (nth_error _ i) as [t |] eqn:Et; [| discriminate].
    simpl in Hi. injection Hi as Hk. eapply H; eauto.
  - intros H i t Et Hk. apply H. rewrite nth_error_map.
    unfold Timeline in *. rewrite Et. simpl. now rewrite Hk.
Qed.

Lemma one_timeline_kept (s s' : State) :
  cancellation s' = cancellation s -> one_timeline s -> one_timeline s'.
Proof.
  intros Hc. rewrite !one_timeline_cancellation, Hc. exact (fun H => H).
Qed.

Lemma nth_error_all_true (n i : nat) (tail : list bool) :
  nth_error (List.repeat true n ++ tail) i = Some false ->
  (n <= i)%nat /\ nth_error tail (i - n) = Some false.
Proof.
  revert i. induction n as [| n IHn]; intros i; simpl.
  - rewrite Nat.sub_0_r. intros H. split; [lia | exact H].
  - destruct i as [| i]; simpl; [discriminate |].
    intros H. destruct (IHn i H). split; [lia | assumption].
Qed.

Lemma goToStage_one_timeline (stage : JsNumber.t) (s : State) :
  one_timeline s -> one_timeline (exec (goToStage stage) s).
Proof.
  intros Hinv. apply one_timeline_cancellation.
  rewrite (goToStage_cancellation stage Hinv).
  destruct (has_stage_function stage); cbn [fst snd]; intros i Hi.
  - apply nth_error_all_true in Hi as [Hle Hi].
    destruct (i - List.length (timelines s))%nat as [| k] eqn:E; simpl in Hi.
    + f_equal. lia.
    + destruct k; discriminate.
  - rewrite <- (app_nil_r (List.repeat _ _)) in Hi.
    apply nth_error_all_true in Hi as [_ Hi].
    destruct (i - _)%nat; discriminate.
Qed.

(** Every state the module reaches has at most the active timeline alive. *)
Lemma reachable_one_timeline (init s : State) :
  one_timeline init -> reachable init s -> one_timeline s.
Proof.
  intros Hinit Hreach.
  induction Hreach as [| s stage _ IH | s tl t cb position _ IH _ _
                       | s tl t tw position prop goal w _ IH _ _ _ _
                       | s tl t tw position cb _ IH _ _ _].
  - exact Hinit.
  - apply goToStage_one_timeline, IH.
  - eapply one_timeline_kept; [apply keeps_run_callback | exact IH].
  - eapply one_timeline_kept; [apply keeps_write | exact IH].
  - eapply one_timeline_kept; [apply keeps_run_callback | exact IH].
Qed.

Lemma NoDup_all_equal (l : list nat) (a : nat) :
  NoDup l -> (forall x, In x l -> x = a) -> (List.length l <= 1)%nat.
Proof.
  intros Hnd Hall. destruct l as [| x [| y l]]; simpl; try lia.
  exfalso. inversion Hnd as [| ? ? Hnot _]; subst. apply Hnot.
  rewrite (Hall x), (Hall y); simpl; auto.
Qed.

Lemma unkilled_at_most_one (s : State) :
  one_timeline s -> (List.length (unkilled s) <= 1)%nat.
Proof.
  intros Hinv. unfold unkilled.
  destruct (_activeTimeline s) as [a |] eqn:Ea.
  - apply NoDup_all_equal with (a := a).
    + apply NoDup_filter, seq_NoDup.
    + intros i Hi. apply filter_In in Hi as [_ Hi].
      destruct (nth_error _ i) as [t |] eqn:Et; [| discriminate].
      apply negb_true_iff in Hi. specialize (Hinv i t Et Hi).
      rewrite Ea in Hinv. now injection Hinv.
  - rewrite filter_none; [simpl; lia |].
    intros i _. destruct (nth_error _ i) as [t |] eqn:Et; [| reflexivity].
    destruct (killed t) eqn:Ek; [reflexivity |].
    specialize (Hinv i t Et Ek). rewrite Ea in Hinv. discriminate.
Qed.

(** C8. In every state the module reaches, a timeline that has not been
    killed is the one [_activeTimeline] refers to, so at most one timeline
    of the module is alive.  [goToStage] leaves every timeline that
    existed killed, and the reference either cleared (no stage function)
    or set to the one new timeline its stage function created.  Nothing
    else cancels: the closures and the frames of a timeline leave the
    killed flags and the reference as they are. *)
Theorem at_most_one_timeline_alive (init s : State)
    (Hinit : one_timeline init) (Hreach : reachable init s) :
  one_timeline s
  /\ (List.length (unkilled s) <= 1)%nat
  /\ (forall stage,
        let n := List.length (timelines s) in
        cancellation (exec (goToStage stage) s)
        = if has_stage_function stage
          then (List.repeat true n ++ [false], Some n)
          else (List.repeat true n, None))
  /\ (forall tl cb,
        cancellation (exec (run_callback tl cb) s) = cancellation s)
  /\ (forall t prop w,
        cancellation (exec (write t prop w) s) = cancellation s).
Proof.
  pose proof (reachable_one_timeline Hinit Hreach) as Hinv.
  split; [exact Hinv |].
  split; [apply unkilled_at_most_one, Hinv |].
  split; [intros stage; apply goToStage_cancellation, Hinv |].
  split; [intros tl cb; apply keeps_run_callback |].
  intros t prop w. apply keeps_write.
Qed.

End OneTimeline.

Lemma example_stages_no_timeline : Stages.timelines Example.stages = [].
Proof. vm_compute. reflexivity. Qed.

Lemma example_one_timeline : Stages.one_timeline Example.stages.
Proof.
  intros i t H. rewrite example_stages_no_timeline in H.
  destruct i; discriminate.
Qed.

(** The hydrolysis stage on the freshly initialised module: its timeline
    is the only one alive. *)
Lemma at_most_one_timeline_alive_witness :
  let s := exec (Stages.goToStage (JsNumber.Num 3)) Example.stages in
  Stages.one_timeline Example.stages
  /\ Stages.reachable Example.stages s
  /\ Stages.one_timeline s
  /\ (List.length (Stages.unkilled s) <= 1)%nat.
Proof.
  cbv zeta.
  split; [exact example_one_timeline |].
  split; [apply Stages.reach_goToStage, Stages.reach_init |].
  split;
    apply (@at_most_one_timeline_alive Example.stages _ example_one_timeline
             (Stages.reach_goToStage (JsNumber.Num 3)
                (Stages.reach_init Example.stages))).
Defined.


(* ================================================================= *)
(** ** stages.js: the dispatch of goToStage *)

Section Dispatch.

Import Gsap Stages.

(** [goToStage] on a stage value without a stage function kills the
    timeline in flight and updates the description, and that is all: the
    world, the saved maps and the references stay as they are. *)
Lemma goToStage_without_stage_function (stage : JsNumber.t) (s : State) :
  stageFunction stage = None ->
  exec (goToStage stage) s
  = exec (updateDescription stage) (exec killActiveTimeline s)
  /\ world (exec (goToStage stage) s) = world s
  /\ savedPositions (exec (goToStage stage) s) = savedPositions s
  /\ savedMaterials (exec (goToStage stage) s) = savedMaterials s
  /\ List.length (timelines (exec (goToStage stage) s))
     = List.length (timelines s).
Proof.
  intros Hnone.
  assert (Heq : exec (goToStage stage) s
                = exec (updateDescription stage) (exec killActiveTimeline s)).
  { unfold exec, goToStage, bind. rewrite Hnone.
    unfold killActiveTimeline, bind, get, tl_kill, on_timeline, modify,
      updateDescription.
    destruct (_activeTimeline s); reflexivity. }
  split; [exact Heq |]. rewrite Heq. clear Heq.
  unfold exec, killActiveTimeline, bind, get, tl_kill, on_timeline, modify,
    updateDescription.
  destruct s as [w sp sm rf fw [tl |] [e |] ts al en]; simpl;
    rewrite ?length_update_nth; auto.
Qed.

(** With a stage function, [goToStage] runs exactly that function after
    the kill and the description. *)
Lemma goToStage_with_stage_function (stage : JsNumber.t) (s : State) f :
  stageFunction stage = Some f ->
  exec (goToStage stage) s
  = exec f (exec (updateDescription stage) (exec killActiveTimeline s)).
Proof.
  intros Hf. unfold exec, goToStage, bind. rewrite Hf.
  unfold killActiveTimeline, bind, get, tl_kill, on_timeline, modify,
    updateDescription.
  destruct (_activeTimeline s); reflexivity.
Qed.

(** The stage values that have a stage function are 0, 1, 2 and 3. *)
Lemma stageFunction_cases (stage : JsNumber.t) :
  match stage with
  | JsNumber.Num 0 => stageFunction stage = Some stageComplex
  | JsNumber.Num 1 => stageFunction stage = Some stageDissolution
  | JsNumber.Num 2 => stageFunction stage = Some stageHydration
  | JsNumber.Num 3 => stageFunction stage = Some stageHydrolysis
  | _ => stageFunction stage = None
  end.
Proof.
  destruct stage as [| [| [[p | p |] | [p | p |] |] | p]]; reflexivity.
Qed.

End Dispatch.

(* ================================================================= *)
(** ** stages.js: what the closures of a timeline keep *)

Section Schedule.

Import Gsap Stages.

Lemma schedule_on_timeline (tl : nat) (f : Timeline -> Timeline) :
  (forall t, entries (f t) = entries t /\ killed (f t) = killed t) ->
  keeps schedule (on_timeline tl f).
Proof.
  intros Hf. apply keeps_modify. intros s. unfold schedule. simpl. f_equal.
  generalize (timelines s). intros ts. revert tl.
  induction ts as [| t ts IHts]; intros [| tl]; simpl; try reflexivity.
  - destruct (Hf t) as [-> ->]. reflexivity.
  - now rewrite IHts.
Qed.

Lemma schedule_set_local tl l v : keeps schedule (set_local tl l v).
Proof. apply schedule_on_timeline. intros t. split; reflexivity. Qed.

Lemma schedule_the {A} (r : State -> option A) : keeps schedule (the r).
Proof. intros s. unfold the, bind, get. simpl. destruct (r s); reflexivity. Qed.

Lemma schedule_deref (r : nat) : keeps schedule (deref r).
Proof.
  intros s. unfold deref, bind, get. simpl.
  destruct (Object3D.getObjectById r (scene s)); reflexivity.
Qed.

Lemma schedule_worldPositionOf (r : nat) : keeps schedule (worldPositionOf r).
Proof.
  intros s. unfold worldPositionOf, bind, get. simpl.
  destruct (Object3D.getWorldPosition r (scene s)); reflexivity.
Qed.

Lemma schedule_assign r f : keeps schedule (assign r f).
Proof. apply keeps_modify. reflexivity. Qed.

Lemma schedule_alloc {A} (c : M Ids.t A) : keeps schedule (alloc c).
Proof.
  intros s. unfold alloc, World.alloc, zoom.
  destruct (c (World.ids (world s))); reflexivity.
Qed.

(** Running a closure adds no child to a timeline and kills none. *)
Lemma schedule_run_callback tl cb : keeps schedule (run_callback tl cb).
Proof.
  unfold run_callback, ref. destruct cb;
    repeat first
      [ apply keeps_ret | apply keeps_get | apply keeps_throw
      | apply schedule_set_local | apply schedule_the | apply schedule_deref
      | apply schedule_worldPositionOf | apply schedule_assign
      | apply schedule_alloc
      | apply keeps_bind; [| intros ?]
      | apply keeps_modify; intros ?; reflexivity
      | match goal with
        | |- keeps _ (match ?x with _ => _ end) => destruct x
        end ].
Qed.

Lemma calls_scheduled (t : Timeline) (cb : Callback) :
  In cb (calls t) -> exists position, In (Call cb position) (entries t).
Proof.
  unfold calls. rewrite in_flat_map. intros (e & He & Hcb).
  destruct e as [tw position | cb' position]; simpl in Hcb; [contradiction |].
  destruct Hcb as [<- | []]. eauto.
Qed.

(** Letting the first closures of a playing timeline run stays within
    the states the module reaches. *)
Lemma fire_reachable (init s : State) (tl n : nat) (t : Timeline) :
  reachable init s ->
  nth_error (timelines s) tl = Some t -> killed t = false ->
  reachable init (fire tl n s).
Proof.
  intros Hreach Ht Hk. unfold fire. unfold Timeline in *. rewrite Ht.
  assert (Hin : forall cb, In cb (firstn n (calls t)) -> In cb (calls t)).
  { intros cb Hcb. rewrite <- (firstn_skipn n (calls t)).
    apply in_or_app. now left. }
  assert (Hsched : nth_error (fst (schedule s)) tl = Some (entries t, false)).
  { unfold schedule, Timeline. cbn [fst]. rewrite nth_error_map, Ht. simpl.
    now rewrite Hk. }
  clear Ht. revert s Hreach Hsched.
  induction (firstn n (calls t)) as [| cb cbs IH]; intros s Hreach Hsched;
    simpl; [exact Hreach |].
  apply IH.
  - intros cb' Hcb'. apply Hin. now right.
  - destruct (calls_scheduled t cb (Hin cb (or_introl eq_refl)))
      as [position Hpos].
    unfold schedule, Timeline in Hsched. cbn [fst] in Hsched.
    rewrite nth_error_map in Hsched.
    destruct (nth_error _ tl) as [t' |] eqn:Et';
      simpl in Hsched; [| discriminate].
    injection Hsched as He Hk'.
    eapply reach_call with (t := t') (position := position); eauto.
    + split; assumption.
    + now rewrite He.
  - unfold exec. now rewrite schedule_run_callback.
Qed.

End Schedule.

(* ================================================================= *)
(** ** stages.js: stage 0 after the proton has left the complex *)

Section Reset.

Import Gsap Stages.

(** C7, evaluated where it fails.  On the page as loaded, stage 0 puts a
    position tween on every object of [savedPositions].  Stage 3 schedules,
    at 3.2 s, the closure that reparents the hydrogen [H1] of the first
    water to the scene.  Once that closure has run, [goToStage(0)] is still
    a reachable call, [H1] is still a mesh of the scene with a saved
    position, and the one timeline left alive holds no tween on its
    position: [_complex.traverse] no longer visits it. *)
Theorem stage0_leaves_detached_hydrogen_behind :
  let s1 := exec (goToStage (JsNumber.Num 3)) Example.stages in
  let s2 := fire 0 2 s1 in
  let s3 := exec (goToStage (JsNumber.Num 0)) s2 in
  position_tweens 0 (exec (goToStage (JsNumber.Num 0)) Example.stages)
  = map fst (savedPositions Example.stages)
  /\ (exists t, playing 0 t s1
                /\ In (Call (detach Example.hydrogen1) 3.2%R) (entries t)
                /\ nth_error (calls t) 1 = Some (detach Example.hydrogen1))
  /\ reachable Example.stages s3
  /\ Map_has Example.hydrogen1 (savedPositions s3) = true
  /\ option_map Object3D.isMesh
       (Object3D.getObjectById Example.hydrogen1 (scene s3)) = Some true
  /\ map Object3D.id (Object3D.children (scene s3))
     = [1; 2; 3; 4; 5; 31; 50; Example.hydrogen1]%nat
  /\ unkilled s3 = [1%nat]
  /\ ~ In Example.hydrogen1 (position_tweens 1 s3).
Proof.
  intros s1 s2 s3.
  assert (Hplaying : exists t, playing 0 t s1).
  { unfold playing.
    destruct (nth_error (timelines s1) 0) as [t |] eqn:Et;
      [| vm_compute in Et; discriminate].
    exists t. split; [reflexivity |].
    apply (f_equal (option_map (@killed Callback))) in Et.
    vm_compute in Et. injection Et as Et. symmetry. exact Et. }
  destruct Hplaying as (t & Ht & Hk).
  split; [vm_compute; reflexivity |].
  split.
  { exists t. split; [split; assumption |]. split.
    - apply nth_error_In with (n := 5%nat).
      apply (f_equal (option_map (fun t => nth_error (entries t) 5))) in Ht.
      vm_compute in Ht. injection Ht as Ht. symmetry. exact Ht.
    - apply (f_equal (option_map (fun t => nth_error (calls t) 1))) in Ht.
      vm_compute in Ht. injection Ht as Ht. symmetry. exact Ht. }
  split.
  { apply reach_goToStage. eapply fire_reachable; eauto.
    apply reach_goToStage. apply reach_init. }
  repeat split; try (vm_compute; reflexivity).
  vm_compute. intros H.
  repeat (destruct H as [H | H]; [discriminate |]). exact H.
Qed.

End Reset.


(* ================================================================= *)
(** ** atoms.js: where the hydrogens of a water point *)

Section WaterOrientation.

Local Open Scope R_scope.
Import Vector3 Atoms.

Lemma lengthSq_addScaledVector (p d : Vector3.t) (s : R) :
  lengthSq (addScaledVector p d s)
  = lengthSq p + 2 * s * dot p d + s * s * lengthSq d.
Proof. unfold lengthSq, dot, addScaledVector. simpl. ring. Qed.

Lemma dot_comm (a b : Vector3.t) : dot a b = dot b a.
Proof. unfold dot. ring. Qed.

Lemma lengthSq_zero_iff (v : Vector3.t) : lengthSq v = 0 -> v = zero.
Proof.
  intros H. unfold lengthSq in H. apply vector_ext; simpl; nra.
Qed.

Lemma lengthSq_pos_of_nonzero (v : Vector3.t) : v <> zero -> 0 < lengthSq v.
Proof.
  intros Hv. destruct (Rle_lt_or_eq_dec _ _ (lengthSq_nonneg v)) as [H | H];
    [exact H |].
  exfalso. apply Hv, lengthSq_zero_iff. now symmetry.
Qed.

Lemma cos_PI_minus (a : R) : cos (PI - a) = - cos a.
Proof.
  replace (PI - a) with (- a + PI) by ring.
  rewrite neg_cos, <- cos_sym. reflexivity.
Qed.

(** Half of the H-O-H angle lies strictly between 0 and 60 degrees. *)
Lemma halfAngle_range : 0 < H_O_H_ANGLE / 2 < PI / 3.
Proof.
  unfold H_O_H_ANGLE, MathUtils.degToRad, MathUtils.DEG2RAD.
  pose proof PI_RGT_0. split; lra.
Qed.

Lemma cos_halfAngle_bound : 1 / 2 < cos (H_O_H_ANGLE / 2).
Proof.
  destruct halfAngle_range as [Hlo Hhi]. pose proof PI_RGT_0 as Hpi.
  rewrite <- cos_PI3. apply cos_decreasing_1; lra.
Qed.

Lemma sin_halfAngle_pos : 0 < sin (H_O_H_ANGLE / 2).
Proof.
  destruct halfAngle_range as [Hlo Hhi]. pose proof PI_RGT_0 as Hpi.
  apply sin_gt_0; lra.
Qed.

Variable direction : Vector3.t.
Hypothesis unit_direction : lengthSq direction = 1.

(** Along the Al-O axis, the direction to either hydrogen has the
    component [cos (PI - halfAngle)]. *)
Lemma hDir_along_axis (halfAngle : R) (i : nat) :
  dot direction (hDir_of direction (xAxis_of direction) halfAngle i)
  = cos (PI - halfAngle).
Proof.
  rewrite (hDir_of_unit unit_direction).
  pose proof (xAxis_orthogonal unit_direction) as Ho.
  unfold hRaw_of, clone.
  generalize (cos (PI - halfAngle)) (sin (PI - halfAngle)). intros c s.
  destruct (Nat.eqb i 0).
  - replace (dot _ _) with
      (c * lengthSq direction + s * dot direction (xAxis_of direction))
      by (unfold lengthSq, dot, addScaledVector, zero; simpl; ring).
    rewrite Ho, unit_direction. ring.
  - replace (dot _ _) with
      (c * lengthSq direction - s * dot direction (xAxis_of direction))
      by (unfold lengthSq, dot, addScaledVector, negate, zero; simpl; ring).
    rewrite Ho, unit_direction. ring.
Qed.

(** The two hydrogen directions add up to a vector along the axis, and
    differ by a vector along [xAxis]. *)
Lemma hDir_sum (halfAngle : R) :
  add (hDir_of direction (xAxis_of direction) halfAngle 0)
      (hDir_of direction (xAxis_of direction) halfAngle 1)
  = multiplyScalar direction (2 * cos (PI - halfAngle)).
Proof.
  rewrite !(hDir_of_unit unit_direction). unfold hRaw_of, clone.
  apply vector_ext; simpl; ring.
Qed.

Lemma hDir_difference (halfAngle : R) :
  sub (hDir_of direction (xAxis_of direction) halfAngle 0)
      (hDir_of direction (xAxis_of direction) halfAngle 1)
  = multiplyScalar (xAxis_of direction) (2 * sin (PI - halfAngle)).
Proof.
  rewrite !(hDir_of_unit unit_direction). unfold hRaw_of, clone.
  apply vector_ext; simpl; ring.
Qed.

(** A hydrogen placed at [R_O_H] along [hDir] from the oxygen is nearer
    to the origin than the oxygen. *)
Lemma hydrogen_inside (i : nat) :
  lengthSq (addScaledVector (multiplyScalar direction R_AL_O)
              (hDir_of direction (xAxis_of direction) (H_O_H_ANGLE / 2) i)
              R_O_H)
  < R_AL_O * R_AL_O.
Proof.
  rewrite lengthSq_addScaledVector, lengthSq_multiplyScalar.
  rewrite (hDir_lengthSq unit_direction), unit_direction.
  replace (dot (multiplyScalar direction R_AL_O) _)
    with (R_AL_O * dot direction
            (hDir_of direction (xAxis_of direction) (H_O_H_ANGLE / 2) i))
    by (unfold dot, multiplyScalar; simpl; ring).
  rewrite hDir_along_axis, cos_PI_minus.
  pose proof cos_halfAngle_bound as Hc.
  unfold R_AL_O, R_O_H. nra.
Qed.

End WaterOrientation.

Section WaterOrientationResults.

Local Open Scope R_scope.
Import Atoms.

Lemma unit_of_length (direction : Vector3.t) :
  Vector3.length direction = 1 -> Vector3.lengthSq direction = 1.
Proof.
  intros Hunit.
  rewrite (@lengthSq_of_length direction 1 Rle_0_1 Hunit). ring.
Qed.

Lemma length_x_axis : Vector3.length (Vector3.new 1 0 0) = 1.
Proof.
  unfold Vector3.length, Vector3.lengthSq; simpl.
  replace (1 * 1 + 0 * 0 + 0 * 0) with 1 by ring. apply sqrt_1.
Qed.

(** X1. For a unit direction, both hydrogens of a water are placed on the
    Al side of the oxygen: the oxygen-to-hydrogen vector has the negative
    component [- R_O_H * cos (H_O_H_ANGLE / 2)] along the Al-to-O
    direction, so each hydrogen lies nearer to the Al at the origin than
    the oxygen does. *)
Theorem hydrogens_nearer_to_Al_than_oxygen
    (direction : Vector3.t) (ids : Ids.t)
    (Hunit : Vector3.length direction = 1) :
  exists water ids' o h1 h2,
    createWaterMolecule direction ids = Ok water ids'
    /\ Object3D.children water = [o; h1; h2]
    /\ Object3D.name o = "O" /\ Object3D.name h1 = "H1"
    /\ Object3D.name h2 = "H2"
    /\ Forall (fun h =>
         Vector3.dot (Vector3.sub (Object3D.position h) (Object3D.position o))
                     direction
         = - R_O_H * cos (H_O_H_ANGLE / 2)
         /\ Vector3.dot (Vector3.sub (Object3D.position h) (Object3D.position o))
                        direction < 0
         /\ Vector3.distanceTo (Object3D.position h) Vector3.zero
            < Vector3.distanceTo (Object3D.position o) Vector3.zero)
       [h1; h2]
    /\ Vector3.distanceTo (Object3D.position o) Vector3.zero = R_AL_O.
Proof.
  pose proof (@unit_of_length direction Hunit) as Hsq.
  destruct ids as [n m].
  do 5 eexists. split; [run_constructors; reflexivity |].
  do 4 (split; [reflexivity |]).
  cbn [Object3D.position].
  rewrite (zAxis_of_unit Hsq).
  unfold Vector3.distanceTo. rewrite !sub_zero_r.
  assert (Ho : Vector3.length (Vector3.multiplyScalar direction R_AL_O) = R_AL_O)
    by (apply length_multiplyScalar_unit; [exact Hsq | apply R_AL_O_nonneg]).
  split; [| exact Ho].
  pose proof cos_halfAngle_bound as Hc. pose proof R_O_H_pos as Hpos.
  assert (Hh : forall i,
    Vector3.dot
      (Vector3.sub
         (Vector3.addScaledVector (Vector3.multiplyScalar direction R_AL_O)
            (hDir_of direction (xAxis_of direction) (H_O_H_ANGLE / 2) i) R_O_H)
         (Vector3.multiplyScalar direction R_AL_O)) direction
    = - R_O_H * cos (H_O_H_ANGLE / 2)).
  { intros i. rewrite sub_addScaledVector, dot_comm, dot_multiplyScalar_r.
    rewrite (hDir_along_axis Hsq), cos_PI_minus. ring. }
  assert (Hd : forall i,
    Vector3.length
      (Vector3.addScaledVector (Vector3.multiplyScalar direction R_AL_O)
         (hDir_of direction (xAxis_of direction) (H_O_H_ANGLE / 2) i) R_O_H)
    < Vector3.length (Vector3.multiplyScalar direction R_AL_O)).
  { intros i. rewrite Ho. unfold Vector3.length.
    apply Rlt_le_trans with (sqrt (R_AL_O * R_AL_O)).
    - apply sqrt_lt_1;
        [ apply lengthSq_nonneg
        | pose proof R_AL_O_nonneg; nra
        | apply (hydrogen_inside Hsq) ].
    - rewrite sqrt_square by apply R_AL_O_nonneg. lra. }
  apply Forall_cons; [| apply Forall_cons; [| apply Forall_nil]];
    cbn [Object3D.position]; rewrite ?sub_zero_r;
    (split; [apply Hh | split; [rewrite Hh; nra | apply Hd]]).
Qed.

Lemma hydrogens_nearer_to_Al_than_oxygen_witness :
  exists water ids' o h1 h2,
    createWaterMolecule (Vector3.new 1 0 0) (Ids.mk 0 Materials.materials_loaded)
    = Ok water ids'
    /\ Object3D.children water = [o; h1; h2]
    /\ Object3D.name o = "O" /\ Object3D.name h1 = "H1"
    /\ Object3D.name h2 = "H2"
    /\ Forall (fun h =>
         Vector3.dot (Vector3.sub (Object3D.position h) (Object3D.position o))
                     (Vector3.new 1 0 0)
         = - R_O_H * cos (H_O_H_ANGLE / 2)
         /\ Vector3.dot (Vector3.sub (Object3D.position h) (Object3D.position o))
                        (Vector3.new 1 0 0) < 0
         /\ Vector3.distanceTo (Object3D.position h) Vector3.zero
            < Vector3.distanceTo (Object3D.position o) Vector3.zero)
       [h1; h2]
    /\ Vector3.distanceTo (Object3D.position o) Vector3.zero = R_AL_O.
Proof.
  apply hydrogens_nearer_to_Al_than_oxygen. exact length_x_axis.
Defined.

(** X2. For a unit direction, the two hydrogens of a water are mirror
    images across the Al-O axis: the two oxygen-to-hydrogen vectors add up
    to a vector along the direction, and the hydrogens are
    [2 * R_O_H * sin (H_O_H_ANGLE / 2)] apart, which is not zero. *)
Theorem hydrogens_mirror_across_axis
    (direction : Vector3.t) (ids : Ids.t)
    (Hunit : Vector3.length direction = 1) :
  exists water ids' o h1 h2,
    createWaterMolecule direction ids = Ok water ids'
    /\ Object3D.children water = [o; h1; h2]
    /\ Vector3.add
         (Vector3.sub (Object3D.position h1) (Object3D.position o))
         (Vector3.sub (Object3D.position h2) (Object3D.position o))
       = Vector3.multiplyScalar direction
           (- (2 * R_O_H * cos (H_O_H_ANGLE / 2)))
    /\ Vector3.distanceTo (Object3D.position h1) (Object3D.position h2)
       = 2 * R_O_H * sin (H_O_H_ANGLE / 2)
    /\ 0 < Vector3.distanceTo (Object3D.position h1) (Object3D.position h2).
Proof.
  pose proof (@unit_of_length direction Hunit) as Hsq.
  destruct ids as [n m].
  do 5 eexists. split; [run_constructors; reflexivity |].
  split; [reflexivity |].
  cbn [Object3D.position].
  rewrite (zAxis_of_unit Hsq), !sub_addScaledVector.
  pose proof sin_halfAngle_pos as Hs. pose proof R_O_H_pos as Hpos.
  assert (Hdist :
    Vector3.distanceTo
      (Vector3.addScaledVector (Vector3.multiplyScalar direction R_AL_O)
         (hDir_of direction (xAxis_of direction) (H_O_H_ANGLE / 2) 0) R_O_H)
      (Vector3.addScaledVector (Vector3.multiplyScalar direction R_AL_O)
         (hDir_of direction (xAxis_of direction) (H_O_H_ANGLE / 2) 1) R_O_H)
    = 2 * R_O_H * sin (H_O_H_ANGLE / 2)).
  { unfold Vector3.distanceTo.
    replace (Vector3.sub _ _) with
      (Vector3.multiplyScalar
         (Vector3.sub
            (hDir_of direction (xAxis_of direction) (H_O_H_ANGLE / 2) 0)
            (hDir_of direction (xAxis_of direction) (H_O_H_ANGLE / 2) 1))
         R_O_H)
      by (apply vector_ext; simpl; ring).
    rewrite (hDir_difference Hsq), sin_PI_x.
    replace (Vector3.multiplyScalar
               (Vector3.multiplyScalar (xAxis_of direction)
                  (2 * sin (H_O_H_ANGLE / 2))) R_O_H)
      with (Vector3.multiplyScalar (xAxis_of direction)
              (2 * R_O_H * sin (H_O_H_ANGLE / 2)))
      by (apply vector_ext; simpl; ring).
    apply length_multiplyScalar_unit; [apply (xAxis_unit Hsq) | nra]. }
  split; [| split; [exact Hdist | rewrite Hdist; nra]].
  replace (Vector3.add _ _) with
    (Vector3.multiplyScalar
       (Vector3.add
          (hDir_of direction (xAxis_of direction) (H_O_H_ANGLE / 2) 0)
          (hDir_of direction (xAxis_of direction) (H_O_H_ANGLE / 2) 1))
       R_O_H)
    by (apply vector_ext; simpl; ring).
  rewrite (hDir_sum Hsq), cos_PI_minus.
  apply vector_ext; simpl; ring.
Qed.

Lemma hydrogens_mirror_across_axis_witness :
  exists water ids' o h1 h2,
    createWaterMolecule (Vector3.new 1 0 0) (Ids.mk 0 Materials.materials_loaded)
    = Ok water ids'
    /\ Object3D.children water = [o; h1; h2]
    /\ Vector3.add
         (Vector3.sub (Object3D.position h1) (Object3D.position o))
         (Vector3.sub (Object3D.position h2) (Object3D.position o))
       = Vector3.multiplyScalar (Vector3.new 1 0 0)
           (- (2 * R_O_H * cos (H_O_H_ANGLE / 2)))
    /\ Vector3.distanceTo (Object3D.position h1) (Object3D.position h2)
       = 2 * R_O_H * sin (H_O_H_ANGLE / 2)
    /\ 0 < Vector3.distanceTo (Object3D.position h1) (Object3D.position h2).
Proof.
  apply hydrogens_mirror_across_axis. exact length_x_axis.
Defined.

(** X3. [createWaterMolecule] normalises the direction only for the frame
    of the hydrogens.  For any direction that is not the zero vector the
    oxygen sits at [R_AL_O] times the length of the direction from the
    origin, while both hydrogens stay at distance [R_O_H] from the oxygen
    and enclose the angle [H_O_H_ANGLE]. *)
Theorem water_geometry_for_any_nonzero_direction
    (direction : Vector3.t) (ids : Ids.t)
    (Hnonzero : direction <> Vector3.zero) :
  exists water ids' o h1 h2,
    createWaterMolecule direction ids = Ok water ids'
    /\ Object3D.children water = [o; h1; h2]
    /\ Vector3.distanceTo (Object3D.position o) Vector3.zero
       = R_AL_O * Vector3.length direction
    /\ Vector3.distanceTo (Object3D.position h1) (Object3D.position o) = R_O_H
    /\ Vector3.distanceTo (Object3D.position h2) (Object3D.position o) = R_O_H
    /\ Vector3.angleTo
         (Vector3.sub (Object3D.position h1) (Object3D.position o))
         (Vector3.sub (Object3D.position h2) (Object3D.position o))
       = H_O_H_ANGLE.
Proof.
  pose proof (@lengthSq_pos_of_nonzero direction Hnonzero) as Hlen.
  assert (Hsq : Vector3.lengthSq (zAxis_of direction) = 1)
    by (apply lengthSq_normalize; exact Hlen).
  destruct ids as [n m].
  do 5 eexists. split; [run_constructors; reflexivity |].
  split; [reflexivity |].
  cbn [Object3D.position].
  unfold Vector3.distanceTo. rewrite !sub_addScaledVector, sub_zero_r.
  pose proof R_O_H_pos as Hpos. pose proof R_AL_O_nonneg as Hral.
  split.
  { unfold Vector3.length. rewrite lengthSq_multiplyScalar.
    rewrite sqrt_mult by (try apply lengthSq_nonneg; nra).
    rewrite sqrt_square by exact Hral. reflexivity. }
  split; [apply length_multiplyScalar_unit; [apply (hDir_lengthSq Hsq) | lra] |].
  split; [apply length_multiplyScalar_unit; [apply (hDir_lengthSq Hsq) | lra] |].
  unfold Vector3.angleTo.
  rewrite !lengthSq_multiplyScalar, !(hDir_lengthSq Hsq).
  replace (R_O_H * R_O_H * 1 * (R_O_H * R_O_H * 1))
    with ((R_O_H * R_O_H) * (R_O_H * R_O_H)) by ring.
  rewrite sqrt_square by nra.
  destruct (Req_dec_T (R_O_H * R_O_H) 0) as [H0 | _]; [nra |].
  rewrite dot_multiplyScalar_both, (hDir_dot Hsq).
  replace (R_O_H * R_O_H * cos (2 * (H_O_H_ANGLE / 2)) / (R_O_H * R_O_H))
    with (cos (2 * (H_O_H_ANGLE / 2))) by (field; lra).
  replace (2 * (H_O_H_ANGLE / 2)) with H_O_H_ANGLE by field.
  pose proof (COS_bound H_O_H_ANGLE) as [Hlo Hhi].
  rewrite Rmin_right by exact Hhi.
  rewrite Rmax_right by exact Hlo.
  apply acos_cos.
  unfold H_O_H_ANGLE, MathUtils.degToRad, MathUtils.DEG2RAD.
  pose proof PI_RGT_0. lra.
Qed.

Lemma water_geometry_for_any_nonzero_direction_witness :
  exists water ids' o h1 h2,
    createWaterMolecule (Vector3.new 0 2 0) (Ids.mk 0 Materials.materials_loaded)
    = Ok water ids'
    /\ Object3D.children water = [o; h1; h2]
    /\ Vector3.distanceTo (Object3D.position o) Vector3.zero
       = R_AL_O * Vector3.length (Vector3.new 0 2 0)
    /\ Vector3.distanceTo (Object3D.position h1) (Object3D.position o) = R_O_H
    /\ Vector3.distanceTo (Object3D.position h2) (Object3D.position o) = R_O_H
    /\ Vector3.angleTo
         (Vector3.sub (Object3D.position h1) (Object3D.position o))
         (Vector3.sub (Object3D.position h2) (Object3D.position o))
       = H_O_H_ANGLE.
Proof.
  apply water_geometry_for_any_nonzero_direction.
  intros H. apply (f_equal Vector3.y) in H. simpl in H. lra.
Defined.

(** X4. The zero vector as direction: [normalize] divides by
    [length() || 1], so every axis of the frame is the zero vector and the
    oxygen and both hydrogens are all placed on the origin. *)
Theorem water_on_zero_direction_collapses (ids : Ids.t) :
  exists water ids' o h1 h2,
    createWaterMolecule Vector3.zero ids = Ok water ids'
    /\ Object3D.children water = [o; h1; h2]
    /\ Object3D.position o = Vector3.zero
    /\ Object3D.position h1 = Vector3.zero
    /\ Object3D.position h2 = Vector3.zero.
Proof.
  destruct ids as [n m].
  do 5 eexists. split; [run_constructors; reflexivity |].
  split; [reflexivity |].
  cbn [Object3D.position].
  assert (Hn : Vector3.normalize Vector3.zero = Vector3.zero).
  { unfold Vector3.normalize, Vector3.divideScalar.
    apply vector_ext; simpl; ring. }
  assert (Hz : zAxis_of Vector3.zero = Vector3.zero) by exact Hn.
  assert (Hx : xAxis_of Vector3.zero = Vector3.zero).
  { unfold xAxis_of.
    replace (Vector3.crossVectors Vector3.zero (arbitrary_of Vector3.zero))
      with Vector3.zero by (apply vector_ext; simpl; ring).
    exact Hn. }
  assert (Hh : forall i,
    hDir_of Vector3.zero Vector3.zero (H_O_H_ANGLE / 2) i = Vector3.zero).
  { intros i. unfold hDir_of.
    replace (hRaw_of Vector3.zero Vector3.zero (H_O_H_ANGLE / 2) i)
      with Vector3.zero; [exact Hn |].
    unfold hRaw_of. destruct (Nat.eqb i 0); apply vector_ext; simpl; ring. }
  rewrite Hz, Hx, !Hh.
  repeat split; apply vector_ext; simpl; ring.
Qed.

End WaterOrientationResults.


(* ================================================================= *)
(** ** atoms.js: the objects of the complex *)

Section ComplexObjects.

Import Atoms.

(** X5. Whatever the state of three.js's id counters, [buildComplex]
    returns the group with the Al mesh as first child followed by the six
    waters in the order of [OCTA_DIRS]; its 26 objects take the next 26
    object ids in construction order, so no two of them share an identity;
    the Al mesh carries the module's [aluminumMaterial] and each of the 18
    water atoms a material of its own, cloned for it. *)
Theorem buildComplex_objects_are_distinct (ids : Ids.t) :
  exists c ids',
    buildComplex ids = Ok c ids'
    /\ map Object3D.id (Object3D.children (complex c)) = al c :: waters c
    /\ List.length (waters c) = List.length OCTA_DIRS
    /\ Object3D.ids (complex c) = seq (Ids.nextObjectId ids) 26
    /\ NoDup (Object3D.ids (complex c))
    /\ map (fun o => option_map Materials.material_id (Object3D.material o))
           (filter Object3D.isMesh (Object3D.traverse (complex c)))
       = Some (Materials.material_id Materials.aluminumMaterial)
         :: map Some (seq (Ids.nextMaterialId ids) 18)
    /\ ids' = Ids.mk (26 + Ids.nextObjectId ids) (18 + Ids.nextMaterialId ids).
Proof.
  destruct ids as [n m].
  do 2 eexists. split; [run_constructors; reflexivity |].
  cbv [complex al waters Ids.nextObjectId Ids.nextMaterialId].
  split; [reflexivity |]. split; [reflexivity |].
  assert (Hids : forall c : Object3D.t,
            Object3D.ids c = seq n 26 -> NoDup (Object3D.ids c)).
  { intros c ->. apply seq_NoDup. }
  split; [reflexivity |].
  split; [apply Hids; reflexivity |].
  split; reflexivity.
Qed.

End ComplexObjects.

(* ================================================================= *)
(** ** bonds.js *)

Section FoldM.

Context {S A B : Type}.

(** An invariant of the value a loop threads through its iterations. *)
Lemma foldM_invariant (P : B -> Prop) (f : B -> A -> M S B) (l : list A) :
  (forall b a s b' s', In a l -> P b -> f b a s = Ok b' s' -> P b') ->
  forall b s b' s', P b -> foldM f b l s = Ok b' s' -> P b'.
Proof.
  induction l as [| a l IH]; intros Hf b s b' s' Hb Hrun; simpl in Hrun.
  - unfold ret in Hrun. injection Hrun as <- _. exact Hb.
  - unfold bind in Hrun. destruct (f b a s) as [b1 s1 | e s1] eqn:E;
      [| discriminate].
    apply IH with (b := b1) (s := s1) (s' := s').
    + intros b0 a0 s0 b0' s0' Hin. apply Hf. now right.
    + apply Hf with (b := b) (a := a) (s := s) (s' := s1);
        [now left | exact Hb | exact E].
    + exact Hrun.
Qed.

End FoldM.

Section BondsFacts.

Import Bonds.

Lemma createDashedBond_returns (from to : Vector3.t) (ids : Ids.t) :
  exists line ids',
    createDashedBond from to ids = Ok line ids'
    /\ Object3D.name line = "CoordBond"
    /\ segment line = Some (from, to)
    /\ Object3D.isLine line = true
    /\ Object3D.children line = [].
Proof. destruct ids. do 2 eexists. split; [reflexivity |]. repeat split. Qed.

Lemma createSolidBond_returns (from to : Vector3.t) (ids : Ids.t) :
  exists line ids',
    createSolidBond from to ids = Ok line ids'
    /\ Object3D.name line = "CovalentBond"
    /\ segment line = Some (from, to)
    /\ Object3D.isLine line = true
    /\ Object3D.children line = [].
Proof. destruct ids. do 2 eexists. split; [reflexivity |]. repeat split. Qed.

Lemma worldPositionOf_returns (root : Object3D.t) (r : nat) (ids : Ids.t)
    (p : Vector3.t) (ids' : Ids.t) :
  worldPositionOf root r ids = Ok p ids' ->
  Object3D.getWorldPosition r root = Some p.
Proof.
  unfold worldPositionOf.
  destruct (Object3D.getWorldPosition r root); [| discriminate].
  unfold ret. now intros [= ->].
Qed.

Lemma children_add (child parent : Object3D.t) :
  Object3D.children (Object3D.add child parent)
  = Object3D.children parent ++ [child].
Proof. reflexivity. Qed.

Lemma isLine_not_mesh (b : Object3D.t) :
  Object3D.isLine b = true -> Object3D.isMesh b = false.
Proof.
  unfold Object3D.isLine, Object3D.isMesh. destruct (Object3D.kind b);
    congruence.
Qed.

(** The inner loop of [buildBonds]: one solid bond per hydrogen. *)
Lemma hydrogens_loop (root : Object3D.t) (alPos oPos : Vector3.t)
    (waters : list nat) (w : nat) (water oxygen : Object3D.t)
    (hydrogens : list Object3D.t) :
  In w waters ->
  Object3D.getObjectById w root = Some water ->
  Object3D.find_child isOxygen water = Some oxygen ->
  Object3D.getWorldPosition (Object3D.id oxygen) root = Some oPos ->
  (forall h, In h hydrogens ->
             In h (Object3D.children water) /\ isHydrogen h = true) ->
  forall g ids g' ids',
    foldM (fun bondsGroup h =>
        hPos <- worldPositionOf root (Object3D.id h) ;;
        solid <- createSolidBond oPos hPos ;;
        ret (Object3D.add solid bondsGroup))
      g hydrogens ids = Ok g' ids' ->
    (Forall (bond_line root alPos waters) (Object3D.children g) ->
     Forall (bond_line root alPos waters) (Object3D.children g'))
    /\ map Object3D.name (Object3D.children g')
       = map Object3D.name (Object3D.children g)
         ++ map (fun _ => "CovalentBond") hydrogens
    /\ Object3D.name g' = Object3D.name g
    /\ Object3D.kind g' = Object3D.kind g.
Proof.
  intros Hw Hwater Hox HoPos.
  induction hydrogens as [| h hs IH]; intros Hhs g ids g' ids' Hrun;
    simpl in Hrun.
  - unfold ret in Hrun. injection Hrun as <- _.
    rewrite app_nil_r. auto.
  - unfold bind in Hrun.
    destruct (worldPositionOf root (Object3D.id h) ids) as [hPos i1 | e i1] eqn:Ep;
      [| discriminate].
    apply worldPositionOf_returns in Ep.
    destruct (createSolidBond_returns oPos hPos i1)
      as (line & i2 & El & Hname & Hseg & Hline & Hch).
    rewrite El in Hrun. unfold ret in Hrun at 1.
    destruct (IH (fun h' Hin => Hhs h' (or_intror Hin)) _ _ _ _ Hrun)
      as (Hall & Hnames & Hn & Hk).
    destruct (Hhs h (or_introl eq_refl)) as [Hin Hh].
    split; [| split; [| split]].
    + intros Hg. apply Hall. rewrite children_add.
      apply Forall_app. split; [exact Hg |].
      constructor; [| constructor].
      split; [exact Hline |]. split; [now apply isLine_not_mesh |].
      split; [exact Hch |].
      exists w. split; [exact Hw |].
      exists water, oxygen, oPos. repeat split; try assumption.
      right. exists h, hPos. repeat split; assumption.
    + rewrite Hnames, children_add, map_app. simpl. rewrite Hname.
      now rewrite <- app_assoc.
    + exact Hn.
    + exact Hk.
Qed.

(** One iteration of the outer loop of [buildBonds]. *)
Lemma water_step (root : Object3D.t) (alPos : Vector3.t) (waters : list nat)
    (w : nat) (g : Object3D.t) (ids : Ids.t) (g' : Object3D.t) (ids' : Ids.t) :
  In w waters ->
  match Object3D.getObjectById w root with
  | None => throw (TypeError "water is not an object of the graph")
  | Some water =>
      match Object3D.find_child
              (fun c => String.eqb (Object3D.name c) "O") water with
      | None => ret g
      | Some oxygen =>
          oPos <- worldPositionOf root (Object3D.id oxygen) ;;
          dashed <- createDashedBond alPos oPos ;;
          let bondsGroup := Object3D.add dashed g in
          let hydrogens :=
            filter (fun c => String.prefix "H" (Object3D.name c))
                   (Object3D.children water) in
          foldM (fun bondsGroup h =>
              hPos <- worldPositionOf root (Object3D.id h) ;;
              solid <- createSolidBond oPos hPos ;;
              ret (Object3D.add solid bondsGroup))
            bondsGroup hydrogens
      end
  end ids = Ok g' ids' ->
  (Forall (bond_line root alPos waters) (Object3D.children g) ->
   Forall (bond_line root alPos waters) (Object3D.children g'))
  /\ map Object3D.name (Object3D.children g')
     = map Object3D.name (Object3D.children g) ++ bond_names root w
  /\ Object3D.name g' = Object3D.name g
  /\ Object3D.kind g' = Object3D.kind g.
Proof.
  intros Hw. unfold bond_names.
  destruct (Object3D.getObjectById w root) as [water |] eqn:Ewater;
    [| discriminate].
  change (fun c : Object3D.t => String.eqb (Object3D.name c) "O")
    with isOxygen.
  change (fun c : Object3D.t => String.prefix "H" (Object3D.name c))
    with isHydrogen.
  destruct (Object3D.find_child isOxygen water) as [oxygen |] eqn:Eox.
  - unfold bind at 1.
    destruct (worldPositionOf root (Object3D.id oxygen) ids)
      as [oPos i1 | e i1] eqn:Ep; [| discriminate].
    apply worldPositionOf_returns in Ep.
    unfold bind at 1.
    destruct (createDashedBond_returns alPos oPos i1)
      as (line & i2 & El & Hname & Hseg & Hline & Hch).
    rewrite El. cbv zeta. intros Hrun.
    destruct (@hydrogens_loop root alPos oPos waters w water oxygen
                (filter isHydrogen (Object3D.children water))
                Hw Ewater Eox Ep
                (fun h Hin => proj1 (filter_In _ _ _) Hin)
                _ _ _ _ Hrun) as (Hall & Hnames & Hn & Hk).
    split; [| split; [| split]].
    + intros Hg. apply Hall. rewrite children_add.
      apply Forall_app. split; [exact Hg |].
      constructor; [| constructor].
      split; [exact Hline |]. split; [now apply isLine_not_mesh |].
      split; [exact Hch |].
      exists w. split; [exact Hw |].
      exists water, oxygen, oPos. repeat split; try assumption.
      left. split; assumption.
    + rewrite Hnames, children_add, map_app. simpl. rewrite Hname.
      now rewrite <- app_assoc.
    + exact Hn.
    + exact Hk.
  - unfold ret. intros [= <- _]. rewrite app_nil_r. auto.
Qed.

(** The outer loop of [buildBonds]. *)
Lemma waters_loop (root : Object3D.t) (alPos : Vector3.t) (waters ws : list nat) :
  (forall w, In w ws -> In w waters) ->
  forall g ids g' ids',
    foldM (fun bondsGroup w =>
        match Object3D.getObjectById w root with
        | None => throw (TypeError "water is not an object of the graph")
        | Some water =>
            match Object3D.find_child
                    (fun c => String.eqb (Object3D.name c) "O") water with
            | None => ret bondsGroup
            | Some oxygen =>
                oPos <- worldPositionOf root (Object3D.id oxygen) ;;
                dashed <- createDashedBond alPos oPos ;;
                let bondsGroup := Object3D.add dashed bondsGroup in
                let hydrogens :=
                  filter (fun c => String.prefix "H" (Object3D.name c))
                         (Object3D.children water) in
                foldM (fun bondsGroup h =>
                    hPos <- worldPositionOf root (Object3D.id h) ;;
                    solid <- createSolidBond oPos hPos ;;
                    ret (Object3D.add solid bondsGroup))
                  bondsGroup hydrogens
            end
        end)
      g ws ids = Ok g' ids' ->
    (Forall (bond_line root alPos waters) (Object3D.children g) ->
     Forall (bond_line root alPos waters) (Object3D.children g'))
    /\ map Object3D.name (Object3D.children g')
       = map Object3D.name (Object3D.children g)
         ++ flat_map (bond_names root) ws
    /\ Object3D.name g' = Object3D.name g
    /\ Object3D.kind g' = Object3D.kind g.
Proof.
  induction ws as [| w ws IH]; intros Hsub g ids g' ids' Hrun.
  - simpl in Hrun. unfold ret in Hrun. injection Hrun as <- _.
    simpl. rewrite app_nil_r. auto.
  - cbn [foldM] in Hrun. unfold bind in Hrun at 1.
    match type of Hrun with
    | match ?step with _ => _ end = _ =>
        destruct step as [g1 i1 | e i1] eqn:Estep; [| discriminate]
    end.
    destruct (@water_step root alPos waters w g ids g1 i1
                (Hsub w (or_introl eq_refl)) Estep)
      as (Hall1 & Hnames1 & Hn1 & Hk1).
    destruct (IH (fun w' Hin => Hsub w' (or_intror Hin)) _ _ _ _ Hrun)
      as (Hall & Hnames & Hn & Hk).
    split; [| split; [| split]].
    + intros Hg. apply Hall, Hall1, Hg.
    + rewrite Hnames, Hnames1. simpl. now rewrite <- app_assoc.
    + congruence.
    + congruence.
Qed.

(** [buildBonds] up to its loop: a new empty group named Bonds, and the
    world position of [al]. *)
Lemma buildBonds_unfold (root : Object3D.t) (al : nat) (waters : list nat)
    (ids : Ids.t) (g : Object3D.t) (ids' : Ids.t) :
  buildBonds root al waters ids = Ok g ids' ->
  exists alPos g0 i0,
    Object3D.getWorldPosition al root = Some alPos
    /\ Object3D.name g0 = "Bonds"
    /\ Object3D.kind g0 = Object3D.Group
    /\ Object3D.children g0 = []
    /\ foldM (fun bondsGroup w =>
          match Object3D.getObjectById w root with
          | None => throw (TypeError "water is not an object of the graph")
          | Some water =>
              match Object3D.find_child
                      (fun c => String.eqb (Object3D.name c) "O") water with
              | None => ret bondsGroup
              | Some oxygen =>
                  oPos <- worldPositionOf root (Object3D.id oxygen) ;;
                  dashed <- createDashedBond alPos oPos ;;
                  let bondsGroup := Object3D.add dashed bondsGroup in
                  let hydrogens :=
                    filter (fun c => String.prefix "H" (Object3D.name c))
                           (Object3D.children water) in
                  foldM (fun bondsGroup h =>
                      hPos <- worldPositionOf root (Object3D.id h) ;;
                      solid <- createSolidBond oPos hPos ;;
                      ret (Object3D.add solid bondsGroup))
                    bondsGroup hydrogens
              end
          end)
        g0 waters i0 = Ok g ids'.
Proof.
  destruct ids as [n m]. unfold buildBonds, worldPositionOf.
  destruct (Object3D.getWorldPosition al root) as [alPos |] eqn:Ep.
  - intros Hrun. exists alPos. do 2 eexists.
    split; [reflexivity |]. split; [| split; [| split; [| exact Hrun]]];
      reflexivity.
  - discriminate.
Qed.

End BondsFacts.

Section BondsResults.

Import Bonds.

Lemma outcome_eta {S A} (d : A) (o : Outcome S A) :
  returned o = true -> o = Ok (value_or d o) (state_of o).
Proof. destruct o; [reflexivity | discriminate]. Qed.

(** X6. The group [buildBonds] returns is named Bonds and holds lines
    only, none of them a mesh and none with children.  Every line is a
    bond of one of the waters passed in: the dashed CoordBond from the
    world position of [al] to that of the water's child named O, or a
    solid CovalentBond from that oxygen to a child of the same water whose
    name starts with H. *)
Theorem buildBonds_draws_only_bonds
    (root : Object3D.t) (al : nat) (waters : list nat)
    (ids : Ids.t) (bondsGroup : Object3D.t) (ids' : Ids.t)
    (Hrun : buildBonds root al waters ids = Ok bondsGroup ids') :
  Object3D.name bondsGroup = "Bonds"
  /\ Object3D.isGroup bondsGroup = true
  /\ exists alPos,
       Object3D.getWorldPosition al root = Some alPos
       /\ Forall (fun b =>
            Object3D.isLine b = true /\ Object3D.isMesh b = false
            /\ Object3D.children b = []
            /\ exists w, In w waters /\ bond_of root alPos w b)
          (Object3D.children bondsGroup).
Proof.
  destruct (@buildBonds_unfold _ _ _ _ _ _ Hrun) as (alPos & g0 & i0 & Ep & Hn0 & Hk0 & Hc0 & Hloop).
  destruct (@waters_loop root alPos waters waters (fun w H => H) _ _ _ _ Hloop)
    as (Hall & _ & Hn & Hk).
  rewrite Hn0 in Hn. rewrite Hk0 in Hk.
  split; [rewrite Hn; reflexivity |].
  split; [unfold Object3D.isGroup; rewrite Hk; reflexivity |].
  exists alPos. split; [exact Ep |].
  apply Hall. rewrite Hc0. constructor.
Qed.

Lemma buildBonds_draws_only_bonds_witness :
  let root := Atoms.complex Example.complex in
  let al := Atoms.al Example.complex in
  let waters := Atoms.waters Example.complex in
  let bondsGroup :=
    value_or Example.nothing (buildBonds root al waters Example.complex_ids) in
  Object3D.name bondsGroup = "Bonds"
  /\ Object3D.isGroup bondsGroup = true
  /\ exists alPos,
       Object3D.getWorldPosition al root = Some alPos
       /\ Forall (fun b =>
            Object3D.isLine b = true /\ Object3D.isMesh b = false
            /\ Object3D.children b = []
            /\ exists w, In w waters /\ bond_of root alPos w b)
          (Object3D.children bondsGroup).
Proof.
  cbv zeta.
  eapply buildBonds_draws_only_bonds.
  apply outcome_eta. vm_compute. reflexivity.
Defined.

(** X7. The lines of the group come water by water, in the order of
    [waters]: a water with a child named O contributes one CoordBond
    followed by one CovalentBond per child whose name starts with H; a
    water without such a child contributes no line at all, not even for
    its hydrogens. *)
Theorem buildBonds_lines_per_water
    (root : Object3D.t) (al : nat) (waters : list nat)
    (ids : Ids.t) (bondsGroup : Object3D.t) (ids' : Ids.t)
    (Hrun : buildBonds root al waters ids = Ok bondsGroup ids') :
  map Object3D.name (Object3D.children bondsGroup)
  = flat_map (bond_names root) waters
  /\ (forall w water,
        Object3D.getObjectById w root = Some water ->
        Object3D.find_child isOxygen water = None ->
        bond_names root w = [])
  /\ (forall w water oxygen,
        Object3D.getObjectById w root = Some water ->
        Object3D.find_child isOxygen water = Some oxygen ->
        List.length (bond_names root w)
        = 1 + List.length (filter isHydrogen (Object3D.children water))).
Proof.
  split; [| split].
  - destruct (@buildBonds_unfold _ _ _ _ _ _ Hrun)
      as (alPos & g0 & i0 & Ep & Hn0 & Hk0 & Hc0 & Hloop).
    destruct (@waters_loop root alPos waters waters (fun w H => H) _ _ _ _ Hloop)
      as (_ & Hnames & _).
    rewrite Hc0 in Hnames. exact Hnames.
  - intros w water Hw Hox. unfold bond_names. now rewrite Hw, Hox.
  - intros w water oxygen Hw Hox. unfold bond_names. rewrite Hw, Hox.
    simpl. now rewrite length_map.
Qed.

Lemma buildBonds_lines_per_water_witness :
  let root := Atoms.complex Example.complex in
  let al := Atoms.al Example.complex in
  let waters := Atoms.waters Example.complex in
  let bondsGroup :=
    value_or Example.nothing (buildBonds root al waters Example.complex_ids) in
  map Object3D.name (Object3D.children bondsGroup)
  = flat_map (bond_names root) waters
  /\ (forall w water,
        Object3D.getObjectById w root = Some water ->
        Object3D.find_child isOxygen water = None ->
        bond_names root w = [])
  /\ (forall w water oxygen,
        Object3D.getObjectById w root = Some water ->
        Object3D.find_child isOxygen water = Some oxygen ->
        List.length (bond_names root w)
        = 1 + List.length (filter isHydrogen (Object3D.children water))).
Proof.
  cbv zeta.
  eapply buildBonds_lines_per_water.
  apply outcome_eta. vm_compute. reflexivity.
Defined.

End BondsResults.


(* ================================================================= *)
(** ** main.js: the stage a button names *)

Section ParseInt.

Import JsNumber.
Local Open Scope Z_scope.

Ltac read_digit :=
  cbn [NilEmpty.string_of_uint digits];
  match goal with
  | |- context [digit_of ?c] =>
      let v := eval vm_compute in (digit_of c) in
      change (digit_of c) with v
  end;
  cbv iota.

(** Reading the digits of a decimal numeral continues the accumulator the
    way [Pos.of_uint_acc] does. *)
Lemma digits_acc (d : Decimal.uint) (p : positive) :
  digits (NilEmpty.string_of_uint d) (Some (Zpos p))
  = Some (Zpos (Pos.of_uint_acc d p)).
Proof.
  revert p. induction d; intros p; [reflexivity | ..];
    read_digit; cbn [Pos.of_uint_acc]; rewrite <- IHd; do 2 f_equal; lia.
Qed.

Lemma digits_zero (d : Decimal.uint) :
  digits (NilEmpty.string_of_uint d) (Some 0)
  = Some (Z.of_N (Pos.of_uint d)).
Proof.
  induction d; [reflexivity | ..];
    read_digit; cbn [Pos.of_uint];
    first [ exact IHd | apply digits_acc ].
Qed.

Lemma digits_numeral (d : Decimal.uint) :
  d <> Decimal.Nil ->
  digits (NilEmpty.string_of_uint d) None = Some (Z.of_N (Pos.of_uint d)).
Proof.
  destruct d; intros Hd; [congruence | ..];
    read_digit; cbn [Pos.of_uint];
    first [ apply digits_zero | apply digits_acc ].
Qed.

Lemma to_uint_nonnil (p : positive) : Pos.to_uint p <> Decimal.Nil.
Proof.
  intros H. pose proof (DecimalPos.Unsigned.of_to p) as Hp.
  rewrite H in Hp. discriminate.
Qed.

(** A decimal numeral starts with a digit: no white space to skip, no sign. *)
Lemma numeral_unsigned (d : Decimal.uint) :
  d <> Decimal.Nil ->
  skip_whitespace (NilEmpty.string_of_uint d) = NilEmpty.string_of_uint d
  /\ match NilEmpty.string_of_uint d with
     | String "-" _ | String "+" _ => False
     | _ => True
     end.
Proof. destruct d; intros Hd; [congruence | ..]; split; exact I || reflexivity. Qed.

Lemma parseInt_numeral (p : positive) :
  parseInt (Some (NilEmpty.string_of_uint (Pos.to_uint p))) = Num (Zpos p).
Proof.
  pose proof (to_uint_nonnil p) as Hn.
  destruct (numeral_unsigned Hn) as [Hskip Hsign].
  unfold parseInt. rewrite Hskip.
  assert (Hd : digits (NilEmpty.string_of_uint (Pos.to_uint p)) None
               = Some (Zpos p)).
  { rewrite (digits_numeral Hn), DecimalPos.Unsigned.of_to. reflexivity. }
  destruct (NilEmpty.string_of_uint (Pos.to_uint p)) as [| c r] eqn:E.
  - rewrite Hd. reflexivity.
  - destruct (Ascii.eqb c "-") eqn:Em.
    { apply Ascii.eqb_eq in Em. subst c. contradiction. }
    destruct (Ascii.eqb c "+") eqn:Ep.
    { apply Ascii.eqb_eq in Ep. subst c. contradiction. }
    assert (Hm : (let (sign, rest) :=
                    match String c r with
                    | String "-" r0 => (-1, r0)
                    | String "+" r0 => (1, r0)
                    | _ => (1, String c r)
                    end in
                  match digits rest None with
                  | Some v => Num (sign * v)
                  | None => NaN
                  end)
                 = match digits (String c r) None with
                   | Some v => Num (1 * v)
                   | None => NaN
                   end).
    { destruct c as [[] [] [] [] [] [] [] []]; try reflexivity; discriminate. }
    rewrite Hm, Hd. reflexivity.
Qed.

Lemma string_of_uint_nonnil (d : Decimal.uint) :
  d <> Decimal.Nil -> NilZero.string_of_uint d = NilEmpty.string_of_uint d.
Proof. destruct d; intros Hd; [congruence | ..]; reflexivity. Qed.

(** Printing an integer and parsing it back gives the integer. *)
Lemma parseInt_to_string (z : Z) :
  parseInt (Some (to_string (Num z))) = Num z.
Proof.
  unfold to_string, string_of_Z, NilZero.string_of_int, Z.to_int.
  destruct z as [| p | p].
  - reflexivity.
  - rewrite (string_of_uint_nonnil (to_uint_nonnil p)).
    apply parseInt_numeral.
  - pose proof (to_uint_nonnil p) as Hn.
    rewrite (string_of_uint_nonnil Hn).
    assert (Hd : digits (NilEmpty.string_of_uint (Pos.to_uint p)) None
                 = Some (Zpos p)).
    { rewrite (digits_numeral Hn), DecimalPos.Unsigned.of_to. reflexivity. }
    unfold parseInt.
    change (skip_whitespace
              (String "-" (NilEmpty.string_of_uint (Pos.to_uint p))))
      with (String "-" (NilEmpty.string_of_uint (Pos.to_uint p))).
    cbv iota beta. rewrite Hd. reflexivity.
Qed.

End ParseInt.

Section StageNumbers.

Import Main.

Lemma strict_eq_other (z : Z) (n : JsNumber.t) :
  n <> JsNumber.Num z -> JsNumber.strict_eq (JsNumber.Num z) n = false.
Proof.
  destruct n as [| y]; intros Hn; [reflexivity |]. simpl.
  apply Z.eqb_neq. intros ->. now apply Hn.
Qed.

(** The clicked button after the two class updates: same stage, same label. *)
Lemma clicked_button (buttons : list StageButton) (i : nat) (btn : StageButton) :
  nth_error buttons i = Some btn ->
  nth_error
    (update_nth i (map_button (Dom.classList_add "active"))
       (map (map_button (Dom.classList_remove "active")) buttons)) i
  = Some (map_button (Dom.classList_add "active")
            (map_button (Dom.classList_remove "active") btn)).
Proof.
  intros Hbtn. rewrite nth_error_update_nth, Nat.eqb_refl, nth_error_map, Hbtn.
  reflexivity.
Qed.

(** X8. A stage button whose [data-stage] is the decimal numeral of a
    safe integer [z] (at most 2^53 - 1 in magnitude, so that the double
    [parseInt] returns is [z] itself and prints as the same numeral) that
    is not the current stage: [parseInt] reads [z] back, the click stores
    it in [currentStage] and logs the line with the same numeral, and a
    second click on the button returns at once and changes nothing. *)
Theorem stage_click_reads_decimal_stage
    (s : State) (i : nat) (btn : StageButton) (z : Z) (label : Dom.Element)
    (Hsafe : JsNumber.isSafeInteger z)
    (Hbtn : nth_error (stageButtons s) i = Some btn)
    (Hstage : dataset_stage btn = Some (string_of_Z z))
    (Hlabel : stage_label btn = Some label)
    (Hother : currentStage s <> JsNumber.Num z) :
  let s' := exec (onStageClick i) s in
  JsNumber.parseInt (dataset_stage btn) = JsNumber.Num z
  /\ currentStage s' = JsNumber.Num z
  /\ console s'
     = console s
       ++ [("→ Stage " ++ string_of_Z z ++ ": " ++ Dom.textContent label)%string]
  /\ onStageClick i s' = Ok tt s'.
Proof.
  assert (Hparse : JsNumber.parseInt (dataset_stage btn) = JsNumber.Num z).
  { rewrite Hstage. apply (parseInt_to_string z). }
  cbv zeta. split; [exact Hparse |].
  unfold exec. rewrite (onStageClick_unfold i s), Hbtn. cbv zeta.
  rewrite Hparse, (@strict_eq_other _ _ Hother), Hlabel.
  cbn [state_of currentStage console].
  split; [reflexivity |]. split; [reflexivity |].
  rewrite onStageClick_unfold. cbn [stageButtons currentStage].
  rewrite (@clicked_button _ _ _ Hbtn). cbv zeta.
  cbn [map_button dataset_stage]. rewrite Hparse.
  simpl JsNumber.strict_eq. now rewrite Z.eqb_refl.
Qed.

Lemma stage_click_reads_decimal_stage_witness :
  let s' := exec (onStageClick 1) Example.main in
  JsNumber.isSafeInteger 1
  /\ JsNumber.parseInt
    (dataset_stage (Example.stageButton "1" "Dissolution" []))
  = JsNumber.Num 1
  /\ currentStage s' = JsNumber.Num 1
  /\ console s'
     = console Example.main
       ++ [("→ Stage " ++ string_of_Z 1 ++ ": "
            ++ Dom.textContent (Dom.mkElement ["stage-label"] "Dissolution"))%string]
  /\ onStageClick 1 s' = Ok tt s'.
Proof.
  cbv zeta.
  assert (Hsafe : JsNumber.isSafeInteger 1)
    by (unfold JsNumber.isSafeInteger, JsNumber.MAX_SAFE_INTEGER; simpl; lia).
  split; [exact Hsafe |].
  apply (@stage_click_reads_decimal_stage Example.main 1
           (Example.stageButton "1" "Dissolution" []) 1
           (Dom.mkElement ["stage-label"] "Dissolution") Hsafe);
    [reflexivity | reflexivity | reflexivity | discriminate].
Defined.

(** X9. A stage button whose [data-stage] does not parse (it is missing,
    empty or starts with no digit) gives the stage [NaN], which is never
    equal to [currentStage], not even to itself: every click on it, also a
    repeated one, stores [NaN] and logs the line again. *)
Theorem stage_click_without_stage_number_always_logs
    (s : State) (i : nat) (btn : StageButton) (label : Dom.Element)
    (Hbtn : nth_error (stageButtons s) i = Some btn)
    (Hnan : JsNumber.parseInt (dataset_stage btn) = JsNumber.NaN)
    (Hlabel : stage_label btn = Some label) :
  let line := ("→ Stage NaN: " ++ Dom.textContent label)%string in
  let s1 := exec (onStageClick i) s in
  let s2 := exec (onStageClick i) s1 in
  currentStage s1 = JsNumber.NaN
  /\ console s1 = console s ++ [line]
  /\ currentStage s2 = JsNumber.NaN
  /\ console s2 = console s ++ [line; line].
Proof.
  cbv zeta. unfold exec.
  rewrite (onStageClick_unfold i s), Hbtn. cbv zeta.
  rewrite Hnan, Hlabel. cbn [JsNumber.strict_eq state_of currentStage console].
  split; [reflexivity |]. split; [reflexivity |].
  rewrite onStageClick_unfold. cbn [stageButtons currentStage console interaction
                                   rendererSize].
  rewrite (@clicked_button _ _ _ Hbtn). cbv zeta.
  cbn [map_button dataset_stage stage_label]. rewrite Hnan, Hlabel.
  cbn [JsNumber.strict_eq state_of currentStage console].
  split; [reflexivity |]. rewrite <- app_assoc. reflexivity.
Qed.

Lemma stage_click_without_stage_number_always_logs_witness :
  let line := ("→ Stage NaN: "
               ++ Dom.textContent (Dom.mkElement ["stage-label"] "Extra"))%string in
  let s1 := exec (onStageClick 4) Example.main_with_unnumbered_button in
  let s2 := exec (onStageClick 4) s1 in
  currentStage s1 = JsNumber.NaN
  /\ console s1 = console Example.main_with_unnumbered_button ++ [line]
  /\ currentStage s2 = JsNumber.NaN
  /\ console s2 = console Example.main_with_unnumbered_button ++ [line; line].
Proof.
  apply (@stage_click_without_stage_number_always_logs
           Example.main_with_unnumbered_button 4
           (Main.mkStageButton (Dom.mkElement ["stage-btn"] "") None
              (Some (Dom.mkElement ["stage-label"] "Extra")))
           (Dom.mkElement ["stage-label"] "Extra"));
    reflexivity.
Defined.

End StageNumbers.

Section ActiveButton.

Import Main.

Variable Mesh_raycast :
  Interaction.Vector2 -> World.Camera -> Object3D.t -> list R.

Lemma active_after_click (buttons : list StageButton) (i : nat) :
  filter (fun b => Dom.has_class "active" (button b))
    (update_nth i (map_button (Dom.classList_add "active"))
       (map (map_button (Dom.classList_remove "active")) buttons))
  = match nth_error buttons i with
    | Some b => [map_button (Dom.classList_add "active")
                   (map_button (Dom.classList_remove "active") b)]
    | None => []
    end.
Proof.
  assert (Hnone : forall l : list StageButton,
    filter (fun b => Dom.has_class "active" (button b))
           (map (map_button (Dom.classList_remove "active")) l) = []).
  { intros l. apply filter_none. intros b Hb. apply in_map_iff in Hb.
    destruct Hb as (b0 & <- & _). apply has_class_remove. }
  revert i. induction buttons as [| b bs IH]; intros [| i]; simpl;
    try reflexivity.
  - rewrite has_class_add, Hnone. reflexivity.
  - rewrite has_class_remove. apply IH.
Qed.

Lemma active_is_current_ext (s s' : State) :
  stageButtons s' = stageButtons s -> currentStage s' = currentStage s ->
  active_is_current s -> active_is_current s'.
Proof.
  unfold active_is_current, active_buttons. now intros -> ->.
Qed.

Lemma onStageClick_active (i : nat) (s : State) :
  active_is_current s -> active_is_current (exec (onStageClick i) s).
Proof.
  intros Hs. unfold exec. rewrite onStageClick_unfold.
  destruct (nth_error (stageButtons s) i) as [btn |] eqn:Hbtn; [| exact Hs].
  cbv zeta. destruct (JsNumber.strict_eq _ _); [exact Hs |].
  assert (Hnew : active_is_current
            (Main.mk (interaction s) (rendererSize s)
               (JsNumber.parseInt (dataset_stage btn))
               (update_nth i (map_button (Dom.classList_add "active"))
                  (map (map_button (Dom.classList_remove "active"))
                     (stageButtons s)))
               (console s))).
  { unfold active_is_current, active_buttons. cbn [stageButtons currentStage].
    rewrite active_after_click, Hbtn. split; [simpl; lia |].
    constructor; [reflexivity | constructor]. }
  destruct (stage_label btn); cbn [state_of];
    (eapply active_is_current_ext; [| | exact Hnew]); reflexivity.
Qed.

Lemma dispatch_active (e : Event) (s : State) :
  active_is_current s ->
  active_is_current (exec (dispatch Mesh_raycast e) s).
Proof.
  intros Hs. destruct e as [i | window | e'].
  - now apply onStageClick_active.
  - eapply active_is_current_ext; [| | exact Hs]; reflexivity.
  - unfold exec, dispatch, zoom.
    destruct (Interaction.dispatch Mesh_raycast e' (interaction s));
      (eapply active_is_current_ext; [| | exact Hs]); reflexivity.
Qed.

(** X10. On a page where at most one stage button is active and an active
    button names the current stage, this stays so whatever the handlers of
    main.js and interaction.js do afterwards, also when a handler throws:
    the highlighted button is always one of [currentStage]. *)
Theorem active_button_names_current_stage
    (init s : State)
    (Hinit : active_is_current init)
    (Hreach : reachable Mesh_raycast init s) :
  active_is_current s.
Proof.
  induction Hreach as [| s e _ IH]; [exact Hinit |].
  now apply dispatch_active.
Qed.

End ActiveButton.

Lemma active_button_names_current_stage_witness :
  let ray := Example.ray_through [] in
  Main.active_is_current
    (exec (Main.dispatch ray (Main.StageClick 2)) Example.main).
Proof.
  apply (@active_button_names_current_stage (Example.ray_through [])
           Example.main).
  - unfold Main.active_is_current.
    assert (Ha : Main.active_buttons Example.main
                 = [Example.stageButton "0" "Complex" ["active"]])
      by (vm_compute; reflexivity).
    rewrite Ha. split; [simpl; lia |].
    constructor; [reflexivity | constructor].
  - apply Main.reach_event, Main.reach_init.
Defined.


(* ================================================================= *)
(** ** interaction.js: the pointer in device coordinates *)

Section DeviceCoordinates.

Import Interaction.
Local Open Scope R_scope.

Lemma fraction_bounds (a w : R) :
  0 < w -> 0 <= a <= w ->
  0 <= a / w <= 1 /\ (a / w = 0 <-> a = 0) /\ (a / w = 1 <-> a = w).
Proof.
  intros Hw [Ha0 Ha1]. unfold Rdiv.
  pose proof (Rinv_0_lt_compat w Hw) as Hi.
  assert (Hwi : w * / w = 1) by (apply Rinv_r; lra).
  repeat split; nra.
Qed.

Lemma selectAtom_pointer (mesh : nat) (s : State) :
  pointer (state_of (selectAtom mesh s)) = pointer s.
Proof.
  destruct (Object3D.getObjectById mesh (scene s)) as [node |] eqn:Hnode.
  - destruct (@selectAtom_unfold s mesh node Hnode) as (node' & _ & ->).
    match goal with |- context [populateInfoPanel ?m ?x] =>
      destruct (populateInfoPanel_frame m x) as (_ & _ & _ & _ & -> & _)
    end.
    reflexivity.
  - unfold selectAtom, bind, get. rewrite Hnode. reflexivity.
Qed.

Lemma deselectAtom_keeps_pointer (s : State) :
  pointer (state_of (deselectAtom s)) = pointer s.
Proof.
  rewrite deselectAtom_unfold.
  match goal with |- context [hideInfoPanel ?x] =>
    destruct (hideInfoPanel_frame x) as (p & -> & _) end.
  cbn [state_of pointer].
  destruct (previousSelection s), (previousMaterial s); reflexivity.
Qed.

Variable Mesh_raycast : Vector2 -> World.Camera -> Object3D.t -> list R.

(** X11. For a pointer event inside a canvas of positive width and height,
    the device coordinates the handler computes lie in the square from -1 to
    1; the left edge of the canvas gives x = -1 and the right edge x = 1,
    the top edge y = 1 and the bottom edge y = -1 (the y axis points up).
    The handler leaves them in the module's [pointer]. *)
Theorem deviceCoordinates_within_canvas
    (event : PointerEvent) (s : State)
    (Hwidth : 0 < width (canvas s)) (Hheight : 0 < height (canvas s))
    (Hx : left (canvas s) <= clientX event <= left (canvas s) + width (canvas s))
    (Hy : top (canvas s) <= clientY event <= top (canvas s) + height (canvas s)) :
  let p := deviceCoordinates event (canvas s) in
  -1 <= x p <= 1 /\ -1 <= y p <= 1
  /\ (x p = -1 <-> clientX event = left (canvas s))
  /\ (x p = 1 <-> clientX event = left (canvas s) + width (canvas s))
  /\ (y p = 1 <-> clientY event = top (canvas s))
  /\ (y p = -1 <-> clientY event = top (canvas s) + height (canvas s))
  /\ pointer (exec (onPointerDown Mesh_raycast event) s) = p.
Proof.
  cbv zeta.
  assert (Hp : pointer (exec (onPointerDown Mesh_raycast event) s)
               = deviceCoordinates event (canvas s)).
  { unfold exec. rewrite onPointerDown_unfold. cbv zeta.
    destruct (hits_of Mesh_raycast event s) as [| hit hits].
    - rewrite deselectAtom_keeps_pointer. reflexivity.
    - rewrite selectAtom_pointer. reflexivity. }
  rewrite Hp. clear Hp. unfold deviceCoordinates. cbn [x y].
  destruct (@fraction_bounds (clientX event - left (canvas s)) (width (canvas s))
              Hwidth ltac:(lra)) as ([Hx0 Hx1] & Hxl & Hxr).
  destruct (@fraction_bounds (clientY event - top (canvas s)) (height (canvas s))
              Hheight ltac:(lra)) as ([Hy0 Hy1] & Hyt & Hyb).
  revert Hx0 Hx1 Hxl Hxr Hy0 Hy1 Hyt Hyb.
  generalize ((clientX event - left (canvas s)) / width (canvas s)).
  generalize ((clientY event - top (canvas s)) / height (canvas s)).
  intros ty tx Hx0 Hx1 Hxl Hxr Hy0 Hy1 Hyt Hyb.
  repeat split; lra.
Qed.

End DeviceCoordinates.

Lemma deviceCoordinates_within_canvas_witness :
  let s := Example.interaction in
  let ray := Example.ray_through [] in
  let event := Interaction.mkPointerEvent 0 720 in
  let p := Interaction.deviceCoordinates event (Interaction.canvas s) in
  (-1 <= Interaction.x p <= 1 /\ -1 <= Interaction.y p <= 1
   /\ (Interaction.x p = -1
       <-> Interaction.clientX event = Interaction.left (Interaction.canvas s))
   /\ (Interaction.x p = 1
       <-> Interaction.clientX event
           = Interaction.left (Interaction.canvas s)
             + Interaction.width (Interaction.canvas s))
   /\ (Interaction.y p = 1
       <-> Interaction.clientY event = Interaction.top (Interaction.canvas s))
   /\ (Interaction.y p = -1
       <-> Interaction.clientY event
           = Interaction.top (Interaction.canvas s)
             + Interaction.height (Interaction.canvas s))
   /\ Interaction.pointer (exec (Interaction.onPointerDown ray event) s) = p)%R.
Proof.
  cbv zeta.
  apply (@deviceCoordinates_within_canvas (Example.ray_through [])
           (Interaction.mkPointerEvent 0 720) Example.interaction);
    change (Interaction.canvas Example.interaction) with Example.canvas;
    simpl; lra.
Defined.

(* ================================================================= *)
(** ** interaction.js and main.js: what the handlers leave alone *)

Section Placement.

Import Object3D.

(** An assignment that touches neither identity, children, name, position,
    rotation, scale, visibility nor [userData] keeps the placement. *)
Lemma placement_update (i : nat) (f : Object3D.t -> Object3D.t) (o : Object3D.t) :
  (forall n, id (f n) = id n) ->
  (forall n, children (f n) = children n) ->
  (forall n, (name (f n), position (f n), rotation (f n), scale (f n),
              visible (f n), userData (f n))
             = (name n, position n, rotation n, scale n, visible n,
                userData n)) ->
  placement (update i f o) = placement o.
Proof.
  intros Hid Hch Hf. unfold placement.
  rewrite traverse_update by assumption. rewrite map_map.
  apply map_ext. intros n.
  rewrite id_update by assumption.
  destruct n as [ni k nm p r sc v u cs]. cbn [update].
  destruct (Nat.eqb ni i).
  - specialize (Hf (mk ni k nm p r sc v u (map (update i f) cs))).
    cbn [name position rotation scale visible userData] in Hf.
    injection Hf as -> -> -> -> -> ->. reflexivity.
  - reflexivity.
Qed.

Lemma placement_set_material (i : nat) (m : Materials.Material) (o : Object3D.t) :
  placement (update i (set_material m) o) = placement o.
Proof. apply placement_update; intros n; reflexivity. Qed.

End Placement.

Section HandlersKeepPlacement.

Import Interaction.

Lemma placement_restored (s : State) :
  Object3D.placement (restored_scene s) = Object3D.placement (scene s).
Proof.
  unfold restored_scene.
  destruct (previousSelection s), (previousMaterial s);
    try reflexivity. apply placement_set_material.
Qed.

(** What a handler of interaction.js keeps of the world: where the
    objects are, the camera, the controls and the id counters. *)
Lemma selectAtom_keeps_placement (mesh : nat) (s : State) :
  let s' := state_of (selectAtom mesh s) in
  Object3D.placement (scene s') = Object3D.placement (scene s)
  /\ World.camera (world s') = World.camera (world s)
  /\ World.controls (world s') = World.controls (world s)
  /\ World.ids (world s') = World.ids (world s).
Proof.
  cbv zeta.
  destruct (Object3D.getObjectById mesh (scene s)) as [node |] eqn:Hnode.
  - destruct (@selectAtom_unfold s mesh node Hnode) as (node' & _ & ->).
    match goal with |- context [populateInfoPanel ?m ?x] =>
      destruct (populateInfoPanel_frame m x) as (Hw & _)
    end.
    unfold scene. rewrite Hw. cbn [world World.set_scene World.scene
      World.camera World.controls World.ids].
    rewrite placement_set_material, placement_restored. auto.
  - unfold selectAtom, bind, get. rewrite Hnode. cbn [state_of]. auto.
Qed.

Lemma deselectAtom_keeps_placement (s : State) :
  let s' := state_of (deselectAtom s) in
  Object3D.placement (scene s') = Object3D.placement (scene s)
  /\ World.camera (world s') = World.camera (world s)
  /\ World.controls (world s') = World.controls (world s)
  /\ World.ids (world s') = World.ids (world s).
Proof.
  cbv zeta. rewrite deselectAtom_unfold.
  match goal with |- context [hideInfoPanel ?x] =>
    destruct (hideInfoPanel_frame x) as (p & -> & _) end.
  cbn [state_of]. unfold scene at 1. cbn [world].
  pose proof (placement_restored s) as Hr.
  destruct (previousSelection s), (previousMaterial s);
    cbn [world World.set_scene World.scene World.camera World.controls
         World.ids]; auto.
Qed.

Variable Mesh_raycast : Vector2 -> World.Camera -> Object3D.t -> list R.

Lemma interaction_dispatch_keeps_placement (e : Event) (s : State) :
  let s' := state_of (dispatch Mesh_raycast e s) in
  Object3D.placement (scene s') = Object3D.placement (scene s)
  /\ World.camera (world s') = World.camera (world s)
  /\ World.controls (world s') = World.controls (world s)
  /\ World.ids (world s') = World.ids (world s).
Proof.
  cbv zeta. unfold dispatch, bind, get.
  destruct e as [event |].
  - destruct (has_listener OnPointerDown s); [| cbn [state_of]; auto].
    rewrite onPointerDown_unfold. cbv zeta.
    destruct (hits_of Mesh_raycast event s) as [| hit hits].
    + apply (deselectAtom_keeps_placement
               (set_pointer (deviceCoordinates event (canvas s)) s)).
    + apply (selectAtom_keeps_placement (object hit)
               (set_pointer (deviceCoordinates event (canvas s)) s)).
  - destruct (has_listener OnCloseClick s); [| cbn [state_of]; auto].
    apply deselectAtom_keeps_placement.
Qed.

End HandlersKeepPlacement.

Section PageKeepsPlacement.

Import Main.

Variable Mesh_raycast :
  Interaction.Vector2 -> World.Camera -> Object3D.t -> list R.

Lemma main_dispatch_keeps_placement (e : Event) (s : State) :
  let s' := exec (dispatch Mesh_raycast e) s in
  Object3D.placement (World.scene (world s'))
  = Object3D.placement (World.scene (world s))
  /\ World.position (World.camera (world s'))
     = World.position (World.camera (world s))
  /\ World.controls (world s') = World.controls (world s)
  /\ World.ids (world s') = World.ids (world s).
Proof.
  cbv zeta. destruct e as [i | window | e'].
  - unfold dispatch, world. rewrite onStageClick_interaction. auto.
  - unfold dispatch, world, exec, onResize, bind, modify.
    cbn [state_of interaction set_interaction set_rendererSize
         Interaction.world Interaction.set_world World.set_camera
         World.scene World.camera World.controls World.ids World.set_aspect
         World.position].
    auto.
  - unfold dispatch, exec, zoom, world.
    destruct (@interaction_dispatch_keeps_placement Mesh_raycast e'
                (interaction s)) as (Hp & Hc & Hk & Hi).
    destruct (Interaction.dispatch Mesh_raycast e' (interaction s));
      cbn [state_of interaction set_interaction] in *;
      unfold Interaction.scene in Hp; rewrite Hp, Hc, Hk, Hi; auto.
Qed.

(** A frame of [animate] moves the camera and the controls and leaves
    the scene graph and the counters alone. *)
Lemma animate_keeps_scene (camera : World.Camera)
    (controls : World.OrbitControls) (s : State) :
  World.scene (world (animate camera controls s)) = World.scene (world s)
  /\ World.ids (world (animate camera controls s)) = World.ids (world s).
Proof. split; reflexivity. Qed.

(** X12. No handler of main.js or interaction.js moves, rotates, scales,
    hides, renames, adds or removes an object of the scene, moves the
    camera, touches the orbit controls or constructs an object or a
    material: whatever the state a handler starts in, and whether it
    returns or throws, it leaves the placement of the scene, the camera
    position, the controls and three.js's counters as it found them.  What
    the handlers change in the world are materials (selection) and the
    camera's aspect (resize).  The camera and the controls do move on the
    page, on every frame of [animate]; the placement of the scene does not:
    in every state the page goes through from [init], frames included, it
    is that of [init]. *)
Theorem handlers_keep_the_placement :
  (forall (e : Event) (s : State),
      let s' := exec (dispatch Mesh_raycast e) s in
      Object3D.placement (World.scene (world s'))
      = Object3D.placement (World.scene (world s))
      /\ World.position (World.camera (world s'))
         = World.position (World.camera (world s))
      /\ World.controls (world s') = World.controls (world s)
      /\ World.ids (world s') = World.ids (world s))
  /\ (forall init s : State,
        on_page Mesh_raycast init s ->
        Object3D.placement (World.scene (world s))
        = Object3D.placement (World.scene (world init))).
Proof.
  split; [exact main_dispatch_keeps_placement |].
  intros init s Hpage.
  induction Hpage as [| s e _ IH | s camera controls _ IH]; [reflexivity | |].
  - destruct (main_dispatch_keeps_placement e s) as (Hp & _).
    now rewrite Hp.
  - destruct (animate_keeps_scene camera controls s) as (Hs & _).
    now rewrite Hs.
Qed.

End PageKeepsPlacement.

(** A pointerdown on the first oxygen, then a frame that moves the camera:
    the handler leaves camera and controls alone, and after the frame the
    objects are still where the page put them. *)
Lemma handlers_keep_the_placement_witness :
  let ray := Example.ray_through [(Example.oxygen1, 1%R)] in
  let e := Main.Interact (Interaction.PointerDown Example.click) in
  let s := exec (Main.dispatch ray e) Example.main in
  let s' := Main.animate (World.mkCamera (Vector3.new 0 8 0) 50 1 0.1 100)
              (World.controls (Main.world s)) s in
  (Object3D.placement (World.scene (Main.world s))
   = Object3D.placement (World.scene (Main.world Example.main))
   /\ World.position (World.camera (Main.world s))
      = World.position (World.camera (Main.world Example.main))
   /\ World.controls (Main.world s) = World.controls (Main.world Example.main)
   /\ World.ids (Main.world s) = World.ids (Main.world Example.main))
  /\ Main.on_page ray Example.main s'
  /\ Object3D.placement (World.scene (Main.world s'))
     = Object3D.placement (World.scene (Main.world Example.main)).
Proof.
  cbv zeta.
  assert (Hpage : Main.on_page (Example.ray_through [(Example.oxygen1, 1%R)])
                    Example.main
                    (Main.animate
                       (World.mkCamera (Vector3.new 0 8 0) 50 1 0.1 100)
                       (World.controls
                          (Main.world
                             (exec (Main.dispatch
                                      (Example.ray_through [(Example.oxygen1, 1%R)])
                                      (Main.Interact
                                         (Interaction.PointerDown Example.click)))
                                   Example.main)))
                       (exec (Main.dispatch
                                (Example.ray_through [(Example.oxygen1, 1%R)])
                                (Main.Interact
                                   (Interaction.PointerDown Example.click)))
                             Example.main))).
  { apply Main.page_animate, Main.page_event, Main.page_init. }
  split; [| split; [exact Hpage |]].
  - exact (proj1 (@handlers_keep_the_placement
                    (Example.ray_through [(Example.oxygen1, 1%R)]))
             (Main.Interact (Interaction.PointerDown Example.click))
             Example.main).
  - exact (proj2 (@handlers_keep_the_placement
                    (Example.ray_through [(Example.oxygen1, 1%R)]))
             Example.main _ Hpage).
Defined.

(* ================================================================= *)
(** ** interaction.js: selecting the selected mesh again *)

Section SelectAgain.

Import Object3D Interaction Materials.

(** Two assignments through the same reference are one assignment. *)
Lemma update_update (i : nat) (f g : Object3D.t -> Object3D.t) (o : Object3D.t) :
  (forall n, id (f n) = id n) ->
  (forall cs n, f (set_children cs n) = set_children cs (f n)) ->
  update i g (update i f o) = update i (fun n => g (f n)) o.
Proof.
  intros Hid Hnat. induction o as [oi k nm p r sc v u cs IH] using tree_induction.
  assert (Hcs : map (update i g) (map (update i f) cs)
                = map (update i (fun n => g (f n))) cs).
  { rewrite map_map. apply map_ext_Forall. exact IH. }
  cbn [update]. destruct (Nat.eqb oi i) eqn:E.
  - set (o' := Object3D.mk oi k nm p r sc v u (map (update i f) cs)).
    assert (Hfo : f o' = set_children (map (update i f) cs)
                           (f (Object3D.mk oi k nm p r sc v u []))).
    { rewrite <- Hnat. reflexivity. }
    destruct (f (Object3D.mk oi k nm p r sc v u [])) as [fi fk fn fp fr fs fv fu fc] eqn:Ef.
    assert (Hfi : fi = oi).
    { pose proof (Hid (Object3D.mk oi k nm p r sc v u [])) as H. rewrite Ef in H.
      exact H. }
    subst fi. rewrite Hfo. cbn [set_children update id kind name position
      rotation scale visible userData children].
    rewrite E, Hcs. f_equal.
    change (Object3D.mk oi fk fn fp fr fs fv fu (map (update i (fun n => g (f n))) cs))
      with (set_children (map (update i (fun n => g (f n))) cs)
              (Object3D.mk oi fk fn fp fr fs fv fu fc)).
    rewrite <- Ef, <- Hnat. reflexivity.
  - cbn [update]. rewrite E, Hcs. reflexivity.
Qed.

Lemma update_ext (i : nat) (f g : Object3D.t -> Object3D.t) (o : Object3D.t) :
  (forall n, f n = g n) -> update i f o = update i g o.
Proof.
  intros Hfg. induction o as [oi k nm p r sc v u cs IH] using tree_induction.
  cbn [update]. rewrite (map_ext_Forall _ _ IH), Hfg. reflexivity.
Qed.

(** Assigning a material, another, and the first again is assigning the
    first once. *)
Lemma set_material_again (i : nat) (m m' : Material) (o : Object3D.t) :
  update i (set_material m) (update i (set_material m')
     (update i (set_material m) o))
  = update i (set_material m) o.
Proof.
  rewrite !update_update by (intros; reflexivity).
  apply update_ext. intros [ni k nm p r sc v u cs]. destruct k; reflexivity.
Qed.

Lemma set_material_twice (i : nat) (m : Material) (o : Object3D.t) :
  update i (set_material m) (update i (set_material m) o)
  = update i (set_material m) o.
Proof.
  rewrite update_update by (intros; reflexivity).
  apply update_ext. intros [ni k nm p r sc v u cs]. destruct k; reflexivity.
Qed.

Lemma classList_remove_twice (tok : string) (e : Dom.Element) :
  Dom.classList_remove tok (Dom.classList_remove tok e)
  = Dom.classList_remove tok e.
Proof.
  unfold Dom.classList_remove. cbn [Dom.classList Dom.textContent]. f_equal.
  induction (Dom.classList e) as [| c cs IH]; [reflexivity |].
  simpl. destruct (negb (tok =? c)%string) eqn:E; simpl; rewrite ?E, IH;
    reflexivity.
Qed.

Lemma populateInfoPanel_ext (n n' : Object3D.t) :
  name n' = name n -> userData n' = userData n ->
  populateInfoPanel n' = populateInfoPanel n.
Proof. unfold populateInfoPanel. now intros -> ->. Qed.

(** Filling the panel a second time with the same data changes nothing,
    also when the first attempt threw on a missing field. *)
Lemma populateInfoPanel_twice (n : Object3D.t) (s : State) :
  state_of (populateInfoPanel n (state_of (populateInfoPanel n s)))
  = state_of (populateInfoPanel n s).
Proof.
  destruct s as [w c ps pm pt [ip it ie ir ic icl] ls].
  unfold populateInfoPanel, assign_textContent, bind, get, put, modify, throw.
  destruct ip as [ep |], it as [et |], ie as [ee |], ir as [er |],
           ic as [ec |];
    cbn; rewrite ?classList_remove_twice; reflexivity.
Qed.

Lemma selectAtom_missing (mesh : nat) (s : State) :
  getObjectById mesh (scene s) = None -> exec (selectAtom mesh) s = s.
Proof.
  intros H. unfold exec, selectAtom, bind, get. rewrite H. reflexivity.
Qed.

(** X13. [selectAtom] is idempotent: calling it again on the mesh it has
    just selected leaves the whole state as it is (scene and materials,
    [previousSelection], [previousMaterial], the info panel), whatever was
    selected before, on every page. *)
Theorem selectAtom_again_changes_nothing (mesh : nat) (s : State) :
  exec (selectAtom mesh) (exec (selectAtom mesh) s)
  = exec (selectAtom mesh) s.
Proof.
  destruct (getObjectById mesh (scene s)) as [node |] eqn:Hnode;
    [| rewrite !(selectAtom_missing _ _ Hnode); reflexivity ].
  destruct (@selectAtom_unfold s mesh node Hnode) as (node' & Hnode' & Heq).
  unfold exec at 2 3. rewrite Heq.
  set (s1 := Interaction.mk
               (World.set_scene
                  (update mesh (set_material highlightMaterial)
                     (restored_scene s)) (world s))
               (canvas s) (Some mesh) (material node') (pointer s)
               (panel s) (listeners s)).
  destruct (populateInfoPanel_frame node' s1) as (Hw & Hc & Hps & Hpm & Hpt & Hl).
  cbv zeta in Hw, Hc, Hps, Hpm, Hpt, Hl.
  set (s' := state_of (populateInfoPanel node' s1)) in *.
  assert (Hs' : s' = set_panel (panel s') s1).
  { destruct s' as [w' c' ps' pm' pt' p' l']. unfold set_panel.
    cbn [world canvas previousSelection previousMaterial pointer panel
         listeners] in *.
    now rewrite Hw, Hc, Hps, Hpm, Hpt, Hl. }
  assert (Hid : id node' = mesh) by exact (getObjectById_id _ _ Hnode').
  assert (Hnode1 : getObjectById mesh (scene s')
                   = Some (update mesh (set_material highlightMaterial) node')).
  { unfold scene. rewrite Hw. unfold s1. cbn [world World.set_scene World.scene].
    rewrite getObjectById_update by reflexivity. now rewrite Hnode'. }
  destruct (@selectAtom_unfold s' mesh _ Hnode1) as (node'' & Hnode'' & Heq').
  unfold exec. rewrite Heq'.
  (* the scene after the second call *)
  assert (Hscene :
    update mesh (set_material highlightMaterial) (restored_scene s')
    = update mesh (set_material highlightMaterial) (restored_scene s)).
  { unfold restored_scene at 1. rewrite Hps, Hpm. unfold scene. rewrite Hw.
    unfold s1. cbn [world World.set_scene World.scene previousMaterial].
    destruct (material node') as [mat |].
    - apply set_material_again.
    - apply set_material_twice. }
  (* the mesh the second call reads *)
  assert (Hread : name node'' = name node' /\ userData node'' = userData node'
                  /\ material node'' = material node').
  { revert Hnode''. unfold restored_scene. rewrite Hps, Hpm. unfold scene.
    rewrite Hw. unfold s1.
    cbn [world World.set_scene World.scene previousSelection previousMaterial].
    destruct (material node') as [mat |] eqn:Em.
    - rewrite !getObjectById_update by reflexivity. rewrite Hnode'. simpl.
      intros [= <-].
      rewrite !name_update, !userData_update, !material_update, !id_update
        by reflexivity.
      rewrite Hid, Nat.eqb_refl, Em. auto.
    - rewrite getObjectById_update by reflexivity. rewrite Hnode'. simpl.
      intros [= <-].
      rewrite name_update, userData_update, material_update.
      rewrite Hid, Nat.eqb_refl, Em. auto. }
  destruct Hread as (Hname & Hdata & Hmat).
  rewrite (populateInfoPanel_ext _ _ Hname Hdata), Hscene, Hmat.
  replace (Interaction.mk _ _ _ _ _ _ _) with s'.
  - apply populateInfoPanel_twice.
  - rewrite Hs' at 1. unfold set_panel, s1.
    cbn [world canvas previousSelection previousMaterial pointer panel listeners].
    rewrite Hc, Hpt, Hl. unfold s1.
    cbn [world canvas previousSelection previousMaterial pointer panel listeners].
    f_equal. rewrite Hw. unfold s1. reflexivity.
Qed.

End SelectAgain.


(* ================================================================= *)
(** ** stages.js: what a stage change leaves alone *)

(** Frame conditions of the statements of stages.js, for an observation
    that ignores the timelines, the active reference, the description, the
    random numbers, the id counters, the camera and the controls, and that
    assignments [f] with [good f] leave as it is. *)
Section StageFrames.

Import Gsap Stages.

Variable X : Type.
Variable obs : State -> X.
Variable good : (Object3D.t -> Object3D.t) -> Prop.

Hypothesis obs_ids : forall s i,
  obs (set_world (World.set_ids i (world s)) s) = obs s.
Hypothesis obs_camera : forall s c,
  obs (set_world (World.set_camera c (world s)) s) = obs s.
Hypothesis obs_controls : forall s c,
  obs (set_world (World.set_controls c (world s)) s) = obs s.
Hypothesis obs_timelines : forall s t, obs (set_timelines t s) = obs s.
Hypothesis obs_activeTimeline : forall s a, obs (set_activeTimeline a s) = obs s.
Hypothesis obs_stageDesc : forall s e, obs (set_stageDesc e s) = obs s.
Hypothesis obs_entropy : forall s e, obs (set_entropy e s) = obs s.
Hypothesis obs_assign : forall s r f,
  good f ->
  obs (set_world (World.set_scene (Object3D.update r f (scene s)) (world s)) s)
  = obs s.

Hypothesis good_position : forall g : Object3D.t -> Vector3.t,
  good (fun o => Object3D.set_position (g o) o).
Hypothesis good_rotation : forall g : Object3D.t -> Vector3.t,
  good (fun o => Object3D.set_rotation (g o) o).
Hypothesis good_scale : forall g : Object3D.t -> Vector3.t,
  good (fun o => Object3D.set_scale (g o) o).
Hypothesis good_visible : forall b, good (Object3D.set_visible b).

Lemma frame_gsap_timeline : keeps obs gsap_timeline.
Proof. intros s. apply obs_timelines. Qed.

Lemma frame_on_timeline tl f : keeps obs (on_timeline tl f).
Proof. intros s. apply obs_timelines. Qed.

Lemma frame_the {A} (r : State -> option A) : keeps obs (the r).
Proof. intros s. unfold the, bind, get. destruct (r s); reflexivity. Qed.

Lemma frame_deref (r : nat) : keeps obs (deref r).
Proof.
  intros s. unfold deref, bind, get.
  destruct (Object3D.getObjectById r (scene s)); reflexivity.
Qed.

Lemma frame_worldPositionOf (r : nat) : keeps obs (worldPositionOf r).
Proof.
  intros s. unfold worldPositionOf, bind, get.
  destruct (Object3D.getWorldPosition r (scene s)); reflexivity.
Qed.

Lemma frame_assign r f : good f -> keeps obs (assign r f).
Proof. intros Hf s. now apply obs_assign. Qed.

Lemma frame_alloc {A} (c : M Ids.t A) : keeps obs (alloc c).
Proof.
  intros s. unfold alloc, World.alloc, zoom.
  destruct (c (World.ids (world s))); apply obs_ids.
Qed.

Lemma frame_Math_random : keeps obs Math_random.
Proof. intros s. apply obs_entropy. Qed.

Lemma frame_updateDescription stage : keeps obs (updateDescription stage).
Proof.
  intros s. unfold updateDescription, modify. cbn [state_of].
  destruct (stageDesc s); [apply obs_stageDesc | reflexivity].
Qed.

Lemma frame_activate a : keeps obs (modify (set_activeTimeline a)).
Proof. intros s. apply obs_activeTimeline. Qed.

Lemma frame_killActiveTimeline : keeps obs killActiveTimeline.
Proof.
  intros s. unfold killActiveTimeline, bind, get, tl_kill, on_timeline, modify.
  destruct (_activeTimeline s); cbn [state_of]; [| reflexivity].
  now rewrite obs_activeTimeline, obs_timelines.
Qed.

Lemma good_position_at p : good (Object3D.set_position p).
Proof. exact (good_position (fun _ => p)). Qed.

Lemma good_rotation_at p : good (Object3D.set_rotation p).
Proof. exact (good_rotation (fun _ => p)). Qed.

(** A frame of a tween. *)
Lemma frame_write (t : Target) (prop : string) (w : Written) :
  keeps obs (write t prop w).
Proof.
  destruct t, w; cbn [write];
    try apply keeps_ret;
    try (apply frame_assign;
         first [apply good_position | apply good_rotation | apply good_scale]).
  - destruct (String.eqb prop "visible");
      [apply frame_assign, good_visible | apply keeps_ret].
  - intros s. apply obs_camera.
  - intros s. apply obs_controls.
Qed.

Hypothesis good_material : forall m, good (Object3D.set_material m).

Ltac frame :=
  repeat first
    [ apply keeps_ret | apply keeps_get | apply keeps_throw
    | apply frame_gsap_timeline | apply frame_activate
    | apply frame_on_timeline | apply frame_the | apply frame_deref
    | apply frame_worldPositionOf | apply frame_alloc
    | apply frame_Math_random | apply frame_updateDescription
    | apply frame_killActiveTimeline
    | apply frame_assign;
        first [ apply good_visible | apply good_position_at
              | apply good_rotation_at | apply good_material ]
    | apply keeps_bind; [| intros ?]
    | apply keeps_forEach; intros ?
    | apply keeps_foldM; intros ? ?
    | match goal with
      | |- keeps _ (match ?x with _ => _ end) => destruct x
      | |- keeps _ (let (_, _) := ?x in _) => destruct x
      | |- keeps _ (if ?x then _ else _) => destruct x
      end ].

Lemma frame_restoreMaterials complex : keeps obs (restoreMaterials complex).
Proof. unfold restoreMaterials. frame. Qed.

Lemma frame_stageComplex : keeps obs stageComplex.
Proof. unfold stageComplex, ref, tl_to. frame. Qed.

Lemma frame_stageDissolution : keeps obs stageDissolution.
Proof.
  unfold stageDissolution, ref, tl_to, tl_call.
  frame; try apply frame_restoreMaterials; frame.
Qed.

Lemma frame_stageHydration : keeps obs stageHydration.
Proof.
  unfold stageHydration, ref, tl_to, tl_call.
  frame; try apply frame_restoreMaterials; frame.
Qed.

Lemma frame_stageHydrolysis : keeps obs stageHydrolysis.
Proof. unfold stageHydrolysis, ref, tl_to, tl_call. frame. Qed.

Lemma frame_goToStage stage : keeps obs (goToStage stage).
Proof.
  unfold goToStage.
  apply keeps_bind; [apply frame_killActiveTimeline | intros _].
  apply keeps_bind; [apply frame_updateDescription | intros _].
  destruct stage as [| [| [[p | p |] | [p | p |] |] | p]]; cbn [stageFunction];
    first [ apply keeps_ret | apply frame_stageComplex
          | apply frame_stageDissolution | apply frame_stageHydration
          | apply frame_stageHydrolysis ].
Qed.

(** The closures that do not reparent or create objects. *)
Lemma frame_run_callback tl cb :
  reshapes cb = false -> keeps obs (run_callback tl cb).
Proof.
  destruct cb; cbn [reshapes]; try discriminate; intros _;
    unfold run_callback, ref, set_local; frame.
Qed.

End StageFrames.

Section Skeleton.

Import Object3D.

Lemma shape_update (i : nat) (f : t -> t) (n : t) :
  keeps_shape f ->
  id (update i f n) = id n /\ name (update i f n) = name n
  /\ isMesh (update i f n) = isMesh n /\ isGroup (update i f n) = isGroup n
  /\ children (update i f n) = map (update i f) (children n).
Proof.
  intros Hf.
  assert (Hch : forall m, children (f m) = children m) by (intros m; apply Hf).
  destruct n as [ni k nm p r sc v u cs]. cbn [update].
  destruct (Nat.eqb ni i).
  - destruct (Hf (mk ni k nm p r sc v u (map (update i f) cs)))
      as (-> & -> & -> & -> & ->). repeat split.
  - repeat split.
Qed.

Lemma skeleton_update (i : nat) (f : t -> t) (o : t) :
  keeps_shape f -> skeleton (update i f o) = skeleton o.
Proof.
  intros Hf. unfold skeleton.
  rewrite traverse_update by (intros m; apply Hf). rewrite map_map.
  apply map_ext. intros n.
  destruct (shape_update i n Hf) as (-> & -> & -> & -> & ->).
  rewrite map_map. f_equal.
  apply map_ext. intros c.
  destruct (shape_update i c Hf) as (-> & -> & _). reflexivity.
Qed.

Lemma keeps_shape_position (g : t -> Vector3.t) :
  keeps_shape (fun o => set_position (g o) o).
Proof. intros n. repeat split. Qed.

Lemma keeps_shape_rotation (g : t -> Vector3.t) :
  keeps_shape (fun o => set_rotation (g o) o).
Proof. intros n. repeat split. Qed.

Lemma keeps_shape_scale (g : t -> Vector3.t) :
  keeps_shape (fun o => set_scale (g o) o).
Proof. intros n. repeat split. Qed.

Lemma keeps_shape_visible (b : bool) : keeps_shape (set_visible b).
Proof. intros n. repeat split. Qed.

Lemma keeps_shape_material (m : Materials.Material) :
  keeps_shape (set_material m).
Proof.
  intros [ni k nm p r sc v u cs]. repeat split; destruct k; reflexivity.
Qed.

End Skeleton.

Section Structure.

Import Gsap Stages.

Lemma structure_assign (s : State) (r : nat) (f : Object3D.t -> Object3D.t) :
  Object3D.keeps_shape f ->
  structure
    (set_world (World.set_scene (Object3D.update r f (scene s)) (world s)) s)
  = structure s.
Proof.
  intros Hf. unfold structure, scene.
  cbn [world set_world World.scene World.set_scene savedPositions
       savedMaterials refs _freeWater allLabels].
  now rewrite skeleton_update.
Qed.

(** X14. A stage change keeps the shape of the scene graph and what
    [initStages] recorded: [goToStage], for every stage value and in every
    state, also when it throws, adds, removes, renames or reparents no
    object and leaves [savedPositions], [savedMaterials], the references
    and the list of labels as they are.  The same holds of every frame of
    a tween and of every closure of a timeline except the two of stage 3
    that detach the hydrogen and relabel the free water. *)
Theorem only_two_closures_reshape_the_scene :
  (forall stage, keeps structure (goToStage stage))
  /\ (forall target prop w, keeps structure (write target prop w))
  /\ (forall tl cb, reshapes cb = false -> keeps structure (run_callback tl cb)).
Proof.
  split; [| split].
  - intros stage.
    apply (@frame_goToStage _ structure Object3D.keeps_shape);
      try reflexivity;
      first [ exact structure_assign | exact keeps_shape_position
            | exact keeps_shape_rotation | exact keeps_shape_visible
            | exact keeps_shape_material ].
  - intros target prop w.
    apply (@frame_write _ structure Object3D.keeps_shape);
      try reflexivity;
      first [ exact structure_assign | exact keeps_shape_position
            | exact keeps_shape_rotation | exact keeps_shape_scale
            | exact keeps_shape_visible ].
  - intros tl cb.
    apply (@frame_run_callback _ structure Object3D.keeps_shape);
      try reflexivity;
      first [ exact structure_assign | exact keeps_shape_position
            | exact keeps_shape_rotation | exact keeps_shape_visible
            | exact keeps_shape_material ].
Qed.

End Structure.

(* ================================================================= *)
(** ** stages.js: the description of a stage *)

Section Description.

Import Gsap Stages.

Lemma stageDesc_goToStage (stage : JsNumber.t) (s : State) :
  stageDesc (exec (goToStage stage) s)
  = stageDesc (exec (updateDescription stage) s).
Proof.
  assert (Hframe : forall stage',
    keeps stageDesc
      (match stageFunction stage' with
       | Some stageFn => stageFn
       | None => ret tt
       end)).
  { intros stage'.
    destruct stage' as [| [| [[p | p |] | [p | p |] |] | p]];
      cbn [stageFunction];
      first
        [ apply keeps_ret
        | apply (@frame_stageComplex _ stageDesc (fun _ => True))
        | apply (@frame_stageDissolution _ stageDesc (fun _ => True))
        | apply (@frame_stageHydration _ stageDesc (fun _ => True))
        | apply (@frame_stageHydrolysis _ stageDesc (fun _ => True)) ];
      try reflexivity; auto. }
  unfold exec, goToStage, bind.
  pose proof (@frame_killActiveTimeline _ stageDesc
                ltac:(reflexivity) ltac:(reflexivity) s) as Hk.
  destruct (killActiveTimeline s) as [[] s1 | e s1] eqn:Ek.
  - cbn [state_of] in Hk.
    unfold updateDescription, modify at 1 2. cbn [state_of stageDesc].
    rewrite Hframe. cbn [state_of]. rewrite Hk.
    destruct (stageDesc s) eqn:Es; [reflexivity | cbn [stageDesc]; congruence].
  - exfalso. revert Ek.
    unfold killActiveTimeline, bind, get, tl_kill, on_timeline, modify.
    destruct (_activeTimeline s); discriminate.
Qed.

(** X15. On a page with the element [stage-desc], [goToStage] shows the
    description and sets its text to [STAGE_DESCRIPTIONS[stage] || '']:
    the text is empty exactly for the stage values the [switch] has no
    case for (NaN, negative numbers, 4 and above), so a stage that does
    nothing also blanks the description. *)
Theorem description_blank_without_stage_function
    (stage : JsNumber.t) (s : State) (e : Dom.Element)
    (Hdesc : stageDesc s = Some e) :
  exists e',
    stageDesc (exec (goToStage stage) s) = Some e'
    /\ Dom.has_class "hidden" e' = false
    /\ Dom.textContent e' = or_string (description stage) ""
    /\ (stageFunction stage = None <-> Dom.textContent e' = "").
Proof.
  rewrite stageDesc_goToStage.
  unfold exec, updateDescription, modify. cbn [state_of]. rewrite Hdesc.
  eexists. split; [reflexivity |].
  split; [apply has_class_remove |].
  split; [reflexivity |].
  cbn [Dom.textContent Dom.classList_remove Dom.set_textContent].
  destruct stage as [| [| [[p | p |] | [p | p |] |] | p]];
    cbn [stageFunction description];
    try (split; [reflexivity | reflexivity]);
    try (split; intros H; discriminate H).
  all: try (unfold description; cbn; split; reflexivity).
  all: unfold description;
    match goal with
    | |- context [nth_error STAGE_DESCRIPTIONS ?n] =>
        assert (Hn : nth_error STAGE_DESCRIPTIONS n = None)
          by (apply nth_error_None; simpl; lia)
    end;
    cbn [Z.leb Z.compare] in *; rewrite Hn; split; reflexivity.
Qed.

Lemma description_blank_without_stage_function_witness :
  exists e',
    stageDesc (exec (goToStage (JsNumber.Num 7)) Example.stages) = Some e'
    /\ Dom.has_class "hidden" e' = false
    /\ Dom.textContent e' = or_string (description (JsNumber.Num 7)) ""
    /\ (stageFunction (JsNumber.Num 7) = None <-> Dom.textContent e' = "").
Proof.
  eapply description_blank_without_stage_function.
  vm_compute. reflexivity.
Defined.

End Description.


(* ================================================================= *)
(** ** three.js: world positions and reparenting *)

Section Reparenting.

Import Object3D.

Lemma first_some_none {A} (l : list (option A)) :
  Forall (fun a => a = None) l -> first_some l = None.
Proof. induction 1 as [| a l -> _ IH]; simpl; auto. Qed.

Lemma first_some_app {A} (l l' : list (option A)) :
  first_some l = None -> first_some (l ++ l') = first_some l'.
Proof.
  induction l as [| [a |] l IH]; simpl; intros H; auto; discriminate.
Qed.

Lemma find_append {A} (p : A -> bool) (l l' : list A) :
  find p (l ++ l') = match find p l with
                     | Some a => Some a
                     | None => find p l'
                     end.
Proof.
  induction l as [| a l IH]; simpl; [reflexivity |].
  destruct (p a); [reflexivity | exact IH].
Qed.

Lemma getWorldPosition_unfold (i : nat) (o : t) :
  getWorldPosition i o
  = if Nat.eqb (id o) i then Some (position o)
    else match first_some (map (getWorldPosition i) (children o)) with
         | Some q => Some (localToParent o q)
         | None => None
         end.
Proof. destruct o. reflexivity. Qed.

(** An object that can be dereferenced has a world position. *)
Lemma getWorldPosition_defined (i : nat) (o : t) :
  getWorldPosition i o = None -> getObjectById i o = None.
Proof.
  induction o as [oi k nm p r sc v u cs IH] using tree_induction.
  rewrite getWorldPosition_unfold. unfold getObjectById.
  cbn [id children traverse find].
  destruct (Nat.eqb oi i); [discriminate |].
  destruct (first_some (map (getWorldPosition i) cs)) eqn:E; [discriminate |].
  intros _. induction IH as [| c cs Hc _ IHcs]; [reflexivity |].
  cbn [map first_some fold_right] in E.
  change (fold_right _ None (map (getWorldPosition i) cs))
    with (first_some (map (getWorldPosition i) cs)) in E.
  destruct (getWorldPosition i c) eqn:Ec; [discriminate |].
  cbn [flat_map]. rewrite find_append.
  unfold getObjectById in Hc. rewrite (Hc eq_refl). now apply IHcs.
Qed.

(** Once removed, an object has no world position in the graph. *)
Lemma getWorldPosition_remove (i : nat) (o : t) :
  id o <> i -> getWorldPosition i (remove i o) = None.
Proof.
  induction o as [oi k nm p r sc v u cs IH] using tree_induction.
  cbn [id]. intros Hne. cbn [remove].
  rewrite getWorldPosition_unfold. cbn [id children].
  rewrite (proj2 (Nat.eqb_neq oi i) Hne).
  rewrite first_some_none; [reflexivity |].
  induction IH as [| c cs Hc _ IHcs]; [constructor |].
  cbn [flat_map]. destruct (Nat.eqb (id c) i) eqn:E; cbn [app map].
  - exact IHcs.
  - constructor; [| exact IHcs]. apply Hc. now apply Nat.eqb_neq.
Qed.

Lemma remove_root (i : nat) (o : t) :
  id (remove i o) = id o /\ position (remove i o) = position o
  /\ rotation (remove i o) = rotation o /\ scale (remove i o) = scale o.
Proof. destruct o. repeat split. Qed.

(** [root.attach(o)] keeps the world position of [o] when the root is the
    untransformed scene, and makes [o] the last child of the root. *)
Lemma attach_keeps_world_position (i : nat) (root o : t) :
  getObjectById i root = Some o -> id root <> i -> untransformed root ->
  exists p,
    getWorldPosition i root = Some p
    /\ attach i root = add (set_position p o) (remove i root)
    /\ getWorldPosition i (attach i root) = Some p.
Proof.
  intros Ho Hne (Hp & Hr & Hs).
  destruct (getWorldPosition i root) as [p |] eqn:Ep.
  2: { apply getWorldPosition_defined in Ep. congruence. }
  exists p. split; [reflexivity |].
  assert (Hattach : attach i root = add (set_position p o) (remove i root)).
  { unfold attach. now rewrite Ho, Ep. }
  split; [exact Hattach |].
  rewrite Hattach, getWorldPosition_unfold.
  destruct (remove_root i root) as (Hid & Hp' & Hr' & Hs').
  cbn [add set_children id children].
  rewrite Hid, (proj2 (Nat.eqb_neq _ _) Hne).
  rewrite map_app, first_some_app.
  - cbn [map first_some fold_right].
    rewrite getWorldPosition_unfold. cbn [set_position id position].
    rewrite (getObjectById_id _ _ Ho), Nat.eqb_refl.
    f_equal.
    apply localToParent_identity; unfold add, set_children;
      cbn [position rotation scale]; congruence.
  - pose proof (getWorldPosition_remove root Hne) as Hnone.
    rewrite getWorldPosition_unfold in Hnone.
    rewrite Hid, (proj2 (Nat.eqb_neq _ _) Hne) in Hnone.
    destruct (first_some (map (getWorldPosition i) (children (remove i root))));
      [discriminate | reflexivity].
Qed.

Lemma getObjectById_ids (i : nat) (o : t) :
  In i (ids o) -> exists n, getObjectById i o = Some n.
Proof.
  unfold ids, getObjectById. intros Hin. apply in_map_iff in Hin.
  destruct Hin as (n & Hn & Hin).
  destruct (find (fun n0 => Nat.eqb (id n0) i) (traverse o)) as [n' |] eqn:E;
    [eauto |].
  exfalso. apply (find_none _ _ E) in Hin. rewrite Hn, Nat.eqb_refl in Hin.
  discriminate.
Qed.

End Reparenting.

(* ================================================================= *)
(** ** stages.js: the closure that detaches the hydrogen *)

Section Detach.

Import Gsap Stages.

(** X16. The closure stage 3 schedules at 3.2 s, run on a scene that is
    itself untransformed: it returns, the hydrogen becomes the last child
    of the scene and is moved to its former world position, so it does not
    move in the world; that position is also left in the local
    [hWorldPos] of the timeline.  Nothing the module saved or refers to
    changes. *)
Theorem detach_keeps_the_hydrogen_in_place
    (s : State) (tl targetH : nat)
    (Hobject : In targetH (Object3D.ids (scene s)))
    (Hroot : Object3D.id (scene s) <> targetH)
    (Hscene : Object3D.untransformed (scene s)) :
  let out := run_callback tl (detach targetH) s in
  let s' := state_of out in
  exists o p rest,
    returned out = true
    /\ Object3D.getObjectById targetH (scene s) = Some o
    /\ Object3D.getWorldPosition targetH (scene s) = Some p
    /\ Object3D.getWorldPosition targetH (scene s') = Some p
    /\ Object3D.children (scene s') = rest ++ [Object3D.set_position p o]
    /\ Object3D.children (Object3D.remove targetH (scene s)) = rest
    /\ (forall t, nth_error (timelines s) tl = Some t ->
          option_map (fun t' => locals t' hWorldPos) (nth_error (timelines s') tl)
          = Some p)
    /\ (savedPositions s', savedMaterials s', refs s', _freeWater s',
        allLabels s', _activeTimeline s')
       = (savedPositions s, savedMaterials s, refs s, _freeWater s,
          allLabels s, _activeTimeline s).
Proof.
  cbv zeta.
  destruct (getObjectById_ids _ _ Hobject) as (o & Ho).
  destruct (attach_keeps_world_position Ho Hroot Hscene)
    as (p & Hp & Hattach & Hp').
  exists o, p, (Object3D.children (Object3D.remove targetH (scene s))).
  set (s1 := set_timelines
               (update_nth tl (Gsap.set_local hWorldPos p) (timelines s)) s).
  assert (Hrun : run_callback tl (detach targetH) s
                 = Ok tt (set_world
                            (World.set_scene
                               (Object3D.attach targetH (scene s)) (world s1))
                            s1)).
  { unfold run_callback, worldPositionOf, set_local, on_timeline, bind, get,
      modify. rewrite Hp. reflexivity. }
  rewrite Hrun. cbn [returned state_of].
  change (scene (set_world
                   (World.set_scene (Object3D.attach targetH (scene s))
                      (world s1)) s1))
    with (Object3D.attach targetH (scene s)).
  rewrite Hp', Hattach.
  repeat split; try assumption.
  intros t Ht. cbn [timelines set_world s1 set_timelines].
  rewrite nth_error_update_nth, Nat.eqb_refl, Ht. reflexivity.
Qed.

Lemma detach_keeps_the_hydrogen_in_place_witness :
  let s := exec (goToStage (JsNumber.Num 3)) Example.stages in
  let out := run_callback 0 (detach Example.hydrogen1) s in
  let s' := state_of out in
  exists o p rest,
    returned out = true
    /\ Object3D.getObjectById Example.hydrogen1 (scene s) = Some o
    /\ Object3D.getWorldPosition Example.hydrogen1 (scene s) = Some p
    /\ Object3D.getWorldPosition Example.hydrogen1 (scene s') = Some p
    /\ Object3D.children (scene s') = rest ++ [Object3D.set_position p o]
    /\ Object3D.children (Object3D.remove Example.hydrogen1 (scene s)) = rest
    /\ (forall t, nth_error (timelines s) 0 = Some t ->
          option_map (fun t' => locals t' hWorldPos) (nth_error (timelines s') 0)
          = Some p)
    /\ (savedPositions s', savedMaterials s', refs s', _freeWater s',
        allLabels s', _activeTimeline s')
       = (savedPositions s, savedMaterials s, refs s, _freeWater s,
          allLabels s, _activeTimeline s).
Proof.
  cbv zeta.
  apply (@detach_keeps_the_hydrogen_in_place
           (exec (goToStage (JsNumber.Num 3)) Example.stages) 0
           Example.hydrogen1).
  - assert (Hids : existsb (Nat.eqb Example.hydrogen1)
                     (Object3D.ids
                        (scene (exec (goToStage (JsNumber.Num 3)) Example.stages)))
                   = true) by (vm_compute; reflexivity).
    apply existsb_exists in Hids. destruct Hids as (x & Hin & Hx).
    apply Nat.eqb_eq in Hx. subst x. exact Hin.
  - assert (Hid : Object3D.id
                    (scene (exec (goToStage (JsNumber.Num 3)) Example.stages))
                  = 0%nat) by (vm_compute; reflexivity).
    rewrite Hid. discriminate.
  - unfold Object3D.untransformed. repeat split; vm_compute; reflexivity.
Defined.

End Detach.

(* ================================================================= *)
(** ** stages.js: the snapshot of initStages *)

Section Snapshot.

Import Gsap Stages.

Lemma Map_get_set_same {V} (k : nat) (v : V) (m : list (nat * V)) :
  Map_get k (Map_set k v m) = Some v.
Proof.
  unfold Map_get. induction m as [| [k' v'] m IH]; simpl.
  - now rewrite Nat.eqb_refl.
  - destruct (Nat.eqb k' k) eqn:E; simpl.
    + now rewrite Nat.eqb_refl.
    + rewrite E. exact IH.
Qed.

Lemma Map_get_set_other {V} (k k' : nat) (v : V) (m : list (nat * V)) :
  k <> k' -> Map_get k (Map_set k' v m) = Map_get k m.
Proof.
  intros Hne. unfold Map_get. induction m as [| [k0 v0] m IH]; simpl.
  - now rewrite (proj2 (Nat.eqb_neq k' k)) by congruence.
  - destruct (Nat.eqb k0 k') eqn:E; simpl.
    + apply Nat.eqb_eq in E. subst k0.
      now rewrite (proj2 (Nat.eqb_neq k' k)) by congruence.
    + destruct (Nat.eqb k0 k); [reflexivity | exact IH].
Qed.

Lemma snapshot_step (obj : Object3D.t) (s : State) :
  exists s1,
    snapshot obj s = Ok tt s1
    /\ (world s1, refs s1, _freeWater s1, _activeTimeline s1, stageDesc s1,
        timelines s1, allLabels s1)
       = (world s, refs s, _freeWater s, _activeTimeline s, stageDesc s,
          timelines s, allLabels s)
    /\ Map_get (Object3D.id obj) (savedPositions s1)
       = (if Object3D.isMesh obj || Object3D.isGroup obj
          then Some (Object3D.position obj)
          else Map_get (Object3D.id obj) (savedPositions s))
    /\ (Object3D.isMesh obj = true ->
        Map_get (Object3D.id obj) (savedMaterials s1) = Object3D.material obj)
    /\ (forall k, k <> Object3D.id obj ->
          Map_get k (savedPositions s1) = Map_get k (savedPositions s)
          /\ Map_get k (savedMaterials s1) = Map_get k (savedMaterials s)).
Proof.
  unfold snapshot, bind, modify, ret.
  destruct (Object3D.isMesh obj || Object3D.isGroup obj) eqn:Emg,
           (Object3D.isMesh obj) eqn:Em,
           (Object3D.material obj) as [m |] eqn:Emat;
    try (simpl in Emg; discriminate Emg);
    try (destruct (isMesh_material obj Em) as (m' & Hm'); congruence);
    eexists; (split; [reflexivity |]);
    cbn [state_of world refs _freeWater _activeTimeline stageDesc
         timelines allLabels savedPositions savedMaterials
         set_savedPositions set_savedMaterials];
    (split; [reflexivity |]);
    (split; [first [apply Map_get_set_same | reflexivity] |]);
    (split; [first [ intros _; apply Map_get_set_same
                   | intros H; discriminate H ] |]);
    intros k Hk; split;
    first [ apply Map_get_set_other; exact Hk | reflexivity ].
Qed.

Lemma snapshot_loop (l : list Object3D.t) (s : State) :
  NoDup (map Object3D.id l) ->
  exists s',
    forEach snapshot l s = Ok tt s'
    /\ (world s', refs s', _freeWater s', _activeTimeline s', stageDesc s',
        timelines s', allLabels s')
       = (world s, refs s, _freeWater s, _activeTimeline s, stageDesc s,
          timelines s, allLabels s)
    /\ (forall obj, In obj l ->
          (Object3D.isMesh obj || Object3D.isGroup obj = true ->
           Map_get (Object3D.id obj) (savedPositions s')
           = Some (Object3D.position obj))
          /\ (Object3D.isMesh obj || Object3D.isGroup obj = false ->
              Map_get (Object3D.id obj) (savedPositions s')
              = Map_get (Object3D.id obj) (savedPositions s))
          /\ (Object3D.isMesh obj = true ->
              Map_get (Object3D.id obj) (savedMaterials s')
              = Object3D.material obj))
    /\ (forall k, ~ In k (map Object3D.id l) ->
          Map_get k (savedPositions s') = Map_get k (savedPositions s)
          /\ Map_get k (savedMaterials s') = Map_get k (savedMaterials s)).
Proof.
  revert s. induction l as [| obj l IH]; intros s Hnd.
  - exists s. cbn [forEach]. repeat split; intros; tauto.
  - inversion Hnd as [| ? ? Hnotin Hnd']; subst.
    destruct (snapshot_step obj s) as (s1 & Hstep & Hframe1 & Hpos1 & Hmat1 & Hother1).
    destruct (IH s1 Hnd') as (s' & Hrun & Hframe & Hin & Hout).
    exists s'. split.
    { cbn [forEach]. unfold bind. rewrite Hstep. exact Hrun. }
    split; [etransitivity; [exact Hframe | exact Hframe1] |].
    split.
    + intros o [<- | Ho].
      * destruct (Hout _ Hnotin) as (Hp & Hm).
        rewrite Hp, Hm, Hpos1.
        repeat split; intros H; rewrite ?H; auto.
      * assert (Hne : Object3D.id o <> Object3D.id obj).
        { intros Heq. apply Hnotin. rewrite <- Heq. now apply in_map. }
        destruct (Hin o Ho) as (H1 & H2 & H3).
        destruct (Hother1 _ Hne) as (Hp & Hm).
        repeat split; auto. intros H. rewrite (H2 H). exact Hp.
    + intros k Hk.
      assert (Hne : k <> Object3D.id obj) by (intros ->; apply Hk; now left).
      assert (Hkl : ~ In k (map Object3D.id l)) by (intros H; apply Hk; now right).
      destruct (Hout k Hkl) as (Hp & Hm).
      destruct (Hother1 k Hne) as (Hp1 & Hm1).
      rewrite Hp, Hm. auto.
Qed.

(** What follows the snapshot in [initStages]. *)
Lemma initStages_unfold (complex al : nat) (waters : list nat) (bondsGroup : nat) :
  initStages complex al waters bondsGroup
  = (modify (set_refs (Some (mkRefs complex al waters bondsGroup))) ;;
     c <- deref complex ;;
     forEach snapshot (Object3D.traverse c) ;;
     fw <- buildFreeWater ;;
     modify (set_freeWater (Some (Object3D.id fw))) ;;
     modify (fun s =>
       set_world
         (World.set_scene
            (Object3D.add (Object3D.set_visible false fw) (scene s))
            (world s)) s) ;;
     updateDescription (JsNumber.Num 0)).
Proof. reflexivity. Qed.

Lemma buildFreeWater_returns (s : State) :
  returned (buildFreeWater s) = true
  /\ (savedPositions (state_of (buildFreeWater s)),
      savedMaterials (state_of (buildFreeWater s)),
      refs (state_of (buildFreeWater s)))
     = (savedPositions s, savedMaterials s, refs s).
Proof.
  destruct s as [[sc cam ctl [n m]] sp sm rf fw at' sd ts al en].
  split; reflexivity.
Qed.

Lemma updateDescription_keeps (stage : JsNumber.t) (s : State) :
  returned (updateDescription stage s) = true
  /\ savedPositions (state_of (updateDescription stage s)) = savedPositions s
  /\ savedMaterials (state_of (updateDescription stage s)) = savedMaterials s
  /\ refs (state_of (updateDescription stage s)) = refs s.
Proof.
  unfold updateDescription, modify. cbn [returned state_of].
  destruct (stageDesc s); repeat split.
Qed.

(** X17. [initStages] on a complex whose objects have distinct identities:
    it returns, sets the references, and afterwards [savedPositions] maps
    every mesh and every group below the complex (the complex included)
    to the position it has at that moment, and [savedMaterials] every mesh
    to its material.  An object that is neither mesh nor group gets no
    entry, and the entries of objects outside the complex stay as they
    were. *)
Theorem initStages_snapshots_the_complex
    (s : State) (complex al : nat) (waters : list nat) (bondsGroup : nat)
    (c : Object3D.t)
    (Hcomplex : Object3D.getObjectById complex (scene s) = Some c)
    (Hdistinct : NoDup (Object3D.ids c)) :
  let out := initStages complex al waters bondsGroup s in
  let s' := state_of out in
  returned out = true
  /\ refs s' = Some (mkRefs complex al waters bondsGroup)
  /\ (forall obj, In obj (Object3D.traverse c) ->
        (Object3D.isMesh obj || Object3D.isGroup obj = true ->
         Map_get (Object3D.id obj) (savedPositions s')
         = Some (Object3D.position obj))
        /\ (Object3D.isMesh obj || Object3D.isGroup obj = false ->
            Map_get (Object3D.id obj) (savedPositions s')
            = Map_get (Object3D.id obj) (savedPositions s))
        /\ (Object3D.isMesh obj = true ->
            Map_get (Object3D.id obj) (savedMaterials s')
            = Object3D.material obj))
  /\ (forall k, ~ In k (Object3D.ids c) ->
        Map_get k (savedPositions s') = Map_get k (savedPositions s)
        /\ Map_get k (savedMaterials s') = Map_get k (savedMaterials s)).
Proof.
  cbv zeta. rewrite initStages_unfold.
  set (s0 := set_refs (Some (mkRefs complex al waters bondsGroup)) s).
  destruct (@snapshot_loop (Object3D.traverse c) s0 Hdistinct)
    as (s1 & Hloop & Hframe & Hin & Hout).
  injection Hframe as Hw Hrefs _ _ _ _ _.
  destruct (buildFreeWater_returns s1) as (Hret & Hkeep).
  destruct (buildFreeWater s1) as [fw s2 | e s2] eqn:Efw; [| discriminate].
  cbn [state_of] in Hkeep. injection Hkeep as Hsp Hsm Hrf.
  assert (Hrun :
    (modify (set_refs (Some (mkRefs complex al waters bondsGroup))) ;;
     c <- deref complex ;;
     forEach snapshot (Object3D.traverse c) ;;
     fw <- buildFreeWater ;;
     modify (set_freeWater (Some (Object3D.id fw))) ;;
     modify (fun s =>
       set_world
         (World.set_scene
            (Object3D.add (Object3D.set_visible false fw) (scene s))
            (world s)) s) ;;
     updateDescription (JsNumber.Num 0)) s
    = updateDescription (JsNumber.Num 0)
        (set_world
           (World.set_scene
              (Object3D.add (Object3D.set_visible false fw)
                 (scene (set_freeWater (Some (Object3D.id fw)) s2)))
              (world (set_freeWater (Some (Object3D.id fw)) s2)))
           (set_freeWater (Some (Object3D.id fw)) s2))).
  { unfold bind at 1. unfold modify at 1. unfold bind at 1.
    unfold deref, bind at 1, get.
    change (scene (set_refs (Some (mkRefs complex al waters bondsGroup)) s))
      with (scene s).
    rewrite Hcomplex. unfold ret at 1. fold s0.
    unfold bind at 1. rewrite Hloop.
    unfold bind at 1. rewrite Efw.
    reflexivity. }
  rewrite Hrun. clear Hrun.
  match goal with
  | |- context [updateDescription ?st ?x] =>
      destruct (updateDescription_keeps st x) as (Hr & Fp & Fm & Fr)
  end.
  rewrite Hr, Fp, Fm, Fr.
  cbn [savedPositions savedMaterials refs set_world set_freeWater].
  rewrite Hsp, Hsm, Hrf, Hrefs.
  split; [reflexivity |]. split; [reflexivity |].
  split; [exact Hin | exact Hout].
Qed.

End Snapshot.

Lemma initStages_snapshots_the_complex_witness :
  let s := Stages.loaded Example.world (Some (Dom.mkElement ["hidden"] ""))
             (fun _ => 0%R) in
  let out := Stages.initStages (Main.complex Example.built) (Main.al Example.built)
               (Main.waters Example.built) (Main.bondsGroup Example.built) s in
  let s' := state_of out in
  exists c,
    Object3D.getObjectById (Main.complex Example.built) (Stages.scene s) = Some c
    /\ returned out = true
    /\ Stages.refs s'
       = Some (Stages.mkRefs (Main.complex Example.built) (Main.al Example.built)
                 (Main.waters Example.built) (Main.bondsGroup Example.built))
    /\ (forall obj, In obj (Object3D.traverse c) ->
          (Object3D.isMesh obj || Object3D.isGroup obj = true ->
           Map_get (Object3D.id obj) (Stages.savedPositions s')
           = Some (Object3D.position obj))
          /\ (Object3D.isMesh obj || Object3D.isGroup obj = false ->
              Map_get (Object3D.id obj) (Stages.savedPositions s')
              = Map_get (Object3D.id obj) (Stages.savedPositions s))
          /\ (Object3D.isMesh obj = true ->
              Map_get (Object3D.id obj) (Stages.savedMaterials s')
              = Object3D.material obj))
    /\ (forall k, ~ In k (Object3D.ids c) ->
          Map_get k (Stages.savedPositions s')
          = Map_get k (Stages.savedPositions s)
          /\ Map_get k (Stages.savedMaterials s')
             = Map_get k (Stages.savedMaterials s)).
Proof.
  cbv zeta.
  destruct (Object3D.getObjectById (Main.complex Example.built)
              (Stages.scene
                 (Stages.loaded Example.world
                    (Some (Dom.mkElement ["hidden"] "")) (fun _ => 0%R))))
    as [c |] eqn:Ec.
  - exists c. split; [reflexivity |].
    apply (@initStages_snapshots_the_complex _ _ _ _ _ c Ec).
    apply (f_equal (option_map Object3D.ids)) in Ec.
    assert (Hids : option_map Object3D.ids
                     (Object3D.getObjectById (Main.complex Example.built)
                        (Stages.scene
                           (Stages.loaded Example.world
                              (Some (Dom.mkElement ["hidden"] ""))
                              (fun _ => 0%R))))
                   = Some (seq 5 26)) by (vm_compute; reflexivity).
    rewrite Hids in Ec. cbn [option_map] in Ec. injection Ec as <-.
    exact (seq_NoDup 26 5).
  - exfalso.
    apply (f_equal (fun o => match o with Some _ => true | None => false end))
      in Ec.
    vm_compute in Ec. discriminate Ec.
Defined.


(* ================================================================= *)
(** ** Following a computation statement by statement *)

Section Outcomes.

Context {S : Type}.

Lemma bind_ok {A B} (c : M S A) (k : A -> M S B) (s s' : S) (b : B) :
  bind c k s = Ok b s' -> exists a s1, c s = Ok a s1 /\ k a s1 = Ok b s'.
Proof.
  unfold bind. destruct (c s) as [a s1 | e s1]; [eauto | discriminate].
Qed.

Lemma bind_eq {A B} (c : M S A) (k : A -> M S B) (s s1 : S) (a : A) :
  c s = Ok a s1 -> bind c k s = k a s1.
Proof. intros E. unfold bind. now rewrite E. Qed.

Lemma keeps_ok {A X} (obs : S -> X) (c : M S A) (s s1 : S) (a : A) :
  keeps obs c -> c s = Ok a s1 -> obs s1 = obs s.
Proof. intros H E. specialize (H s). now rewrite E in H. Qed.

(** An observation with value [x] keeps it through a statement that
    keeps the observation, whatever the statement returns, and then
    through what follows. *)
Lemma obs_bind {A B X} (obs : S -> X) (x : X) (c : M S A) (k : A -> M S B)
    (s : S) :
  obs s = x -> keeps obs c ->
  (forall a s1, c s = Ok a s1 -> obs s1 = x -> obs (state_of (k a s1)) = x) ->
  obs (state_of (bind c k s)) = x.
Proof.
  intros Hs Hc Hk. unfold bind. specialize (Hc s).
  destruct (c s) as [a s1 | e s1]; cbn [state_of] in *.
  - apply (Hk a s1 eq_refl). congruence.
  - congruence.
Qed.

End Outcomes.

Section FindThrough.

(** [find] with a test on a view [g] of the elements gives the same view
    on two lists with the same views. *)
Lemma find_through {A B} (g : A -> B) (q : B -> bool) (l1 l2 : list A) :
  map g l1 = map g l2 ->
  option_map g (find (fun a => q (g a)) l1)
  = option_map g (find (fun a => q (g a)) l2).
Proof.
  revert l2. induction l1 as [| a l1 IH]; intros [| b l2] H;
    try discriminate H; [reflexivity |].
  cbn [map] in H. injection H as Hab Hl. cbn [find]. rewrite Hab.
  destruct (q (g b)); [cbn [option_map]; now rewrite Hab | now apply IH].
Qed.

Lemma Map_has_get {V} (k : nat) (m : list (nat * V)) :
  Map_has k m = false -> Map_get k m = None.
Proof.
  unfold Map_has, Map_get. induction m as [| kv m IH]; cbn; [reflexivity |].
  destruct (Nat.eqb (fst kv) k); [discriminate | exact IH].
Qed.

End FindThrough.

(** The frame of a statement of stages.js for an observation [obs] that
    the assignments [good] leave alone; [side] proves what is asked of
    [obs] and [good]. *)
Ltac frames good side :=
  repeat first
    [ apply keeps_ret | apply keeps_get | apply keeps_throw
    | apply frame_the | apply frame_deref | apply frame_worldPositionOf
    | apply frame_gsap_timeline; solve [side]
    | apply frame_activate; solve [side]
    | apply frame_on_timeline; solve [side]
    | apply frame_alloc; solve [side]
    | apply frame_Math_random; solve [side]
    | apply frame_updateDescription; solve [side]
    | apply frame_killActiveTimeline; solve [side]
    | apply (@frame_assign _ _ good); solve [side]
    | apply keeps_bind; [| intros ?]
    | apply keeps_forEach; intros ?
    | apply keeps_foldM; intros ? ?
    | progress cbv zeta
    | progress unfold Stages.ref, Stages.tl_to, Stages.tl_call
    | match goal with
      | |- keeps _ (match ?x with _ => _ end) => destruct x
      | |- keeps _ (let (_, _) := ?x in _) => destruct x
      | |- keeps _ (if ?x then _ else _) => destruct x
      end ].

(* ================================================================= *)
(** ** stages.js: stage 3 when the first water has lost its hydrogen *)

Section EarlyReturn.

Import Gsap Stages.

Lemma standing_assign (s : State) (r : nat) (f : Object3D.t -> Object3D.t) :
  Object3D.keeps_shape f ->
  standing
    (set_world (World.set_scene (Object3D.update r f (scene s)) (world s)) s)
  = standing s.
Proof.
  intros Hf. unfold standing, scene.
  cbn [world set_world World.scene World.set_scene refs timelines
       _activeTimeline World.camera World.controls].
  now rewrite skeleton_update.
Qed.

Lemma skeleton_child_named (sc1 sc2 : Object3D.t) (i : nat)
    (w1 w2 : Object3D.t) (nm : string) :
  Object3D.skeleton sc1 = Object3D.skeleton sc2 ->
  Object3D.getObjectById i sc1 = Some w1 ->
  Object3D.getObjectById i sc2 = Some w2 ->
  child_named nm w1 = None -> child_named nm w2 = None.
Proof.
  intros Hsk H1 H2 Hnone.
  pose proof (find_through
                (fun n => (Object3D.id n, Object3D.name n, Object3D.isMesh n,
                           Object3D.isGroup n,
                           map (fun c => (Object3D.id c, Object3D.name c))
                               (Object3D.children n)))
                (fun t => Nat.eqb (fst (fst (fst (fst t)))) i)
                (Object3D.traverse sc1) (Object3D.traverse sc2) Hsk) as Hfind.
  cbn [fst] in Hfind. unfold Object3D.getObjectById in H1, H2.
  rewrite H1, H2 in Hfind. cbn [option_map] in Hfind.
  injection Hfind as _ _ _ _ Hch.
  pose proof (find_through
                (fun c => (Object3D.id c, Object3D.name c))
                (fun t => String.eqb (snd t) nm)
                (Object3D.children w1) (Object3D.children w2) Hch) as Hc.
  cbn [snd] in Hc. unfold child_named, Object3D.find_child in *.
  rewrite Hnone in Hc. cbn [option_map] in Hc.
  destruct (find _ (Object3D.children w2)); [discriminate Hc | reflexivity].
Qed.

Ltac standing_side :=
  first [ intros; reflexivity | exact standing_assign
        | apply keeps_shape_material | intros ?; repeat split ].

(** Stage 3 on a state whose first water lacks the oxygen or the
    hydrogen [H1]: nothing that follows the creation of the timeline
    touches the timelines, the camera or the shape of the scene. *)
Lemma stageHydrolysis_returns_early (s : State) (r : Refs) (w0 : nat)
    (water : Object3D.t) :
  refs s = Some r -> nth_error (_waters r) 0 = Some w0 ->
  Object3D.getObjectById w0 (scene s) = Some water ->
  child_named "O" water = None \/ child_named "H1" water = None ->
  standing (state_of (stageHydrolysis s))
  = standing (set_activeTimeline (Some (List.length (timelines s)))
                (set_timelines (timelines s ++ [Gsap.empty]) s)).
Proof.
  intros Hrefs Hfirst Hwater Hmissing.
  unfold stageHydrolysis.
  rewrite (@bind_eq _ _ _ gsap_timeline _ s _ _ eq_refl).
  rewrite (@bind_eq _ _ _ (modify (set_activeTimeline _)) _ _ _ _ eq_refl).
  set (s3 := set_activeTimeline _ _).
  assert (Hs3 : standing s3 = standing s3) by reflexivity.
  revert Hs3. generalize s3 at 1 3. intros s4 Hs4.
  apply obs_bind; [exact Hs4 | frames Object3D.keeps_shape standing_side |].
  intros complex sa _ Hsa.
  apply obs_bind; [exact Hsa | frames Object3D.keeps_shape standing_side |].
  intros c sb _ Hsb.
  apply obs_bind; [exact Hsb | frames Object3D.keeps_shape standing_side |].
  intros _ sc _ Hsc.
  apply obs_bind; [exact Hsc | frames Object3D.keeps_shape standing_side |].
  intros _ sd _ Hsd.
  apply obs_bind; [exact Hsd | frames Object3D.keeps_shape standing_side |].
  intros bondsGroup se _ Hse.
  apply obs_bind; [exact Hse | frames Object3D.keeps_shape standing_side |].
  intros _ sf _ Hsf.
  apply obs_bind; [exact Hsf | frames Object3D.keeps_shape standing_side |].
  intros waters s5 Ewaters Hs5.
  apply obs_bind; [exact Hs5 | frames Object3D.keeps_shape standing_side |].
  intros targetWater s6 Etarget Hs6.
  apply obs_bind; [exact Hs6 | frames Object3D.keeps_shape standing_side |].
  intros w s7 Ew Hs7.
  (* the values read *)
  assert (Hwaters : waters = _waters r).
  { unfold the, bind, get in Ewaters.
    assert (Hr : refs sf = Some r).
    { unfold standing in Hsf. injection Hsf as _ Hr _ _ _ _. now rewrite Hr. }
    rewrite Hr in Ewaters. cbn in Ewaters. now injection Ewaters as <- _. }
  assert (Htarget : targetWater = w0).
  { unfold the, bind, get in Etarget. rewrite Hwaters, Hfirst in Etarget.
    cbn in Etarget. now injection Etarget as <- _. }
  assert (Hw : Object3D.getObjectById w0 (scene s6) = Some w /\ s7 = s6).
  { unfold deref, bind, get in Ew. rewrite Htarget in Ew.
    destruct (Object3D.getObjectById w0 (scene s6)) as [w' |];
      [| discriminate Ew].
    cbn in Ew. now injection Ew as <- <-. }
  destruct Hw as [Hw ->].
  assert (Hsk : Object3D.skeleton (scene s) = Object3D.skeleton (scene s6)).
  { unfold standing in Hs6. injection Hs6 as Hsk _. now rewrite Hsk. }
  cbv zeta.
  assert (Hnone : forall nm, child_named nm water = None ->
                             child_named nm w = None).
  { intros nm. exact (@skeleton_child_named _ _ _ _ _ nm Hsk Hwater Hw). }
  unfold child_named in Hnone.
  destruct Hmissing as [HO | HH].
  - rewrite (Hnone "O" HO). exact Hs6.
  - rewrite (Hnone "H1" HH).
    destruct (Object3D.find_child _ w); exact Hs6.
Qed.

Lemma killActiveTimeline_returns (s : State) :
  killActiveTimeline s = Ok tt (exec killActiveTimeline s).
Proof.
  unfold exec, killActiveTimeline, bind, get, tl_kill, on_timeline, modify.
  destruct (_activeTimeline s); reflexivity.
Qed.

Lemma killActiveTimeline_length (s : State) :
  List.length (timelines (exec killActiveTimeline s))
  = List.length (timelines s).
Proof.
  unfold exec, killActiveTimeline, bind, get, tl_kill, on_timeline, modify.
  destruct (_activeTimeline s); cbn [state_of timelines set_timelines
                                      set_activeTimeline];
    [apply length_update_nth | reflexivity].
Qed.

(** X18. Stage 3 needs the oxygen and the hydrogen [H1] of the first
    water.  When the first water has no child named [O] or none named
    [H1] (as once the closure of an earlier stage 3 has moved [H1] to the
    scene), [goToStage(3)] kills the running timeline, creates a new one,
    makes it the active one and leaves it empty: no tween and no closure
    is scheduled, whether the call returns or throws.  The camera, the
    controls and the shape of the scene graph stay as they are. *)
Theorem hydrolysis_without_its_hydrogen_schedules_nothing
    (s : State) (r : Refs) (w0 : nat) (water : Object3D.t)
    (Hrefs : refs s = Some r)
    (Hfirst : nth_error (_waters r) 0 = Some w0)
    (Hwater : Object3D.getObjectById w0 (scene s) = Some water)
    (Hmissing : child_named "O" water = None \/ child_named "H1" water = None) :
  let s' := exec (goToStage (JsNumber.Num 3)) s in
  timelines s' = timelines (exec killActiveTimeline s) ++ [Gsap.empty]
  /\ _activeTimeline s' = Some (List.length (timelines s))
  /\ Object3D.skeleton (scene s') = Object3D.skeleton (scene s)
  /\ World.camera (world s') = World.camera (world s)
  /\ World.controls (world s') = World.controls (world s).
Proof.
  cbv zeta.
  set (s1 := exec killActiveTimeline s).
  set (s2 := exec (updateDescription (JsNumber.Num 3)) s1).
  assert (Hgo : exec (goToStage (JsNumber.Num 3)) s
                = state_of (stageHydrolysis s2)).
  { unfold exec at 1, goToStage.
    rewrite (@bind_eq _ _ _ _ _ _ _ _ (killActiveTimeline_returns s)).
    rewrite (@bind_eq _ _ _ (updateDescription _) _ _ _ _ eq_refl).
    reflexivity. }
  rewrite Hgo. clear Hgo.
  assert (H1 : (scene s1, refs s1, World.camera (world s1),
                World.controls (world s1))
               = (scene s, refs s, World.camera (world s),
                  World.controls (world s))).
  { exact (@frame_killActiveTimeline _
             (fun s => (scene s, refs s, World.camera (world s),
                        World.controls (world s)))
             ltac:(reflexivity) ltac:(reflexivity) s). }
  assert (H2 : (scene s2, refs s2, World.camera (world s2),
                World.controls (world s2), timelines s2)
               = (scene s1, refs s1, World.camera (world s1),
                  World.controls (world s1), timelines s1)).
  { unfold s2, exec, updateDescription, modify. cbn [state_of].
    destruct (stageDesc s1); reflexivity. }
  injection H1 as Hsc1 Hr1 Hcam1 Hctl1.
  injection H2 as Hsc2 Hr2 Hcam2 Hctl2 Htl2.
  assert (Hearly := @stageHydrolysis_returns_early s2 r w0 water).
  rewrite Hr2, Hr1, Hsc2, Hsc1 in Hearly.
  specialize (Hearly Hrefs Hfirst Hwater Hmissing).
  unfold standing in Hearly.
  cbn [scene world refs timelines _activeTimeline set_activeTimeline
       set_timelines] in Hearly.
  injection Hearly as Hsk Hr Htl Hact Hcam Hctl.
  rewrite Htl2 in Htl, Hact.
  unfold s1 in Htl, Hact. rewrite killActiveTimeline_length in Hact.
  repeat split; try assumption.
  - transitivity (Object3D.skeleton (scene s2));
      [exact Hsk | now rewrite Hsc2, Hsc1].
  - now rewrite Hcam, Hcam2.
  - now rewrite Hctl, Hctl2.
Qed.

Lemma hydrolysis_without_its_hydrogen_schedules_nothing_witness :
  let s := fire 0 2 (exec (goToStage (JsNumber.Num 3)) Example.stages) in
  let s' := exec (goToStage (JsNumber.Num 3)) s in
  timelines s' = timelines (exec killActiveTimeline s) ++ [Gsap.empty]
  /\ _activeTimeline s' = Some (List.length (timelines s))
  /\ Object3D.skeleton (scene s') = Object3D.skeleton (scene s)
  /\ World.camera (world s') = World.camera (world s)
  /\ World.controls (world s') = World.controls (world s).
Proof.
  cbv zeta.
  destruct (Object3D.getObjectById 7
              (scene (fire 0 2 (exec (goToStage (JsNumber.Num 3))
                                  Example.stages))))
    as [water |] eqn:Ewater.
  - apply (@hydrolysis_without_its_hydrogen_schedules_nothing
             (fire 0 2 (exec (goToStage (JsNumber.Num 3)) Example.stages))
             (mkRefs 5 6 [7; 11; 15; 19; 23; 27] 31)%nat 7%nat water).
    + vm_compute. reflexivity.
    + reflexivity.
    + exact Ewater.
    + right.
      apply (f_equal (option_map (child_named "H1"))) in Ewater.
      assert (Hnone : option_map (child_named "H1")
                        (Object3D.getObjectById 7
                           (scene (fire 0 2
                                     (exec (goToStage (JsNumber.Num 3))
                                        Example.stages))))
                      = Some None) by (vm_compute; reflexivity).
      rewrite Hnone in Ewater. cbn [option_map] in Ewater.
      injection Ewater as Ewater. symmetry. exact Ewater.
  - exfalso.
    apply (f_equal (fun o => match o with Some _ => true | None => false end))
      in Ewater.
    vm_compute in Ewater. discriminate Ewater.
Defined.

End EarlyReturn.

(* ================================================================= *)
(** ** stages.js: every stage puts the saved materials back *)

Section RestoreMaterials.

Import Gsap Stages.

Lemma node_keeps_material (i : nat) (f : Object3D.t -> Object3D.t)
    (n : Object3D.t) :
  keeps_material f ->
  (Object3D.id (Object3D.update i f n), Object3D.isMesh (Object3D.update i f n),
   Object3D.material (Object3D.update i f n))
  = (Object3D.id n, Object3D.isMesh n, Object3D.material n).
Proof.
  intros [Hs Hm]. destruct (shape_update i n Hs) as (-> & _ & -> & _).
  f_equal. destruct n as [ni k nm p r sc v u cs]. cbn [Object3D.update].
  destruct (Nat.eqb ni i); [rewrite Hm |]; reflexivity.
Qed.

Lemma table_assign (s : State) (r : nat) (f : Object3D.t -> Object3D.t) :
  keeps_material f ->
  materials_table
    (set_world (World.set_scene (Object3D.update r f (scene s)) (world s)) s)
  = materials_table s.
Proof.
  intros Hf. unfold materials_table, scene.
  cbn [world set_world World.scene World.set_scene savedMaterials].
  f_equal.
  rewrite traverse_update by (intros m; apply Hf). rewrite map_map.
  apply map_ext. intros n. now apply node_keeps_material.
Qed.

Lemma mesh_ids_assign (complex : nat) (s : State) (r : nat)
    (f : Object3D.t -> Object3D.t) :
  Object3D.keeps_shape f ->
  (map Object3D.id
     (meshes_below complex
        (set_world (World.set_scene (Object3D.update r f (scene s)) (world s))
           s)),
   refs (set_world (World.set_scene (Object3D.update r f (scene s)) (world s))
           s))
  = (map Object3D.id (meshes_below complex s), refs s).
Proof.
  intros Hf. f_equal. unfold meshes_below, scene.
  cbn [world set_world World.scene World.set_scene].
  rewrite getObjectById_update by (intros m; apply Hf).
  destruct (Object3D.getObjectById complex (World.scene (world s))) as [c |];
    cbn [option_map]; [| reflexivity].
  rewrite traverse_update by (intros m; apply Hf).
  induction (Object3D.traverse c) as [| n l IH]; cbn [map filter];
    [reflexivity |].
  destruct (shape_update r n Hf) as (Hid & _ & Hmesh & _).
  rewrite Hmesh. destruct (Object3D.isMesh n); cbn [map]; now rewrite ?Hid, IH.
Qed.

Lemma restored_at_table (s1 s2 : State) (j : nat) :
  materials_table s2 = materials_table s1 ->
  restored_at j s1 -> restored_at j s2.
Proof.
  unfold materials_table. intros Ht H n Hn Hid Hmesh m Hsaved.
  injection Ht as Htab Hsm.
  assert (Hin : In (Object3D.id n, Object3D.isMesh n, Object3D.material n)
                   (map (fun n => (Object3D.id n, Object3D.isMesh n,
                                   Object3D.material n))
                        (Object3D.traverse (scene s1)))).
  { rewrite <- Htab.
    exact (in_map (fun n => (Object3D.id n, Object3D.isMesh n,
                             Object3D.material n)) _ _ Hn). }
  apply in_map_iff in Hin. destruct Hin as (n1 & Heq & Hn1).
  injection Heq as Hid1 Hmesh1 Hmat1.
  rewrite <- Hmat1. apply (H n1 Hn1); try congruence.
Qed.

Lemma restored_at_unsaved (s : State) (j : nat) :
  Map_get j (savedMaterials s) = None -> restored_at j s.
Proof. intros Hnone n _ Hid _ m Hsaved. congruence. Qed.

(** [obj.material = savedMaterials.get(obj)] restores [obj] and leaves
    every restored mesh restored. *)
Lemma restore_step (s : State) (j : nat) (m : Materials.Material) :
  Map_get j (savedMaterials s) = Some m ->
  forall j',
    (j' = j \/ restored_at j' s) ->
    restored_at j'
      (set_world
         (World.set_scene
            (Object3D.update j (Object3D.set_material m) (scene s)) (world s))
         s).
Proof.
  intros Hsaved j' Hj' n Hn Hid Hmesh m' Hm'.
  unfold scene in Hn. cbn [world set_world World.scene World.set_scene] in Hn.
  rewrite traverse_update in Hn by reflexivity.
  apply in_map_iff in Hn. destruct Hn as (n1 & <- & Hn1).
  cbn [savedMaterials set_world] in Hm'.
  rewrite id_update in Hid, Hm' by reflexivity.
  rewrite isMesh_update in Hmesh.
  rewrite material_update.
  destruct (Nat.eqb (Object3D.id n1) j) eqn:Ej.
  - apply Nat.eqb_eq in Ej.
    destruct (isMesh_material n1 Hmesh) as (m1 & ->). congruence.
  - destruct Hj' as [-> | Hj'].
    + apply Nat.eqb_neq in Ej. congruence.
    + exact (Hj' n1 Hn1 Hid Hmesh m' Hm').
Qed.

(** The statement of stage 0 and stage 3 that restores a material,
    reading the map as it was when the callback started. *)
Lemma restore_statement (obj : Object3D.t) (s0 s s1 : State) :
  savedMaterials s = savedMaterials s0 ->
  (if Object3D.isMesh obj && Map_has (Object3D.id obj) (savedMaterials s0)
   then match Map_get (Object3D.id obj) (savedMaterials s0) with
        | Some m => assign (Object3D.id obj) (Object3D.set_material m)
        | None => ret tt
        end
   else ret tt) s = Ok tt s1 ->
  (Object3D.isMesh obj = true -> restored_at (Object3D.id obj) s1)
  /\ (forall j, restored_at j s -> restored_at j s1).
Proof.
  intros Hsm Hrun.
  destruct (Object3D.isMesh obj) eqn:Emesh; cbn [andb] in Hrun.
  - destruct (Map_has (Object3D.id obj) (savedMaterials s0)) eqn:Ehas.
    + destruct (Map_get (Object3D.id obj) (savedMaterials s0)) as [m |] eqn:Eget.
      * unfold assign, modify in Hrun. injection Hrun as <-.
        rewrite <- Hsm in Eget.
        split; intros; apply (@restore_step _ _ _ Eget); auto.
      * injection Hrun as <-. rewrite <- Hsm in Eget.
        split; [intros _; now apply restored_at_unsaved | auto].
    + injection Hrun as <-. apply Map_has_get in Ehas. rewrite <- Hsm in Ehas.
      split; [intros _; now apply restored_at_unsaved | auto].
  - injection Hrun as <-. split; [discriminate | auto].
Qed.

(** A loop whose callback restores the mesh it is called on. *)
Lemma forEach_restores (body : Object3D.t -> M State unit) :
  (forall obj s s1, body obj s = Ok tt s1 ->
     (Object3D.isMesh obj = true -> restored_at (Object3D.id obj) s1)
     /\ (forall j, restored_at j s -> restored_at j s1)) ->
  forall l s s1, forEach body l s = Ok tt s1 ->
    (forall j, restored_at j s -> restored_at j s1)
    /\ (forall obj, In obj l -> Object3D.isMesh obj = true ->
                    restored_at (Object3D.id obj) s1).
Proof.
  intros Hbody. induction l as [| a l IH]; intros s s1 Hrun; cbn [forEach] in Hrun.
  - injection Hrun as <-. split; [auto | intros obj []].
  - apply bind_ok in Hrun. destruct Hrun as ([] & sm & Ea & Hrun).
    destruct (Hbody _ _ _ Ea) as [Ha Hkeep].
    destruct (IH _ _ Hrun) as [Hkeep' Hl].
    split; [auto |].
    intros obj [<- | Hin] Hmesh; [apply Hkeep', Ha, Hmesh | now apply Hl].
Qed.

Ltac table_side :=
  first [ intros; reflexivity | exact table_assign
        | split; [intros ?; repeat split | intros ?; reflexivity] ].

Ltac ids_side :=
  first [ intros; reflexivity | exact (@mesh_ids_assign _)
        | apply keeps_shape_material | intros ?; repeat split ].

Lemma restoreMaterials_restores (complex : nat) (s s1 : State) :
  restoreMaterials complex s = Ok tt s1 ->
  (forall j, restored_at j s -> restored_at j s1)
  /\ (forall j, In j (map Object3D.id (meshes_below complex s)) ->
                restored_at j s1).
Proof.
  unfold restoreMaterials. intros Hrun.
  apply bind_ok in Hrun. destruct Hrun as (c & s0 & Ec & Hrun).
  unfold deref, bind, get in Ec.
  destruct (Object3D.getObjectById complex (scene s)) as [c' |] eqn:Ecomplex;
    [| discriminate Ec].
  cbn in Ec. injection Ec as -> <-.
  apply forEach_restores in Hrun.
  - destruct Hrun as [Hkeep Hl]. split; [exact Hkeep |].
    intros j Hj. unfold meshes_below in Hj. rewrite Ecomplex in Hj.
    apply in_map_iff in Hj. destruct Hj as (obj & <- & Hobj).
    apply filter_In in Hobj. now apply Hl.
  - clear. intros obj s s1 Hrun. unfold bind, get in Hrun.
    destruct (Object3D.isMesh obj) eqn:Emesh.
    + destruct (Map_get (Object3D.id obj) (savedMaterials s)) as [m |] eqn:Eget.
      * unfold assign, modify in Hrun. injection Hrun as <-.
        split; intros; apply (@restore_step _ _ _ Eget); auto.
      * injection Hrun as <-.
        split; [intros _; now apply restored_at_unsaved | auto].
    + injection Hrun as <-. split; [discriminate | auto].
Qed.

Lemma the_ok {A} (f : State -> option A) (s s1 : State) (a : A) :
  the f s = Ok a s1 -> f s = Some a /\ s1 = s.
Proof.
  unfold the, bind, get. destruct (f s); [| discriminate].
  intros H. injection H as <- <-. now split.
Qed.

Lemma deref_ok (r : nat) (s s1 : State) (o : Object3D.t) :
  deref r s = Ok o s1 -> Object3D.getObjectById r (scene s) = Some o /\ s1 = s.
Proof.
  unfold deref, bind, get. destruct (Object3D.getObjectById r (scene s));
    [| discriminate].
  intros H. injection H as <- <-. now split.
Qed.

Ltac track r E :=
  match type of E with
  | ?c ?s = Ok ?a ?s1 =>
      let K := fresh "K" in
      let I := fresh "I" in
      assert (K : keeps (fun s => (map Object3D.id (meshes_below (_complex r) s),
                                   refs s)) c)
        by (frames Object3D.keeps_shape ids_side);
      pose proof (@keeps_ok _ _ _ _ _ _ _ _ K E) as I; cbv beta in I; clear K;
      try (let T := fresh "T" in
           assert (K : keeps materials_table c)
             by (frames keeps_material table_side);
           pose proof (@keeps_ok _ _ _ _ _ _ _ _ K E) as T; clear K)
  end.

Ltac walk r H :=
  repeat (let a := fresh "a" in
          let s1 := fresh "s" in
          let E := fresh "E" in
          apply bind_ok in H; destruct H as (a & s1 & E & H);
          cbv beta in H; track r E;
          match type of a with unit => destruct a | _ => idtac end);
  track r H.


Ltac track_table E :=
  match type of E with
  | ?c ?s = Ok ?a ?s1 =>
      let K := fresh "K" in
      let T := fresh "T" in
      assert (K : keeps materials_table c)
        by (frames keeps_material table_side);
      pose proof (@keeps_ok _ _ _ _ _ _ _ _ K E) as T; clear K
  end.

(** The callback of a restoring loop: what precedes the restoring
    statement leaves the materials alone. *)
Ltac restoring_callback :=
  let obj := fresh "obj" in
  let s0 := fresh "s" in
  let s1 := fresh "s" in
  let Hb := fresh "Hb" in
  intros obj s0 s1 Hb;
  let x := fresh "x" in
  let sx := fresh "s" in
  let Eg := fresh "Eg" in
  apply bind_ok in Hb; destruct Hb as (x & sx & Eg & Hb);
  unfold get in Eg; injection Eg as <- <-;
  cbv beta in Hb;
  repeat (let a := fresh "a" in
          let sa := fresh "s" in
          let E := fresh "E" in
          apply bind_ok in Hb; destruct Hb as (a & sa & E & Hb);
          cbv beta in Hb; track_table E; clear E);
  match type of Hb with
  | _ ?sl = Ok tt _ =>
      let Ht := fresh "Ht" in
      assert (Ht : materials_table sl = materials_table s0) by congruence;
      let Hsm := fresh "Hsm" in
      assert (Hsm : savedMaterials sl = savedMaterials s0)
        by (unfold materials_table in Ht; now injection Ht);
      destruct (@restore_statement obj _ _ _ Hsm Hb) as [Hnow Hkeep];
      split; [exact Hnow |];
      intros j Hj; apply Hkeep; exact (restored_at_table Ht Hj)
  end.

Lemma finish_restore (r : Refs) (sa sl s' : State) :
  (forall j, In j (map Object3D.id (meshes_below (_complex r) sa)) ->
             restored_at j sl) ->
  map Object3D.id (meshes_below (_complex r) s')
  = map Object3D.id (meshes_below (_complex r) sa) ->
  materials_table s' = materials_table sl ->
  forall j, In j (map Object3D.id (meshes_below (_complex r) s')) ->
            restored_at j s'.
Proof.
  intros Hl Hids Ht j Hj. rewrite Hids in Hj.
  exact (restored_at_table Ht (Hl j Hj)).
Qed.

(** The value of [_complex] a statement read. *)
Ltac complex_read r :=
  match goal with
  | E : ref _complex ?s1 = Ok ?a _ |- _ =>
      let Hr := fresh "Hr" in
      assert (Hr : refs s1 = Some r) by congruence;
      unfold ref in E; apply the_ok in E; destruct E as [E _];
      rewrite Hr in E; cbn [option_map] in E; injection E as <-
  end.

(** From the loop over [_complex.traverse] to the meshes below [_complex]. *)
Ltac restoring_loop r :=
  match goal with
  | D : deref _ ?sa = Ok ?c _,
    L : forEach _ (Object3D.traverse ?c) _ = Ok tt ?sl
    |- forall j, In j (map Object3D.id (meshes_below _ ?s')) -> _ =>
      apply deref_ok in D; destruct D as [D ->];
      apply (@finish_restore r sa sl s'); [| congruence | congruence];
      apply forEach_restores in L; [| restoring_callback];
      destruct L as [_ L];
      let j := fresh "j" in
      let Hj := fresh "Hj" in
      let obj := fresh "obj" in
      let Hobj := fresh "Hobj" in
      intros j Hj;
      unfold meshes_below in Hj; rewrite D in Hj;
      apply in_map_iff in Hj; destruct Hj as (obj & <- & Hobj);
      apply filter_In in Hobj; now apply L
  | L : restoreMaterials _ ?sa = Ok tt ?sl
    |- forall j, In j (map Object3D.id (meshes_below _ ?s')) -> _ =>
      apply (@finish_restore r sa sl s'); [| congruence | congruence];
      apply restoreMaterials_restores in L; destruct L as [_ L]; exact L
  end.

Lemma stageComplex_restores (s s' : State) (r : Refs) :
  refs s = Some r -> stageComplex s = Ok tt s' ->
  forall j, In j (map Object3D.id (meshes_below (_complex r) s')) ->
            restored_at j s'.
Proof.
  intros Hrefs Hrun. unfold stageComplex in Hrun.
  walk r Hrun. complex_read r. restoring_loop r.
Qed.

Lemma stageDissolution_restores (s s' : State) (r : Refs) :
  refs s = Some r -> stageDissolution s = Ok tt s' ->
  forall j, In j (map Object3D.id (meshes_below (_complex r) s')) ->
            restored_at j s'.
Proof.
  intros Hrefs Hrun. unfold stageDissolution in Hrun.
  walk r Hrun. complex_read r. restoring_loop r.
Qed.

Lemma stageHydration_restores (s s' : State) (r : Refs) :
  refs s = Some r -> stageHydration s = Ok tt s' ->
  forall j, In j (map Object3D.id (meshes_below (_complex r) s')) ->
            restored_at j s'.
Proof.
  intros Hrefs Hrun. unfold stageHydration in Hrun.
  walk r Hrun. complex_read r. restoring_loop r.
Qed.

Lemma stageHydrolysis_restores (s s' : State) (r : Refs) :
  refs s = Some r -> stageHydrolysis s = Ok tt s' ->
  forall j, In j (map Object3D.id (meshes_below (_complex r) s')) ->
            restored_at j s'.
Proof.
  intros Hrefs Hrun. unfold stageHydrolysis in Hrun.
  walk r Hrun. complex_read r. restoring_loop r.
Qed.

Lemma traverse_subtree (root c n : Object3D.t) :
  In c (Object3D.traverse root) -> In n (Object3D.traverse c) ->
  In n (Object3D.traverse root).
Proof.
  revert c n.
  induction root as [i k nm p r sc v u cs IH] using tree_induction.
  intros c n Hc Hn. cbn [Object3D.traverse] in Hc |- *.
  destruct Hc as [<- | Hc]; [exact Hn |].
  right. apply in_flat_map in Hc. destruct Hc as (ch & Hch & Hc).
  apply in_flat_map. exists ch. split; [exact Hch |].
  rewrite Forall_forall in IH. exact (IH ch Hch c n Hc Hn).
Qed.

Lemma unit_returned {S} (o : Outcome S unit) :
  returned o = true -> o = Ok tt (state_of o).
Proof. destruct o as [[] s | e s]; [reflexivity | discriminate]. Qed.

(** X19. Every stage puts the saved materials back.  When [goToStage]
    runs a stage function (stages 0 to 3) and returns, every mesh that
    [_complex.traverse] visits and that has an entry in [savedMaterials]
    carries the material saved for it, whatever material it had before:
    the glow material that stage 3 puts on the oxygen is taken off by any
    later stage change. *)
Theorem stage_change_puts_saved_materials_back
    (stage : JsNumber.t) (s s' : State) (r : Refs)
    (Hstage : has_stage_function stage = true)
    (Hrefs : refs s = Some r)
    (Hrun : goToStage stage s = Ok tt s') :
  Forall (carries_saved_material s') (meshes_below (_complex r) s').
Proof.
  unfold goToStage in Hrun.
  apply bind_ok in Hrun. destruct Hrun as ([] & s1 & Ekill & Hrun).
  apply bind_ok in Hrun. destruct Hrun as ([] & s2 & Edesc & Hrun).
  assert (Hr1 : refs s1 = refs s).
  { exact (@keeps_ok _ _ _ refs _ _ _ _
             (@frame_killActiveTimeline _ refs ltac:(reflexivity)
                ltac:(reflexivity)) Ekill). }
  assert (Hr2 : refs s2 = refs s1).
  { exact (@keeps_ok _ _ _ refs _ _ _ _
             (@frame_updateDescription _ refs ltac:(reflexivity) stage)
             Edesc). }
  assert (Hrefs2 : refs s2 = Some r) by congruence.
  assert (Hall : forall j,
            In j (map Object3D.id (meshes_below (_complex r) s')) ->
            restored_at j s').
  { unfold has_stage_function in Hstage.
    destruct stage as [| [| [[p | p |] | [p | p |] |] | p]];
      cbn [stageFunction] in Hstage, Hrun; try discriminate Hstage.
    - exact (@stageComplex_restores _ _ _ Hrefs2 Hrun).
    - exact (@stageHydrolysis_restores _ _ _ Hrefs2 Hrun).
    - exact (@stageHydration_restores _ _ _ Hrefs2 Hrun).
    - exact (@stageDissolution_restores _ _ _ Hrefs2 Hrun). }
  apply Forall_forall. intros n Hn.
  pose proof (in_map Object3D.id _ _ Hn) as Hid.
  unfold meshes_below in Hn.
  destruct (Object3D.getObjectById (_complex r) (scene s')) as [c |] eqn:Ec;
    [| destruct Hn].
  apply filter_In in Hn. destruct Hn as [Hn Hmesh].
  apply (Hall _ Hid n); [| reflexivity | exact Hmesh].
  exact (traverse_subtree _ _ _ (getObjectById_In _ _ Ec) Hn).
Qed.

Lemma stage_change_puts_saved_materials_back_witness :
  let s := fire 0 1 (exec (goToStage (JsNumber.Num 3)) Example.stages) in
  let s' := state_of (goToStage (JsNumber.Num 0) s) in
  Forall (carries_saved_material s')
         (meshes_below (_complex (mkRefs 5 6 [7; 11; 15; 19; 23; 27] 31)) s').
Proof.
  cbv zeta.
  assert (Hreturned :
            returned
              (goToStage (JsNumber.Num 0)
                 (fire 0 1 (exec (goToStage (JsNumber.Num 3)) Example.stages)))
            = true) by (vm_compute; reflexivity).
  assert (Hrefs :
            refs (fire 0 1 (exec (goToStage (JsNumber.Num 3)) Example.stages))
            = Some (mkRefs 5 6 [7; 11; 15; 19; 23; 27] 31))
    by (vm_compute; reflexivity).
  exact (@stage_change_puts_saved_materials_back (JsNumber.Num 0) _ _ _
           eq_refl Hrefs (unit_returned _ Hreturned)).
Defined.

End RestoreMaterials.


(* ================================================================= *)
(** ** stages.js: what the stages schedule *)

Section Schedules.

Import Gsap Stages.

Local Open Scope R_scope.

Lemma line_of_tl_to (tl : nat) (tw : Tween) (position : R) (s s1 : State)
    (u : unit) (es : list (Entry Callback)) (k : bool) :
  tl_to tl tw position s = Ok u s1 ->
  line_of tl s = Some (es, k) ->
  line_of tl s1 = Some (es ++ [To tw position], k)
  /\ (savedPositions s1, _activeTimeline s1, scene s1, refs s1)
     = (savedPositions s, _activeTimeline s, scene s, refs s).
Proof.
  unfold tl_to, on_timeline, modify, line_of. intros E Hline.
  destruct u. injection E as <-. split; [| reflexivity].
  cbn [timelines set_timelines]. revert Hline. unfold Timeline.
  rewrite nth_error_update_nth, Nat.eqb_refl.
  destruct (nth_error _ tl) as [t |]; cbn [option_map]; [| discriminate].
  intros Hline. injection Hline as <- <-. reflexivity.
Qed.

(** A loop whose callback schedules the entries [g obj] on timeline [tl]
    and leaves the saved positions alone. *)
Lemma forEach_schedules (body : Object3D.t -> M State unit) (tl : nat)
    (saved : list (nat * Vector3.t))
    (g : Object3D.t -> list (Entry Callback)) :
  (forall obj s s1 es k,
     body obj s = Ok tt s1 -> savedPositions s = saved ->
     line_of tl s = Some (es, k) ->
     line_of tl s1 = Some (es ++ g obj, k) /\ savedPositions s1 = saved) ->
  forall l s s1 es k,
    forEach body l s = Ok tt s1 -> savedPositions s = saved ->
    line_of tl s = Some (es, k) ->
    line_of tl s1 = Some (es ++ flat_map g l, k) /\ savedPositions s1 = saved.
Proof.
  intros Hbody. induction l as [| a l IH]; intros s s1 es k Hrun Hsaved Hline;
    cbn [forEach flat_map] in *.
  - injection Hrun as <-. now rewrite app_nil_r.
  - apply bind_ok in Hrun. destruct Hrun as ([] & sm & Ea & Hrun).
    destruct (Hbody _ _ _ _ _ Ea Hsaved Hline) as [Hline' Hsaved'].
    destruct (IH _ _ _ _ Hrun Hsaved' Hline') as [Hline'' Hsaved''].
    now rewrite app_assoc.
Qed.

Lemma saved_position_tween_tags (saved : list (nat * Vector3.t))
    (l1 l2 : list Object3D.t) :
  map (fun n => (Object3D.id n, Object3D.isMesh n, Object3D.isGroup n)) l1
  = map (fun n => (Object3D.id n, Object3D.isMesh n, Object3D.isGroup n)) l2 ->
  flat_map (saved_position_tween saved) l1
  = flat_map (saved_position_tween saved) l2.
Proof.
  revert l2. induction l1 as [| a l1 IH]; intros [| b l2] H;
    try discriminate H; [reflexivity |].
  cbn [map] in H. injection H as Hid Hmesh Hgroup Hl.
  cbn [flat_map]. rewrite (IH _ Hl). unfold saved_position_tween.
  now rewrite Hid, Hmesh, Hgroup.
Qed.

Lemma objects_below_assign (complex : nat) (s : State) (r : nat)
    (f : Object3D.t -> Object3D.t) :
  Object3D.keeps_shape f ->
  (map (fun n => (Object3D.id n, Object3D.isMesh n, Object3D.isGroup n))
       (objects_below complex
          (set_world (World.set_scene (Object3D.update r f (scene s)) (world s))
             s)),
   refs (set_world (World.set_scene (Object3D.update r f (scene s)) (world s))
           s),
   savedPositions
     (set_world (World.set_scene (Object3D.update r f (scene s)) (world s)) s))
  = (map (fun n => (Object3D.id n, Object3D.isMesh n, Object3D.isGroup n))
         (objects_below complex s),
     refs s, savedPositions s).
Proof.
  intros Hf. do 2 f_equal. unfold objects_below, scene.
  cbn [world set_world World.scene World.set_scene].
  rewrite getObjectById_update by (intros m; apply Hf).
  destruct (Object3D.getObjectById complex (World.scene (world s))) as [c |];
    cbn [option_map]; [| reflexivity].
  rewrite traverse_update by (intros m; apply Hf). rewrite map_map.
  apply map_ext. intros n.
  destruct (shape_update r n Hf) as (-> & _ & -> & -> & _). reflexivity.
Qed.

Lemma lines_assign (s : State) (r : nat) (f : Object3D.t -> Object3D.t) :
  True ->
  (timelines
     (set_world (World.set_scene (Object3D.update r f (scene s)) (world s)) s),
   _activeTimeline
     (set_world (World.set_scene (Object3D.update r f (scene s)) (world s)) s),
   savedPositions
     (set_world (World.set_scene (Object3D.update r f (scene s)) (world s)) s))
  = (timelines s, _activeTimeline s, savedPositions s).
Proof. reflexivity. Qed.

Ltac shape_side :=
  first [ intros; reflexivity | exact (@objects_below_assign _)
        | apply keeps_shape_material | intros ?; repeat split ].

Ltac lines_side :=
  first [ intros; reflexivity | exact lines_assign | exact I ].

(** What a statement leaves of the objects below the complex, and of
    the timelines if it schedules nothing. *)
Ltac follow r E :=
  match type of E with
  | ?c ?s = Ok ?a ?s1 =>
      let K := fresh "K" in
      let I := fresh "I" in
      assert (K : keeps
                    (fun s =>
                       (map (fun n => (Object3D.id n, Object3D.isMesh n,
                                       Object3D.isGroup n))
                            (objects_below (_complex r) s),
                        refs s, savedPositions s)) c)
        by (frames Object3D.keeps_shape shape_side);
      pose proof (@keeps_ok _ _ _ _ _ _ _ _ K E) as I; cbv beta in I; clear K;
      try (let T := fresh "T" in
           assert (K : keeps (fun s => (timelines s, _activeTimeline s,
                                        savedPositions s)) c)
             by (frames (fun _ : Object3D.t -> Object3D.t => True) lines_side);
           pose proof (@keeps_ok _ _ _ _ _ _ _ _ K E) as T; cbv beta in T;
           clear K);
      try (let A := fresh "A" in
           assert (K : keeps _activeTimeline c)
             by (frames (fun _ : Object3D.t -> Object3D.t => True) lines_side);
           pose proof (@keeps_ok _ _ _ _ _ _ _ _ K E) as A; clear K)
  end.

Ltac stride r H :=
  repeat (let a := fresh "a" in
          let s1 := fresh "s" in
          let E := fresh "E" in
          apply bind_ok in H; destruct H as (a & s1 & E & H);
          cbv beta in H; follow r E;
          match type of a with unit => destruct a | _ => idtac end);
  follow r H.

Lemma stageComplex_schedule (s s' : State) (r : Refs) (c : Object3D.t) :
  refs s = Some r ->
  Object3D.getObjectById (_complex r) (scene s) = Some c ->
  stageComplex s = Ok tt s' ->
  _activeTimeline s' = Some (List.length (timelines s))
  /\ line_of (List.length (timelines s)) s'
     = Some (flat_map (saved_position_tween (savedPositions s))
                      (Object3D.traverse c)
             ++ [ To (tween (ObjScale (_complex r)) (xyz 1 1 1) 0.8
                            "power2.inOut") 0;
                  To (tween CameraPosition (xyz 4 3 5) 1.2 "power2.inOut") 0;
                  To (mkTween ControlsTarget (xyz 0 0 0) 1.2 "power2.inOut"
                              0 false (Some controls_update)) 0 ],
             false).
Proof.
  intros Hrefs Hcomplex Hrun. unfold stageComplex in Hrun.
  stride r Hrun.
  match goal with
  | L : forEach ?body _ _ = Ok tt _ |- _ =>
      assert (Hbody : forall obj sx sy es k,
                body obj sx = Ok tt sy ->
                savedPositions sx = savedPositions s ->
                line_of a sx = Some (es, k) ->
                line_of a sy
                = Some (es ++ saved_position_tween (savedPositions s) obj, k)
                  /\ savedPositions sy = savedPositions s)
  end.
  { intros obj sx sy es k Hb Hsv Hl.
    apply bind_ok in Hb. destruct Hb as (x & sz & Eg & Hb).
    unfold get in Eg. injection Eg as <- <-. cbv beta in Hb.
    apply bind_ok in Hb. destruct Hb as ([] & sa & EA & Hb).
    match type of Hb with
    | ?c _ = _ =>
        assert (K : keeps (fun s => (timelines s, _activeTimeline s,
                                     savedPositions s)) c)
          by (frames (fun _ : Object3D.t -> Object3D.t => True) lines_side)
    end.
    pose proof (@keeps_ok _ _ _ _ _ _ _ _ K Hb) as Tb. cbv beta in Tb.
    clear K Hb. injection Tb as Ttl _ Tsv.
    unfold line_of. rewrite Ttl, Tsv. fold (line_of a sa).
    unfold saved_position_tween. rewrite Hsv in EA.
    destruct (Object3D.isMesh obj || Object3D.isGroup obj); cbn [andb] in EA.
    - destruct (Map_has (Object3D.id obj) (savedPositions s)) eqn:Ehas.
      + destruct (Map_get (Object3D.id obj) (savedPositions s)) as [p |];
          [| discriminate EA].
        destruct (@line_of_tl_to _ _ _ _ _ _ _ _ EA Hl) as [Hl' Hfr].
        injection Hfr as Hsp _ _ _. split; [exact Hl' | congruence].
      + apply Map_has_get in Ehas. rewrite Ehas. injection EA as <-.
        rewrite app_nil_r. split; [exact Hl | congruence].
    - injection EA as <-. rewrite app_nil_r. split; [exact Hl | congruence]. }
  (* what the statements before and after the loop leave *)
  assert (Hr1 : refs s1 = Some r) by congruence.
  unfold ref in E1. apply the_ok in E1. destruct E1 as [E1 _].
  rewrite Hr1 in E1. cbn [option_map] in E1. injection E1 as <-.
  apply deref_ok in E7. destruct E7 as [E7 ->].
  assert (Htl : timelines s7 = timelines s1) by congruence.
  assert (Hact : _activeTimeline s9 = _activeTimeline s1) by congruence.
  assert (Hsv : savedPositions s7 = savedPositions s) by congruence.
  assert (Htags :
            map (fun n => (Object3D.id n, Object3D.isMesh n, Object3D.isGroup n))
                (Object3D.traverse a3)
            = map (fun n => (Object3D.id n, Object3D.isMesh n,
                             Object3D.isGroup n))
                  (Object3D.traverse c)).
  { assert (Ht : map (fun n => (Object3D.id n, Object3D.isMesh n,
                                Object3D.isGroup n))
                     (objects_below (_complex r) s7)
                 = map (fun n => (Object3D.id n, Object3D.isMesh n,
                                  Object3D.isGroup n))
                       (objects_below (_complex r) s)) by congruence.
    unfold objects_below in Ht. now rewrite E7, Hcomplex in Ht. }
  (* the new timeline *)
  unfold gsap_timeline, bind, get, put, ret in E. injection E as <- <-.
  unfold modify in E0. injection E0 as <-.
  assert (Hline : line_of (List.length (timelines s)) s7 = Some ([], false)).
  { unfold line_of. rewrite Htl. cbn [timelines set_activeTimeline set_timelines].
    unfold Timeline. rewrite nth_error_app2, Nat.sub_diag by apply Nat.le_refl.
    reflexivity. }
  destruct (@forEach_schedules _ _ _ _ Hbody _ _ _ _ _ E8 Hsv Hline) as [Hline9 _].
  destruct (@line_of_tl_to _ _ _ _ _ _ _ _ E9 Hline9) as [Hline10 F10].
  destruct (@line_of_tl_to _ _ _ _ _ _ _ _ E10 Hline10) as [Hline11 F11].
  destruct (@line_of_tl_to _ _ _ _ _ _ _ _ Hrun Hline11) as [Hline' F'].
  injection F10 as _ F10 _ _. injection F11 as _ F11 _ _.
  injection F' as _ F' _ _.
  split.
  - rewrite F', F11, F10, Hact. reflexivity.
  - rewrite Hline'. cbn [app]. rewrite <- !app_assoc. cbn [app].
    now rewrite (@saved_position_tween_tags _ _ _ Htags).
Qed.

(** X20. What stage 0 schedules.  When [goToStage(0)] returns, the new
    timeline is the active one, it is not killed, and its children are, in
    this order and all at time 0: for every mesh or group that
    [_complex.traverse] visits and that has an entry in [savedPositions],
    one tween of its position to the saved coordinates, lasting one
    second; then the tween of the scale of the complex to 1, the tween of
    the camera to (4, 3, 5) and the tween of the controls' target to the
    origin.  An object outside the complex gets no tween, whether it has a
    saved position or not. *)
Theorem stage0_tweens_what_the_complex_holds
    (s s' : State) (r : Refs) (c : Object3D.t)
    (Hrefs : refs s = Some r)
    (Hcomplex : Object3D.getObjectById (_complex r) (scene s) = Some c)
    (Hrun : goToStage (JsNumber.Num 0) s = Ok tt s') :
  _activeTimeline s' = Some (List.length (timelines s))
  /\ line_of (List.length (timelines s)) s'
     = Some (flat_map (saved_position_tween (savedPositions s))
                      (Object3D.traverse c)
             ++ [ To (tween (ObjScale (_complex r)) (xyz 1 1 1) 0.8
                            "power2.inOut") 0;
                  To (tween CameraPosition (xyz 4 3 5) 1.2 "power2.inOut") 0;
                  To (mkTween ControlsTarget (xyz 0 0 0) 1.2 "power2.inOut"
                              0 false (Some controls_update)) 0 ],
             false).
Proof.
  unfold goToStage in Hrun.
  apply bind_ok in Hrun. destruct Hrun as ([] & s1 & Ekill & Hrun).
  apply bind_ok in Hrun. destruct Hrun as ([] & s2 & Edesc & Hrun).
  cbn [stageFunction] in Hrun.
  assert (H1 : (scene s1, refs s1, savedPositions s1)
               = (scene s, refs s, savedPositions s)).
  { exact (@keeps_ok _ _ _ (fun s => (scene s, refs s, savedPositions s))
             _ _ _ _
             (@frame_killActiveTimeline _
                (fun s => (scene s, refs s, savedPositions s))
                ltac:(reflexivity) ltac:(reflexivity)) Ekill). }
  assert (H2 : (scene s2, refs s2, savedPositions s2, timelines s2)
               = (scene s1, refs s1, savedPositions s1, timelines s1)).
  { unfold updateDescription, modify in Edesc. injection Edesc as <-.
    destruct (stageDesc s1); reflexivity. }
  assert (Hlen : List.length (timelines s1) = List.length (timelines s)).
  { rewrite (killActiveTimeline_returns s) in Ekill. injection Ekill as <-.
    apply killActiveTimeline_length. }
  injection H1 as Hsc1 Hr1 Hsv1. injection H2 as Hsc2 Hr2 Hsv2 Htl2.
  rewrite <- Hlen, <- Htl2, <- Hsv1, <- Hsv2.
  apply stageComplex_schedule; [congruence | | exact Hrun].
  now rewrite Hsc2, Hsc1.
Qed.

Lemma stage0_tweens_what_the_complex_holds_witness :
  exists c,
    Object3D.getObjectById 5%nat (scene Example.stages) = Some c
    /\ _activeTimeline (state_of (goToStage (JsNumber.Num 0) Example.stages))
       = Some (List.length (timelines Example.stages))
    /\ line_of (List.length (timelines Example.stages))
         (state_of (goToStage (JsNumber.Num 0) Example.stages))
       = Some (flat_map (saved_position_tween (savedPositions Example.stages))
                        (Object3D.traverse c)
               ++ [ To (tween (ObjScale
                                 (_complex
                                    (mkRefs 5 6 [7; 11; 15; 19; 23; 27] 31)%nat))
                              (xyz 1 1 1) 0.8 "power2.inOut") 0;
                    To (tween CameraPosition (xyz 4 3 5) 1.2 "power2.inOut") 0;
                    To (mkTween ControlsTarget (xyz 0 0 0) 1.2 "power2.inOut"
                                0 false (Some controls_update)) 0 ],
               false).
Proof.
  assert (Hreturned :
            returned (goToStage (JsNumber.Num 0) Example.stages) = true)
    by (vm_compute; reflexivity).
  assert (Hrefs : refs Example.stages
                  = Some (mkRefs 5 6 [7; 11; 15; 19; 23; 27] 31)%nat)
    by (vm_compute; reflexivity).
  destruct (Object3D.getObjectById 5%nat (scene Example.stages)) as [c |] eqn:Ec.
  - exists c. split; [reflexivity |].
    exact (@stage0_tweens_what_the_complex_holds _ _ _ c Hrefs Ec
             (unit_returned _ Hreturned)).
  - exfalso.
    apply (f_equal (fun o => match o with Some _ => true | None => false end))
      in Ec.
    vm_compute in Ec. discriminate Ec.
Defined.

(** *** Stage 2 *)

Lemma line_of_tl_call (tl : nat) (cb : Callback) (position : R)
    (s s1 : State) (u : unit) (es : list (Entry Callback)) (k : bool) :
  tl_call tl cb position s = Ok u s1 ->
  line_of tl s = Some (es, k) ->
  line_of tl s1 = Some (es ++ [Call cb position], k)
  /\ (savedPositions s1, _activeTimeline s1, scene s1, refs s1)
     = (savedPositions s, _activeTimeline s, scene s, refs s).
Proof.
  unfold tl_call, on_timeline, modify, line_of. intros E Hline.
  destruct u. injection E as <-. split; [| reflexivity].
  cbn [timelines set_timelines]. revert Hline. unfold Timeline.
  rewrite nth_error_update_nth, Nat.eqb_refl.
  destruct (nth_error _ tl) as [t |]; cbn [option_map]; [| discriminate].
  intros Hline. injection Hline as <- <-. reflexivity.
Qed.

(** A loop with an index whose callback schedules the entries
    [g (i, a)] on timeline [tl]. *)
Lemma foldM_schedules (body : nat -> nat -> M State nat) (tl : nat)
    (saved : list (nat * Vector3.t))
    (g : nat * nat -> list (Entry Callback)) :
  (forall i a s i' s1 es k,
     body i a s = Ok i' s1 -> savedPositions s = saved ->
     line_of tl s = Some (es, k) ->
     i' = S i /\ line_of tl s1 = Some (es ++ g (i, a), k)
     /\ savedPositions s1 = saved
     /\ _activeTimeline s1 = _activeTimeline s) ->
  forall l i s i' s1 es k,
    foldM body i l s = Ok i' s1 -> savedPositions s = saved ->
    line_of tl s = Some (es, k) ->
    line_of tl s1
    = Some (es ++ flat_map g (combine (seq i (List.length l)) l), k)
    /\ savedPositions s1 = saved
    /\ _activeTimeline s1 = _activeTimeline s.
Proof.
  intros Hbody. induction l as [| a l IH]; intros i s i' s1 es k Hrun Hsaved Hline;
    cbn [foldM List.length seq combine flat_map] in *.
  - injection Hrun as _ <-. now rewrite app_nil_r.
  - apply bind_ok in Hrun. destruct Hrun as (i1 & sm & Ea & Hrun).
    destruct (Hbody _ _ _ _ _ _ _ Ea Hsaved Hline) as (-> & Hline' & Hsaved' & Ha).
    destruct (IH _ _ _ _ _ _ Hrun Hsaved' Hline') as (Hline'' & Hsaved'' & Ha').
    rewrite app_assoc. repeat split; congruence.
Qed.

Lemma third_water_is_late (i : nat) :
  1.9 + INR i * 0.15 <= 2.2 <-> (i <= 2)%nat.
Proof.
  split.
  - intros H. destruct (le_lt_dec i 2) as [Hle | Hgt]; [exact Hle |].
    unfold lt in Hgt. apply le_INR in Hgt. simpl in Hgt. lra.
  - intros H. apply le_INR in H. simpl in H. lra.
Qed.

Lemma stageHydration_schedule (s s' : State) (r : Refs) :
  refs s = Some r -> stageHydration s = Ok tt s' ->
  _activeTimeline s' = Some (List.length (timelines s))
  /\ line_of (List.length (timelines s)) s'
     = Some (To (tween CameraPosition (xyz 4 3 5) 1.0 "power2.inOut") 0
             :: flat_map (converge (savedPositions s))
                  (combine (seq 0 (List.length (_waters r))) (_waters r))
             ++ [Call (set_bonds_visible true) 2.2],
             false).
Proof.
  intros Hrefs Hrun. unfold stageHydration in Hrun. stride r Hrun.
  match goal with
  | L : foldM ?body _ _ _ = Ok _ _ |- _ =>
      assert (Hbody : forall i water sx i' sy es k,
                body i water sx = Ok i' sy ->
                savedPositions sx = savedPositions s ->
                line_of a sx = Some (es, k) ->
                i' = S i
                /\ line_of a sy
                   = Some (es ++ converge (savedPositions s) (i, water), k)
                /\ savedPositions sy = savedPositions s
                /\ _activeTimeline sy = _activeTimeline sx)
  end.
  { intros i water sx i' sy es k Hb Hsv Hl.
    apply bind_ok in Hb. destruct Hb as (x & sz & Eg & Hb).
    unfold get in Eg. injection Eg as <- <-. cbv beta in Hb.
    rewrite Hsv in Hb.
    apply bind_ok in Hb. destruct Hb as ([] & sa & Ea & Hb).
    apply bind_ok in Hb. destruct Hb as ([] & sb & Eb & Hb).
    unfold ret in Hb. injection Hb as <- <-.
    destruct (@line_of_tl_to _ _ _ _ _ _ _ _ Ea Hl) as [La Fa].
    destruct (@line_of_tl_to _ _ _ _ _ _ _ _ Eb La) as [Lb Fb].
    injection Fa as Fsa Faa _ _. injection Fb as Fsb Fab _ _.
    split; [reflexivity |].
    split; [| split; congruence].
    rewrite Lb, <- app_assoc. reflexivity. }
  (* what the statements around the loops leave *)
  assert (Hr6 : refs s6 = Some r) by congruence.
  apply the_ok in E6. destruct E6 as [E6 _].
  rewrite Hr6 in E6. cbn [option_map] in E6. injection E6 as <-.
  assert (Htl : timelines s10 = timelines s1) by congruence.
  assert (Hact : _activeTimeline s10 = _activeTimeline s1) by congruence.
  assert (Hsv : savedPositions s11 = savedPositions s) by congruence.
  (* the new timeline *)
  unfold gsap_timeline, bind, get, put, ret in E. injection E as <- <-.
  unfold modify in E0. injection E0 as <-.
  assert (Hline : line_of (List.length (timelines s)) s10 = Some ([], false)).
  { unfold line_of. rewrite Htl. cbn [timelines set_activeTimeline set_timelines].
    unfold Timeline. rewrite nth_error_app2, Nat.sub_diag by apply Nat.le_refl.
    reflexivity. }
  destruct (@line_of_tl_to _ _ _ _ _ _ _ _ E10 Hline) as [Hline11 F11].
  destruct (@foldM_schedules _ _ _ _ Hbody _ _ _ _ _ _ _ E11 Hsv Hline11)
    as (Hline12 & _ & F12).
  destruct (@line_of_tl_call _ _ _ _ _ _ _ _ Hrun Hline12) as [Hline' F'].
  injection F11 as _ F11 _ _. injection F' as _ F' _ _.
  split.
  - rewrite F', F12, F11, Hact. reflexivity.
  - rewrite Hline'. reflexivity.
Qed.

(** X21. What stage 2 schedules.  When [goToStage(2)] returns, the new
    timeline is the active one, it is not killed, and its children are:
    the tween of the camera at time 0; for the water of index [i], in the
    order of [_waters], the tween of its position to its saved position
    (to the origin if it has none) from 0.3 + 0.15 i s on for 1.6 s, and
    the tween of its rotation to 0; and the closure that shows the bonds,
    at 2.2 s.  The position tween of the water of index [i] is over at
    1.9 + 0.15 i s: by the time the bonds are shown, the waters of index 0
    to 2 have arrived and those from index 3 on have not. *)
Theorem stage2_shows_bonds_before_last_waters_arrive
    (s s' : State) (r : Refs)
    (Hrefs : refs s = Some r)
    (Hrun : goToStage (JsNumber.Num 2) s = Ok tt s') :
  _activeTimeline s' = Some (List.length (timelines s))
  /\ line_of (List.length (timelines s)) s'
     = Some (To (tween CameraPosition (xyz 4 3 5) 1.0 "power2.inOut") 0
             :: flat_map (converge (savedPositions s))
                  (combine (seq 0 (List.length (_waters r))) (_waters r))
             ++ [Call (set_bonds_visible true) 2.2],
             false)
  /\ (forall i water,
        option_map ends_at (hd_error (converge (savedPositions s) (i, water)))
        = Some (1.9 + INR i * 0.15))
  /\ (forall i, 1.9 + INR i * 0.15
                <= ends_at (Call (set_bonds_visible true) 2.2)
                <-> (i <= 2)%nat).
Proof.
  assert (Hschedule :
            _activeTimeline s' = Some (List.length (timelines s))
            /\ line_of (List.length (timelines s)) s'
               = Some (To (tween CameraPosition (xyz 4 3 5) 1.0 "power2.inOut") 0
                       :: flat_map (converge (savedPositions s))
                            (combine (seq 0 (List.length (_waters r)))
                                     (_waters r))
                       ++ [Call (set_bonds_visible true) 2.2],
                       false)).
  { unfold goToStage in Hrun.
    apply bind_ok in Hrun. destruct Hrun as ([] & s1 & Ekill & Hrun).
    apply bind_ok in Hrun. destruct Hrun as ([] & s2 & Edesc & Hrun).
    cbn [stageFunction] in Hrun.
    assert (H1 : (refs s1, savedPositions s1) = (refs s, savedPositions s)).
    { exact (@keeps_ok _ _ _ (fun s => (refs s, savedPositions s)) _ _ _ _
               (@frame_killActiveTimeline _
                  (fun s => (refs s, savedPositions s))
                  ltac:(reflexivity) ltac:(reflexivity)) Ekill). }
    assert (H2 : (refs s2, savedPositions s2, timelines s2)
                 = (refs s1, savedPositions s1, timelines s1)).
    { unfold updateDescription, modify in Edesc. injection Edesc as <-.
      destruct (stageDesc s1); reflexivity. }
    assert (Hlen : List.length (timelines s1) = List.length (timelines s)).
    { rewrite (killActiveTimeline_returns s) in Ekill. injection Ekill as <-.
      apply killActiveTimeline_length. }
    injection H1 as Hr1 Hsv1. injection H2 as Hr2 Hsv2 Htl2.
    rewrite <- Hlen, <- Htl2, <- Hsv1, <- Hsv2.
    apply stageHydration_schedule; [congruence | exact Hrun]. }
  destruct Hschedule as [Hact Hline].
  split; [exact Hact |]. split; [exact Hline |]. split.
  - intros i water. unfold converge. cbn [hd_error option_map ends_at].
    unfold tween. cbn [duration]. f_equal. lra.
  - intros i. cbn [ends_at]. apply third_water_is_late.
Qed.

Lemma stage2_shows_bonds_before_last_waters_arrive_witness :
  let s := Example.stages in
  let s' := state_of (goToStage (JsNumber.Num 2) s) in
  let r := (mkRefs 5 6 [7; 11; 15; 19; 23; 27] 31)%nat in
  _activeTimeline s' = Some (List.length (timelines s))
  /\ line_of (List.length (timelines s)) s'
     = Some (To (tween CameraPosition (xyz 4 3 5) 1.0 "power2.inOut") 0
             :: flat_map (converge (savedPositions s))
                  (combine (seq 0 (List.length (_waters r))) (_waters r))
             ++ [Call (set_bonds_visible true) 2.2],
             false)
  /\ (forall i water,
        option_map ends_at (hd_error (converge (savedPositions s) (i, water)))
        = Some (1.9 + INR i * 0.15))
  /\ (forall i, 1.9 + INR i * 0.15
                <= ends_at (Call (set_bonds_visible true) 2.2)
                <-> (i <= 2)%nat).
Proof.
  cbv zeta.
  assert (Hreturned :
            returned (goToStage (JsNumber.Num 2) Example.stages) = true)
    by (vm_compute; reflexivity).
  assert (Hrefs : refs Example.stages
                  = Some (mkRefs 5 6 [7; 11; 15; 19; 23; 27] 31)%nat)
    by (vm_compute; reflexivity).
  exact (@stage2_shows_bonds_before_last_waters_arrive _ _ _ Hrefs
           (unit_returned _ Hreturned)).
Defined.

(** *** Stage 1 *)

Lemma position_update (i : nat) (f : Object3D.t -> Object3D.t)
    (n : Object3D.t) :
  keeps_position f ->
  Object3D.position (Object3D.update i f n) = Object3D.position n.
Proof.
  intros [_ Hp]. destruct n as [ni k nm p r sc v u cs]. cbn [Object3D.update].
  destruct (Nat.eqb ni i); [rewrite Hp |]; reflexivity.
Qed.

Lemma anatomy_assign (s : State) (r : nat) (f : Object3D.t -> Object3D.t) :
  keeps_position f ->
  (anatomy
     (set_world (World.set_scene (Object3D.update r f (scene s)) (world s)) s),
   entropy
     (set_world (World.set_scene (Object3D.update r f (scene s)) (world s)) s),
   refs
     (set_world (World.set_scene (Object3D.update r f (scene s)) (world s)) s))
  = (anatomy s, entropy s, refs s).
Proof.
  intros Hf. do 2 f_equal. unfold anatomy, scene.
  cbn [world set_world World.scene World.set_scene].
  destruct Hf as [Hs Hp].
  rewrite traverse_update by (intros m; apply Hs). rewrite map_map.
  apply map_ext. intros n.
  destruct (shape_update r n Hs) as (-> & _ & _ & _ & ->).
  f_equal. rewrite map_map. apply map_ext. intros c.
  destruct (shape_update r c Hs) as (_ & -> & _).
  now rewrite position_update by (split; assumption).
Qed.

Lemma oxygen_position_anatomy (s1 s2 : State) (water : nat) :
  anatomy s1 = anatomy s2 ->
  oxygen_position water s1 = oxygen_position water s2.
Proof.
  unfold anatomy, oxygen_position. intros Ha.
  pose proof (find_through
                (fun n => (Object3D.id n,
                           map (fun c => (Object3D.name c, Object3D.position c))
                               (Object3D.children n)))
                (fun t => Nat.eqb (fst t) water)
                (Object3D.traverse (scene s1)) (Object3D.traverse (scene s2))
                Ha) as Hfind.
  cbn [fst] in Hfind. unfold Object3D.getObjectById.
  destruct (find _ (Object3D.traverse (scene s1))) as [w1 |];
    destruct (find _ (Object3D.traverse (scene s2))) as [w2 |];
    cbn [option_map] in Hfind; try discriminate Hfind; [| reflexivity].
  injection Hfind as _ Hch.
  pose proof (find_through
                (fun c => (Object3D.name c, Object3D.position c))
                (fun t => String.eqb (fst t) "O")
                (Object3D.children w1) (Object3D.children w2) Hch) as Hc.
  cbn [fst] in Hc. unfold child_named, Object3D.find_child.
  destruct (find _ (Object3D.children w1)) as [o1 |];
    destruct (find _ (Object3D.children w2)) as [o2 |];
    cbn [option_map] in Hc |- *; try discriminate Hc; [| reflexivity].
  now injection Hc as _ ->.
Qed.

(** The loop of stage 1 over the waters, from the index [i] on. *)
Lemma foldM_throws_outward (body : nat -> nat -> M State nat) (tl : nat)
    (init : State) :
  (forall i water s i' s1 es k,
     body i water s = Ok i' s1 ->
     random_in_range s -> anatomy s = anatomy init ->
     line_of tl s = Some (es, k) ->
     i' = S i
     /\ random_in_range s1 /\ anatomy s1 = anatomy init
     /\ _activeTimeline s1 = _activeTimeline s
     /\ exists es',
          line_of tl s1 = Some (es ++ es', k)
          /\ forall p, oxygen_position water init = Some p ->
               exists d, 3.5 <= d < 5 /\ In (explode_tween water p d i) es') ->
  forall l i s i' s1 es k,
    foldM body i l s = Ok i' s1 ->
    random_in_range s -> anatomy s = anatomy init ->
    line_of tl s = Some (es, k) ->
    _activeTimeline s1 = _activeTimeline s
    /\ exists es',
         line_of tl s1 = Some (es ++ es', k)
         /\ forall j water p,
              nth_error l j = Some water ->
              oxygen_position water init = Some p ->
              exists d, 3.5 <= d < 5
                        /\ In (explode_tween water p d (i + j)) es'.
Proof.
  intros Hbody.
  induction l as [| a l IH]; intros i s i' s1 es k Hrun Hrand Hana Hline;
    cbn [foldM] in Hrun.
  - injection Hrun as _ <-. split; [reflexivity |].
    exists []. rewrite app_nil_r. split; [exact Hline |].
    intros [| j] water p Hj; discriminate Hj.
  - apply bind_ok in Hrun. destruct Hrun as (i1 & sm & Ea & Hrun).
    destruct (Hbody _ _ _ _ _ _ _ Ea Hrand Hana Hline)
      as (-> & Hrand' & Hana' & Hact & es1 & Hline' & Hfirst).
    destruct (IH _ _ _ _ _ _ Hrun Hrand' Hana' Hline')
      as (Hact' & es2 & Hline'' & Hrest).
    split; [congruence |].
    exists (es1 ++ es2). rewrite app_assoc. split; [exact Hline'' |].
    intros [| j] water p Hj Hp; cbn [nth_error] in Hj.
    + injection Hj as <-. destruct (Hfirst p Hp) as (d & Hd & Hin).
      exists d. split; [exact Hd |]. rewrite Nat.add_0_r.
      apply in_or_app. now left.
    + destruct (Hrest j water p Hj Hp) as (d & Hd & Hin).
      exists d. split; [exact Hd |].
      replace (i + S j)%nat with (S i + j)%nat by lia.
      apply in_or_app. now right.
Qed.

Lemma Math_random_ok (s s1 : State) (x : R) :
  Math_random s = Ok x s1 ->
  x = entropy s 0%nat
  /\ (random_in_range s -> 0 <= x < 1 /\ random_in_range s1)
  /\ (anatomy s1, timelines s1, _activeTimeline s1)
     = (anatomy s, timelines s, _activeTimeline s).
Proof.
  unfold Math_random, bind, get, put, ret. intros E. injection E as <- <-.
  split; [reflexivity |]. split; [| reflexivity].
  intros Hr. split; [apply Hr |]. intros n. apply Hr.
Qed.

Lemma tl_to_entropy (tl : nat) (tw : Tween) (position : R) (s s1 : State)
    (u : unit) :
  tl_to tl tw position s = Ok u s1 ->
  entropy s1 = entropy s /\ anatomy s1 = anatomy s.
Proof.
  unfold tl_to, on_timeline, modify. intros E. destruct u.
  injection E as <-. split; reflexivity.
Qed.

Lemma random_in_range_entropy (s s1 : State) :
  entropy s1 = entropy s -> random_in_range s -> random_in_range s1.
Proof. unfold random_in_range. intros ->. exact (fun H => H). Qed.

Ltac anatomy_side :=
  first [ intros; reflexivity | exact anatomy_assign
        | split; [apply keeps_shape_material | intros ?; reflexivity]
        | split; [intros ?; repeat split | intros ?; reflexivity] ].

(** What a statement that draws no random number leaves. *)
Ltac trace E :=
  match type of E with
  | ?c ?s = Ok ?a ?s1 =>
      let K := fresh "K" in
      try (let N := fresh "N" in
           assert (K : keeps (fun s => (anatomy s, entropy s, refs s)) c)
             by (frames keeps_position anatomy_side);
           pose proof (@keeps_ok _ _ _ _ _ _ _ _ K E) as N; cbv beta in N;
           clear K);
      try (let T := fresh "T" in
           assert (K : keeps (fun s => (timelines s, _activeTimeline s,
                                        savedPositions s)) c)
             by (frames (fun _ : Object3D.t -> Object3D.t => True) lines_side);
           pose proof (@keeps_ok _ _ _ _ _ _ _ _ K E) as T; cbv beta in T;
           clear K)
  end.

Ltac pace H :=
  repeat (let a := fresh "a" in
          let s1 := fresh "s" in
          let E := fresh "E" in
          apply bind_ok in H; destruct H as (a & s1 & E & H);
          cbv beta in H; trace E;
          match type of a with unit => destruct a | _ => idtac end);
  trace H.

Lemma stageDissolution_schedule (s s' : State) (r : Refs) :
  refs s = Some r -> random_in_range s ->
  stageDissolution s = Ok tt s' ->
  _activeTimeline s' = Some (List.length (timelines s))
  /\ exists es,
       line_of (List.length (timelines s)) s' = Some (es, false)
       /\ forall i water p,
            nth_error (_waters r) i = Some water ->
            oxygen_position water s = Some p ->
            exists d, 3.5 <= d < 5 /\ In (explode_tween water p d i) es.
Proof.
  intros Hrefs Hrand Hrun. unfold stageDissolution in Hrun. pace Hrun.
  match goal with
  | L : foldM ?body _ _ _ = Ok _ _ |- _ =>
      assert (Hbody : forall i water sx i' sy es k,
                body i water sx = Ok i' sy ->
                random_in_range sx -> anatomy sx = anatomy s ->
                line_of a sx = Some (es, k) ->
                i' = S i
                /\ random_in_range sy /\ anatomy sy = anatomy s
                /\ _activeTimeline sy = _activeTimeline sx
                /\ exists es',
                     line_of a sy = Some (es ++ es', k)
                     /\ forall p, oxygen_position water s = Some p ->
                          exists d, 3.5 <= d < 5
                                    /\ In (explode_tween water p d i) es')
  end.
  { intros i water sx i' sy es k Hb Hrx Hax Hl.
    apply bind_ok in Hb. destruct Hb as (w & sz & Ew & Hb).
    apply deref_ok in Ew. destruct Ew as [Ew ->]. cbv beta in Hb.
    assert (Hop : oxygen_position water s
                  = option_map Object3D.position
                      (Object3D.find_child
                         (fun c => String.eqb (Object3D.name c) "O") w)).
    { rewrite <- (@oxygen_position_anatomy _ _ water Hax).
      unfold oxygen_position. now rewrite Ew. }
    destruct (Object3D.find_child _ w) as [oxygen |].
    - apply bind_ok in Hb. destruct Hb as (r0 & s_a & Er & Hb).
      apply bind_ok in Hb. destruct Hb as ([] & s_b & Et1 & Hb).
      apply bind_ok in Hb. destruct Hb as (rx & s_c & Erx & Hb).
      apply bind_ok in Hb. destruct Hb as (ry & s_d & Ery & Hb).
      apply bind_ok in Hb. destruct Hb as ([] & s_e & Et2 & Hb).
      unfold ret in Hb. injection Hb as <- <-.
      destruct (@Math_random_ok _ _ _ Er) as (-> & Hra & Fa).
      destruct (Hra Hrx) as [Hr0 Hra'].
      injection Fa as Faa Fat Fac.
      assert (Hla : line_of a s_a = Some (es, k))
        by (unfold line_of; rewrite Fat; exact Hl).
      destruct (@line_of_tl_to _ _ _ _ _ _ _ _ Et1 Hla) as [Lb Fb].
      destruct (@tl_to_entropy _ _ _ _ _ _ Et1) as [Feb Fab].
      destruct (@Math_random_ok _ _ _ Erx) as (_ & Hrc & Fc).
      destruct (Hrc (@random_in_range_entropy _ _ Feb Hra')) as [_ Hrc'].
      injection Fc as Fca Fct Fcc.
      destruct (@Math_random_ok _ _ _ Ery) as (_ & Hrd & Fd).
      destruct (Hrd Hrc') as [_ Hrd'].
      injection Fd as Fda Fdt Fdc.
      assert (Hld : line_of a s_d
                    = Some (es ++ [explode_tween water
                                     (Object3D.position oxygen)
                                     (3.5 + entropy sx 0%nat * 1.5) i], k))
        by (unfold line_of; rewrite Fdt, Fct; exact Lb).
      destruct (@line_of_tl_to _ _ _ _ _ _ _ _ Et2 Hld) as [Le Fe].
      destruct (@tl_to_entropy _ _ _ _ _ _ Et2) as [Fee Fae].
      injection Fb as _ Fb _ _. injection Fe as _ Fe _ _.
      split; [reflexivity |].
      split; [exact (@random_in_range_entropy _ _ Fee Hrd') |].
      split; [congruence |]. split; [congruence |].
      eexists. split; [rewrite Le, <- app_assoc; reflexivity |].
      intros p Hp. rewrite Hop in Hp. cbn [option_map] in Hp.
      injection Hp as <-.
      exists (3.5 + entropy sx 0%nat * 1.5). split; [lra |]. now left.
    - unfold ret in Hb. injection Hb as <- <-.
      split; [reflexivity |]. split; [exact Hrx |]. split; [exact Hax |].
      split; [reflexivity |].
      exists []. rewrite app_nil_r. split; [exact Hl |].
      intros p Hp. rewrite Hop in Hp. discriminate Hp. }
  (* what the statements around the loop leave *)
  assert (Hr6 : refs s6 = Some r) by congruence.
  apply the_ok in E6. destruct E6 as [E6 _].
  rewrite Hr6 in E6. cbn [option_map] in E6. injection E6 as <-.
  assert (Hana : anatomy s7 = anatomy s) by congruence.
  assert (Hent : entropy s7 = entropy s) by congruence.
  assert (Htl5 : timelines s5 = timelines s1) by congruence.
  assert (Hact5 : _activeTimeline s5 = _activeTimeline s1) by congruence.
  injection T3 as Ttl7 Tact7 _. injection T4 as Ttl9 Tact9 _.
  (* the new timeline *)
  unfold gsap_timeline, bind, get, put, ret in E. injection E as <- <-.
  unfold modify in E0. injection E0 as <-.
  assert (Hline5 : line_of (List.length (timelines s)) s5 = Some ([], false)).
  { unfold line_of. rewrite Htl5.
    cbn [timelines set_activeTimeline set_timelines].
    unfold Timeline. rewrite nth_error_app2, Nat.sub_diag by apply Nat.le_refl.
    reflexivity. }
  destruct (@line_of_tl_to _ _ _ _ _ _ _ _ E5 Hline5) as [Hline6 F6].
  assert (Hline7 : line_of (List.length (timelines s)) s7
                   = line_of (List.length (timelines s)) s6)
    by (unfold line_of; now rewrite Ttl7).
  rewrite Hline6 in Hline7.
  destruct (@foldM_throws_outward _ _ s Hbody _ _ _ _ _ _ _ E7
              (@random_in_range_entropy _ _ Hent Hrand) Hana Hline7)
    as (Hact8 & es' & Hline8 & Hwaters).
  assert (Hline9 : line_of (List.length (timelines s)) s9
                   = line_of (List.length (timelines s)) s8)
    by (unfold line_of; now rewrite Ttl9).
  rewrite Hline8 in Hline9.
  destruct (@line_of_tl_to _ _ _ _ _ _ _ _ E9 Hline9) as [Hline10 F10].
  destruct (@line_of_tl_call _ _ _ _ _ _ _ _ E10 Hline10) as [Hline11 F11].
  destruct (@line_of_tl_to _ _ _ _ _ _ _ _ Hrun Hline11) as [Hline' F'].
  injection F6 as _ F6 _ _. injection F10 as _ F10 _ _.
  injection F11 as _ F11 _ _. injection F' as _ F' _ _.
  split.
  - rewrite F', F11, F10, Tact9, Hact8, Tact7, F6, Hact5. reflexivity.
  - eexists. split; [exact Hline' |].
    intros i water p Hi Hp.
    destruct (Hwaters i water p Hi Hp) as (d & Hd & Hin).
    exists d. split; [exact Hd |].
    apply in_or_app. left. apply in_or_app. left. apply in_or_app. left.
    apply in_or_app. right. exact Hin.
Qed.

(** X22. Stage 1 throws every water outward along its own axis.  With
    [Math.random] returning numbers from 0 to 1 (1 excluded), when
    [goToStage(1)] returns the new timeline is the active one, it is not
    killed, and for the water of index [i] of [_waters] whose child named
    [O] sits at [p] it holds a tween of the position of the water, from
    0.5 + 0.08 i s on for 1.4 s, to [d] times the normalised [p] with
    3.5 <= d < 5; when [p] is not the zero vector that target is [d]
    units from the origin. *)
Theorem dissolution_throws_each_water_outward
    (s s' : State) (r : Refs)
    (Hrefs : refs s = Some r)
    (Hrandom : random_in_range s)
    (Hrun : goToStage (JsNumber.Num 1) s = Ok tt s') :
  _activeTimeline s' = Some (List.length (timelines s))
  /\ exists es,
       line_of (List.length (timelines s)) s' = Some (es, false)
       /\ forall i water p,
            nth_error (_waters r) i = Some water ->
            oxygen_position water s = Some p ->
            exists d,
              3.5 <= d < 5
              /\ In (explode_tween water p d i) es
              /\ (p <> Vector3.zero ->
                  Vector3.length
                    (Vector3.multiplyScalar (Vector3.normalize p) d) = d).
Proof.
  unfold goToStage in Hrun.
  apply bind_ok in Hrun. destruct Hrun as ([] & s1 & Ekill & Hrun).
  apply bind_ok in Hrun. destruct Hrun as ([] & s2 & Edesc & Hrun).
  cbn [stageFunction] in Hrun.
  assert (H1 : (scene s1, refs s1, entropy s1) = (scene s, refs s, entropy s)).
  { exact (@keeps_ok _ _ _ (fun s => (scene s, refs s, entropy s)) _ _ _ _
             (@frame_killActiveTimeline _
                (fun s => (scene s, refs s, entropy s))
                ltac:(reflexivity) ltac:(reflexivity)) Ekill). }
  assert (H2 : (scene s2, refs s2, entropy s2, timelines s2)
               = (scene s1, refs s1, entropy s1, timelines s1)).
  { unfold updateDescription, modify in Edesc. injection Edesc as <-.
    destruct (stageDesc s1); reflexivity. }
  assert (Hlen : List.length (timelines s1) = List.length (timelines s)).
  { rewrite (killActiveTimeline_returns s) in Ekill. injection Ekill as <-.
    apply killActiveTimeline_length. }
  injection H1 as Hsc1 Hr1 He1. injection H2 as Hsc2 Hr2 He2 Htl2.
  assert (Hrefs2 : refs s2 = Some r) by congruence.
  assert (Hrandom2 : random_in_range s2).
  { apply (@random_in_range_entropy s); [congruence | exact Hrandom]. }
  destruct (stageDissolution_schedule Hrefs2 Hrandom2 Hrun)
    as (Hact & es & Hline & Hwaters).
  rewrite Htl2, Hlen in Hact, Hline.
  split; [exact Hact |]. exists es. split; [exact Hline |].
  intros i water p Hi Hp.
  assert (Hp2 : oxygen_position water s2 = Some p).
  { unfold oxygen_position in *. now rewrite Hsc2, Hsc1. }
  destruct (Hwaters i water p Hi Hp2) as (d & Hd & Hin).
  exists d. split; [exact Hd |]. split; [exact Hin |].
  intros Hnz. apply length_multiplyScalar_unit; [| lra].
  apply lengthSq_normalize, lengthSq_pos_of_nonzero, Hnz.
Qed.

Lemma dissolution_throws_each_water_outward_witness :
  let s := Example.stages in
  let s' := state_of (goToStage (JsNumber.Num 1) s) in
  let r := (mkRefs 5 6 [7; 11; 15; 19; 23; 27] 31)%nat in
  _activeTimeline s' = Some (List.length (timelines s))
  /\ exists es,
       line_of (List.length (timelines s)) s' = Some (es, false)
       /\ forall i water p,
            nth_error (_waters r) i = Some water ->
            oxygen_position water s = Some p ->
            exists d,
              3.5 <= d < 5
              /\ In (explode_tween water p d i) es
              /\ (p <> Vector3.zero ->
                  Vector3.length
                    (Vector3.multiplyScalar (Vector3.normalize p) d) = d).
Proof.
  cbv zeta.
  assert (Hreturned :
            returned (goToStage (JsNumber.Num 1) Example.stages) = true)
    by (vm_compute; reflexivity).
  assert (Hrefs : refs Example.stages
                  = Some (mkRefs 5 6 [7; 11; 15; 19; 23; 27] 31)%nat)
    by (vm_compute; reflexivity).
  assert (Hentropy : forall n, entropy Example.stages n = 0)
    by (intros n; vm_compute; reflexivity).
  assert (Hrandom : random_in_range Example.stages)
    by (intros n; rewrite Hentropy; lra).
  exact (@dissolution_throws_each_water_outward _ _ _ Hrefs Hrandom
           (unit_returned _ Hreturned)).
Defined.

End Schedules.


(* ================================================================= *)
(** ** stages.js: what stage 3 schedules *)

Section Hydrolysis.

Import Gsap Stages.

Local Open Scope R_scope.

Lemma skeleton_child_id (sc1 sc2 : Object3D.t) (i : nat)
    (w1 w2 : Object3D.t) (nm : string) :
  Object3D.skeleton sc1 = Object3D.skeleton sc2 ->
  Object3D.getObjectById i sc1 = Some w1 ->
  Object3D.getObjectById i sc2 = Some w2 ->
  option_map Object3D.id (child_named nm w1)
  = option_map Object3D.id (child_named nm w2).
Proof.
  intros Hsk H1 H2.
  pose proof (find_through
                (fun n => (Object3D.id n, Object3D.name n, Object3D.isMesh n,
                           Object3D.isGroup n,
                           map (fun c => (Object3D.id c, Object3D.name c))
                               (Object3D.children n)))
                (fun t => Nat.eqb (fst (fst (fst (fst t)))) i)
                (Object3D.traverse sc1) (Object3D.traverse sc2) Hsk) as Hfind.
  cbn [fst] in Hfind. unfold Object3D.getObjectById in H1, H2.
  rewrite H1, H2 in Hfind. cbn [option_map] in Hfind.
  injection Hfind as _ _ _ _ Hch.
  pose proof (find_through
                (fun c => (Object3D.id c, Object3D.name c))
                (fun t => String.eqb (snd t) nm)
                (Object3D.children w1) (Object3D.children w2) Hch) as Hc.
  cbn [snd] in Hc. unfold child_named, Object3D.find_child.
  destruct (find _ (Object3D.children w1));
    destruct (find _ (Object3D.children w2));
    cbn [option_map] in Hc |- *; try discriminate Hc; [| reflexivity].
  now injection Hc as -> _.
Qed.

Lemma shape_assign (s : State) (r : nat) (f : Object3D.t -> Object3D.t) :
  Object3D.keeps_shape f ->
  (Object3D.skeleton
     (scene
        (set_world (World.set_scene (Object3D.update r f (scene s)) (world s))
           s)),
   refs (set_world (World.set_scene (Object3D.update r f (scene s)) (world s))
           s),
   _freeWater
     (set_world (World.set_scene (Object3D.update r f (scene s)) (world s)) s))
  = (Object3D.skeleton (scene s), refs s, _freeWater s).
Proof.
  intros Hf. do 2 f_equal. unfold scene.
  cbn [world set_world World.scene World.set_scene].
  now apply skeleton_update.
Qed.

Ltac skeleton_side :=
  first [ intros; reflexivity | exact shape_assign
        | apply keeps_shape_material | intros ?; repeat split ].

Ltac quiet_side := first [ intros; reflexivity | exact I ].

Lemma quiet_assign (s : State) (r : nat) (f : Object3D.t -> Object3D.t) :
  True ->
  (timelines
     (set_world (World.set_scene (Object3D.update r f (scene s)) (world s)) s),
   _activeTimeline
     (set_world (World.set_scene (Object3D.update r f (scene s)) (world s)) s))
  = (timelines s, _activeTimeline s).
Proof. reflexivity. Qed.

(** What a statement leaves of the shape of the scene, of the timelines
    if it schedules nothing, and of the scene if it assigns nothing. *)
Ltac watch E :=
  match type of E with
  | ?c ?s = Ok ?a ?s1 =>
      let K := fresh "K" in
      let N := fresh "N" in
      assert (K : keeps (fun s => (Object3D.skeleton (scene s), refs s,
                                   _freeWater s)) c)
        by (frames Object3D.keeps_shape skeleton_side);
      pose proof (@keeps_ok _ _ _ _ _ _ _ _ K E) as N; cbv beta in N;
      clear K;
      try (let T := fresh "T" in
           assert (K : keeps (fun s => (timelines s, _activeTimeline s)) c)
             by (frames (fun _ : Object3D.t -> Object3D.t => True)
                        ltac:(first [ intros; reflexivity | exact quiet_assign
                                    | exact I ]));
           pose proof (@keeps_ok _ _ _ _ _ _ _ _ K E) as T; cbv beta in T;
           clear K);
      try (let C := fresh "C" in
           assert (K : keeps scene c)
             by (frames (fun _ : Object3D.t -> Object3D.t => False)
                        ltac:(intros; reflexivity));
           pose proof (@keeps_ok _ _ _ _ _ _ _ _ K E) as C; clear K)
  end.

Ltac advance H :=
  repeat (let a := fresh "a" in
          let s1 := fresh "s" in
          let E := fresh "E" in
          apply bind_ok in H; destruct H as (a & s1 & E & H);
          cbv beta in H; watch E;
          match type of a with unit => destruct a | _ => idtac end).

Lemma line_of_quiet (tl : nat) (s s1 : State) :
  (timelines s1, _activeTimeline s1) = (timelines s, _activeTimeline s) ->
  line_of tl s1 = line_of tl s.
Proof. intros H. injection H as H _. unfold line_of. now rewrite H. Qed.

Lemma shown_and_placed (i : nat) (p : Vector3.t) (n : Object3D.t) :
  Object3D.id n = i ->
  Object3D.position
    (Object3D.update i (Object3D.set_position p)
       (Object3D.update i (Object3D.set_visible true) n)) = p
  /\ Object3D.visible
       (Object3D.update i (Object3D.set_position p)
          (Object3D.update i (Object3D.set_visible true) n)) = true.
Proof.
  destruct n as [ni k nm q r sc v u cs]. cbn [Object3D.id]. intros ->.
  cbn [Object3D.update]. rewrite Nat.eqb_refl.
  cbn [Object3D.set_visible Object3D.update]. rewrite Nat.eqb_refl.
  split; reflexivity.
Qed.

(** The children of the timeline of stage 3, for the oxygen [o] and the
    hydrogen [h] of the first water, the glow material [glowMat], the
    tween [al_part] on the material of the Al if it has one, and the
    oxygen [fwo] of the free water if it has one. *)
Lemma stageHydrolysis_schedule (s s' : State) (r : Refs) (w0 : nat)
    (water o h : Object3D.t) :
  refs s = Some r -> nth_error (_waters r) 0 = Some w0 ->
  Object3D.getObjectById w0 (scene s) = Some water ->
  child_named "O" water = Some o -> child_named "H1" water = Some h ->
  stageHydrolysis s = Ok tt s' ->
  _activeTimeline s' = Some (List.length (timelines s))
  /\ exists glowMat al_part fw fwn,
       line_of (List.length (timelines s)) s'
       = Some ([ To (tween CameraPosition (xyz 3.5 1.5 3) 1.5 "power2.inOut") 0;
                 To (mkTween ControlsTarget (xyz 1.5 0 0) 1.5 "power2.inOut"
                             0 false (Some controls_update)) 0;
                 Call (set_glow (Object3D.id o) glowMat) 1.0;
                 To (tween (Mat (Materials.material_id glowMat))
                           [("emissiveIntensity", Abs 0.8)] 2.0 "power1.in")
                    1.2 ]
               ++ al_part
               ++ [ Call (detach (Object3D.id h)) 3.2;
                    Call (locate_free_oxygen
                            (option_map Object3D.id (child_named "O_free" fwn)))
                         3.3;
                    To (tween (ObjPosition (Object3D.id h))
                              [("x", Deferred freeOPos "x" 0.5);
                               ("y", Deferred freeOPos "y" 0.4);
                               ("z", Deferred freeOPos "z" 0)]
                              1.2 "power2.in") 3.4;
                    Call label_hydronium 4.8 ],
               false)
       /\ (al_part = []
           \/ exists m,
                al_part
                = [To (tween (Mat m) [("emissiveIntensity", Abs 0.3)] 1.5
                             "power1.in") 1.5])
       /\ _freeWater s' = Some fw
       /\ Object3D.getObjectById fw (scene s') = Some fwn
       /\ Object3D.visible fwn = true
       /\ Object3D.position fwn = Vector3.new 4.5 0.3 0.5.
Proof.
  intros Hrefs Hfirst Hwater HO HH Hrun. unfold stageHydrolysis in Hrun.
  advance Hrun.
  (* the values read *)
  assert (Hr7 : refs s7 = Some r) by congruence.
  apply the_ok in E7. destruct E7 as [E7 _].
  rewrite Hr7 in E7. cbn [option_map] in E7. injection E7 as <-.
  apply the_ok in E8. destruct E8 as [E8 _].
  rewrite Hfirst in E8. injection E8 as <-.
  apply deref_ok in E9. destruct E9 as [E9 ->].
  assert (Hsk : Object3D.skeleton (scene s9) = Object3D.skeleton (scene s))
    by congruence.
  pose proof (@skeleton_child_id _ _ _ _ _ "O" Hsk E9 Hwater) as HidO.
  pose proof (@skeleton_child_id _ _ _ _ _ "H1" Hsk E9 Hwater) as HidH.
  rewrite HO in HidO. rewrite HH in HidH.
  unfold child_named in HidO, HidH.
  destruct (Object3D.find_child _ a5) as [targetO |];
    [| discriminate HidO].
  destruct (Object3D.find_child _ a5) as [targetH |];
    [| discriminate HidH].
  cbn [option_map] in HidO, HidH. injection HidO as HidO.
  injection HidH as HidH. rewrite HidO, HidH in Hrun.
  advance Hrun. watch Hrun.
  (* the free water *)
  apply the_ok in E7. destruct E7 as [Efw _].
  assert (Hfw' : _freeWater s' = Some a3) by congruence.
  apply deref_ok in E20. destruct E20 as [E20 ->].
  assert (Hsc21 : scene s21 = scene s12) by congruence.
  assert (Hsc' : scene s' = scene s21) by congruence.
  assert (Hfwn : Object3D.visible a8 = true
                 /\ Object3D.position a8 = Vector3.new 4.5 0.3 0.5).
  { rewrite Hsc21 in E20.
    unfold assign, modify in E8, E10.
    injection E8 as E8. injection E10 as E10. rewrite <- E10, <- E8 in E20.
    unfold scene in E20.
    cbn [world set_world World.scene World.set_scene] in E20.
    rewrite !getObjectById_update in E20 by reflexivity.
    destruct (Object3D.getObjectById a3 (World.scene (world s10)))
      as [n0 |] eqn:En0; [| discriminate E20].
    cbn [option_map] in E20. injection E20 as <-.
    destruct (@shown_and_placed a3 (Vector3.new 4.5 0.3 0.5) n0
                (getObjectById_id _ _ En0)) as [Hp Hv].
    split; assumption. }
  (* the timeline *)
  assert (Htl12 : (timelines s12, _activeTimeline s12)
                  = (timelines s1, _activeTimeline s1)) by congruence.
  unfold gsap_timeline, bind, get, put, ret in E. injection E as <- <-.
  unfold modify in E0. injection E0 as <-.
  assert (L12 : line_of (List.length (timelines s)) s12 = Some ([], false)).
  { rewrite (@line_of_quiet _ _ _ Htl12). unfold line_of.
    cbn [timelines set_activeTimeline set_timelines].
    unfold Timeline. rewrite nth_error_app2, Nat.sub_diag by apply Nat.le_refl.
    reflexivity. }
  destruct (@line_of_tl_to _ _ _ _ _ _ _ _ E11 L12) as [L13 F13].
  destruct (@line_of_tl_to _ _ _ _ _ _ _ _ E12 L13) as [L14 F14].
  rewrite <- (@line_of_quiet _ _ _ T11) in L14.
  destruct (@line_of_tl_call _ _ _ _ _ _ _ _ E14 L14) as [L16 F16].
  destruct (@line_of_tl_to _ _ _ _ _ _ _ _ E15 L16) as [L17 F17].
  rewrite <- (@line_of_quiet _ _ _ T12) in L17.
  rewrite <- (@line_of_quiet _ _ _ T13) in L17.
  assert (L20 : exists al_part,
            line_of (List.length (timelines s)) s20
            = Some ((((([] ++ [To (tween CameraPosition (xyz 3.5 1.5 3) 1.5
                                         "power2.inOut") 0])
                       ++ [To (mkTween ControlsTarget (xyz 1.5 0 0) 1.5
                                       "power2.inOut" 0 false
                                       (Some controls_update)) 0])
                      ++ [Call (set_glow (Object3D.id o) a4) 1.0])
                     ++ [To (tween (Mat (Materials.material_id a4))
                                   [("emissiveIntensity", Abs 0.8)] 2.0
                                   "power1.in") 1.2])
                    ++ al_part, false)
            /\ (al_part = []
                \/ exists m,
                     al_part
                     = [To (tween (Mat m) [("emissiveIntensity", Abs 0.3)] 1.5
                                  "power1.in") 1.5])
            /\ _activeTimeline s20 = _activeTimeline s19).
  { destruct (Object3D.material a7) as [alMat |].
    - destruct (@line_of_tl_to _ _ _ _ _ _ _ _ E18 L17) as [L20 F20].
      injection F20 as _ F20 _ _.
      eexists. split; [exact L20 |]. split; [| exact F20].
      right. eexists. reflexivity.
    - unfold ret in E18. injection E18 as <-.
      exists []. rewrite app_nil_r. split; [exact L17 |].
      split; [now left | reflexivity]. }
  destruct L20 as (al_part & L20 & Hal & F20).
  destruct (@line_of_tl_call _ _ _ _ _ _ _ _ E19 L20) as [L21 F21].
  destruct (@line_of_tl_call _ _ _ _ _ _ _ _ E21 L21) as [L23 F23].
  destruct (@line_of_tl_to _ _ _ _ _ _ _ _ E22 L23) as [L24 F24].
  destruct (@line_of_tl_call _ _ _ _ _ _ _ _ Hrun L24) as [L' F'].
  split.
  { injection Htl12 as _ Hact12.
    injection F13 as _ F13 _ _. injection F14 as _ F14 _ _.
    injection F16 as _ F16 _ _. injection F17 as _ F17 _ _.
    injection F21 as _ F21 _ _. injection F23 as _ F23 _ _.
    injection F24 as _ F24 _ _. injection F' as _ F' _ _.
    injection T11 as _ T11. injection T12 as _ T12. injection T13 as _ T13.
    rewrite F', F24, F23, F21, F20, T13, T12, F17, F16, T11, F14, F13, Hact12.
    reflexivity. }
  exists a4, al_part, a3, a8.
  split.
  { rewrite L'. cbn [app]. rewrite <- !app_assoc. reflexivity. }
  split; [exact Hal |]. split; [exact Hfw' |].
  split; [now rewrite Hsc' |]. exact Hfwn.
Qed.

(** X23. What stage 3 schedules when the first water has its oxygen [o]
    and its hydrogen [h] (its children named [O] and [H1]).  When
    [goToStage(3)] returns, the free water is shown at (4.5, 0.3, 0.5),
    the new timeline is the active one, it is not killed, and its children
    are, in this order: the tweens of the camera and of the controls'
    target at 0; at 1.0 s the closure that puts a glow material on [o],
    and at 1.2 s the tween of that material; the tween of the material of
    the Al at 1.5 s, if the Al has a material; at 3.2 s the closure that
    detaches [h]; at 3.3 s the closure that locates the oxygen of the free
    water; at 3.4 s the tween that moves [h] next to it; at 4.8 s the
    closure that relabels the free water. *)
Theorem hydrolysis_detaches_h1_of_first_water
    (s s' : State) (r : Refs) (w0 : nat) (water o h : Object3D.t)
    (Hrefs : refs s = Some r)
    (Hfirst : nth_error (_waters r) 0 = Some w0)
    (Hwater : Object3D.getObjectById w0 (scene s) = Some water)
    (Hoxygen : child_named "O" water = Some o)
    (Hhydrogen : child_named "H1" water = Some h)
    (Hrun : goToStage (JsNumber.Num 3) s = Ok tt s') :
  _activeTimeline s' = Some (List.length (timelines s))
  /\ exists glowMat al_part fw fwn,
       line_of (List.length (timelines s)) s'
       = Some ([ To (tween CameraPosition (xyz 3.5 1.5 3) 1.5 "power2.inOut") 0;
                 To (mkTween ControlsTarget (xyz 1.5 0 0) 1.5 "power2.inOut"
                             0 false (Some controls_update)) 0;
                 Call (set_glow (Object3D.id o) glowMat) 1.0;
                 To (tween (Mat (Materials.material_id glowMat))
                           [("emissiveIntensity", Abs 0.8)] 2.0 "power1.in")
                    1.2 ]
               ++ al_part
               ++ [ Call (detach (Object3D.id h)) 3.2;
                    Call (locate_free_oxygen
                            (option_map Object3D.id (child_named "O_free" fwn)))
                         3.3;
                    To (tween (ObjPosition (Object3D.id h))
                              [("x", Deferred freeOPos "x" 0.5);
                               ("y", Deferred freeOPos "y" 0.4);
                               ("z", Deferred freeOPos "z" 0)]
                              1.2 "power2.in") 3.4;
                    Call label_hydronium 4.8 ],
               false)
       /\ (al_part = []
           \/ exists m,
                al_part
                = [To (tween (Mat m) [("emissiveIntensity", Abs 0.3)] 1.5
                             "power1.in") 1.5])
       /\ _freeWater s' = Some fw
       /\ Object3D.getObjectById fw (scene s') = Some fwn
       /\ Object3D.visible fwn = true
       /\ Object3D.position fwn = Vector3.new 4.5 0.3 0.5.
Proof.
  unfold goToStage in Hrun.
  apply bind_ok in Hrun. destruct Hrun as ([] & s1 & Ekill & Hrun).
  apply bind_ok in Hrun. destruct Hrun as ([] & s2 & Edesc & Hrun).
  cbn [stageFunction] in Hrun.
  assert (H1 : (scene s1, refs s1) = (scene s, refs s)).
  { exact (@keeps_ok _ _ _ (fun s => (scene s, refs s)) _ _ _ _
             (@frame_killActiveTimeline _ (fun s => (scene s, refs s))
                ltac:(reflexivity) ltac:(reflexivity)) Ekill). }
  assert (H2 : (scene s2, refs s2, timelines s2)
               = (scene s1, refs s1, timelines s1)).
  { unfold updateDescription, modify in Edesc. injection Edesc as <-.
    destruct (stageDesc s1); reflexivity. }
  assert (Hlen : List.length (timelines s1) = List.length (timelines s)).
  { rewrite (killActiveTimeline_returns s) in Ekill. injection Ekill as <-.
    apply killActiveTimeline_length. }
  injection H1 as Hsc1 Hr1. injection H2 as Hsc2 Hr2 Htl2.
  rewrite <- Hlen, <- Htl2.
  apply (@stageHydrolysis_schedule s2 s' r w0 water o h);
    try assumption; congruence.
Qed.

Lemma hydrolysis_detaches_h1_of_first_water_witness :
  let s := Example.stages in
  let s' := state_of (goToStage (JsNumber.Num 3) s) in
  exists water o h,
    Object3D.getObjectById 7%nat (scene s) = Some water
    /\ child_named "O" water = Some o
    /\ child_named "H1" water = Some h
    /\ (
  _activeTimeline s' = Some (List.length (timelines s))
  /\ exists glowMat al_part fw fwn,
       line_of (List.length (timelines s)) s'
       = Some ([ To (tween CameraPosition (xyz 3.5 1.5 3) 1.5 "power2.inOut") 0;
                 To (mkTween ControlsTarget (xyz 1.5 0 0) 1.5 "power2.inOut"
                             0 false (Some controls_update)) 0;
                 Call (set_glow (Object3D.id o) glowMat) 1.0;
                 To (tween (Mat (Materials.material_id glowMat))
                           [("emissiveIntensity", Abs 0.8)] 2.0 "power1.in")
                    1.2 ]
               ++ al_part
               ++ [ Call (detach (Object3D.id h)) 3.2;
                    Call (locate_free_oxygen
                            (option_map Object3D.id (child_named "O_free" fwn)))
                         3.3;
                    To (tween (ObjPosition (Object3D.id h))
                              [("x", Deferred freeOPos "x" 0.5);
                               ("y", Deferred freeOPos "y" 0.4);
                               ("z", Deferred freeOPos "z" 0)]
                              1.2 "power2.in") 3.4;
                    Call label_hydronium 4.8 ],
               false)
       /\ (al_part = []
           \/ exists m,
                al_part
                = [To (tween (Mat m) [("emissiveIntensity", Abs 0.3)] 1.5
                             "power1.in") 1.5])
       /\ _freeWater s' = Some fw
       /\ Object3D.getObjectById fw (scene s') = Some fwn
       /\ Object3D.visible fwn = true
       /\ Object3D.position fwn = Vector3.new 4.5 0.3 0.5).
Proof.
  cbv zeta.
  assert (Hreturned :
            returned (goToStage (JsNumber.Num 3) Example.stages) = true)
    by (vm_compute; reflexivity).
  assert (Hrefs : refs Example.stages
                  = Some (mkRefs 5 6 [7; 11; 15; 19; 23; 27] 31)%nat)
    by (vm_compute; reflexivity).
  assert (Hatoms :
            option_map
              (fun w => (match child_named "O" w with
                         | Some _ => true | None => false end,
                         match child_named "H1" w with
                         | Some _ => true | None => false end))
              (Object3D.getObjectById 7%nat (scene Example.stages))
            = Some (true, true)) by (vm_compute; reflexivity).
  destruct (Object3D.getObjectById 7%nat (scene Example.stages))
    as [water |] eqn:Ewater; [| discriminate Hatoms].
  cbn [option_map] in Hatoms.
  destruct (child_named "O" water) as [o |] eqn:Eo; [| discriminate Hatoms].
  destruct (child_named "H1" water) as [h |] eqn:Eh; [| discriminate Hatoms].
  exists water, o, h.
  split; [reflexivity |]. split; [exact Eo |]. split; [exact Eh |].
  exact (@hydrolysis_detaches_h1_of_first_water _ _ _ 7%nat water o h
           Hrefs eq_refl Ewater Eo Eh (unit_returned _ Hreturned)).
Defined.

End Hydrolysis.


(* ================================================================= *)
(** ** Module-level state: what the handlers read and what writes it *)

Section ModuleVariables.

(** Two observations that a projection tells apart are different. *)
Lemma told_apart {B C} (proj : B -> C) (b1 b2 : B) (c1 c2 : C) :
  proj b1 = c1 -> proj b2 = c2 -> c1 <> c2 -> b1 <> b2.
Proof. intros <- <- Hc Hb. apply Hc. now rewrite Hb. Qed.

(** *** main.js and interaction.js *)

(** The page after a pointerdown on the first oxygen is a page the user
    can get to. *)
Lemma selected_reachable :
  Main.reachable (Example.ray_through [(Example.oxygen1, 1%R)]) Example.main
    (exec (Main.dispatch (Example.ray_through [(Example.oxygen1, 1%R)])
             (Main.Interact (Interaction.PointerDown Example.click)))
          Example.main).
Proof. apply Main.reach_event, Main.reach_init. Qed.

(** On the page as loaded, the click on the button of stage 1 logs its
    line; were [currentStage] 1 there, it would log nothing. *)
Lemma stage_click_reads_currentStage :
  exists ray e,
    depends_on (Main.reachable ray Example.main) (Main.effects ray e)
               Main.set_currentStage.
Proof.
  exists (Example.ray_through []), (Main.StageClick 1),
         Example.main, (JsNumber.Num 1).
  split; [apply Main.reach_init |].
  apply (@told_apart _ _ (fun b => snd (fst b)) _ _
           [] ["→ Stage 1: Dissolution"]);
    [vm_compute; reflexivity | vm_compute; reflexivity | discriminate].
Qed.

(** With the first oxygen selected, the close button puts its material
    back; were [previousSelection] null there, the oxygen would keep the
    highlight. *)
Lemma close_click_reads_previousSelection :
  exists ray e,
    depends_on (Main.reachable ray Example.main) (Main.effects ray e)
               Main.set_previousSelection.
Proof.
  exists (Example.ray_through [(Example.oxygen1, 1%R)]),
         (Main.Interact Interaction.CloseClick).
  eexists. exists None.
  split; [apply selected_reachable |].
  apply (@told_apart _ _
           (fun b =>
              match Object3D.getObjectById Example.oxygen1
                      (World.scene (fst (fst (fst (fst (snd b)))))) with
              | Some o => option_map Materials.material_id (Object3D.material o)
              | None => None
              end)
           _ _ (Some 5%nat) (Some 6%nat));
    [vm_compute; reflexivity | vm_compute; reflexivity | discriminate].
Qed.

(** The same for [previousMaterial]: were it null, nothing would be put
    back. *)
Lemma close_click_reads_previousMaterial :
  exists ray e,
    depends_on (Main.reachable ray Example.main) (Main.effects ray e)
               Main.set_previousMaterial.
Proof.
  exists (Example.ray_through [(Example.oxygen1, 1%R)]),
         (Main.Interact Interaction.CloseClick).
  eexists. exists None.
  split; [apply selected_reachable |].
  apply (@told_apart _ _
           (fun b =>
              match Object3D.getObjectById Example.oxygen1
                      (World.scene (fst (fst (fst (fst (snd b)))))) with
              | Some o => option_map Materials.material_id (Object3D.material o)
              | None => None
              end)
           _ _ (Some 5%nat) (Some 6%nat));
    [vm_compute; reflexivity | vm_compute; reflexivity | discriminate].
Qed.

(** The handlers write the three variables. *)
Lemma stage_click_writes_currentStage :
  exists ray e,
    mutates (Main.reachable ray Example.main) (Main.dispatch ray e)
            Main.currentStage.
Proof.
  exists (Example.ray_through []), (Main.StageClick 1), Example.main.
  split; [apply Main.reach_init |].
  apply (@told_apart _ _ (fun n => n) _ _ (JsNumber.Num 1) (JsNumber.Num 0));
    [vm_compute; reflexivity | reflexivity | discriminate].
Qed.

Lemma pointerdown_writes_previousSelection :
  exists ray e,
    mutates (Main.reachable ray Example.main) (Main.dispatch ray e)
            Main.previousSelection.
Proof.
  exists (Example.ray_through [(Example.oxygen1, 1%R)]),
         (Main.Interact (Interaction.PointerDown Example.click)), Example.main.
  split; [apply Main.reach_init |].
  apply (@told_apart _ _ (fun n => n) _ _ (Some Example.oxygen1) None);
    [vm_compute; reflexivity | reflexivity | discriminate].
Qed.

Lemma pointerdown_writes_previousMaterial :
  exists ray e,
    mutates (Main.reachable ray Example.main) (Main.dispatch ray e)
            Main.previousMaterial.
Proof.
  exists (Example.ray_through [(Example.oxygen1, 1%R)]),
         (Main.Interact (Interaction.PointerDown Example.click)), Example.main.
  split; [apply Main.reach_init |].
  apply (@told_apart _ _ (option_map Materials.material_id) _ _
           (Some 6%nat) None);
    [vm_compute; reflexivity | reflexivity | discriminate].
Qed.

(** *** stages.js *)

Import Gsap Stages.

(** The state of stages.js is its surroundings and its variables. *)
Lemma stages_behaviour_function (e : Event) (s1 s2 : State) :
  surroundings s1 = surroundings s2 ->
  module_variables s1 = module_variables s2 ->
  behaviour e s1 = behaviour e s2.
Proof.
  destruct s1, s2. unfold surroundings, module_variables.
  cbn [world stageDesc timelines entropy savedPositions savedMaterials refs
       _freeWater _activeTimeline allLabels].
  intros Hs Hv. injection Hs as -> -> -> ->.
  injection Hv as -> -> -> -> -> ->. reflexivity.
Qed.

Lemma stage1_reachable :
  reachable Example.stages (exec (goToStage (JsNumber.Num 1)) Example.stages).
Proof. apply reach_goToStage, reach_init. Qed.

Lemma stage3_reachable :
  reachable Example.stages (exec (goToStage (JsNumber.Num 3)) Example.stages).
Proof. apply reach_goToStage, reach_init. Qed.

(** Stage 0 tweens the 26 objects of the complex to their saved
    positions; were [savedPositions] empty, it would schedule three tweens
    only. *)
Lemma goToStage_reads_savedPositions :
  exists e,
    depends_on (reachable Example.stages) (effects e) set_savedPositions.
Proof.
  exists (call_goToStage (JsNumber.Num 0)), Example.stages, [].
  split; [apply reach_init |].
  apply (@told_apart _ _
           (fun b => map (fun t : Timeline => List.length (entries t))
                         (snd (fst (snd b))))
           _ _ [3%nat] [29%nat]);
    [vm_compute; reflexivity | vm_compute; reflexivity | discriminate].
Qed.

(** Stage 0 gives each mesh the material [savedMaterials] holds for it:
    another entry for the first oxygen, another material on it. *)
Lemma goToStage_reads_savedMaterials :
  exists e,
    depends_on (reachable Example.stages) (effects e) set_savedMaterials.
Proof.
  exists (call_goToStage (JsNumber.Num 0)), Example.stages,
         [(Example.oxygen1, Materials.highlightMaterial)].
  split; [apply reach_init |].
  apply (@told_apart _ _
           (fun b =>
              match Object3D.getObjectById Example.oxygen1
                      (World.scene (fst (fst (fst (snd b))))) with
              | Some o => option_map Materials.material_id (Object3D.material o)
              | None => None
              end)
           _ _ (Some 5%nat) (Some 6%nat));
    [vm_compute; reflexivity | vm_compute; reflexivity | discriminate].
Qed.

(** Without the references or the free water, stage 0 throws. *)
Lemma goToStage_reads_refs :
  exists e, depends_on (reachable Example.stages) (effects e) set_refs.
Proof.
  exists (call_goToStage (JsNumber.Num 0)), Example.stages, None.
  split; [apply reach_init |].
  apply (@told_apart _ _ fst _ _ false true);
    [vm_compute; reflexivity | vm_compute; reflexivity | discriminate].
Qed.

Lemma goToStage_reads_freeWater :
  exists e, depends_on (reachable Example.stages) (effects e) set_freeWater.
Proof.
  exists (call_goToStage (JsNumber.Num 0)), Example.stages, None.
  split; [apply reach_init |].
  apply (@told_apart _ _ fst _ _ false true);
    [vm_compute; reflexivity | vm_compute; reflexivity | discriminate].
Qed.

(** While stage 1 plays, [goToStage] kills its timeline; were
    [_activeTimeline] null there, the timeline would play on. *)
Lemma goToStage_reads_activeTimeline :
  exists e,
    depends_on (reachable Example.stages) (effects e) set_activeTimeline.
Proof.
  exists (call_goToStage (JsNumber.Num 0)).
  eexists. exists None.
  split; [apply stage1_reachable |].
  apply (@told_apart _ _
           (fun b => map (@killed Callback) (snd (fst (snd b))))
           _ _ [false; false] [true; false]);
    [vm_compute; reflexivity | vm_compute; reflexivity | discriminate].
Qed.

Lemma goToStage_writes_activeTimeline :
  exists e, mutates (reachable Example.stages) (dispatch e) _activeTimeline.
Proof.
  exists (call_goToStage (JsNumber.Num 0)), Example.stages.
  split; [apply reach_init |].
  apply (@told_apart _ _ (fun n => n) _ _ (Some 0%nat) None);
    [vm_compute; reflexivity | vm_compute; reflexivity | discriminate].
Qed.

(** The last closure of stage 3 pushes the label it creates. *)
Lemma closure_writes_allLabels :
  exists e, mutates (reachable Example.stages) (dispatch e) allLabels.
Proof.
  exists (call_closure 0 label_hydronium). eexists.
  split; [apply stage3_reachable |].
  apply (@told_apart _ _ (fun n => n) _ _ [54; 55]%nat [54%nat]);
    [vm_compute; reflexivity | vm_compute; reflexivity | discriminate].
Qed.

(** [initStages] fills the two maps and sets the references and the free
    water. *)
Lemma initStages_writes :
  let init := initStages (Main.complex Example.built) (Main.al Example.built)
                (Main.waters Example.built) (Main.bondsGroup Example.built) in
  mutates (eq Example.stages_loaded) init savedPositions
  /\ mutates (eq Example.stages_loaded) init savedMaterials
  /\ mutates (eq Example.stages_loaded) init refs
  /\ mutates (eq Example.stages_loaded) init _freeWater.
Proof.
  cbv zeta. repeat split; exists Example.stages_loaded; (split; [reflexivity |]).
  - apply (@told_apart _ _ (@List.length _) _ _ 26%nat 0%nat);
      [vm_compute; reflexivity | reflexivity | discriminate].
  - apply (@told_apart _ _ (@List.length _) _ _ 19%nat 0%nat);
      [vm_compute; reflexivity | reflexivity | discriminate].
  - apply (@told_apart _ _ (fun r => match r with Some _ => true | None => false end)
             _ _ true false);
      [vm_compute; reflexivity | reflexivity | discriminate].
  - apply (@told_apart _ _ (fun n => n) _ _ (Some 50%nat) None);
      [vm_compute; reflexivity | reflexivity | discriminate].
Qed.

End ModuleVariables.

(** C6, as the code has it.  Besides their DOM references the modules
    keep mutable module-level state: [currentStage] in main.js;
    [previousSelection], [previousMaterial], the pointer vector and the
    raycaster in interaction.js; [savedPositions], [savedMaterials], the
    references set by [initStages], [_freeWater] and [_activeTimeline] in
    stages.js; [allLabels] in labels.js.

    What a listener of main.js or interaction.js does is a function of
    its event, the world and the DOM, and [currentStage],
    [previousSelection] and [previousMaterial]; the pointer and the ray,
    written before they are read, do not matter.  What [goToStage] and the
    closures it schedules do is a function of the world, the stage
    description, GSAP's timelines, [Math.random] and the variables of
    stages.js and [allLabels]; the state of stages.js holds nothing else,
    so this half says that the list is complete.

    None of the variables can be dropped from the list.  In a state the
    page reaches, another value of [currentStage], [previousSelection] or
    [previousMaterial] alone changes what a listener does to the world or
    the console; in a state stages.js reaches after [initStages], another
    value of [savedPositions], [savedMaterials], the references,
    [_freeWater] or [_activeTimeline] alone changes whether [goToStage]
    returns or what it leaves in the world and on the timelines.

    And the code writes them: the listeners [currentStage],
    [previousSelection] and [previousMaterial]; [goToStage]
    [_activeTimeline]; the label closure of stage 3 [allLabels];
    [initStages] the two maps, the references and [_freeWater]. *)
Theorem handler_behaviour_function_of_module_state :
  (forall ray e s1 s2,
      Main.surroundings s1 = Main.surroundings s2 ->
      Main.module_variables s1 = Main.module_variables s2 ->
      Main.behaviour ray e s1 = Main.behaviour ray e s2)
  /\ (forall e s1 s2,
        Stages.surroundings s1 = Stages.surroundings s2 ->
        Stages.module_variables s1 = Stages.module_variables s2 ->
        Stages.behaviour e s1 = Stages.behaviour e s2)
  /\ ((exists ray e,
          depends_on (Main.reachable ray Example.main) (Main.effects ray e)
                     Main.set_currentStage)
      /\ (exists ray e,
            depends_on (Main.reachable ray Example.main) (Main.effects ray e)
                       Main.set_previousSelection)
      /\ (exists ray e,
            depends_on (Main.reachable ray Example.main) (Main.effects ray e)
                       Main.set_previousMaterial)
      /\ (exists e,
            depends_on (Stages.reachable Example.stages) (Stages.effects e)
                       Stages.set_savedPositions)
      /\ (exists e,
            depends_on (Stages.reachable Example.stages) (Stages.effects e)
                       Stages.set_savedMaterials)
      /\ (exists e,
            depends_on (Stages.reachable Example.stages) (Stages.effects e)
                       Stages.set_refs)
      /\ (exists e,
            depends_on (Stages.reachable Example.stages) (Stages.effects e)
                       Stages.set_freeWater)
      /\ (exists e,
            depends_on (Stages.reachable Example.stages) (Stages.effects e)
                       Stages.set_activeTimeline))
  /\ ((exists ray e,
          mutates (Main.reachable ray Example.main) (Main.dispatch ray e)
                  Main.currentStage)
      /\ (exists ray e,
            mutates (Main.reachable ray Example.main) (Main.dispatch ray e)
                    Main.previousSelection)
      /\ (exists ray e,
            mutates (Main.reachable ray Example.main) (Main.dispatch ray e)
                    Main.previousMaterial)
      /\ (exists e,
            mutates (Stages.reachable Example.stages) (Stages.dispatch e)
                    Stages._activeTimeline)
      /\ (exists e,
            mutates (Stages.reachable Example.stages) (Stages.dispatch e)
                    Stages.allLabels)
      /\ (let init :=
            Stages.initStages (Main.complex Example.built)
              (Main.al Example.built) (Main.waters Example.built)
              (Main.bondsGroup Example.built) in
          mutates (eq Example.stages_loaded) init Stages.savedPositions
          /\ mutates (eq Example.stages_loaded) init Stages.savedMaterials
          /\ mutates (eq Example.stages_loaded) init Stages.refs
          /\ mutates (eq Example.stages_loaded) init Stages._freeWater)).
Proof.
  split; [exact main_behaviour_function |].
  split; [exact stages_behaviour_function |].
  split.
  - split; [exact stage_click_reads_currentStage |].
    split; [exact close_click_reads_previousSelection |].
    split; [exact close_click_reads_previousMaterial |].
    split; [exact goToStage_reads_savedPositions |].
    split; [exact goToStage_reads_savedMaterials |].
    split; [exact goToStage_reads_refs |].
    split; [exact goToStage_reads_freeWater |].
    exact goToStage_reads_activeTimeline.
  - split; [exact stage_click_writes_currentStage |].
    split; [exact pointerdown_writes_previousSelection |].
    split; [exact pointerdown_writes_previousMaterial |].
    split; [exact goToStage_writes_activeTimeline |].
    split; [exact closure_writes_allLabels |].
    exact initStages_writes.
Qed.

(** Two pages that differ in what the console holds behave alike, and so
    do two states of stages.js that are the same. *)
Lemma handler_behaviour_function_of_module_state_witness :
  let s2 := Main.console_log "ready" Example.main in
  Main.surroundings Example.main = Main.surroundings s2
  /\ Main.module_variables Example.main = Main.module_variables s2
  /\ Main.behaviour (Example.ray_through []) (Main.StageClick 1) Example.main
     = Main.behaviour (Example.ray_through []) (Main.StageClick 1) s2.
Proof.
  cbv zeta. split; [reflexivity |]. split; [reflexivity |].
  apply (proj1 handler_behaviour_function_of_module_state); reflexivity.
Defined.
